(** * howm: the window-arrangement core of [howm.c]

    A shallow embedding of the client store, the workspace manager, the
    layout engine and the focus controller of [src/howm.c].

    Clients live in a heap addressed by pointers; [NULL] is never
    allocated.  Every C function that writes a global variable is a
    function from [State] to [res State]; functions that only read are
    functions from [State] to [res] of their result.  Requests sent to the
    X server and the lines printed by [workspace_info] are appended to the
    [out] component of the state.

    What C leaves undefined is a fault of the embedding: dereferencing a
    null or freed pointer, dividing by zero, indexing [workspaces] or
    [layout_handler] outside their bounds.  The one exception is the local
    array [windows] of [update_focused_client], whose accesses are
    recorded index by index and never fault.

    A loop that follows [next] links is a fixpoint on a fuel that exceeds
    the number of allocated clients; on a list that ends the fuel is never
    used up, and on a cyclic list, where the program itself would not
    return, the outcome is [Fail OutOfFuel]. *)

From stdpp Require Import base decidable option numbers list gmap fin_maps.

Local Open Scope Z_scope.

(** ** Machine integers *)

(** [unsigned int] arithmetic wraps modulo [2^32]. *)
Definition UINT_MOD : Z := 4294967296.
Definition to_uint (z : Z) : Z := z mod UINT_MOD.

(** ** Pointers, clients, workspaces *)

Abbreviation ptr := nat.
Definition NULL : ptr := 0%nat.

(** [struct Client]; the geometry members [x], [y], [w], [h] are called
    [pos_x], [pos_y], [width], [height] here. *)
Record Client := mkClient {
  next : ptr;
  pos_x : Z; pos_y : Z; width : Z; height : Z;
  is_fullscreen : bool; is_floating : bool; is_transient : bool;
  win : Z
}.

(** [struct Workspace]; its members carry the prefix [ws_] because the
    globals of the same names are fields of [State]. *)
Record Workspace := mkWorkspace {
  ws_layout : Z;
  ws_head : ptr; ws_prev_foc : ptr; ws_current : ptr
}.

(** The layout enumeration. *)
Definition ZOOM : Z := 0.
Definition GRID : Z := 1.
Definition HSTACK : Z := 2.
Definition VSTACK : Z := 3.
Definition FIBONACCI : Z := 4.
Definition END_LAYOUT : Z := 5.

(** Requests to the X server, and the report lines of [workspace_info]. *)
Inductive xcmd :=
| ConfigureGeometry (w x y wd ht : Z)
| ConfigureBorderWidth (w bw : Z)
| ConfigureStackAbove (w : option Z)
| ChangeBorderPixel (w colour : Z)
| ChangeEventMask (w : Z)
| MapWindow (w : Z)
| UnmapWindow (w : Z)
| DeleteActiveWindow
| SetActiveWindow (w : Z)
| SetInputFocus (w : Z)
| InfoLine (w n l : Z) (is_cw : bool).

(** The file-scope variables of [howm.c], the [workspaces] array of
    [config.h], the heap of clients and the output produced so far. *)
Record State := mkState {
  head : ptr; prev_foc : ptr; current : ptr;
  current_workspace : Z; prev_workspace : Z;
  layout : Z; prev_layout : Z;
  screen_height : Z; screen_width : Z;
  border_focus : Z; border_unfocus : Z;
  workspaces : list Workspace;
  heap : gmap nat Client;
  out : list xcmd
}.

(** The macros of [config.h] (not part of the sources at hand) are
    parameters of the development. *)
Class Config := mkConfig {
  WORKSPACES : Z;
  GAP : Z;
  BORDER_PX : Z;
  ZOOM_GAP : bool;
  FOCUS_MOUSE : bool
}.

(** ** Outcomes *)

Inductive fault :=
| BadPointer    (* a null or freed pointer is dereferenced *)
| DivByZero     (* integer division by zero *)
| OutOfBounds   (* an array of the program is indexed outside its bounds *)
| OutOfFuel     (* a walk runs longer than any walk of an acyclic list *)
| Diverges      (* a counting loop of the program never ends *)
| BadAlloc      (* calloc hands out memory that is in use *)
| Exited        (* the program ends through err() *).

Inductive res (A : Type) :=
| Ret (a : A)
| Fail (f : fault).
Arguments Ret {A} a.
Arguments Fail {A} f.

Definition bind {A B : Type} (m : res A) (k : A → res B) : res B :=
  match m with
  | Ret a => k a
  | Fail f => Fail f
  end.

Notation "'let*' x := m 'in' k" := (bind m (fun x => k))
  (at level 10, x pattern, m at level 100, k at level 200).

(** ** State updates *)

Definition set_focus (cur prev : ptr) (s : State) : State :=
  mkState (head s) prev cur (current_workspace s) (prev_workspace s)
          (layout s) (prev_layout s) (screen_height s) (screen_width s)
          (border_focus s) (border_unfocus s) (workspaces s) (heap s) (out s).

Definition set_head (hd : ptr) (s : State) : State :=
  mkState hd (prev_foc s) (current s) (current_workspace s) (prev_workspace s)
          (layout s) (prev_layout s) (screen_height s) (screen_width s)
          (border_focus s) (border_unfocus s) (workspaces s) (heap s) (out s).

Definition set_heap (h : gmap nat Client) (s : State) : State :=
  mkState (head s) (prev_foc s) (current s) (current_workspace s)
          (prev_workspace s) (layout s) (prev_layout s) (screen_height s)
          (screen_width s) (border_focus s) (border_unfocus s) (workspaces s)
          h (out s).

Definition set_workspaces (wss : list Workspace) (s : State) : State :=
  mkState (head s) (prev_foc s) (current s) (current_workspace s)
          (prev_workspace s) (layout s) (prev_layout s) (screen_height s)
          (screen_width s) (border_focus s) (border_unfocus s) wss
          (heap s) (out s).

Definition set_prev_workspace (i : Z) (s : State) : State :=
  mkState (head s) (prev_foc s) (current s) (current_workspace s) i
          (layout s) (prev_layout s) (screen_height s) (screen_width s)
          (border_focus s) (border_unfocus s) (workspaces s) (heap s) (out s).

Definition set_layout (l pl : Z) (s : State) : State :=
  mkState (head s) (prev_foc s) (current s) (current_workspace s)
          (prev_workspace s) l pl (screen_height s) (screen_width s)
          (border_focus s) (border_unfocus s) (workspaces s) (heap s) (out s).

(** Loading slot [i]: the four mirrored globals and the active index. *)
Definition set_live (ws : Workspace) (i : Z) (s : State) : State :=
  mkState (ws_head ws) (ws_prev_foc ws) (ws_current ws) i (prev_workspace s)
          (ws_layout ws) (prev_layout s) (screen_height s) (screen_width s)
          (border_focus s) (border_unfocus s) (workspaces s) (heap s) (out s).

Definition emit (cs : list xcmd) (s : State) : State :=
  mkState (head s) (prev_foc s) (current s) (current_workspace s)
          (prev_workspace s) (layout s) (prev_layout s) (screen_height s)
          (screen_width s) (border_focus s) (border_unfocus s) (workspaces s)
          (heap s) (out s ++ cs).

(** ** Memory *)

Definition load (h : gmap nat Client) (p : ptr) : res Client :=
  match h !! p with
  | Some c => Ret c
  | None => Fail BadPointer
  end.

Definition set_next (n : ptr) (c : Client) : Client :=
  mkClient n (pos_x c) (pos_y c) (width c) (height c)
           (is_fullscreen c) (is_floating c) (is_transient c) (win c).

Definition set_win (w : Z) (c : Client) : Client :=
  mkClient (next c) (pos_x c) (pos_y c) (width c) (height c)
           (is_fullscreen c) (is_floating c) (is_transient c) w.

Definition set_float_trans (b : bool) (c : Client) : Client :=
  mkClient (next c) (pos_x c) (pos_y c) (width c) (height c)
           (is_fullscreen c) b b (win c).

(** [p->next = n]. *)
Definition store_next (p n : ptr) (s : State) : res State :=
  let* c := load (heap s) p in
  Ret (set_heap (<[p := set_next n c]> (heap s)) s).

(** What [calloc] returns: every member zero. *)
Definition zero_client : Client :=
  mkClient NULL 0 0 0 0 false false false 0.

(** The macro [FFT]; its body names the variable [c] of the place of use,
    whatever its argument is. *)
Definition FFT (c : Client) : bool :=
  is_transient c || is_floating c || is_fullscreen c.

(** A walk along [next] links of an acyclic list visits every allocated
    client at most once: loops over a list get this much fuel. *)
Definition fuel (s : State) : nat := S (size (heap s)).
Arguments fuel : simpl never.

(** ** Client store: [prev_client] *)

Fixpoint prev_client_loop (k : nat) (h : gmap nat Client) (c p : ptr)
  : res ptr :=
  match k with
  | O => Fail OutOfFuel
  | S k' =>
      let* pc := load h p in
      if decide (next pc ≠ NULL ∧ next pc ≠ c)
      then prev_client_loop k' h c (next pc)
      else Ret p
  end.

Definition prev_client (s : State) (c : ptr) : res ptr :=
  if decide (c = NULL) then Ret NULL
  else
    let* hd := load (heap s) (head s) in
    if decide (next hd = NULL) then Ret NULL
    else prev_client_loop (fuel s) (heap s) c (head s).

Section Howm.

Context {cfg : Config}.

(** ** Workspace manager: [save_workspace], [select_workspace] *)

Definition save_workspace (i : Z) (s : State) : res State :=
  if decide (i < 0 ∨ i >= WORKSPACES) then Ret s
  else
    match workspaces s !! Z.to_nat i with
    | Some _ =>
        Ret (set_workspaces
               (<[Z.to_nat i :=
                    mkWorkspace (layout s) (head s) (prev_foc s) (current s)]>
                  (workspaces s)) s)
    | None => Fail OutOfBounds
    end.

(** [workspaces[i]] as an rvalue. *)
Definition slot (s : State) (i : Z) : res Workspace :=
  if decide (i < 0) then Fail OutOfBounds
  else
    match workspaces s !! Z.to_nat i with
    | Some ws => Ret ws
    | None => Fail OutOfBounds
    end.

Definition select_workspace (i : Z) (s : State) : res State :=
  let* s1 := save_workspace (current_workspace s) s in
  let* ws := slot s1 i in
  Ret (set_live ws i s1).

(** ** [win_to_client] *)

(** The inner loop: from [c], stop at the first client whose window is
    [wn], or at the end of the list ([found] is [c ≠ NULL] on exit). *)
Fixpoint find_win (k : nat) (h : gmap nat Client) (wn : Z) (c : ptr)
  : res ptr :=
  if decide (c = NULL) then Ret NULL
  else
    match k with
    | O => Fail OutOfFuel
    | S k' =>
        let* cl := load h c in
        if decide (wn = win cl) then Ret c else find_win k' h wn (next cl)
    end.

(** The outer loop, [k] iterations from [w] on; yields the state, [c] and
    the final value of [w]. *)
Fixpoint win_to_client_loop (k : nat) (w : Z) (wn : Z) (s : State)
  : res (State * ptr * Z) :=
  match k with
  | O => Ret (s, NULL, w)
  | S k' =>
      let* s1 := select_workspace w s in
      let* c := find_win (fuel s1) (heap s1) wn (head s1) in
      if decide (c = NULL) then win_to_client_loop k' (w + 1) wn s1
      else Ret (s1, c, w + 1)
  end.

Definition win_to_client (wn : Z) (s : State) : res (State * ptr) :=
  let cw := current_workspace s in
  let* (s1, c, w) := win_to_client_loop (Z.to_nat WORKSPACES) 0 wn s in
  if decide (cw ≠ w - 1)
  then let* s2 := select_workspace cw s1 in Ret (s2, c)
  else Ret (s1, c).

(** ** [workspace_info] *)

Fixpoint count_clients (k : nat) (h : gmap nat Client) (c : ptr) (n : Z)
  : res Z :=
  if decide (c = NULL) then Ret n
  else
    match k with
    | O => Fail OutOfFuel
    | S k' => let* cl := load h c in count_clients k' h (next cl) (n + 1)
    end.

Fixpoint workspace_info_loop (k : nat) (w cw : Z) (s : State)
  : res (State * Z) :=
  match k with
  | O => Ret (s, w)
  | S k' =>
      let* s1 := select_workspace w s in
      let* n := count_clients (fuel s1) (heap s1) (head s1) 0 in
      workspace_info_loop k' (w + 1) cw
        (emit [InfoLine w n (layout s1)
                 (bool_decide (current_workspace s1 = cw))] s1)
  end.

Definition workspace_info (s : State) : res State :=
  let cw := current_workspace s in
  let* (s1, w) := workspace_info_loop (Z.to_nat WORKSPACES) 0 cw s in
  if decide (cw ≠ w - 1) then select_workspace cw s1 else Ret s1.

(** ** Layout engine *)

(** [xcb_move_resize]: the four values are stored in an array of
    [unsigned int] before the gap is applied. *)
Definition xcb_move_resize (wn : Z) (draw_gap : bool) (x y wd ht : Z)
  : xcmd :=
  if draw_gap
  then ConfigureGeometry wn
         (to_uint (to_uint x + GAP)) (to_uint (to_uint y + GAP))
         (to_uint (to_uint wd - 2 * GAP))
         (to_uint (to_uint ht - 2 * GAP))
  else ConfigureGeometry wn (to_uint x) (to_uint y) (to_uint wd) (to_uint ht).

(** Conversions between [int] and [bool] at a call. *)
Definition bool_of_int (z : Z) : bool := negb (z =? 0).
Definition int_of_bool (b : bool) : Z := if b then 1 else 0.

Fixpoint get_non_tff_count_loop (k : nat) (h : gmap nat Client) (c : ptr)
  (n : Z) : res Z :=
  if decide (c = NULL) then Ret n
  else
    match k with
    | O => Fail OutOfFuel
    | S k' =>
        let* cl := load h c in
        if FFT cl then Ret n
        else get_non_tff_count_loop k' h (next cl) (n + 1)
    end.

Definition get_non_tff_count (s : State) : res Z :=
  get_non_tff_count_loop (fuel s) (heap s) (head s) 0.

Definition grid (s : State) : res State := Ret s.

Fixpoint zoom_loop (k : nat) (c : ptr) (s : State) : res State :=
  if decide (c = NULL) then Ret s
  else
    match k with
    | O => Fail OutOfFuel
    | S k' =>
        let* cl := load (heap s) c in
        zoom_loop k' (next cl)
          (if FFT cl then s
           else emit [xcb_move_resize (win cl) (ZOOM_GAP) 0 0
                        (screen_width s) (screen_height s)] s)
    end.

Definition zoom (s : State) : res State := zoom_loop (fuel s) (head s) s.

Fixpoint fibonacci_loop (k : nat) (h : gmap nat Client) (c : ptr)
  : res unit :=
  if decide (c = NULL) then Ret tt
  else
    match k with
    | O => Fail OutOfFuel
    | S k' => let* cl := load h c in fibonacci_loop k' h (next cl)
    end.

Definition fibonacci (s : State) : res State :=
  let* _ := fibonacci_loop (fuel s) (heap s) (head s) in Ret s.

(** The loop of [stack] over the clients after the head: [k] iterations. *)
Fixpoint stack_loop (k : nat) (vert : bool) (client_span : Z) (c : ptr)
  (client_x client_y : Z) (s : State) : res State :=
  match k with
  | O => Ret s
  | S k' =>
      let* cl := load (heap s) c in
      if vert
      then stack_loop k' vert client_span (next cl) client_x
             (client_y + (BORDER_PX + client_span))
             (emit [xcb_move_resize (win cl) false GAP client_y
                      (screen_width s - 2 * (BORDER_PX + GAP))
                      (client_span - GAP - BORDER_PX)] s)
      else stack_loop k' vert client_span (next cl)
             (client_x + (BORDER_PX + client_span)) client_y
             (emit [xcb_move_resize (win cl) false client_x GAP
                      (client_span - GAP - BORDER_PX)
                      (screen_height s - 2 * (BORDER_PX + GAP))] s)
  end.

(** [stack].  The two calls for the head client hand [xcb_move_resize] the
    arguments in the order they are written in the source: the third
    argument lands in [draw_gap], the literal [true] in [y]. *)
Definition stack (s : State) : res State :=
  let vert := bool_decide (layout s = VSTACK) in
  let span := if vert then screen_height s else screen_width s in
  let* n := get_non_tff_count s in
  if decide (n = 0) then Fail DivByZero
  else
    let client_span := Z.quot span n - 2 * BORDER_PX in
    let* hd := load (heap s) (head s) in
    let s1 :=
      if vert
      then emit [xcb_move_resize (win hd) (bool_of_int BORDER_PX) 0
                   (int_of_bool true)
                   (screen_width s - 2 * BORDER_PX) client_span] s
      else emit [xcb_move_resize (win hd) (bool_of_int 0) BORDER_PX
                   (int_of_bool true)
                   client_span (screen_height s - 2 * BORDER_PX)] s in
    let client_y := if vert then 0 + (BORDER_PX + Z.quot span n) else 0 in
    let client_x := if vert then 0 else 0 + (BORDER_PX + Z.quot span n) in
    if decide (next hd = NULL) then Ret s1
    else stack_loop (Z.to_nat (n - 1)) vert client_span (next hd)
           client_x client_y s1.

(** The table [layout_handler]. *)
Definition layout_handler (i : Z) : option (State → res State) :=
  if decide (i = ZOOM) then Some zoom
  else if decide (i = GRID) then Some grid
  else if decide (i = HSTACK) then Some stack
  else if decide (i = VSTACK) then Some stack
  else if decide (i = FIBONACCI) then Some fibonacci
  else None.

(** The index [head->next ? layout : ZOOM] of [arrange_windows]. *)
Definition selected_layout (s : State) : res Z :=
  let* hd := load (heap s) (head s) in
  Ret (if decide (next hd = NULL) then ZOOM else layout s).

Definition arrange_windows (s : State) : res State :=
  if decide (head s = NULL) then Ret s
  else
    let* i := selected_layout s in
    match layout_handler i with
    | Some handler => let* s1 := handler s in workspace_info s1
    | None => Fail OutOfBounds
    end.

(** ** Focus and stacking controller: [update_focused_client] *)

(** The branches that decide [current] and [prev_foc] once the list is
    known to be non-empty. *)
Definition resolve_focus (c : ptr) (s : State) : res State :=
  if decide (c = prev_foc s) then
    let cur := if decide (prev_foc s = NULL) then head s else prev_foc s in
    let s1 := set_focus cur (prev_foc s) s in
    let* p := prev_client s1 cur in
    Ret (set_focus cur p s1)
  else if decide (c = current s) then Ret s
  else Ret (set_focus c (current s) s).

(** The three [unsigned int] counters, the variable-length array [windows]
    and, for the record, every index the array is used at.  An element that
    was never written holds no determined value ([None]); a write outside
    the array leaves the array as it is and a read outside it yields no
    determined value either. *)
Record bands := mkBands {
  b_all : Z; b_fullscreen : Z; b_float_trans : Z;
  b_windows : list (option Z);
  b_used : list Z
}.

(** The counting loop.  The statement [if (!c->is_fullscreen) float_trans++]
    is not governed by [if (FFT(c))]: it runs for every client. *)
Fixpoint count_bands (k : nat) (h : gmap nat Client) (c : ptr)
  (all fullscreen float_trans : Z) : res (Z * Z * Z) :=
  if decide (c = NULL) then Ret (all, fullscreen, float_trans)
  else
    match k with
    | O => Fail OutOfFuel
    | S k' =>
        let* cl := load h c in
        count_bands k' h (next cl) (to_uint (all + 1))
          (if FFT cl then to_uint (fullscreen + 1) else fullscreen)
          (if is_fullscreen cl then float_trans
           else to_uint (float_trans + 1))
    end.

(** [windows[i] = wn]. *)
Definition windows_write (i wn : Z) (b : bands) : bands :=
  mkBands (b_all b) (b_fullscreen b) (b_float_trans b)
          (<[Z.to_nat i := Some wn]> (b_windows b)) (b_used b ++ [i]).

(** [windows[i]] as an rvalue. *)
Definition windows_read (i : Z) (b : bands) : option Z :=
  default None (b_windows b !! Z.to_nat i).

(** The loop that sets borders and fills the bands. *)
Fixpoint place_bands (k : nat) (c : ptr) (b : bands) (s : State)
  : res (State * bands) :=
  if decide (c = NULL) then Ret (s, b)
  else
    match k with
    | O => Fail OutOfFuel
    | S k' =>
        let* cl := load (heap s) c in
        let* bw :=
          if is_fullscreen cl then Ret 0
          else let* hd := load (heap s) (head s) in
               Ret (if decide (next hd = NULL) then 0 else BORDER_PX) in
        let s1 :=
          emit [ConfigureBorderWidth (win cl) (to_uint bw);
                ChangeBorderPixel (win cl)
                  (if decide (c = current s) then border_focus s
                   else border_unfocus s)] s in
        let b1 :=
          if decide (c = current s) then b
          else if is_fullscreen cl then
            let f := to_uint (b_fullscreen b - 1) in
            windows_write f (win cl)
              (mkBands (b_all b) f (b_float_trans b) (b_windows b) (b_used b))
          else if FFT cl then
            let f := to_uint (b_float_trans b - 1) in
            windows_write f (win cl)
              (mkBands (b_all b) (b_fullscreen b) f (b_windows b) (b_used b))
          else
            let a := to_uint (b_all b - 1) in
            windows_write a (win cl)
              (mkBands a (b_fullscreen b) (b_float_trans b) (b_windows b)
                       (b_used b)) in
        place_bands k' (next cl) b1 s1
    end.

(** The raising loop: [k] iterations from [float_trans] on. *)
Fixpoint raise_loop (k : nat) (float_trans : Z) (b : bands) (s : State)
  : State * bands :=
  match k with
  | O => (s, b)
  | S k' =>
      let i := to_uint (b_all b - float_trans) in
      raise_loop k' (float_trans + 1)
        (mkBands (b_all b) (b_fullscreen b) (b_float_trans b) (b_windows b)
                 (b_used b ++ [i]))
        (emit [ConfigureStackAbove (windows_read i b)] s)
  end.

(** The part of [update_focused_client] between the focus decision and the
    property update: counting, band placement and raising.  The raising
    loop runs while [float_trans <= all]; with [all] at the largest
    [unsigned int] this never becomes false. *)
Definition restack (s : State) : res (State * bands) :=
  let* (all, fullscreen, float_trans) :=
    count_bands (fuel s) (heap s) (head s) 0 0 0 in
  let b0 := mkBands all fullscreen float_trans
                    (replicate (Z.to_nat all) None) [] in
  let* cur := load (heap s) (current s) in
  let b1 :=
    windows_write (if is_floating cur || is_transient cur then 0
                   else fullscreen) (win cur) b0 in
  let* hd := load (heap s) (head s) in
  let b2 :=
    mkBands (b_all b1)
            (to_uint (b_fullscreen b1 + (if FFT hd then 1 else 0)))
            (b_float_trans b1) (b_windows b1) (b_used b1) in
  let* (s1, b3) := place_bands (fuel s) (head s) b2 s in
  if decide (b_all b3 = UINT_MOD - 1) then Fail Diverges
  else Ret (raise_loop (Z.to_nat (b_all b3 + 1)) 0 b3 s1).

Definition update_focused_client (c : ptr) (s : State) : res State :=
  if decide (head s = NULL) then
    Ret (emit [DeleteActiveWindow] (set_focus NULL NULL s))
  else
    let* s1 := resolve_focus c s in
    let* (s2, _) := restack s1 in
    let* cur := load (heap s2) (current s2) in
    arrange_windows
      (emit [SetActiveWindow (win cur); SetInputFocus (win cur)] s2).

(** ** Client store: creation and removal *)

(** [calloc]: the environment hands out the address [a]; it is null, or it
    is memory not in use, which comes zeroed. *)
Definition calloc (a : ptr) (s : State) : res State :=
  if decide (a = NULL) then Ret s
  else
    match heap s !! a with
    | Some _ => Fail BadAlloc
    | None => Ret (set_heap (<[a := zero_client]> (heap s)) s)
    end.

Definition client_from_window (wn : Z) (a : ptr) (s : State)
  : res (State * ptr) :=
  let* s1 := calloc a s in
  let c := a in
  let* t := prev_client s1 (head s1) in
  if decide (c = NULL) then Fail Exited
  else
    let* s2 :=
      if decide (head s1 = NULL) then Ret (set_head c s1)
      else if decide (t ≠ NULL) then store_next t c s1
      else store_next (head s1) c s1 in
    let* cl := load (heap s2) c in
    Ret (emit [ChangeEventMask wn]
           (set_heap (<[c := set_win wn cl]> (heap s2)) s2), c).

(** A value of type [Client **]: null, the address of the global [head],
    or the address of the member [next] of a client. *)
Inductive link :=
| LinkNull
| LinkHead
| LinkNext (p : ptr).

(** [&q->next]: [next] is the first member of [struct Client], so the
    address computed from a null [q] is the null pointer. *)
Definition link_of_next (q : ptr) : link :=
  if decide (q = NULL) then LinkNull else LinkNext q.

Definition read_link (s : State) (t : link) : res ptr :=
  match t with
  | LinkNull => Fail BadPointer
  | LinkHead => Ret (head s)
  | LinkNext p => let* cl := load (heap s) p in Ret (next cl)
  end.

Definition write_link (t : link) (v : ptr) (s : State) : res State :=
  match t with
  | LinkNull => Fail BadPointer
  | LinkHead => Ret (set_head v s)
  | LinkNext p => store_next p v s
  end.

(** The inner loop of [remove_client], from [temp] on; yields the final
    [temp] and [found]. *)
Fixpoint find_link (k : nat) (s : State) (c : ptr) (temp : link)
  : res (link * bool) :=
  match temp with
  | LinkNull => Ret (LinkNull, false)
  | _ =>
      match k with
      | O => Fail OutOfFuel
      | S k' =>
          let* q := read_link s temp in
          if decide (q = c) then Ret (temp, true)
          else find_link k' s c (link_of_next q)
      end
  end.

(** The outer loop of [remove_client]: [k] iterations from [w] on, each
    selecting workspace [cw]. *)
Fixpoint remove_client_loop (k : nat) (w cw : Z) (c : ptr) (temp : link)
  (s : State) : res (State * link * Z) :=
  match k with
  | O => Ret (s, temp, w)
  | S k' =>
      let* s1 := select_workspace cw s in
      let* (t, found) := find_link (fuel s1) s1 c LinkHead in
      if (found : bool) then Ret (s1, t, w + 1)
      else remove_client_loop k' (w + 1) cw c t s1
  end.

Definition free (c : ptr) (s : State) : res State :=
  let* _ := load (heap s) c in
  Ret (set_heap (delete c (heap s)) s).

Definition remove_client (c : ptr) (s : State) : res State :=
  let cw := current_workspace s in
  let* (s1, temp, w) :=
    remove_client_loop (Z.to_nat WORKSPACES) 0 cw c LinkNull s in
  let* cl := load (heap s1) c in
  let* s2 := write_link temp (next cl) s1 in
  let* s3 :=
    if decide (c = prev_foc s2)
    then let* p := prev_client s2 c in Ret (set_focus (current s2) p s2)
    else Ret s2 in
  let s4 := if decide (c = head s3) then set_head NULL s3 else s3 in
  let* upd :=
    if decide (c = current s4) then Ret true
    else let* hd := load (heap s4) (head s4) in
         Ret (bool_decide (next hd = NULL)) in
  let* s5 :=
    if (upd : bool) then update_focused_client (prev_foc s4) s4 else Ret s4 in
  let* s6 := free c s5 in
  let* s7 :=
    if decide (cw = w - 1) then arrange_windows s6
    else select_workspace cw s6 in
  workspace_info s7.

(** ** Event handlers and commands *)

(** A map request carries the window, the reply to the attribute query
    ([None]: no reply; [Some o]: its [override_redirect]), the window the
    new one is transient for ([0]: none) and what [calloc] will return. *)
Definition map_request_event (wn : Z) (wa : option bool) (transient : Z)
  (a : ptr) (s : State) : res State :=
  match wa with
  | None => Ret s
  | Some true => Ret s
  | Some false =>
      let* (s1, known) := win_to_client wn s in
      if decide (known ≠ NULL) then Ret s1
      else
        let* (s2, c) := client_from_window wn a s1 in
        let* cl := load (heap s2) c in
        let s3 :=
          set_heap (<[c := set_float_trans (bool_of_int transient) cl]>
                      (heap s2)) s2 in
        let* s4 := arrange_windows s3 in
        let* cl4 := load (heap s4) c in
        update_focused_client c (emit [MapWindow (win cl4)] s4)
  end.

Definition destroy_event (wn : Z) (s : State) : res State :=
  let* (s1, c) := win_to_client wn s in
  if decide (c ≠ NULL) then remove_client c s1 else Ret s1.

Definition enter_event (wn : Z) (s : State) : res State :=
  if FOCUS_MOUSE then
    let* (s1, c) := win_to_client wn s in
    if decide (c ≠ NULL) then update_focused_client c s1 else Ret s1
  else Ret s.

(** The loops of [change_workspace] that map and unmap a whole list. *)
Fixpoint visibility_loop (k : nat) (mk : Z → xcmd) (c : ptr) (s : State)
  : res State :=
  if decide (c = NULL) then Ret s
  else
    match k with
    | O => Fail OutOfFuel
    | S k' =>
        let* cl := load (heap s) c in
        visibility_loop k' mk (next cl) (emit [mk (win cl)] s)
    end.

(** In [arg->i == current_workspace] and [arg->i == layout] an [int] meets
    an [unsigned int]: the [int] is converted to [unsigned int]. *)
Definition change_workspace (i : Z) (s : State) : res State :=
  if decide (i >= WORKSPACES ∨ i < 0 ∨ to_uint i = current_workspace s)
  then Ret s
  else
    let s1 := set_prev_workspace (current_workspace s) s in
    let* s2 := select_workspace i s1 in
    let* s3 := visibility_loop (fuel s2) MapWindow (head s2) s2 in
    let* s4 := select_workspace (prev_workspace s3) s3 in
    let* s5 := visibility_loop (fuel s4) UnmapWindow (head s4) s4 in
    let* s6 := select_workspace i s5 in
    let* s7 := arrange_windows s6 in
    let* s8 := update_focused_client (current s7) s7 in
    workspace_info s8.

Definition change_layout (i : Z) (s : State) : res State :=
  if decide (to_uint i = layout s ∨ i >= END_LAYOUT ∨ i < 0) then Ret s
  else
    let s1 := set_layout i (layout s) s in
    let* s2 := arrange_windows s1 in
    let* s3 := update_focused_client (current s2) s2 in
    workspace_info s3.

(** ** Runs *)

Inductive event :=
| MapRequest (wn : Z) (wa : option bool) (transient : Z) (a : ptr)
| DestroyNotify (wn : Z)
| EnterNotify (wn : Z)
| ChangeWorkspace (i : Z)
| ChangeLayout (i : Z).

Definition handle (e : event) (s : State) : res State :=
  match e with
  | MapRequest wn wa transient a => map_request_event wn wa transient a s
  | DestroyNotify wn => destroy_event wn s
  | EnterNotify wn => enter_event wn s
  | ChangeWorkspace i => change_workspace i s
  | ChangeLayout i => change_layout i s
  end.

Fixpoint run (es : list event) (s : State) : res State :=
  match es with
  | [] => Ret s
  | e :: es' => let* s1 := handle e s in run es' s1
  end.

(** The state at start-up: no client, every static variable zero (the
    slots of [workspaces] included), a screen of the given size. *)
Definition initial_state (sw sh : Z) : State :=
  mkState NULL NULL NULL 0 0 0 0 sh sw 0 0
          (replicate (Z.to_nat WORKSPACES) (mkWorkspace 0 NULL NULL NULL))
          ∅ [].

(** ** Well-formed client lists *)

(** [lseg h p l q]: following [next] from [p] visits exactly the clients
    [l], all allocated and non-null, and arrives at [q]. *)
Fixpoint lseg (h : gmap nat Client) (p : ptr) (l : list ptr) (q : ptr)
  : Prop :=
  match l with
  | [] => p = q
  | a :: l' =>
      p = a ∧ a ≠ NULL ∧ ∃ c, h !! a = Some c ∧ lseg h (next c) l' q
  end.

(** A list that ends: the [next] link of its last client is null. *)
Definition is_list (h : gmap nat Client) (p : ptr) (l : list ptr) : Prop :=
  lseg h p l NULL.

(** The live globals as a workspace record, and the workspaces as they
    are once the live state is flushed into the active slot. *)
Definition live (s : State) : Workspace :=
  mkWorkspace (layout s) (head s) (prev_foc s) (current s).

Definition view (s : State) : list Workspace :=
  <[Z.to_nat (current_workspace s) := live s]> (workspaces s).

(** The active index is a workspace and the array has [WORKSPACES] slots. *)
Definition ws_ok (s : State) : Prop :=
  0 ≤ current_workspace s < WORKSPACES ∧
  length (workspaces s) = Z.to_nat WORKSPACES.

(** The head pointer of every workspace. *)
Definition heads (s : State) : list ptr := ws_head <$> view s.

(** [moved i s s']: from [s] to [s'] the heap and the workspaces (as seen
    through [view]) are the same, the active index has become [i]. *)
Definition moved (i : Z) (s s' : State) : Prop :=
  ws_ok s' ∧ heap s' = heap s ∧ view s' = view s ∧
  current_workspace s' = i ∧ prev_workspace s' = prev_workspace s.

(** The store invariant: null is not allocated, the list of every
    workspace ends, and no client is in the lists of two workspaces. *)
Definition store_ok (s : State) : Prop :=
  ws_ok s ∧
  heap s !! NULL = None ∧
  (∀ i p, heads s !! i = Some p → ∃ l, is_list (heap s) p l) ∧
  (∀ i j p q lp lq x,
     i ≠ j → heads s !! i = Some p → heads s !! j = Some q →
     is_list (heap s) p lp → is_list (heap s) q lq → x ∈ lp → x ∉ lq).

(** [c] is in no workspace's list. *)
Definition unlisted (s : State) (c : ptr) : Prop :=
  ∀ i p l, heads s !! i = Some p → is_list (heap s) p l → c ∉ l.

(** The link that holds the client following the clients [l1] of the live
    list: the global [head], or the [next] member of the last of [l1]. *)
Definition link_after (l1 : list ptr) : link :=
  match last l1 with
  | None => LinkHead
  | Some p => LinkNext p
  end.

(** The outcome is a result or a fault of the program, not the model
    giving up a walk. *)
Definition fueled {A : Type} (r : res A) : Prop := r ≠ Fail OutOfFuel.

(** The outcome is a result that satisfies [Q], or a fault of the program
    other than the model giving up a walk. *)
Definition sound {A : Type} (Q : A → Prop) (r : res A) : Prop :=
  match r with
  | Ret a => Q a
  | Fail f => f ≠ OutOfFuel
  end.

(** The list of every workspace ends. *)
Definition lists_end (s : State) : Prop :=
  ∀ i p, heads s !! i = Some p → ∃ l, is_list (heap s) p l.

(** The layout of a workspace can run on its list [l]: with two clients
    or more the index is one of the table, and a stack layout finds the
    head tiled. *)
Definition layout_ok (h : gmap nat Client) (ws : Workspace) (l : list ptr)
  : Prop :=
  (2 ≤ length l)%nat →
  0 ≤ ws_layout ws < END_LAYOUT ∧
  (ws_layout ws = HSTACK ∨ ws_layout ws = VSTACK →
   ∃ c, h !! ws_head ws = Some c ∧ FFT c = false).

(** A workspace that can be shown: its list ends, its layout can run, and
    its focused client is one of the list. *)
Definition ws_safe (h : gmap nat Client) (ws : Workspace) : Prop :=
  ∃ l, is_list h (ws_head ws) l ∧ layout_ok h ws l ∧
       (l ≠ [] → ws_current ws ∈ l).

(** A state in which every workspace can be shown; the counters of type
    [unsigned int] and [int] are wide enough for the clients and the
    workspaces there are. *)
Definition safe (s : State) : Prop :=
  ws_ok s ∧ WORKSPACES < UINT_MOD ∧
  Z.of_nat (size (heap s)) < UINT_MOD - 1 ∧
  ∀ i ws, view s !! i = Some ws → ws_safe (heap s) ws.

(** No repeated client, and the last client's [next] is null. *)
Definition acyclic_null_terminated (h : gmap nat Client) (p : ptr) : Prop :=
  ∃ l, lseg h p l NULL ∧ NoDup l ∧
       ∀ t, last l = Some t → ∃ c, h !! t = Some c ∧ next c = NULL.

End Howm.

(** ** Sample configuration and states *)

(** Five workspaces, no gap, no border, focus follows the pointer. *)
Definition cfg0 : Config := mkConfig 5 0 0 false true.

(** A 1000x900 screen at start-up. *)
Definition start0 : State := @initial_state cfg0 1000 900.

Definition map_tiled (wn : Z) (a : ptr) : event :=
  MapRequest wn (Some false) 0 a.

(** Three tiled clients at addresses 1, 2, 3, linked in that order. *)
Definition abc_state : State :=
  mkState 1%nat NULL NULL 0 0 0 0 900 1000 0 0 []
          (<[1%nat := set_win 101 (set_next 2%nat zero_client)]>
             (<[2%nat := set_win 102 (set_next 3%nat zero_client)]>
                (<[3%nat := set_win 103 zero_client]> ∅))) [].

(** Workspace 0 active with clients 1 and 2 (client 2 focused, client 1
    focused before it), client 3 alone on workspace 1: the state after
    mapping windows 101 and 102, switching to workspace 1, mapping window
    103 and switching back, with the output dropped. *)
Definition two_ws_state : State :=
  mkState 1%nat 1%nat 2%nat 0 1 0 0 900 1000 0 0
          [mkWorkspace 0 1%nat 1%nat 2%nat; mkWorkspace 0 3%nat NULL 3%nat;
           mkWorkspace 0 NULL NULL NULL; mkWorkspace 0 NULL NULL NULL;
           mkWorkspace 0 NULL NULL NULL]
          (<[1%nat := set_win 101 (set_next 2%nat zero_client)]>
             (<[2%nat := set_win 102 zero_client]>
                (<[3%nat := set_win 103 zero_client]> ∅))) [].


(** * The commands bound to keys, and [remove_from_workspace] *)

(** ** Conversion to [int] *)

Definition INT_MAX : Z := 2147483647.

(** An [unsigned int] stored into the member [i] of an [Arg], which is an
    [int]: a value above [INT_MAX] comes out reduced modulo [2^32]. *)
Definition to_int (z : Z) : Z :=
  if decide (to_uint z ≤ INT_MAX) then to_uint z else to_uint z - UINT_MOD.

Section Commands.

Context {cfg : Config}.

(** ** Client store: [remove_from_workspace] *)

Definition remove_from_workspace (c : ptr) (s : State) : res State :=
  let s1 := if decide (head s = c) then set_head NULL s else s in
  let* p := prev_client s1 c in
  let* cl := load (heap s1) c in
  store_next p (next cl) s1.

(** ** Reordering: [move_down], [move_up] *)

Definition move_down (s : State) : res State :=
  let* prev := prev_client s (current s) in
  let* cur := load (heap s) (current s) in
  let n := if decide (next cur ≠ NULL) then next cur else head s in
  if decide (prev = NULL) then Ret s
  else
    let* s1 :=
      if decide (head s = current s) then Ret (set_head n s)
      else store_next prev (next cur) s in
    let* cur1 := load (heap s1) (current s1) in
    let* v :=
      if decide (next cur1 ≠ NULL)
      then let* cn := load (heap s1) n in Ret (next cn)
      else Ret n in
    let* s2 := store_next (current s1) v s1 in
    let* cn2 := load (heap s2) n in
    let* cur2 := load (heap s2) (current s2) in
    let* s3 :=
      if decide (next cn2 = next cur2) then store_next n (current s2) s2
      else Ret (set_head (current s2) s2) in
    arrange_windows s3.

(** The loop of [move_up]: from [pp], stop at the client whose [next] is
    [p], or at the end of the list. *)
Fixpoint move_up_loop (k : nat) (h : gmap nat Client) (p pp : ptr)
  : res ptr :=
  if decide (pp = NULL) then Ret NULL
  else
    match k with
    | O => Fail OutOfFuel
    | S k' =>
        let* c := load h pp in
        if decide (next c ≠ p) then move_up_loop k' h p (next c) else Ret pp
    end.

Definition move_up (s : State) : res State :=
  let* p := prev_client s (current s) in
  if decide (p = NULL) then Ret s
  else
    let* cp := load (heap s) p in
    let* pp :=
      if decide (next cp ≠ NULL)
      then move_up_loop (fuel s) (heap s) p (head s)
      else Ret NULL in
    let* s1 :=
      if decide (pp ≠ NULL) then store_next pp (current s) s
      else if decide (head s = current s)
           then let* cur := load (heap s) (current s) in
                Ret (set_head (next cur) s)
           else Ret (set_head (current s) s) in
    let* cur1 := load (heap s1) (current s1) in
    let* s2 :=
      store_next p (if decide (next cur1 = head s1) then current s1
                    else next cur1) s1 in
    let* cur2 := load (heap s2) (current s2) in
    let* s3 :=
      store_next (current s2)
        (if decide (next cur2 = head s2) then NULL else p) s2 in
    arrange_windows s3.

(** ** Moving the focus: [focus_next], [focus_prev] *)

Definition focus_next (s : State) : res State :=
  if decide (current s = NULL) then Ret s
  else
    let* hd := load (heap s) (head s) in
    if decide (next hd = NULL) then Ret s
    else
      let* cur := load (heap s) (current s) in
      update_focused_client
        (if decide (next cur ≠ NULL) then next cur else head s) s.

Definition focus_prev (s : State) : res State :=
  if decide (current s = NULL) then Ret s
  else
    let* hd := load (heap s) (head s) in
    if decide (next hd = NULL) then Ret s
    else
      let s1 := set_focus (current s) (current s) s in
      let* p := prev_client s1 (prev_foc s1) in
      update_focused_client p s1.

(** ** Workspace and layout by one step, and back to the last one *)

(** The operands of [?:] and of [%] are brought to [unsigned int]. *)
Definition previous_workspace (s : State) : res State :=
  change_workspace
    (to_int (if decide (current_workspace s < 1)
             then to_uint (WORKSPACES - 1)
             else to_uint (current_workspace s - 1))) s.

Definition last_workspace (s : State) : res State :=
  change_workspace (to_int (prev_workspace s)) s.

Definition next_workspace (s : State) : res State :=
  if decide (to_uint WORKSPACES = 0) then Fail DivByZero
  else
    change_workspace
      (to_int (to_uint (current_workspace s + 1) mod to_uint WORKSPACES)) s.

Definition previous_layout (s : State) : res State :=
  change_layout
    (to_int (if decide (layout s < 1) then to_uint (END_LAYOUT - 1)
             else to_uint (layout s - 1))) s.

Definition next_layout (s : State) : res State :=
  change_layout (to_int (to_uint (layout s + 1) mod to_uint END_LAYOUT)) s.

Definition last_layout (s : State) : res State :=
  change_layout (to_int (prev_layout s)) s.

(** ** Runs of events and commands *)

(** What the main loop dispatches: an event of the X server, or, through
    [key_press_event], one of the functions a key is bound to. *)
Inductive action :=
| Event (e : event)
| MoveDown
| MoveUp
| FocusNext
| FocusPrev
| NextWorkspace
| PreviousWorkspace
| LastWorkspace
| NextLayout
| PreviousLayout
| LastLayout.

Definition perform (a : action) (s : State) : res State :=
  match a with
  | Event e => handle e s
  | MoveDown => move_down s
  | MoveUp => move_up s
  | FocusNext => focus_next s
  | FocusPrev => focus_prev s
  | NextWorkspace => next_workspace s
  | PreviousWorkspace => previous_workspace s
  | LastWorkspace => last_workspace s
  | NextLayout => next_layout s
  | PreviousLayout => previous_layout s
  | LastLayout => last_layout s
  end.

Fixpoint play (acts : list action) (s : State) : res State :=
  match acts with
  | [] => Ret s
  | a :: acts' => let* s1 := perform a s in play acts' s1
  end.

(** ** Describing lists and output *)

(** The state with the live globals written to the active slot, which is
    what the first [select_workspace] of any handler does. *)
Definition flush (s : State) : State := set_workspaces (view s) s.

(** The first client of [l] whose window is [wn], null if there is none. *)
Fixpoint first_with_window (h : gmap nat Client) (wn : Z) (l : list ptr)
  : ptr :=
  match l with
  | [] => NULL
  | a :: l' =>
      if decide (win <$> h !! a = Some wn) then a
      else first_with_window h wn l'
  end.

(** The report of [workspace_info] for the workspaces [wss] with their
    lists, numbered from [w] on. *)
Fixpoint info_lines (cw w : Z) (wss : list (Workspace * list ptr))
  : list xcmd :=
  match wss with
  | [] => []
  | (ws, l) :: r =>
      InfoLine w (Z.of_nat (length l)) (ws_layout ws) (bool_decide (w = cw))
      :: info_lines cw (w + 1) r
  end.

(** The windows of the clients [l]. *)
Definition windows_of (h : gmap nat Client) (l : list ptr) : list Z :=
  omap (λ a, win <$> h !! a) l.

(** The records of the clients [l]. *)
Definition clients_of (h : gmap nat Client) (l : list ptr) : list Client :=
  omap (λ a, h !! a) l.

(** What [zoom] asks for on the list [l]: the whole screen for every
    client that is tiled. *)
Definition zoom_requests (s : State) (l : list ptr) : list xcmd :=
  (λ c, xcb_move_resize (win c) ZOOM_GAP 0 0
          (screen_width s) (screen_height s))
  <$> filter (λ c, FFT c = false) (clients_of (heap s) l).




(** Requests that show or hide a window; output without any. *)
Definition is_visibility (x : xcmd) : bool :=
  match x with
  | MapWindow _ | UnmapWindow _ => true
  | _ => false
  end.

Definition quiet (o : list xcmd) : Prop :=
  Forall (λ x, is_visibility x = false) o.

(** A line of the report of [workspace_info]. *)
Definition is_report (x : xcmd) : bool :=
  match x with
  | InfoLine _ _ _ _ => true
  | _ => false
  end.

(** A client that takes part in tiling. *)
Definition tiled (h : gmap nat Client) (a : ptr) : Prop :=
  ∃ c, h !! a = Some c ∧ FFT c = false.

(** A stack layout can run on the live list: with two clients or more the
    head is tiled. *)
Definition stackable (s : State) : Prop :=
  ∀ l, is_list (heap s) (head s) l → (2 ≤ length l)%nat →
       tiled (heap s) (head s).

(** [s2] is on the workspace of [s] again, with every list, the focused
    client and the layout as they were in [s]. *)
Definition restored (s s2 : State) : Prop :=
  current_workspace s2 = current_workspace s ∧
  head s2 = head s ∧ current s2 = current s ∧ layout s2 = layout s ∧
  heap s2 = heap s ∧ heads s2 = heads s.

(** [h'] is [h] with the [next] links of some clients of [l] changed:
    the same clients are allocated, each with the window and the flags it
    had. *)
Definition relinked (h h' : gmap nat Client) (l : list ptr) : Prop :=
  (∀ x, x ∉ l → h' !! x = h !! x) ∧
  (∀ x cx, h !! x = Some cx → ∃ n, h' !! x = Some (set_next n cx)).

(** The layout of [s] can run on a list of two clients or more whose head
    is [a]: it is one of the enumeration, and a stack layout finds [a]
    tiled. *)
Definition can_arrange (s : State) (a : ptr) : Prop :=
  0 ≤ layout s < END_LAYOUT ∧
  (layout s = HSTACK ∨ layout s = VSTACK → tiled (heap s) a).

(** [ls] are the lists of the workspaces, slot by slot. *)
Definition lists_of (s : State) (ls : list (list ptr)) : Prop :=
  Forall2 (λ ws l, is_list (heap s) (ws_head ws) l) (view s) ls.

(** The client after [c] in [l], and the one before it. *)
Fixpoint after (l : list ptr) (c : ptr) : option ptr :=
  match l with
  | a :: l' =>
      match l' with
      | b :: _ => if decide (a = c) then Some b else after l' c
      | [] => None
      end
  | [] => None
  end.

Fixpoint before (l : list ptr) (c : ptr) : option ptr :=
  match l with
  | a :: l' =>
      match l' with
      | b :: _ => if decide (b = c) then Some a else before l' c
      | [] => None
      end
  | [] => None
  end.

(** The same around the cycle: after the last client comes the first. *)
Definition cyc_next (l : list ptr) (c : ptr) : ptr :=
  default (default NULL (hd_error l)) (after l c).

Definition cyc_prev (l : list ptr) (c : ptr) : ptr :=
  default (default NULL (last l)) (before l c).

(** [l] with [c] one place further down, the last client going to the
    front; and with [c] one place further up, the first going to the
    end. *)
Fixpoint swap_with_next (l : list ptr) (c : ptr) : option (list ptr) :=
  match l with
  | a :: l' =>
      if decide (a = c) then
        match l' with
        | b :: r => Some (b :: a :: r)
        | [] => None
        end
      else cons a <$> swap_with_next l' c
  | [] => None
  end.

Definition moved_down (l : list ptr) (c : ptr) : list ptr :=
  default (c :: removelast l) (swap_with_next l c).

Definition moved_up (l : list ptr) (c : ptr) : list ptr :=
  match l with
  | a :: r => if decide (a = c) then r ++ [a]
              else default l (swap_with_next l (cyc_prev l c))
  | [] => []
  end.

End Commands.

(** ** More sample states *)

(** Clients 1, 2, 3 on workspace 0, client 2 focused, client 1 focused
    before it; the other workspaces are empty. *)
Definition abc_ws_state : State :=
  mkState 1%nat 1%nat 2%nat 0 0 0 0 900 1000 0 0
          [mkWorkspace 0 1%nat 1%nat 2%nat; mkWorkspace 0 NULL NULL NULL;
           mkWorkspace 0 NULL NULL NULL; mkWorkspace 0 NULL NULL NULL;
           mkWorkspace 0 NULL NULL NULL]
          (<[1%nat := set_win 101 (set_next 2%nat zero_client)]>
             (<[2%nat := set_win 102 (set_next 3%nat zero_client)]>
                (<[3%nat := set_win 103 zero_client]> ∅))) [].

(** The same three clients on the second workspace, client 3 focused,
    client 2 focused before it; the first workspace is empty. *)
Definition abc_ws1_state : State :=
  mkState 1%nat 2%nat 3%nat 1 0 0 0 900 1000 0 0
          [mkWorkspace 0 NULL NULL NULL; mkWorkspace 0 1%nat 2%nat 3%nat;
           mkWorkspace 0 NULL NULL NULL; mkWorkspace 0 NULL NULL NULL;
           mkWorkspace 0 NULL NULL NULL]
          (<[1%nat := set_win 101 (set_next 2%nat zero_client)]>
             (<[2%nat := set_win 102 (set_next 3%nat zero_client)]>
                (<[3%nat := set_win 103 zero_client]> ∅))) [].

(** A floating, transient client 1 followed by a tiled client 2, on the
    first workspace: a transient window was mapped first. *)
Definition float_head_state : State :=
  mkState 1%nat 1%nat 2%nat 0 0 0 0 900 1000 0 0
          [mkWorkspace 0 1%nat 1%nat 2%nat; mkWorkspace 0 NULL NULL NULL;
           mkWorkspace 0 NULL NULL NULL; mkWorkspace 0 NULL NULL NULL;
           mkWorkspace 0 NULL NULL NULL]
          (<[1%nat := set_float_trans true
                        (set_win 101 (set_next 2%nat zero_client))]>
             (<[2%nat := set_win 102 zero_client]> ∅)) [].
(** ** Outcomes: inversion *)

Lemma bind_Ret {A B : Type} (m : res A) (k : A → res B) (b : B) :
  bind m k = Ret b → ∃ a, m = Ret a ∧ k a = Ret b.
Proof. destruct m as [a|f]; simpl; [eauto | discriminate]. Qed.

Lemma load_Ret (h : gmap nat Client) (p : ptr) (c : Client) :
  load h p = Ret c ↔ h !! p = Some c.
Proof.
  unfold load. destruct (h !! p); split; intros E; congruence.
Qed.

Lemma load_Some (h : gmap nat Client) (p : ptr) (c : Client) :
  h !! p = Some c → load h p = Ret c.
Proof. apply load_Ret. Qed.

Ltac inv_res :=
  repeat match goal with
  | H : bind _ _ = Ret _ |- _ =>
      apply bind_Ret in H; destruct H as (? & ? & H)
  | H : Ret _ = Ret _ |- _ => injection H as H; try subst
  | H : Fail _ = Ret _ |- _ => discriminate H
  | H : (_, _) = (_, _) |- _ => injection H as ? H; try subst
  | x : (_ * _)%type |- _ => destruct x
  end.

(** ** List segments *)

Section Lists.

Implicit Types (h : gmap nat Client) (p q : ptr) (l : list ptr).

Lemma lseg_app h l1 l2 p q :
  lseg h p (l1 ++ l2) q ↔ ∃ m, lseg h p l1 m ∧ lseg h m l2 q.
Proof.
  revert p. induction l1 as [|a l1 IH]; intros p; simpl.
  - split; [intros H; eauto | intros (m & -> & H); done].
  - split.
    + intros (-> & Ha & c & Hc & H). apply IH in H as (m & H1 & H2).
      exists m. split; [|done]. eauto 10.
    + intros (m & (-> & Ha & c & Hc & H1) & H2).
      split; [done|]. split; [done|]. exists c. split; [done|].
      apply IH. eauto.
Qed.

Lemma lseg_null h l q : lseg h NULL l q → l = [] ∧ q = NULL.
Proof. destruct l; simpl; [done | intros (<- & ? & _); done]. Qed.

Lemma lseg_cons_inv h p l :
  p ≠ NULL → lseg h p l NULL →
  ∃ c l', l = p :: l' ∧ h !! p = Some c ∧ lseg h (next c) l' NULL.
Proof.
  intros Hp. destruct l as [|a l']; simpl; [done|].
  intros (-> & _ & c & Hc & H). eauto.
Qed.

Lemma lseg_det h p l1 l2 : lseg h p l1 NULL → lseg h p l2 NULL → l1 = l2.
Proof.
  revert p l2. induction l1 as [|a l1 IH]; intros p l2; simpl.
  - intros -> H. by apply lseg_null in H as [-> _].
  - intros (-> & Ha & c & Hc & H1) H2.
    apply lseg_cons_inv in H2 as (c' & l' & -> & Hc' & H2); [|done].
    f_equal. assert (c' = c) as -> by congruence. eauto.
Qed.

Lemma lseg_not_null h p l q a : lseg h p l q → a ∈ l → a ≠ NULL.
Proof.
  revert p. induction l as [|b l IH]; intros p; simpl; [by inversion 2|].
  intros (-> & Hb & c & Hc & H) [->|Hin]%elem_of_cons; eauto.
Qed.

Lemma lseg_alloc h p l q a : lseg h p l q → a ∈ l → is_Some (h !! a).
Proof.
  revert p. induction l as [|b l IH]; intros p; simpl; [by inversion 2|].
  intros (-> & Hb & c & Hc & H) [->|Hin]%elem_of_cons; eauto.
Qed.

(** From a member of a list the rest of the list is a list again. *)
Lemma lseg_suffix h p l a :
  lseg h p l NULL → a ∈ l →
  ∃ l1 l2, l = l1 ++ a :: l2 ∧ lseg h a (a :: l2) NULL.
Proof.
  intros H Hin. apply list_elem_of_split in Hin as (l1 & l2 & ->).
  apply lseg_app in H as (m & _ & H2).
  exists l1, l2. split; [done|]. simpl in H2. destruct H2 as (-> & H2).
  simpl. eauto.
Qed.

(** A list that ends cannot come back to a client it has visited. *)
Lemma lseg_NoDup h p l : lseg h p l NULL → NoDup l.
Proof.
  revert p. induction l as [|a l IH]; intros p; [constructor|].
  intros H. pose proof H as (-> & Ha & c & Hc & Hl).
  constructor; [|eauto].
  intros Hin. destruct (lseg_suffix _ _ _ _ Hl Hin) as (l1 & l2 & -> & H2).
  pose proof (lseg_det _ _ _ _ H H2) as E.
  apply (f_equal length) in E. simpl in E. rewrite length_app in E.
  simpl in E. lia.
Qed.

(** Only the [next] members of the clients of a segment matter. *)
Lemma lseg_frame h h' p l q :
  (∀ a, a ∈ l → next <$> (h' !! a) = next <$> (h !! a)) →
  lseg h p l q → lseg h' p l q.
Proof.
  revert p. induction l as [|b l IH]; intros p Hag; simpl; [done|].
  intros (-> & Hb & c & Hc & H).
  split; [done|]. split; [done|].
  pose proof (Hag b ltac:(left)) as E. rewrite Hc in E. simpl in E.
  destruct (h' !! b) as [c'|] eqn:Hc'; simpl in E; [|done].
  exists c'. split; [done|]. injection E as ->.
  apply IH; [|done]. intros a Ha. apply Hag. by right.
Qed.

Lemma lseg_last h p l t :
  lseg h p l NULL → last l = Some t → ∃ c, h !! t = Some c ∧ next c = NULL.
Proof.
  intros H Hl. apply last_Some in Hl as (l' & ->).
  apply lseg_app in H as (m & _ & H). simpl in H.
  destruct H as (-> & _ & c & Hc & E). eauto.
Qed.

(** A list has at most as many clients as the heap. *)
Lemma lseg_length h p l : lseg h p l NULL → (length l ≤ size h)%nat.
Proof.
  intros H. pose proof (lseg_NoDup _ _ _ H) as Hnd.
  assert (Hsub : l ⊆ elements (dom h)).
  { intros a Ha. apply elem_of_elements, elem_of_dom.
    eapply lseg_alloc; eauto. }
  rewrite <- size_dom. unfold size at 1, set_size. simpl.
  apply submseteq_length. apply NoDup_submseteq; done.
Qed.

End Lists.

(** ** [prev_client] *)

Section PrevClient.

Implicit Types (h : gmap nat Client) (p q c : ptr) (l : list ptr).

(** The walk stops in front of [c] when [c] follows some client. *)
Lemma prev_client_loop_found h c k l1 a l2 p :
  lseg h p (l1 ++ a :: c :: l2) NULL → (length l1 < k)%nat →
  prev_client_loop k h c p = Ret a.
Proof.
  intros Hl. pose proof (lseg_NoDup _ _ _ Hl) as Hnd. revert p k Hl Hnd.
  induction l1 as [|b l1 IH]; intros p k Hl Hnd Hk.
  - simpl in Hl. destruct Hl as (-> & Ha & ca & Hca & Hnx & Hc & _).
    destruct k as [|k]; [simpl in Hk; lia|]. simpl.
    rewrite (load_Some _ _ _ Hca). simpl.
    destruct (decide _) as [[_ Hne]|_]; done.
  - simpl in Hl. destruct Hl as (-> & Hb & cb & Hcb & Hl).
    destruct k as [|k]; [simpl in Hk; lia|]. simpl in Hk. simpl.
    rewrite (load_Some _ _ _ Hcb). simpl.
    apply NoDup_cons in Hnd as [Hb' Hnd].
    assert (Hnx : next cb ≠ NULL ∧ next cb ≠ c).
    { destruct l1 as [|b' l1]; simpl in Hl.
      - destruct Hl as (-> & ? & _). split; [done|].
        intros ->. apply NoDup_cons in Hnd as [Hnd _].
        apply Hnd. by left.
      - destruct Hl as (-> & ? & _). split; [done|].
        intros ->. apply NoDup_cons in Hnd as [Hnd _].
        apply Hnd. rewrite elem_of_app. right. right. by left. }
    destruct (decide _) as [_|Hno]; [|done].
    apply IH; [done|done|lia].
Qed.

(** Otherwise the walk runs to the last client. *)
Lemma prev_client_loop_last h c k l p t :
  lseg h p l NULL → last l = Some t → c ∉ tail l → (length l ≤ k)%nat →
  prev_client_loop k h c p = Ret t.
Proof.
  revert p k. induction l as [|b l IH]; intros p k Hl Ht Hc Hk; [done|].
  simpl in Hl. destruct Hl as (-> & Hb & cb & Hcb & Hl).
  destruct k as [|k]; [simpl in Hk; lia|]. simpl in Hk. simpl.
  rewrite (load_Some _ _ _ Hcb). simpl.
  destruct l as [|b' l].
  - simpl in Hl. rewrite Hl. simpl in Ht. injection Ht as ->.
    destruct (decide _) as [[Hne _]|_]; [by destruct Hne|done].
  - pose proof Hl as (Hnx & Hb' & _). simpl in Hc.
    destruct (decide _) as [_|Hno].
    + apply IH; [exact Hl|exact Ht| |simpl in *; lia].
      simpl. rewrite elem_of_cons in Hc. tauto.
    + exfalso. apply Hno. rewrite Hnx. split; [done|].
      intros ->. apply Hc. by left.
Qed.

(** The three cases of [prev_client] on a list that ends. *)
Lemma prev_client_cases (s : State) (l : list ptr) (c : ptr) :
  is_list (heap s) (head s) l →
  (∀ l1 p l2, l = l1 ++ p :: c :: l2 → prev_client s c = Ret p) ∧
  (c ≠ NULL → (2 ≤ length l)%nat → head s = c ∨ c ∉ l →
   ∃ t, last l = Some t ∧ t ≠ NULL ∧ prev_client s c = Ret t) ∧
  (c = NULL ∨ length l = 1%nat → prev_client s c = Ret NULL).
Proof.
  intros Hl. unfold is_list in Hl.
  pose proof (lseg_length _ _ _ Hl) as Hlen.
  pose proof (lseg_NoDup _ _ _ Hl) as Hnd.
  split; [|split].
  - intros l1 p l2 ->. unfold prev_client.
    assert (Hc : c ≠ NULL).
    { eapply lseg_not_null; [exact Hl|].
      rewrite elem_of_app. right. right. by left. }
    destruct (decide (c = NULL)) as [|_]; [done|].
    assert (∃ hd, heap s !! head s = Some hd ∧ next hd ≠ NULL)
      as (hd & Hhd & Hnx).
    { destruct l1 as [|b l1]; simpl in Hl.
      - destruct Hl as (Hh & _ & cp & Hcp & Hnx & ? & _).
        exists cp. rewrite Hh, Hnx. done.
      - destruct Hl as (Hh & _ & cb & Hcb & Hl). exists cb.
        rewrite Hh. split; [done|].
        destruct l1; simpl in Hl; destruct Hl as (Hnx & ? & _);
          by rewrite Hnx. }
    rewrite (load_Some _ _ _ Hhd); cbn [bind].
    destruct (decide (next hd = NULL)) as [|_]; [done|].
    eapply prev_client_loop_found; [exact Hl|].
    unfold fuel. rewrite length_app in Hlen. simpl in Hlen. lia.
  - intros Hc Hlen2 Hcase.
    destruct l as [|a [|b l]]; simpl in Hlen2; [lia|lia|].
    destruct (last (a :: b :: l)) as [t|] eqn:Ht;
      [|by apply last_None in Ht].
    exists t. split; [done|].
    split; [eapply lseg_not_null; [exact Hl|]; by apply last_Some_elem_of|].
    unfold prev_client. destruct (decide (c = NULL)) as [|_]; [done|].
    pose proof Hl as (Hh & _ & ca & Hca & Hb & Hbn & _).
    rewrite Hh, (load_Some _ _ _ Hca); cbn [bind].
    destruct (decide (next ca = NULL)) as [E|_]; [congruence|].
    rewrite <- Hh. eapply prev_client_loop_last; [exact Hl|done| |].
    + simpl. destruct Hcase as [E|Hni].
      * rewrite <- E, Hh. by apply NoDup_cons in Hnd as [? _].
      * intros Hin. apply Hni. by right.
    + unfold fuel. lia.
  - intros [->|Hone]; unfold prev_client.
    + by destruct (decide (NULL = NULL)).
    + destruct (decide (c = NULL)) as [|_]; [done|].
      destruct l as [|a [|b l]]; simpl in Hone; [lia| |lia].
      simpl in Hl. destruct Hl as (Hh & _ & ca & Hca & E).
      rewrite Hh, (load_Some _ _ _ Hca); cbn [bind].
      by destruct (decide (next ca = NULL)).
Qed.

End PrevClient.


(** ** Workspaces seen through [view] *)

Section Views.

Context {cfg : Config}.

Implicit Types (s : State) (i : Z).

Lemma workspace_eta (ws : Workspace) :
  mkWorkspace (ws_layout ws) (ws_head ws) (ws_prev_foc ws) (ws_current ws)
  = ws.
Proof. by destruct ws. Qed.

Lemma view_length s : length (view s) = length (workspaces s).
Proof. unfold view. apply length_insert. Qed.

Lemma view_active s :
  ws_ok s → view s !! Z.to_nat (current_workspace s) = Some (live s).
Proof.
  intros [Hcw Hlen]. unfold view. apply list_lookup_insert_eq. lia.
Qed.

Lemma view_insert_active s ws :
  <[Z.to_nat (current_workspace s) := ws]> (view s)
  = <[Z.to_nat (current_workspace s) := ws]> (workspaces s).
Proof. unfold view. apply list_insert_insert_eq. Qed.

Lemma moved_refl s : ws_ok s → moved (current_workspace s) s s.
Proof. intros H. unfold moved. tauto. Qed.

Lemma moved_trans i j s s1 s2 :
  moved i s s1 → moved j s1 s2 → moved j s s2.
Proof.
  intros (_ & H1 & H2 & _ & H4) (? & H1' & H2' & ? & H4').
  unfold moved. rewrite H1', H2', H4'. tauto.
Qed.

Lemma moved_emit i s s' o : moved i s s' → moved i s (emit o s').
Proof. intros H. exact H. Qed.

Lemma moved_emit_l i s s' o : moved i (emit o s) s' → moved i s s'.
Proof. intros H. exact H. Qed.

(** With the active index unchanged the live globals are unchanged. *)
Lemma moved_live s s' :
  ws_ok s → moved (current_workspace s) s s' → live s' = live s.
Proof.
  intros Hok (Hok' & _ & Hv & Hcw & _).
  pose proof (view_active _ Hok) as E. pose proof (view_active _ Hok') as E'.
  rewrite Hv, Hcw in E'. congruence.
Qed.

Lemma moved_head s s' :
  ws_ok s → moved (current_workspace s) s s' → head s' = head s.
Proof. intros H1 H2. apply (f_equal ws_head (moved_live _ _ H1 H2)). Qed.

(** [save_workspace] of the active index flushes the live globals. *)
Lemma save_workspace_active s :
  ws_ok s →
  save_workspace (current_workspace s) s = Ret (set_workspaces (view s) s).
Proof.
  intros [Hcw Hlen]. unfold save_workspace.
  destruct (decide _) as [?|_]; [lia|].
  destruct (workspaces s !! Z.to_nat (current_workspace s)) eqn:E; [done|].
  apply lookup_ge_None in E. lia.
Qed.

(** [select_workspace] in closed form. *)
Lemma select_workspace_eq s i ws :
  ws_ok s → 0 ≤ i → view s !! Z.to_nat i = Some ws →
  select_workspace i s = Ret (set_live ws i (set_workspaces (view s) s)).
Proof.
  intros Hok Hi Hws. unfold select_workspace.
  rewrite (save_workspace_active _ Hok). cbn [bind]. unfold slot.
  destruct (decide (i < 0)); [lia|]. cbn [workspaces set_workspaces].
  by rewrite Hws.
Qed.

Lemma select_workspace_total s i :
  ws_ok s → 0 ≤ i < WORKSPACES → ∃ s', select_workspace i s = Ret s'.
Proof.
  intros Hok Hi. destruct (view s !! Z.to_nat i) as [ws|] eqn:E.
  - eexists. apply select_workspace_eq; [done|lia|done].
  - apply lookup_ge_None in E. rewrite view_length in E.
    destruct Hok as [_ Hlen]. lia.
Qed.

Lemma select_workspace_moved s i s' :
  ws_ok s → select_workspace i s = Ret s' →
  moved i s s' ∧ 0 ≤ i < WORKSPACES.
Proof.
  intros Hok H. pose proof Hok as [Hcw Hlen].
  unfold select_workspace in H. rewrite (save_workspace_active _ Hok) in H.
  cbn [bind] in H. unfold slot in H.
  destruct (decide (i < 0)) as [|Hi]; [done|].
  cbn [workspaces set_workspaces] in H.
  destruct (view s !! Z.to_nat i) as [ws|] eqn:E; [|done].
  cbn [bind] in H. injection H as <-.
  assert (Hlt : (Z.to_nat i < length (workspaces s))%nat).
  { apply lookup_lt_Some in E. by rewrite view_length in E. }
  split; [|lia]. unfold moved, ws_ok. cbn.
  rewrite view_length. repeat split; try done; try lia.
  unfold view. cbn. unfold live. cbn. rewrite workspace_eta.
  fold (view s). by apply list_insert_id.
Qed.

End Views.

(** ** What the handlers leave untouched *)

Section Frames.

Context {cfg : Config}.

Implicit Types (s : State) (i : Z).

Lemma emit_nil s : emit [] s = s.
Proof. destruct s. unfold emit. cbn. by rewrite app_nil_r. Qed.

Lemma emit_emit o1 o2 s : emit o2 (emit o1 s) = emit (o1 ++ o2) s.
Proof. unfold emit. cbn. by rewrite app_assoc. Qed.

(** The layouts only produce output. *)
Lemma zoom_loop_emits k c s s' :
  zoom_loop k c s = Ret s' → ∃ o, s' = emit o s.
Proof.
  revert c s. induction k as [|k IH]; intros c s H; simpl in H;
    destruct (decide (c = NULL)); inv_res;
    try (exists []; by rewrite emit_nil).
  apply IH in H as [o ->]. destruct (FFT _); [eauto|].
  rewrite emit_emit. eauto.
Qed.

Lemma stack_loop_emits k vert span c cx cy s s' :
  stack_loop k vert span c cx cy s = Ret s' → ∃ o, s' = emit o s.
Proof.
  revert c cx cy s. induction k as [|k IH]; intros c cx cy s H; simpl in H;
    inv_res; [exists []; by rewrite emit_nil|].
  destruct vert; apply IH in H as [o ->]; rewrite emit_emit; eauto.
Qed.

Lemma stack_emits s s' : stack s = Ret s' → ∃ o, s' = emit o s.
Proof.
  unfold stack. intros H. inv_res.
  destruct (decide (_ = 0)); [done|]. inv_res.
  destruct (decide (next _ = NULL)).
  - inv_res. destruct (bool_decide _); eauto.
  - apply stack_loop_emits in H as [o ->].
    destruct (bool_decide _); rewrite emit_emit; eauto.
Qed.

Lemma layout_handler_emits i handler s s' :
  layout_handler i = Some handler → handler s = Ret s' →
  ∃ o, s' = emit o s.
Proof.
  unfold layout_handler. intros Hh H.
  repeat (destruct (decide _) in Hh); try discriminate;
    injection Hh as <-.
  - by apply zoom_loop_emits in H.
  - unfold grid in H. inv_res. exists []. by rewrite emit_nil.
  - by apply stack_emits.
  - by apply stack_emits.
  - unfold fibonacci in H. inv_res. exists []. by rewrite emit_nil.
Qed.

Lemma visibility_loop_emits k mk c s s' :
  visibility_loop k mk c s = Ret s' → ∃ o, s' = emit o s.
Proof.
  revert c s. induction k as [|k IH]; intros c s H; simpl in H;
    destruct (decide (c = NULL)); inv_res;
    try (exists []; by rewrite emit_nil).
  apply IH in H as [o ->]. rewrite emit_emit. eauto.
Qed.

Lemma place_bands_emits k c b s s' b' :
  place_bands k c b s = Ret (s', b') → ∃ o, s' = emit o s.
Proof.
  revert c b s. induction k as [|k IH]; intros c b s H; simpl in H;
    destruct (decide (c = NULL)); inv_res;
    try (exists []; by rewrite emit_nil).
  apply IH in H as [o ->]. rewrite emit_emit. eauto.
Qed.

Lemma raise_loop_emits k ft b s :
  ∃ o, (raise_loop k ft b s).1 = emit o s.
Proof.
  revert ft b s. induction k as [|k IH]; intros ft b s; simpl.
  - exists []. by rewrite emit_nil.
  - edestruct IH as [o ->]. rewrite emit_emit. eauto.
Qed.

Lemma restack_emits s s' b :
  restack s = Ret (s', b) → ∃ o, s' = emit o s.
Proof.
  unfold restack. intros H. inv_res.
  destruct (decide _); [done|]. inv_res.
  match goal with H : place_bands _ _ _ _ = _ |- _ =>
    apply place_bands_emits in H as [o ->] end.
  match goal with H : raise_loop ?k ?ft ?b ?s = _ |- _ =>
    destruct (raise_loop_emits k ft b s) as [o' E]; rewrite H in E
  end.
  cbn in E. subst. rewrite emit_emit. eauto.
Qed.

(** [workspace_info] walks over every workspace and comes back. *)
Lemma workspace_info_loop_moved k w cw0 s s' w' :
  ws_ok s → 0 ≤ w → workspace_info_loop k w cw0 s = Ret (s', w') →
  w' = w + Z.of_nat k ∧
  (k = 0%nat ∧ s' = s ∨ k ≠ 0%nat ∧ moved (w' - 1) s s').
Proof.
  revert w s. induction k as [|k IH]; intros w s Hok Hw H; simpl in H.
  - inv_res. split; [lia|]. by left.
  - inv_res.
    match goal with H : select_workspace _ _ = _ |- _ =>
      apply select_workspace_moved in H as [Hm Hr]; [|done] end.
    apply IH in H as (-> & Hcase); [|apply Hm|lia].
    split; [lia|]. right. split; [done|].
    destruct Hcase as [[-> ->]|[_ Hm']].
    + replace (w + 1 + Z.of_nat 0 - 1) with w by lia.
      by apply moved_emit.
    + eapply moved_trans; [exact Hm|]. by apply moved_emit_l in Hm'.
Qed.

Lemma workspace_info_moved s s' :
  ws_ok s → workspace_info s = Ret s' → moved (current_workspace s) s s'.
Proof.
  intros Hok H. unfold workspace_info in H. inv_res.
  pose proof Hok as [Hcw Hlen].
  match goal with H : workspace_info_loop _ _ _ _ = _ |- _ =>
    apply workspace_info_loop_moved in H as (-> & Hcase); [|done|lia] end.
  destruct Hcase as [[E _]|[_ Hm]]; [lia|].
  destruct (decide _) as [Hne|He].
  - apply select_workspace_moved in H as [Hm' _]; [|apply Hm].
    eapply moved_trans; eauto.
  - inv_res. apply dec_stable in He. by rewrite He.
Qed.

Lemma arrange_windows_moved s s' :
  ws_ok s → arrange_windows s = Ret s' → moved (current_workspace s) s s'.
Proof.
  intros Hok H. unfold arrange_windows in H.
  destruct (decide (head s = NULL)).
  { inv_res. by apply moved_refl. }
  inv_res. destruct (layout_handler _) as [handler|] eqn:Hh; [|done].
  inv_res.
  match goal with H : handler _ = _ |- _ =>
    eapply layout_handler_emits in H as [o ->]; [|done] end.
  apply workspace_info_moved in H; [|done]. by apply moved_emit_l in H.
Qed.

(** The focus decision changes [current] and [prev_foc] only. *)
Lemma resolve_focus_inv c s s' :
  resolve_focus c s = Ret s' → ∃ cur pf, s' = set_focus cur pf s.
Proof.
  unfold resolve_focus. intros H.
  destruct (decide (c = prev_foc s)); [|destruct (decide (c = current s))].
  - inv_res. eauto.
  - injection H as <-. exists (current s), (prev_foc s). by destruct s.
  - injection H as <-. eauto.
Qed.

Lemma moved_set_focus s cur pf :
  ws_ok s →
  ws_ok (set_focus cur pf s) ∧
  heap (set_focus cur pf s) = heap s ∧
  heads (set_focus cur pf s) = heads s ∧
  current_workspace (set_focus cur pf s) = current_workspace s.
Proof.
  intros Hok. repeat split; try apply Hok.
  unfold heads, view. cbn. rewrite !list_fmap_insert. done.
Qed.

Lemma update_focused_client_moved c s s' :
  ws_ok s → update_focused_client c s = Ret s' →
  ∃ cur pf, moved (current_workspace s) (set_focus cur pf s) s'.
Proof.
  intros Hok H. unfold update_focused_client in H.
  destruct (decide (head s = NULL)).
  { inv_res. exists NULL, NULL. apply moved_emit.
    apply (moved_refl (set_focus NULL NULL s)). apply Hok. }
  inv_res.
  match goal with H : resolve_focus _ _ = _ |- _ =>
    apply resolve_focus_inv in H as (cur & pf & ->) end.
  match goal with H : restack _ = _ |- _ =>
    apply restack_emits in H as [o ->] end.
  apply arrange_windows_moved in H; [|apply Hok].
  exists cur, pf. exact H.
Qed.

End Frames.

(** ** The store invariant *)

Section Store.

Context {cfg : Config}.

Implicit Types (s : State) (i : Z) (l : list ptr).

Lemma heads_length s : length (heads s) = length (workspaces s).
Proof. unfold heads. by rewrite length_fmap, view_length. Qed.

Lemma heads_active s :
  ws_ok s → heads s !! Z.to_nat (current_workspace s) = Some (head s).
Proof.
  intros Hok. unfold heads. rewrite list_lookup_fmap.
  by rewrite (view_active _ Hok).
Qed.

Lemma heads_insert s :
  heads s = <[Z.to_nat (current_workspace s) := head s]>
              (ws_head <$> workspaces s).
Proof. unfold heads, view. by rewrite list_fmap_insert. Qed.

(** The invariant reads the heap, the heads and the active index only. *)
Lemma store_ok_ext s s' :
  ws_ok s' → heap s' = heap s → heads s' = heads s →
  store_ok s → store_ok s'.
Proof.
  intros Hok Hh Hhd (_ & Hn & Hl & Hd). unfold store_ok.
  rewrite Hh, Hhd. done.
Qed.

Lemma store_ok_moved i s s' : moved i s s' → store_ok s → store_ok s'.
Proof.
  intros (Hok & Hh & Hv & _ & _). apply store_ok_ext; [done|done|].
  unfold heads. by rewrite Hv.
Qed.

Lemma unlisted_ext s s' c :
  heap s' = heap s → heads s' = heads s → unlisted s c → unlisted s' c.
Proof. intros Hh Hhd H. unfold unlisted. by rewrite Hh, Hhd. Qed.

Lemma unlisted_moved i s s' c : moved i s s' → unlisted s c → unlisted s' c.
Proof.
  intros (Hok & Hh & Hv & _ & _). apply unlisted_ext; [done|].
  unfold heads. by rewrite Hv.
Qed.

Lemma store_ok_live s : store_ok s → ∃ l, is_list (heap s) (head s) l.
Proof.
  intros (Hok & _ & Hl & _). eapply Hl. by apply heads_active.
Qed.

(** When the live list changes but the [next] member of every client of
    the other lists is kept, the other lists are what they were. *)
Lemma other_lists_kept s s' :
  store_ok s →
  (∀ j, j ≠ Z.to_nat (current_workspace s) → heads s' !! j = heads s !! j) →
  (∀ j q lq x, j ≠ Z.to_nat (current_workspace s) →
     heads s !! j = Some q → is_list (heap s) q lq → x ∈ lq →
     next <$> (heap s' !! x) = next <$> (heap s !! x)) →
  ∀ j q lq, j ≠ Z.to_nat (current_workspace s) →
    heads s' !! j = Some q → is_list (heap s') q lq →
    heads s !! j = Some q ∧ is_list (heap s) q lq.
Proof.
  intros (Hok & Hn & Hl & Hd) Hhd Hkeep j q lq Hj Hq Hlq.
  rewrite (Hhd _ Hj) in Hq. split; [done|].
  destruct (Hl _ _ Hq) as [lq0 Hlq0].
  assert (is_list (heap s') q lq0) as Hlq1.
  { eapply lseg_frame; [|exact Hlq0]. intros x Hx. eauto. }
  by rewrite (lseg_det _ _ _ _ Hlq Hlq1).
Qed.

(** A change of the live list that keeps the [next] member of every
    client of the other lists, and brings into the live list only clients
    that were in it or were not allocated. *)
Lemma store_ok_change s s' l l' :
  store_ok s → ws_ok s' →
  current_workspace s' = current_workspace s →
  heap s' !! NULL = None →
  (∀ j, j ≠ Z.to_nat (current_workspace s) → heads s' !! j = heads s !! j) →
  is_list (heap s) (head s) l →
  is_list (heap s') (head s') l' →
  (∀ x, x ∈ l' → x ∈ l ∨ heap s !! x = None) →
  (∀ j q lq x, j ≠ Z.to_nat (current_workspace s) →
     heads s !! j = Some q → is_list (heap s) q lq → x ∈ lq →
     next <$> (heap s' !! x) = next <$> (heap s !! x)) →
  store_ok s'.
Proof.
  intros Hst Hok' Hcw Hn' Hhd Hlive Hlive' Hfrom Hkeep.
  pose proof (other_lists_kept _ _ Hst Hhd Hkeep) as Hother.
  destruct Hst as (Hok & Hn & Hl & Hd).
  pose proof (heads_active _ Hok) as Ha.
  pose proof (heads_active _ Hok') as Ha'. rewrite Hcw in Ha'.
  set (a := Z.to_nat (current_workspace s)) in *.
  split; [done|]. split; [done|]. split.
  - intros j q Hq. destruct (decide (j = a)) as [->|Hj].
    + rewrite Ha' in Hq. injection Hq as <-. eauto.
    + rewrite (Hhd _ Hj) in Hq. destruct (Hl _ _ Hq) as [lq Hlq].
      exists lq. eapply lseg_frame; [|exact Hlq]. intros x Hx. eauto.
  - intros i j p q lp lq x Hij Hp Hq Hlp Hlq Hx.
    destruct (decide (i = a)) as [->|Hi]; [|destruct (decide (j = a)) as [->|Hj]].
    + rewrite Ha' in Hp. injection Hp as <-.
      rewrite (lseg_det _ _ _ _ Hlp Hlive') in Hx.
      destruct (Hother _ _ _ (not_eq_sym Hij) Hq Hlq) as [Hq0 Hlq0].
      destruct (Hfrom _ Hx) as [Hxl|Hxn].
      * eapply (Hd a j); eauto.
      * intros Hxq. destruct (lseg_alloc _ _ _ _ _ Hlq0 Hxq) as [? E].
        congruence.
    + rewrite Ha' in Hq. injection Hq as <-.
      rewrite (lseg_det _ _ _ _ Hlq Hlive').
      destruct (Hother _ _ _ Hi Hp Hlp) as [Hp0 Hlp0].
      intros Hxl. destruct (Hfrom _ Hxl) as [Hxl0|Hxn].
      * eapply (Hd i a); eauto.
      * destruct (lseg_alloc _ _ _ _ _ Hlp0 Hx) as [? E]. congruence.
    + destruct (Hother _ _ _ Hi Hp Hlp) as [Hp0 Hlp0].
      destruct (Hother _ _ _ Hj Hq Hlq) as [Hq0 Hlq0].
      eapply (Hd i j); eauto.
Qed.

End Store.

(** ** Searching and creating clients *)

Section Creation.

Context {cfg : Config}.

Implicit Types (s : State) (i : Z) (l : list ptr) (h : gmap nat Client).

Lemma win_to_client_loop_moved k w wn s s' c w' :
  ws_ok s → 0 ≤ w → win_to_client_loop k w wn s = Ret (s', c, w') →
  (s' = s ∧ w' = w ∧ c = NULL) ∨ (w < w' ∧ moved (w' - 1) s s').
Proof.
  revert w s. induction k as [|k IH]; intros w s Hok Hw H; simpl in H.
  - inv_res. by left.
  - inv_res.
    match goal with H : select_workspace _ _ = _ |- _ =>
      apply select_workspace_moved in H as [Hm Hr]; [|done] end.
    right. case_decide.
    + apply IH in H as [(-> & -> & _)|[Hlt Hm']]; [| |apply Hm|lia].
      * split; [lia|]. by replace (w + 1 - 1) with w by lia.
      * split; [lia|]. eapply moved_trans; eauto.
    + inv_res. split; [lia|]. by replace (w + 1 - 1) with w by lia.
Qed.

Lemma win_to_client_moved wn s s' c :
  ws_ok s → win_to_client wn s = Ret (s', c) →
  moved (current_workspace s) s s'.
Proof.
  intros Hok H. unfold win_to_client in H. inv_res.
  match goal with H : win_to_client_loop _ _ _ _ = _ |- _ =>
    apply win_to_client_loop_moved in H as [(-> & -> & _)|[Hlt Hm]];
      [| |done|lia] end.
  - case_decide.
    + inv_res.
      match goal with H : select_workspace _ _ = _ |- _ =>
        by apply select_workspace_moved in H as [Hm _] end.
    + inv_res. by apply moved_refl.
  - case_decide as He.
    + inv_res.
      match goal with H : select_workspace _ _ = _ |- _ =>
        apply select_workspace_moved in H as [Hm' _]; [|apply Hm] end.
      eapply moved_trans; eauto.
    + inv_res. by rewrite He.
Qed.

(** Redirecting the [next] member of the last client of a segment. *)
Lemma lseg_redirect h p l1 t ct m n :
  lseg h p (l1 ++ [t]) m → t ∉ l1 → h !! t = Some ct →
  lseg (<[t := set_next n ct]> h) p (l1 ++ [t]) n.
Proof.
  intros H Ht Hct. apply lseg_app in H as (t' & H1 & H2).
  simpl in H2. destruct H2 as (-> & Hnn & _).
  apply lseg_app. exists t. split.
  - eapply lseg_frame; [|exact H1]. intros x Hx.
    rewrite lookup_insert_ne; [done|]. intros ->. done.
  - simpl. split; [done|]. split; [done|].
    exists (set_next n ct). by rewrite lookup_insert_eq.
Qed.

(** A list is a list in any heap with the same [next] members. *)
Lemma store_ok_same_next s s' :
  store_ok s → ws_ok s' → heads s' = heads s →
  (∀ x, next <$> (heap s' !! x) = next <$> (heap s !! x)) →
  store_ok s'.
Proof.
  intros (Hok & Hn & Hl & Hd) Hok' Hhd Hnx.
  assert (Hfwd : ∀ p l, is_list (heap s) p l → is_list (heap s') p l).
  { intros p l. apply lseg_frame. intros x _. apply Hnx. }
  assert (Hbwd : ∀ p l, is_list (heap s') p l → is_list (heap s) p l).
  { intros p l. apply lseg_frame. intros x _. symmetry. apply Hnx. }
  split; [done|]. split.
  { pose proof (Hnx NULL) as E. rewrite Hn in E.
    by destruct (heap s' !! NULL). }
  rewrite Hhd. split.
  - intros i p Hp. destruct (Hl _ _ Hp) as [l Hlp]. eauto.
  - intros i j p q lp lq x Hij Hp Hq Hlp Hlq. eapply Hd; eauto.
Qed.

Lemma unlisted_same_next s s' c :
  unlisted s c → heads s' = heads s →
  (∀ x, next <$> (heap s' !! x) = next <$> (heap s !! x)) →
  unlisted s' c.
Proof.
  intros Hu Hhd Hnx i p l Hp Hl. rewrite Hhd in Hp. eapply Hu; [done|].
  eapply lseg_frame; [|exact Hl]. intros x _. symmetry. apply Hnx.
Qed.

(** Overwriting a client by one with the same [next]. *)
Lemma same_next_insert h c cl cl' x :
  h !! c = Some cl → next cl' = next cl →
  next <$> (<[c := cl']> h !! x) = next <$> (h !! x).
Proof.
  intros Hc Hn. destruct (decide (c = x)) as [->|Hne].
  - rewrite lookup_insert_eq, Hc. simpl. by rewrite Hn.
  - by rewrite lookup_insert_ne.
Qed.

(** [client_from_window] appends the new client to the live list. *)
Lemma client_from_window_ok wn a s s' c :
  store_ok s → client_from_window wn a s = Ret (s', c) →
  store_ok s' ∧ c = a ∧ is_Some (heap s' !! c) ∧
  current_workspace s' = current_workspace s.
Proof.
  intros Hst H. pose proof Hst as (Hok & Hn & Hl & Hd).
  destruct (store_ok_live _ Hst) as [l Hlive].
  unfold client_from_window in H.
  apply bind_Ret in H as (s1 & Hcal & H).
  apply bind_Ret in H as (t0 & Hpc & H).
  destruct (decide (a = NULL)) as [|Ha]; [done|].
  apply bind_Ret in H as (s2 & Hlink & H).
  apply bind_Ret in H as (cl & Hload & H).
  injection H as <- <-.
  unfold calloc in Hcal. destruct (decide (a = NULL)); [done|].
  destruct (heap s !! a) eqn:Hfresh; [done|]. injection Hcal as <-.
  assert (Hal : a ∉ l).
  { intros Hin. destruct (lseg_alloc _ _ _ _ _ Hlive Hin). congruence. }
  set (h1 := <[a := zero_client]> (heap s)) in *.
  assert (Hlive1 : is_list h1 (head s) l).
  { eapply lseg_frame; [|exact Hlive]. intros x Hx. unfold h1.
    rewrite lookup_insert_ne; [done|]. by intros ->. }
  cbn [head set_heap heap] in *.
  assert (∃ h2, (∀ x, x ∉ a :: l → h2 !! x = heap s !! x) ∧
                h2 !! NULL = None ∧
                heap s2 = h2 ∧ workspaces s2 = workspaces s ∧
                current_workspace s2 = current_workspace s ∧
                is_list h2 (head s2) (l ++ [a]))
    as (h2 & Hout & Hn2 & Hh2 & Hws2 & Hcw2 & Hl2).
  { destruct (decide (head s = NULL)) as [Hh0|Hh0].
    - injection Hlink as <-. rewrite Hh0 in Hlive.
      apply lseg_null in Hlive as [-> _].
      exists h1. cbn. repeat split; try done.
      + intros x Hx. unfold h1. rewrite lookup_insert_ne; [done|].
        intros <-. apply Hx. by left.
      + unfold h1. by rewrite lookup_insert_ne.
      + exists zero_client. unfold h1. by rewrite lookup_insert_eq.
    - (* the client written to is the last of the list *)
      assert (∃ l0 t ct, l = l0 ++ [t] ∧ heap s !! t = Some ct ∧
                store_next t a (set_heap h1 s) = Ret s2)
        as (l0 & t & ct & -> & Hct & Hst2).
      { destruct (lseg_cons_inv _ _ _ Hh0 Hlive) as (chd & l' & -> & Hchd & Hl').
        destruct (prev_client_cases (set_heap h1 s) _ (head s) Hlive1)
          as (_ & Hlast & Hone).
        destruct l' as [|b l'].
        - exists [], (head s), chd. split; [done|]. split; [done|].
          cbn in Hone. rewrite Hone in Hpc by (by right).
          injection Hpc as <-.
          by destruct (decide (NULL ≠ NULL)).
        - destruct Hlast as (t & Ht & Htn & Hpc');
            [done|simpl; lia|by left|].
          cbn in Hpc'. rewrite Hpc' in Hpc. injection Hpc as <-.
          destruct (decide (t ≠ NULL)); [|done].
          apply last_Some in Ht as (l0 & E). exists l0, t.
          destruct (lseg_alloc _ _ _ _ t Hlive) as [ct Hct].
          { rewrite E. rewrite elem_of_app. right. by left. }
          exists ct. by rewrite E. }
      unfold store_next in Hst2. cbn in Hst2.
      assert (Hta : t ≠ a).
      { intros ->. apply Hal. rewrite elem_of_app. right. by left. }
      unfold load in Hst2. unfold h1 in Hst2 at 1.
      rewrite lookup_insert_ne, Hct in Hst2 by done. cbn in Hst2.
      injection Hst2 as <-. cbn.
      pose proof (lseg_NoDup _ _ _ Hlive) as Hnd.
      apply NoDup_app in Hnd as (_ & Hnd & _).
      exists (<[t := set_next a ct]> h1). repeat split; try done.
      + intros x Hx. rewrite lookup_insert_ne.
        * unfold h1. rewrite lookup_insert_ne; [done|].
          intros <-. apply Hx. by left.
        * intros <-. apply Hx. right. rewrite elem_of_app. right. by left.
      + rewrite lookup_insert_ne.
        * unfold h1. by rewrite lookup_insert_ne.
        * intros ->. unfold NULL in *. congruence.
      + apply lseg_app. exists a. split.
        * eapply lseg_redirect; [exact Hlive1| |].
          -- intros Hin. eapply Hnd; [exact Hin|]. by left.
          -- unfold h1. by rewrite lookup_insert_ne.
        * simpl. split; [done|]. split; [done|]. exists zero_client.
          rewrite lookup_insert_ne by done. unfold h1.
          by rewrite lookup_insert_eq. }
  split; [|split; [done|split]].
  - eapply (store_ok_change s _ l (l ++ [a])); try done.
    + split; cbn; [rewrite Hcw2|rewrite Hws2]; apply Hok.
    + cbn. rewrite lookup_insert_ne by done. by rewrite Hh2.
    + intros j Hj. rewrite !heads_insert. cbn. rewrite Hcw2, Hws2.
      by rewrite !list_lookup_insert_ne.
    + cbn. apply (lseg_frame (heap s2)); [|rewrite Hh2; exact Hl2].
      intros x _. apply load_Ret in Hload.
      eapply same_next_insert; [exact Hload|done].
    + intros x [Hx|Hx%list_elem_of_singleton]%elem_of_app;
        [by left|right; by subst].
    + intros j q lq x Hj Hq Hlq Hx. cbn.
      destruct (lseg_alloc _ _ _ _ _ Hlq Hx) as [cx Hcx].
      assert (x ≠ a) by congruence.
      rewrite lookup_insert_ne by done. rewrite Hh2, Hout; [done|].
      rewrite not_elem_of_cons. split; [done|].
      intros Hxl. eapply (Hd (Z.to_nat (current_workspace s)) j);
        eauto using heads_active.
  - cbn. rewrite lookup_insert_eq. eauto.
  - cbn. done.
Qed.

End Creation.

(** ** Removing a client *)

Section Removal.

Context {cfg : Config}.

Implicit Types (s : State) (i : Z) (l : list ptr) (h : gmap nat Client).

Lemma find_link_null k s c : find_link k s c LinkNull = Ret (LinkNull, false).
Proof. by destruct k. Qed.

(** The inner search of [remove_client]: it ends on the link that holds
    [c], or on the null link when [c] is not in the list. *)
Lemma find_link_spec k s c temp q l t found :
  c ≠ NULL → temp ≠ LinkNull →
  read_link s temp = Ret q → lseg (heap s) q l NULL →
  find_link k s c temp = Ret (t, found) →
  (found = false ∧ t = LinkNull) ∨
  (found = true ∧ ∃ l1 l2, l = l1 ++ c :: l2 ∧
     t = match last l1 with None => temp | Some p => LinkNext p end).
Proof.
  intros Hc. revert temp q l.
  induction k as [|k IH]; intros temp q l Htemp Hread Hl H.
  { destruct temp; done. }
  assert (H' : (let* q := read_link s temp in
                if decide (q = c) then Ret (temp, true)
                else find_link k s c (link_of_next q)) = Ret (t, found)).
  { destruct temp; done. }
  clear H. rewrite Hread in H'. cbn [bind] in H'.
  destruct (decide (q = c)) as [->|Hqc].
  - injection H' as <- <-. right. split; [done|].
    destruct (lseg_cons_inv _ _ _ Hc Hl) as (cl & l2 & -> & _ & _).
    by exists [], l2.
  - unfold link_of_next in H'. destruct (decide (q = NULL)) as [->|Hq].
    + rewrite find_link_null in H'. injection H' as <- <-. by left.
    + destruct (lseg_cons_inv _ _ _ Hq Hl) as (cq & l' & -> & Hcq & Hl').
      eapply (IH (LinkNext q) (next cq) l') in H'; [|done| |done].
      2:{ cbn. by rewrite (load_Some _ _ _ Hcq). }
      destruct H' as [?|(-> & l1 & l2 & -> & ->)]; [by left|].
      right. split; [done|]. exists (q :: l1), l2. split; [done|].
      destruct l1 as [|b l1]; [done|].
      change (last (q :: b :: l1)) with (last (b :: l1)).
      destruct (last (b :: l1)) eqn:E; [done|]. by apply last_None in E.
Qed.

(** The outer search: every iteration selects the active workspace. *)
Lemma remove_client_loop_spec k w c temp s s1 t w1 l :
  ws_ok s → c ≠ NULL → is_list (heap s) (head s) l →
  remove_client_loop k w (current_workspace s) c temp s = Ret (s1, t, w1) →
  moved (current_workspace s) s s1 ∧
  (t = temp ∨ t = LinkNull ∨ ∃ l1 l2, l = l1 ++ c :: l2 ∧ t = link_after l1).
Proof.
  revert w temp s. induction k as [|k IH]; intros w temp s Hok Hc Hl H.
  { simpl in H. inv_res. split; [by apply moved_refl|by left]. }
  cbn -[find_link fuel select_workspace] in H.
  apply bind_Ret in H as (s0 & Hsel & H).
  apply bind_Ret in H as ([t0 found] & Hfind & H).
  apply select_workspace_moved in Hsel as [Hm _]; [|done].
  pose proof Hm as (Hok0 & Hh0 & _ & Hcw0 & _).
  pose proof (moved_head _ _ Hok Hm) as Hhd0.
  eapply (find_link_spec _ _ _ _ (head s) l) in Hfind;
    [|done|done|by rewrite <- Hhd0|by rewrite Hh0].
  destruct Hfind as [[-> ->]|(-> & l1 & l2 & -> & ->)].
  - rewrite <- Hcw0 in H. eapply IH in H as [Hm' Hcase];
      [|done|done|by rewrite Hh0, Hhd0].
    split. { eapply moved_trans; [exact Hm|]. by rewrite <- Hcw0. }
    destruct Hcase as [->|Hcase]; auto.
  - injection H as <- <- <-. split; [done|]. right. right.
    exists l1, l2. split; [done|]. unfold link_after. done.
Qed.

(** Storing [c->next] through the link that holds [c] takes [c] out of the
    live list. *)
Lemma unlink_ok s s2 c cl l1 l2 :
  store_ok s → is_list (heap s) (head s) (l1 ++ c :: l2) →
  heap s !! c = Some cl →
  write_link (link_after l1) (next cl) s = Ret s2 →
  store_ok s2 ∧ unlisted s2 c ∧ is_Some (heap s2 !! c) ∧
  current_workspace s2 = current_workspace s.
Proof.
  intros Hst Hl Hc Hw. pose proof Hst as (Hok & Hn & Hls & Hd).
  pose proof (lseg_NoDup _ _ _ Hl) as Hnd.
  pose proof Hl as Hl0.
  apply lseg_app in Hl0 as (m & Hl1 & Hl2). simpl in Hl2.
  destruct Hl2 as (-> & Hcn & cl' & Hcl' & Hl2).
  assert (cl' = cl) as -> by congruence.
  assert (∃ h2, heap s2 = h2 ∧ workspaces s2 = workspaces s ∧
                current_workspace s2 = current_workspace s ∧
                h2 !! NULL = None ∧ is_Some (h2 !! c) ∧
                (∀ x, x ∉ l1 → h2 !! x = heap s !! x) ∧
                is_list h2 (head s2) (l1 ++ l2))
    as (h2 & Hh2 & Hws2 & Hcw2 & Hn2 & Hc2 & Hout & Hlive2).
  { unfold link_after in Hw. destruct (last l1) as [p|] eqn:Hlast.
    - apply last_Some in Hlast as (l0 & ->).
      unfold write_link, store_next in Hw.
      apply bind_Ret in Hw as (cp & Hcp & Hw). injection Hw as <-.
      apply load_Ret in Hcp. cbn.
      assert (Hpc : p ≠ c).
      { intros ->. apply NoDup_app in Hnd as (_ & Hnd & _).
        eapply Hnd; [|by left]. rewrite elem_of_app. right. by left. }
      assert (Hpl0 : p ∉ l0).
      { apply NoDup_app in Hnd as (Hnd & _ & _).
        apply NoDup_app in Hnd as (_ & Hnd & _).
        intros Hin. eapply Hnd; [exact Hin|by left]. }
      assert (Hpl2 : p ∉ l2).
      { apply NoDup_app in Hnd as (_ & Hnd & _). intros Hin.
        eapply Hnd; [|right; exact Hin]. rewrite elem_of_app. right. by left. }
      exists (<[p := set_next (next cl) cp]> (heap s)).
      repeat split; try done.
      + rewrite lookup_insert_ne; [done|]. intros E. rewrite E in Hcp.
        congruence.
      + rewrite lookup_insert_ne by done. eauto.
      + intros x Hx. rewrite lookup_insert_ne; [done|]. intros <-.
        apply Hx. rewrite elem_of_app. right. by left.
      + apply lseg_app. exists (next cl). split.
        * eapply lseg_redirect; [exact Hl1|done|done].
        * eapply lseg_frame; [|exact Hl2]. intros x Hx.
          rewrite lookup_insert_ne; [done|]. by intros <-.
    - apply last_None in Hlast as ->. cbn in Hw. injection Hw as <-.
      exists (heap s). cbn. repeat split; done. }
  assert (Hhd2 : ∀ j, j ≠ Z.to_nat (current_workspace s) →
                      heads s2 !! j = heads s !! j).
  { intros j Hj. rewrite !heads_insert, Hcw2, Hws2.
    by rewrite !list_lookup_insert_ne. }
  assert (Hkeep : ∀ j q lq x, j ≠ Z.to_nat (current_workspace s) →
            heads s !! j = Some q → is_list (heap s) q lq → x ∈ lq →
            next <$> (heap s2 !! x) = next <$> (heap s !! x)).
  { intros j q lq x Hj Hq Hlq Hx. rewrite Hh2, Hout; [done|].
    intros Hxl. eapply (Hd (Z.to_nat (current_workspace s)) j);
      eauto using heads_active.
    rewrite elem_of_app. by left. }
  assert (Hok2 : ws_ok s2).
  { split; [rewrite Hcw2|rewrite Hws2]; apply Hok. }
  split; [|split; [|split]]; [| |by rewrite Hh2|done].
  - eapply (store_ok_change s s2 _ (l1 ++ l2)); try done.
    + by rewrite Hh2.
    + by rewrite Hh2.
    + intros x Hx. left. rewrite elem_of_app in Hx.
      rewrite elem_of_app, elem_of_cons. tauto.
  - intros j q lq Hq Hlq.
    destruct (decide (j = Z.to_nat (current_workspace s))) as [->|Hj].
    + rewrite <- Hcw2, (heads_active _ Hok2) in Hq. injection Hq as <-.
      rewrite Hh2 in Hlq. rewrite (lseg_det _ _ _ _ Hlq Hlive2).
      apply NoDup_app in Hnd as (_ & Hnd1 & Hnd2).
      apply NoDup_cons in Hnd2 as [Hnd2 _].
      rewrite elem_of_app. intros [Hin|Hin]; [|done].
      eapply Hnd1; [exact Hin|by left].
    + destruct (other_lists_kept _ _ Hst Hhd2 Hkeep _ _ _ Hj Hq Hlq)
        as [Hq0 Hlq0].
      eapply (Hd (Z.to_nat (current_workspace s)) j);
        eauto using heads_active.
      rewrite elem_of_app. right. by left.
Qed.

(** Freeing a client that is in no list. *)
Lemma free_ok s s' c :
  store_ok s → unlisted s c → free c s = Ret s' →
  store_ok s' ∧ moved (current_workspace s) (set_heap (heap s') s) s'.
Proof.
  intros (Hok & Hn & Hl & Hd) Hu H. unfold free in H.
  apply bind_Ret in H as (cl & _ & H). injection H as <-.
  assert (Hfwd : ∀ (j : nat) p l,
            heads s !! j = Some p → is_list (heap s) p l →
            is_list (delete c (heap s)) p l).
  { intros j p l Hp Hlp. eapply lseg_frame; [|exact Hlp]. intros x Hx.
    rewrite lookup_delete_ne; [done|]. intros <-. by eapply Hu. }
  assert (Hbwd : ∀ p l, is_list (delete c (heap s)) p l →
                        is_list (heap s) p l).
  { intros p l Hlp. eapply lseg_frame; [|exact Hlp]. intros x Hx.
    destruct (lseg_alloc _ _ _ _ _ Hlp Hx) as [cx Hcx].
    rewrite lookup_delete_Some in Hcx. destruct Hcx as [Hne _].
    by rewrite lookup_delete_ne. }
  split.
  - split; [done|]. split; [|split]; cbn.
    + by rewrite lookup_delete_None; right.
    + intros i p Hp. destruct (Hl _ _ Hp) as [l Hlp]. eauto.
    + intros i j p q lp lq x Hij Hp Hq Hlp Hlq. eapply Hd; eauto.
  - by apply (moved_refl (set_heap (delete c (heap s)) s)).
Qed.

End Removal.

(** ** Focus updates and the start-up state *)

Section Preservation.

Context {cfg : Config}.

Implicit Types (s : State) (l : list ptr).

Lemma store_ok_set_focus s cur pf :
  store_ok s → store_ok (set_focus cur pf s).
Proof.
  intros Hst. destruct (moved_set_focus s cur pf) as (? & ? & ? & _);
    [apply Hst|]. by eapply store_ok_ext.
Qed.

Lemma unlisted_set_focus s cur pf c :
  unlisted s c → unlisted (set_focus cur pf s) c.
Proof.
  intros Hu. eapply unlisted_ext; [| |exact Hu]; [done|].
  unfold heads, view. cbn. by rewrite !list_fmap_insert.
Qed.

Lemma update_focused_client_ok c s s' :
  store_ok s → update_focused_client c s = Ret s' →
  store_ok s' ∧ heap s' = heap s ∧ heads s' = heads s ∧
  current_workspace s' = current_workspace s.
Proof.
  intros Hst H.
  apply update_focused_client_moved in H as (cur & pf & Hm); [|apply Hst].
  destruct (moved_set_focus s cur pf) as (Hok1 & Hh1 & Hhd1 & Hcw1);
    [apply Hst|].
  pose proof Hm as (Hok' & Hh' & Hv' & Hcw' & _).
  split; [|split; [|split]].
  - eapply store_ok_moved; [exact Hm|]. by apply store_ok_set_focus.
  - by rewrite Hh'.
  - unfold heads at 1. rewrite Hv'. exact Hhd1.
  - by rewrite Hcw'.
Qed.

Lemma initial_state_ok sw sh :
  0 < WORKSPACES → store_ok (initial_state sw sh).
Proof.
  intros HW.
  assert (Hv : view (initial_state sw sh)
               = replicate (Z.to_nat WORKSPACES) (mkWorkspace 0 NULL NULL NULL)).
  { unfold view. cbn. apply list_insert_id. apply lookup_replicate_2. lia. }
  assert (Hhd : ∀ (j : nat) p, heads (initial_state sw sh) !! j = Some p →
                               p = NULL).
  { intros j p. unfold heads. rewrite Hv, list_lookup_fmap.
    destruct (replicate _ _ !! j) as [ws|] eqn:E; [|done].
    apply lookup_replicate in E as [-> _]. cbn. congruence. }
  split; [|split; [|split]].
  - split; cbn; [lia|]. by rewrite length_replicate.
  - done.
  - intros j p Hp. rewrite (Hhd _ _ Hp). by exists [].
  - intros i j p q lp lq x _ Hp _ Hlp _ Hx.
    rewrite (Hhd _ _ Hp) in Hlp. apply lseg_null in Hlp as [-> _].
    by apply elem_of_nil in Hx.
Qed.

End Preservation.

(** ** The loops end on lists that end *)

Section Walks.

Context {cfg : Config}.

Implicit Types (s : State) (l : list ptr) (h : gmap nat Client).

Lemma count_clients_total k h c l n :
  is_list h c l → (length l ≤ k)%nat →
  count_clients k h c n = Ret (n + Z.of_nat (length l)).
Proof.
  revert k c n. induction l as [|a l IH]; intros k c n Hl Hk;
    unfold is_list in Hl.
  - simpl in Hl. subst c. destruct k; simpl; f_equal; lia.
  - destruct Hl as (-> & Ha & ca & Hca & Hl).
    destruct k as [|k]; [simpl in Hk; lia|]. simpl.
    destruct (decide (a = NULL)); [done|].
    rewrite (load_Some _ _ _ Hca). cbn [bind].
    rewrite (IH k); [f_equal; lia|done|simpl in Hk; lia].
Qed.

Lemma zoom_loop_total k c s l :
  is_list (heap s) c l → (length l ≤ k)%nat → ∃ s', zoom_loop k c s = Ret s'.
Proof.
  revert k c s. induction l as [|a l IH]; intros k c s Hl Hk;
    unfold is_list in Hl.
  - simpl in Hl. subst c. destruct k; simpl; eauto.
  - destruct Hl as (-> & Ha & ca & Hca & Hl).
    destruct k as [|k]; [simpl in Hk; lia|]. simpl.
    destruct (decide (a = NULL)); [done|].
    rewrite (load_Some _ _ _ Hca). cbn [bind].
    apply IH; [by destruct (FFT ca)|simpl in Hk; lia].
Qed.

Lemma fibonacci_loop_total k h c l :
  is_list h c l → (length l ≤ k)%nat → fibonacci_loop k h c = Ret tt.
Proof.
  revert k c. induction l as [|a l IH]; intros k c Hl Hk;
    unfold is_list in Hl.
  - simpl in Hl. subst c. by destruct k.
  - destruct Hl as (-> & Ha & ca & Hca & Hl).
    destruct k as [|k]; [simpl in Hk; lia|]. simpl.
    destruct (decide (a = NULL)); [done|].
    rewrite (load_Some _ _ _ Hca). cbn [bind].
    apply IH; [done|simpl in Hk; lia].
Qed.

Lemma visibility_loop_total k mk c s l :
  is_list (heap s) c l → (length l ≤ k)%nat →
  ∃ s', visibility_loop k mk c s = Ret s'.
Proof.
  revert k c s. induction l as [|a l IH]; intros k c s Hl Hk;
    unfold is_list in Hl.
  - simpl in Hl. subst c. destruct k; simpl; eauto.
  - destruct Hl as (-> & Ha & ca & Hca & Hl).
    destruct k as [|k]; [simpl in Hk; lia|]. simpl.
    destruct (decide (a = NULL)); [done|].
    rewrite (load_Some _ _ _ Hca). cbn [bind].
    apply IH; [done|simpl in Hk; lia].
Qed.

(** The tiled count is at most the length of the list, and at least one
    when the first client is tiled. *)
Lemma get_non_tff_count_loop_total k h c l n :
  is_list h c l → (length l ≤ k)%nat →
  ∃ m : nat, get_non_tff_count_loop k h c n = Ret (n + Z.of_nat m) ∧
             (m ≤ length l)%nat ∧
             (l ≠ [] → (∃ cl, h !! c = Some cl ∧ FFT cl = false) →
              (1 ≤ m)%nat).
Proof.
  revert k c n. induction l as [|a l IH]; intros k c n Hl Hk;
    unfold is_list in Hl.
  - simpl in Hl. subst c. exists 0%nat.
    split; [destruct k; simpl; f_equal; lia|]. done.
  - destruct Hl as (-> & Ha & ca & Hca & Hl).
    destruct k as [|k]; [simpl in Hk; lia|]. simpl.
    destruct (decide (a = NULL)); [done|].
    rewrite (load_Some _ _ _ Hca). cbn [bind].
    destruct (FFT ca) eqn:Hf.
    + exists 0%nat. split; [f_equal; lia|]. split; [lia|].
      intros _ (cl & Hcl & Hcf). congruence.
    + destruct (IH k (next ca) (n + 1) Hl) as (m & Hm & Hle & _);
        [simpl in Hk; lia|].
      exists (S m). rewrite Hm. split; [f_equal; lia|]. split; [simpl; lia|].
      intros _ _. lia.
Qed.

Lemma stack_loop_total k vert span c cx cy s l :
  is_list (heap s) c l → (k ≤ length l)%nat →
  ∃ s', stack_loop k vert span c cx cy s = Ret s'.
Proof.
  revert c cx cy s l. induction k as [|k IH]; intros c cx cy s l Hl Hk;
    unfold is_list in Hl.
  - simpl. eauto.
  - destruct l as [|a l]; [simpl in Hk; lia|].
    destruct Hl as (-> & Ha & ca & Hca & Hl). simpl.
    rewrite (load_Some _ _ _ Hca). cbn [bind].
    destruct vert; eapply IH; try exact Hl; simpl in Hk; lia.
Qed.

End Walks.

(** ** The handlers return on safe states *)

Section Totals.

Context {cfg : Config}.

Implicit Types (s : State) (l : list ptr) (h : gmap nat Client).

Lemma lists_end_moved i s s' : moved i s s' → lists_end s → lists_end s'.
Proof.
  intros (_ & Hh & Hv & _ & _) H j p. unfold heads. rewrite Hv, Hh. apply H.
Qed.

Lemma fuel_enough s p l : is_list (heap s) p l → (length l ≤ fuel s)%nat.
Proof. intros H. apply lseg_length in H. unfold fuel. lia. Qed.

Lemma workspace_info_loop_total k w cw0 s :
  ws_ok s → lists_end s → 0 ≤ w → w + Z.of_nat k ≤ WORKSPACES →
  ∃ r, workspace_info_loop k w cw0 s = Ret r.
Proof.
  revert w s. induction k as [|k IH]; intros w s Hok Hle Hw Hk.
  { simpl. eauto. }
  cbn -[fuel select_workspace count_clients].
  destruct (select_workspace_total s w) as [s1 Hs1]; [done|lia|].
  rewrite Hs1. cbn [bind].
  apply select_workspace_moved in Hs1 as [Hm _]; [|done].
  pose proof (lists_end_moved _ _ _ Hm Hle) as Hle1.
  pose proof Hm as (Hok1 & _).
  destruct (Hle1 _ _ (heads_active _ Hok1)) as [l Hl].
  rewrite (count_clients_total _ _ _ l); [|done|by eapply fuel_enough].
  cbn [bind]. apply IH; [done|done|lia|lia].
Qed.

Lemma workspace_info_total s :
  ws_ok s → lists_end s → ∃ s', workspace_info s = Ret s'.
Proof.
  intros Hok Hle. unfold workspace_info. pose proof Hok as [Hcw Hlen].
  destruct (workspace_info_loop_total (Z.to_nat WORKSPACES) 0
              (current_workspace s) s) as [[s1 w] Hloop];
    [done|done|lia|lia|].
  rewrite Hloop. cbn [bind].
  apply workspace_info_loop_moved in Hloop as (-> & Hcase); [|done|lia].
  destruct Hcase as [[E _]|[_ Hm]]; [lia|].
  destruct (decide _); [|eauto].
  eapply select_workspace_total; [apply Hm|lia].
Qed.

Lemma stack_total s l :
  is_list (heap s) (head s) l → l ≠ [] →
  (∃ c, heap s !! head s = Some c ∧ FFT c = false) →
  ∃ s', stack s = Ret s'.
Proof.
  intros Hl Hne Htiled. unfold stack, get_non_tff_count.
  destruct (get_non_tff_count_loop_total (fuel s) _ _ _ 0 Hl)
    as (m & -> & Hm & Hpos); [by eapply fuel_enough|].
  specialize (Hpos Hne Htiled). cbn [bind].
  destruct (decide (0 + Z.of_nat m = 0)); [lia|].
  destruct l as [|a l]; [done|].
  destruct Hl as (Hh & Ha & ca & Hca & Hl).
  rewrite Hh, (load_Some _ _ _ Hca). cbn [bind].
  destruct (decide (next ca = NULL)); [eauto|].
  eapply stack_loop_total.
  - destruct (bool_decide _); exact Hl.
  - simpl in Hm. lia.
Qed.

(** The index that [arrange_windows] uses, from the length of the list. *)
Lemma selected_layout_eq s l :
  is_list (heap s) (head s) l → l ≠ [] →
  selected_layout s
  = Ret (if decide (length l = 1%nat) then ZOOM else layout s).
Proof.
  intros Hl Hne. destruct l as [|a l]; [done|].
  destruct Hl as (Hh & Ha & ca & Hca & Hl').
  unfold selected_layout. rewrite Hh, (load_Some _ _ _ Hca). cbn [bind].
  destruct l as [|b l].
  - simpl in Hl'. rewrite Hl'. by destruct (decide (NULL = NULL)).
  - destruct Hl' as (Hb & Hbn & _). rewrite Hb.
    destruct (decide (b = NULL)); [done|].
    destruct (decide (length (a :: b :: l) = 1%nat)); [done|done].
Qed.

Lemma arrange_windows_total s l :
  ws_ok s → lists_end s →
  is_list (heap s) (head s) l → layout_ok (heap s) (live s) l →
  ∃ s', arrange_windows s = Ret s'.
Proof.
  intros Hok Hle Hl Hlay. unfold arrange_windows.
  destruct (decide (head s = NULL)); [eauto|].
  assert (Hne : l ≠ []).
  { intros ->. simpl in Hl. done. }
  rewrite (selected_layout_eq _ _ Hl Hne). cbn [bind].
  assert (Hinfo : ∀ o, ∃ s', workspace_info (emit o s) = Ret s').
  { intros o. by apply workspace_info_total. }
  assert (Hzoom : ∃ s', (let* s1 := zoom s in workspace_info s1) = Ret s').
  { destruct (zoom_loop_total (fuel s) (head s) s l) as [s1 Hs1];
      [done|by eapply fuel_enough|].
    unfold zoom. rewrite Hs1. cbn [bind].
    apply zoom_loop_emits in Hs1 as [o ->]. apply Hinfo. }
  destruct (decide (length l = 1%nat)) as [|Hlen]; [exact Hzoom|].
  destruct Hlay as [Hrange Hstack].
  { destruct l as [|a [|b l]]; simpl in *; [done|lia|lia]. }
  cbn in Hrange, Hstack. unfold layout_handler.
  destruct (decide (layout s = ZOOM)); [exact Hzoom|].
  destruct (decide (layout s = GRID)).
  { unfold grid. cbn [bind]. destruct (Hinfo []) as [s' Hs'].
    rewrite emit_nil in Hs'. eauto. }
  assert (Hst : layout s = HSTACK ∨ layout s = VSTACK →
                ∃ s', (let* s1 := stack s in workspace_info s1) = Ret s').
  { intros Hcase. destruct (stack_total s l Hl Hne (Hstack Hcase))
      as [s1 Hs1].
    rewrite Hs1. cbn [bind]. apply stack_emits in Hs1 as [o ->].
    apply Hinfo. }
  destruct (decide (layout s = HSTACK)); [by apply Hst; left|].
  destruct (decide (layout s = VSTACK)); [by apply Hst; right|].
  destruct (decide (layout s = FIBONACCI)).
  { unfold fibonacci.
    rewrite (fibonacci_loop_total _ _ _ l); [|done|by eapply fuel_enough].
    cbn [bind]. destruct (Hinfo []) as [s' Hs'].
    rewrite emit_nil in Hs'. eauto. }
  unfold ZOOM, GRID, HSTACK, VSTACK, FIBONACCI, END_LAYOUT in *. lia.
Qed.

End Totals.

(** ** The focus controller returns on safe states *)

Section FocusTotals.

Context {cfg : Config}.

Implicit Types (s : State) (l : list ptr) (h : gmap nat Client).

Lemma to_uint_small z : 0 ≤ z < UINT_MOD → to_uint z = z.
Proof. intros H. unfold to_uint. by apply Z.mod_small. Qed.

Lemma count_bands_total k h c l n f ft :
  is_list h c l → (length l ≤ k)%nat →
  0 ≤ n → n + Z.of_nat (length l) < UINT_MOD →
  ∃ f' ft', count_bands k h c n f ft = Ret (n + Z.of_nat (length l), f', ft').
Proof.
  revert k c n f ft. induction l as [|a l IH]; intros k c n f ft Hl Hk Hn Hb;
    unfold is_list in Hl.
  - simpl in Hl. subst c. exists f, ft.
    destruct k; simpl; do 3 f_equal; lia.
  - destruct Hl as (-> & Ha & ca & Hca & Hl).
    destruct k as [|k]; [simpl in Hk; lia|]. simpl.
    destruct (decide (a = NULL)); [done|].
    rewrite (load_Some _ _ _ Hca). cbn [bind].
    simpl in Hb. rewrite to_uint_small by lia.
    edestruct (IH k (next ca) (n + 1)) as (f' & ft' & ->);
      [done|simpl in Hk; lia|lia|lia|].
    exists f', ft'. do 3 f_equal. lia.
Qed.

(** The counter [all] never runs below the number of clients still to
    place, so it does not wrap. *)
Lemma place_bands_total k c b s l hd :
  is_list (heap s) c l → heap s !! head s = Some hd →
  (length l ≤ k)%nat →
  Z.of_nat (length l) ≤ b_all b → b_all b < UINT_MOD →
  ∃ s' b', place_bands k c b s = Ret (s', b') ∧ 0 ≤ b_all b' ≤ b_all b.
Proof.
  revert k c b s. induction l as [|a l IH]; intros k c b s Hl Hhd Hk Hlo Hhi;
    unfold is_list in Hl.
  - simpl in Hl. subst c. exists s, b.
    split; [by destruct k|simpl in Hlo; lia].
  - destruct Hl as (-> & Ha & ca & Hca & Hl).
    destruct k as [|k]; [simpl in Hk; lia|]. simpl.
    destruct (decide (a = NULL)); [done|].
    rewrite (load_Some _ _ _ Hca). cbn [bind].
    rewrite (load_Some _ _ _ Hhd). cbn [bind].
    simpl in Hlo. simpl in Hk.
    assert (Hstep : ∀ b1 s1,
              heap s1 = heap s → head s1 = head s →
              Z.of_nat (length l) ≤ b_all b1 ≤ b_all b →
              ∃ s' b', place_bands k (next ca) b1 s1 = Ret (s', b') ∧
                       0 ≤ b_all b' ≤ b_all b).
    { intros b1 s1 Hh1 Hhd1 Hb1.
      destruct (IH k (next ca) b1 s1) as (s' & b' & Hs' & Hb');
        [by rewrite Hh1|by rewrite Hh1, Hhd1|lia|lia|lia|].
      exists s', b'. split; [done|lia]. }
    destruct (is_fullscreen ca) eqn:Hfs; cbn [bind];
      (apply Hstep; [done|done|]).
    + destruct (decide (a = current s)); [lia|cbn; lia].
    + destruct (decide (a = current s)); [lia|].
      destruct (FFT ca); [cbn; lia|].
      cbn. rewrite to_uint_small by lia. lia.
Qed.

Lemma restack_total s l :
  is_list (heap s) (head s) l → l ≠ [] → current s ∈ l →
  Z.of_nat (size (heap s)) < UINT_MOD - 1 →
  ∃ o b, restack s = Ret (emit o s, b).
Proof.
  intros Hl Hne Hcur Hsize.
  pose proof (lseg_length _ _ _ Hl) as Hlen.
  assert (∃ r, restack s = Ret r) as [[s' b] Hr].
  { unfold restack.
    destruct (count_bands_total (fuel s) _ _ _ 0 0 0 Hl)
      as (f & ft & ->); [by eapply fuel_enough|lia|lia|].
    cbn [bind].
    destruct (lseg_alloc _ _ _ _ _ Hl Hcur) as [cc Hcc].
    rewrite (load_Some _ _ _ Hcc). cbn [bind].
    destruct l as [|a l]; [done|].
    pose proof Hl as (Hh & _ & ca & Hca & _).
    rewrite <- Hh in Hca. rewrite (load_Some _ _ _ Hca). cbn [bind].
    match goal with |- ∃ r, (let* _ := place_bands _ _ ?b2 _ in _) = _ =>
      destruct (place_bands_total (fuel s) (head s) b2 s _ ca Hl Hca)
        as (s1 & b3 & -> & Hb3);
        [by eapply fuel_enough
        |unfold windows_write; cbn [b_all]; lia
        |unfold windows_write; cbn [b_all]; lia|] end.
    cbn [bind]. unfold windows_write in Hb3. cbn [b_all] in Hb3.
    destruct (decide (b_all b3 = UINT_MOD - 1)); [lia|]. eauto. }
  pose proof Hr as Hr'. apply restack_emits in Hr' as [o ->]. eauto.
Qed.

(** [prev_client] of a member of the list. *)
Lemma prev_client_member s l c :
  is_list (heap s) (head s) l → c ∈ l →
  ∃ p, prev_client s c = Ret p ∧
       (length l = 1%nat ∧ p = NULL ∨ (2 ≤ length l)%nat ∧ p ∈ l).
Proof.
  intros Hl Hc. pose proof (lseg_not_null _ _ _ _ _ Hl Hc) as Hcn.
  destruct (prev_client_cases s l c Hl) as (Hmem & Hlast & Hone).
  destruct l as [|a [|b l]].
  - by apply elem_of_nil in Hc.
  - exists NULL. split; [apply Hone; by right|]. by left.
  - destruct (decide (c = a)) as [->|Hca].
    + destruct Hlast as (t & Ht & _ & Hp); [done|simpl; lia| |].
      { left. by destruct Hl as (-> & _). }
      exists t. split; [done|]. right. split; [simpl; lia|].
      by apply last_Some_elem_of.
    + apply elem_of_cons in Hc as [?|Hc]; [done|].
      apply list_elem_of_split in Hc as (l1 & l2 & E).
      destruct (last (a :: l1)) as [p|] eqn:Hp;
        [|by apply last_None in Hp].
      apply last_Some in Hp as (l0 & E0).
      exists p. split.
      * apply (Hmem l0 p l2). rewrite E.
        change (a :: l1 ++ c :: l2) with ((a :: l1) ++ c :: l2).
        rewrite E0. by rewrite <- app_assoc.
      * right. split; [simpl; lia|]. rewrite E.
        change (a :: l1 ++ c :: l2) with ((a :: l1) ++ c :: l2).
        rewrite E0. rewrite elem_of_app. left.
        rewrite elem_of_app. right. by left.
Qed.

(** The focus decision on a non-empty list, case by case. *)
Lemma resolve_focus_total c s l :
  is_list (heap s) (head s) l → l ≠ [] →
  (c = prev_foc s → prev_foc s = NULL ∨ prev_foc s ∈ l) →
  (c ≠ prev_foc s → c = current s ∨ c ∈ l) →
  current s ∈ l →
  ∃ cur pf,
    resolve_focus c s = Ret (set_focus cur pf s) ∧ cur ∈ l ∧
    (c = prev_foc s →
     cur = (if decide (prev_foc s = NULL) then head s else prev_foc s) ∧
     prev_client s cur = Ret pf) ∧
    (c ≠ prev_foc s → c = current s → cur = current s ∧ pf = prev_foc s) ∧
    (c ≠ prev_foc s → c ≠ current s → cur = c ∧ pf = current s).
Proof.
  intros Hl Hne Hpf Hc Hcur. unfold resolve_focus.
  destruct (decide (c = prev_foc s)) as [E|Hn].
  - set (cur := if decide (prev_foc s = NULL) then head s else prev_foc s).
    assert (Hin : cur ∈ l).
    { unfold cur. destruct (decide (prev_foc s = NULL)) as [E0|E0].
      - destruct l as [|a l]; [done|]. destruct Hl as (-> & _). by left.
      - destruct (Hpf E); done. }
    destruct (prev_client_member s l cur Hl Hin) as (p & Hp & _).
    exists cur, p.
    change (prev_client (set_focus cur (prev_foc s) s) cur)
      with (prev_client s cur).
    rewrite Hp. cbn [bind]. repeat split; try done.
  - destruct (decide (c = current s)) as [E|Hn'].
    + exists (current s), (prev_foc s).
      split; [by destruct s|]. repeat split; try done.
    + exists c, (current s). split; [done|].
      split; [destruct (Hc Hn); done|]. repeat split; done.
Qed.

Lemma update_focused_client_total c s l :
  ws_ok s → lists_end s →
  Z.of_nat (size (heap s)) < UINT_MOD - 1 →
  is_list (heap s) (head s) l → l ≠ [] →
  layout_ok (heap s) (live s) l →
  (c = prev_foc s → prev_foc s = NULL ∨ prev_foc s ∈ l) →
  (c ≠ prev_foc s → c = current s ∨ c ∈ l) →
  current s ∈ l →
  ∃ cur pf s',
    resolve_focus c s = Ret (set_focus cur pf s) ∧ cur ∈ l ∧
    update_focused_client c s = Ret s' ∧
    moved (current_workspace s) (set_focus cur pf s) s'.
Proof.
  intros Hok Hle Hsize Hl Hne Hlay Hpf Hc Hcur.
  destruct (resolve_focus_total c s l Hl Hne Hpf Hc Hcur)
    as (cur & pf & Hres & Hin & _).
  exists cur, pf.
  assert (∃ s', update_focused_client c s = Ret s') as [s' Hs'].
  { unfold update_focused_client.
    destruct (decide (head s = NULL)) as [E|_].
    { rewrite E in Hl. by apply lseg_null in Hl as [-> _]. }
    rewrite Hres. cbn [bind].
    destruct (restack_total (set_focus cur pf s) l) as (o & b & ->);
      [done|done|done|done|].
    cbn [bind].
    destruct (lseg_alloc _ _ _ _ _ Hl Hin) as [cc Hcc].
    change (heap (emit o (set_focus cur pf s))) with (heap s).
    change (current (emit o (set_focus cur pf s))) with cur.
    rewrite (load_Some _ _ _ Hcc). cbn [bind].
    eapply (arrange_windows_total _ l); try done.
    intros i p. unfold heads, view. cbn. rewrite list_fmap_insert. cbn.
    intros Hp. eapply Hle. unfold heads, view.
    rewrite list_fmap_insert. exact Hp. }
  exists s'. split; [done|]. split; [done|]. split; [done|].
  pose proof Hs' as Hm.
  apply update_focused_client_moved in Hm as (cur' & pf' & Hm); [|done].
  (* the focus of the result is the one decided *)
  unfold update_focused_client in Hs'.
  destruct (decide (head s = NULL)) as [E|_].
  { rewrite E in Hl. by apply lseg_null in Hl as [-> _]. }
  rewrite Hres in Hs'. cbn [bind] in Hs'.
  apply bind_Ret in Hs' as ([s2 b] & Hr & Hs').
  apply bind_Ret in Hs' as (cc & _ & Hs').
  apply restack_emits in Hr as [o ->].
  apply arrange_windows_moved in Hs'; [|done]. exact Hs'.
Qed.

End FocusTotals.

(** ** Safe states *)

Section Safe.

Context {cfg : Config}.

Implicit Types (s : State) (l : list ptr) (h : gmap nat Client).

Lemma safe_moved i s s' : moved i s s' → safe s → safe s'.
Proof.
  intros (Hok & Hh & Hv & _ & _) (_ & HW & Hsize & Hws).
  unfold safe. rewrite Hh, Hv. done.
Qed.

Lemma safe_lists_end s : safe s → lists_end s.
Proof.
  intros (_ & _ & _ & Hws) i p Hp. unfold heads in Hp.
  rewrite list_lookup_fmap in Hp.
  destruct (view s !! i) as [ws|] eqn:E; [|done]. injection Hp as <-.
  destruct (Hws _ _ E) as (l & Hl & _). eauto.
Qed.

Lemma safe_live s :
  safe s →
  ∃ l, is_list (heap s) (head s) l ∧ layout_ok (heap s) (live s) l ∧
       (l ≠ [] → current s ∈ l).
Proof.
  intros (Hok & _ & _ & Hws). apply (Hws _ _ (view_active _ Hok)).
Qed.

Lemma safe_set_focus s l cur pf :
  safe s → is_list (heap s) (head s) l → (l ≠ [] → cur ∈ l) →
  safe (set_focus cur pf s).
Proof.
  intros Hsafe Hl Hcur. destruct (safe_live _ Hsafe) as (l0 & Hl0 & Hlay & _).
  rewrite (lseg_det _ _ _ _ Hl0 Hl) in Hlay.
  destruct Hsafe as (Hok & HW & Hsize & Hws).
  split; [apply Hok|]. split; [done|]. split; [done|].
  intros i ws. unfold view. cbn.
  destruct (decide (i = Z.to_nat (current_workspace s))) as [->|Hi].
  - rewrite list_lookup_insert_eq by (destruct Hok; lia).
    intros [= <-]. exists l. done.
  - rewrite list_lookup_insert_ne by done. intros Hws'. apply (Hws i).
    unfold view. by rewrite list_lookup_insert_ne.
Qed.

(** After a move to workspace [i] the live globals are slot [i]. *)
Lemma moved_live_lookup i s s' ws :
  moved i s s' → view s !! Z.to_nat i = Some ws → live s' = ws.
Proof.
  intros (Hok & _ & Hv & Hcw & _) Hws.
  pose proof (view_active _ Hok) as E. rewrite Hv, Hcw, Hws in E.
  congruence.
Qed.

(** [update_focused_client(current)]: the call that ends
    [change_workspace] and [change_layout]. *)
Lemma update_focused_current s :
  safe s →
  ∃ cur pf s',
    update_focused_client (current s) s = Ret s' ∧
    moved (current_workspace s) (set_focus cur pf s) s' ∧
    safe (set_focus cur pf s) ∧
    (head s = NULL → cur = NULL ∧ pf = NULL) ∧
    (head s ≠ NULL →
     cur = current s ∧ (current s ≠ prev_foc s → pf = prev_foc s)).
Proof.
  intros Hsafe. destruct (safe_live _ Hsafe) as (l & Hl & Hlay & Hcur).
  pose proof Hsafe as (Hok & HW & Hsize & Hws).
  destruct (decide (head s = NULL)) as [Hh|Hh].
  - exists NULL, NULL. eexists. unfold update_focused_client.
    destruct (decide (head s = NULL)); [|done].
    split; [done|]. rewrite Hh in Hl. apply lseg_null in Hl as [-> _].
    split; [|split; [|done]].
    + apply moved_emit. apply (moved_refl (set_focus NULL NULL s)).
      apply Hok.
    + eapply (safe_set_focus _ []); [done|by rewrite Hh|done].
  - assert (Hne : l ≠ []).
    { intros ->. simpl in Hl. done. }
    specialize (Hcur Hne).
    destruct (update_focused_client_total (current s) s l)
      as (cur & pf & s' & Hres & Hin & Hs' & Hm); try done.
    { by apply safe_lists_end. }
    { intros <-. by right. }
    { by left. }
    exists cur, pf, s'. split; [done|]. split; [done|].
    split; [by eapply safe_set_focus|]. split; [done|]. intros _.
    destruct (resolve_focus_total (current s) s l)
      as (cur' & pf' & Hres' & _ & Hsame & Hcurr & _); try done.
    { intros <-. by right. }
    { by left. }
    rewrite Hres in Hres'. injection Hres' as <- <-.
    destruct (decide (current s = prev_foc s)) as [E|Hn].
    + destruct (Hsame E) as [-> _]. split; [|done].
      destruct (decide (prev_foc s = NULL)) as [E0|_]; [|done].
      exfalso. rewrite <- E, E0 in *.
      by apply (lseg_not_null _ _ _ _ _ Hl Hcur).
    + destruct (Hcurr Hn eq_refl) as [-> ->]. done.
Qed.

(** One workspace switch on a safe state. *)
Lemma change_workspace_total j s wsj :
  safe s → 0 ≤ j < WORKSPACES → j ≠ current_workspace s →
  view s !! Z.to_nat j = Some wsj →
  ∃ s' cur pf,
    change_workspace j s = Ret s' ∧ safe s' ∧
    current_workspace s' = j ∧ heap s' = heap s ∧
    view s'
    = <[Z.to_nat j := mkWorkspace (ws_layout wsj) (ws_head wsj) pf cur]>
        (view s) ∧
    (ws_head wsj = NULL → cur = NULL ∧ pf = NULL) ∧
    (ws_head wsj ≠ NULL →
     cur = ws_current wsj ∧
     (ws_current wsj ≠ ws_prev_foc wsj → pf = ws_prev_foc wsj)).
Proof.
  intros Hsafe Hj Hne Hwsj. pose proof Hsafe as (Hok & HW & _).
  unfold change_workspace.
  destruct (decide _) as [[?|[?|E]]|_]; [lia|lia| |].
  { rewrite to_uint_small in E by lia. done. }
  set (s1 := set_prev_workspace (current_workspace s) s).
  assert (Hsafe1 : safe s1) by exact Hsafe.
  (* every list walked below ends *)
  assert (Hvis : ∀ mk s0, safe s0 →
            ∃ o, visibility_loop (fuel s0) mk (head s0) s0 = Ret (emit o s0)).
  { intros mk s0 Hs0. destruct (safe_live _ Hs0) as (l & Hl & _).
    destruct (visibility_loop_total (fuel s0) mk (head s0) s0 l)
      as [s0' Hs0']; [done|by eapply fuel_enough|].
    pose proof Hs0' as E. apply visibility_loop_emits in E as [o ->]. eauto. }
  destruct (select_workspace_total s1 j) as [s2 Hs2]; [apply Hok|done|].
  rewrite Hs2. cbn [bind].
  apply select_workspace_moved in Hs2 as [Hm2 _]; [|apply Hok].
  pose proof (safe_moved _ _ _ Hm2 Hsafe1) as Hsafe2.
  destruct (Hvis MapWindow s2 Hsafe2) as [o3 ->]. cbn [bind].
  assert (Hpw : prev_workspace (emit o3 s2) = current_workspace s).
  { pose proof Hm2 as (_ & _ & _ & _ & E). cbn. by rewrite E. }
  rewrite Hpw.
  destruct (select_workspace_total (emit o3 s2) (current_workspace s))
    as [s4 Hs4]; [apply Hsafe2|apply Hok|].
  rewrite Hs4. cbn [bind].
  apply select_workspace_moved in Hs4 as [Hm4 _]; [|apply Hsafe2].
  pose proof (safe_moved _ _ _ Hm4 Hsafe2) as Hsafe4.
  destruct (Hvis UnmapWindow s4 Hsafe4) as [o5 ->]. cbn [bind].
  destruct (select_workspace_total (emit o5 s4) j) as [s6 Hs6];
    [apply Hsafe4|done|].
  rewrite Hs6. cbn [bind].
  apply select_workspace_moved in Hs6 as [Hm6 _]; [|apply Hsafe4].
  pose proof (safe_moved _ _ _ Hm6 Hsafe4) as Hsafe6.
  destruct (safe_live _ Hsafe6) as (l6 & Hl6 & Hlay6 & _).
  destruct (arrange_windows_total s6 l6) as [s7 Hs7];
    [apply Hsafe6|by apply safe_lists_end|done|done|].
  rewrite Hs7. cbn [bind].
  apply arrange_windows_moved in Hs7; [|apply Hsafe6].
  pose proof (safe_moved _ _ _ Hs7 Hsafe6) as Hsafe7.
  destruct (update_focused_current s7 Hsafe7)
    as (cur & pf & s8 & Hs8 & Hm8 & Hsafe7' & Hnull & Hfull).
  rewrite Hs8. cbn [bind].
  pose proof (safe_moved _ _ _ Hm8 Hsafe7') as Hsafe8.
  destruct (workspace_info_total s8) as [s9 Hs9];
    [apply Hsafe8|by apply safe_lists_end|].
  exists s9, cur, pf. split; [done|].
  apply workspace_info_moved in Hs9; [|apply Hsafe8].
  (* the views along the way *)
  assert (Hv6 : view s6 = view s ∧ heap s6 = heap s ∧ current_workspace s6 = j).
  { destruct Hm2 as (_ & Hh2 & Hv2 & _ & _).
    destruct Hm4 as (_ & Hh4 & Hv4 & _ & _).
    destruct Hm6 as (_ & Hh6 & Hv6 & Hcw6 & _).
    split; [|split; [|done]].
    - rewrite Hv6. change (view (emit o5 s4)) with (view s4).
      rewrite Hv4. change (view (emit o3 s2)) with (view s2).
      by rewrite Hv2.
    - rewrite Hh6. change (heap (emit o5 s4)) with (heap s4).
      rewrite Hh4. change (heap (emit o3 s2)) with (heap s2).
      by rewrite Hh2. }
  destruct Hv6 as (Hv6 & Hh6 & Hcw6).
  assert (Hlive7 : live s7 = wsj ∧ view s7 = view s ∧ heap s7 = heap s ∧
                   current_workspace s7 = j).
  { destruct Hs7 as (Hok7 & Hh7 & Hv7 & Hcw7 & _).
    split; [|split; [congruence|split; congruence]].
    pose proof (view_active _ Hok7) as E.
    rewrite Hv7, Hv6, Hcw7, Hcw6, Hwsj in E. congruence. }
  destruct Hlive7 as (Hlive7 & Hv7 & Hh7 & Hcw7).
  assert (Hhd7 : head s7 = ws_head wsj) by (by rewrite <- Hlive7).
  assert (Hcur7 : current s7 = ws_current wsj) by (by rewrite <- Hlive7).
  assert (Hpf7 : prev_foc s7 = ws_prev_foc wsj) by (by rewrite <- Hlive7).
  assert (Hly7 : layout s7 = ws_layout wsj) by (by rewrite <- Hlive7).
  pose proof (safe_moved _ _ _ Hs9 Hsafe8) as Hsafe9.
  destruct Hm8 as (Hok8 & Hh8 & Hv8 & Hcw8 & _).
  destruct Hs9 as (Hok9 & Hh9 & Hv9 & Hcw9 & _).
  split; [done|].
  cbn in Hh8, Hcw8.
  split; [congruence|]. split; [congruence|]. split.
  - rewrite Hv9, Hv8. unfold view at 1. cbn. unfold live. cbn.
    rewrite <- view_insert_active, Hv7, Hcw7, Hly7, Hhd7. done.
  - rewrite <- Hhd7, <- Hcur7, <- Hpf7. done.
Qed.

End Safe.

(** ** The walks never run out of fuel on lists that end *)

Section Fuel.

Context {cfg : Config}.

Implicit Types (s : State) (l : list ptr) (h : gmap nat Client).

Lemma fueled_Ret {A : Type} (a : A) : fueled (Ret a).
Proof. intros H. discriminate H. Qed.

Lemma fueled_total {A : Type} (r : res A) : (∃ a, r = Ret a) → fueled r.
Proof. intros [a ->]. done. Qed.

Lemma fueled_bind {A B : Type} (m : res A) (k : A → res B) :
  fueled m → (∀ a, m = Ret a → fueled (k a)) → fueled (bind m k).
Proof.
  intros Hm Hk. destruct m as [a|f]; simpl; [by apply Hk|].
  intros [= ->]. by apply Hm.
Qed.

Lemma fueled_load h p : fueled (load h p).
Proof. unfold load. by destruct (h !! p). Qed.

Lemma sound_bind {A B : Type} (Q : B → Prop) (m : res A) (k : A → res B) :
  fueled m → (∀ a, m = Ret a → sound Q (k a)) → sound Q (bind m k).
Proof.
  intros Hm Hk. destruct m as [a|f]; simpl; [by apply Hk|].
  intros ->. by apply Hm.
Qed.

Lemma sound_intro {A : Type} (Q : A → Prop) (r : res A) :
  fueled r → (∀ a, r = Ret a → Q a) → sound Q r.
Proof.
  intros Hr HQ. destruct r as [a|f]; simpl; [by apply HQ|].
  intros ->. by apply Hr.
Qed.

Lemma sound_fueled {A : Type} (Q : A → Prop) (r : res A) :
  sound Q r → fueled r.
Proof. destruct r as [a|f]; simpl; [done|]. intros Hf [= ->]. done. Qed.

Lemma sound_Ret {A : Type} (Q : A → Prop) (r : res A) (a : A) :
  sound Q r → r = Ret a → Q a.
Proof. by intros H ->. Qed.

Lemma store_next_fueled p n s : fueled (store_next p n s).
Proof.
  unfold store_next. apply fueled_bind; [apply fueled_load|done].
Qed.

Lemma write_link_fueled t v s : fueled (write_link t v s).
Proof. destruct t; simpl; [done|done|apply store_next_fueled]. Qed.

Lemma free_fueled c s : fueled (free c s).
Proof. unfold free. apply fueled_bind; [apply fueled_load|done]. Qed.

Lemma select_workspace_fueled i s : fueled (select_workspace i s).
Proof.
  unfold select_workspace, save_workspace.
  apply fueled_bind.
  - destruct (decide _); [done|]. by destruct (workspaces s !! _).
  - intros s1 _. apply fueled_bind; [|done]. unfold slot.
    destruct (decide _); [done|]. by destruct (workspaces s1 !! _).
Qed.

Lemma find_win_fueled k h wn c l :
  is_list h c l → (length l ≤ k)%nat → fueled (find_win k h wn c).
Proof.
  revert k c. induction l as [|a l IH]; intros k c Hl Hk;
    unfold is_list in Hl.
  - simpl in Hl. subst c. by destruct k.
  - destruct Hl as (-> & Ha & ca & Hca & Hl).
    destruct k as [|k]; [simpl in Hk; lia|]. simpl.
    destruct (decide (a = NULL)); [done|].
    rewrite (load_Some _ _ _ Hca). cbn [bind].
    destruct (decide (wn = win ca)); [done|].
    apply IH; [done|simpl in Hk; lia].
Qed.

Lemma win_to_client_loop_fueled k w wn s :
  ws_ok s → lists_end s → fueled (win_to_client_loop k w wn s).
Proof.
  revert w s. induction k as [|k IH]; intros w s Hok Hle; [done|].
  cbn -[fuel select_workspace find_win].
  apply fueled_bind; [apply select_workspace_fueled|]. intros s1 Hs1.
  apply select_workspace_moved in Hs1 as [Hm _]; [|done].
  pose proof (lists_end_moved _ _ _ Hm Hle) as Hle1.
  pose proof Hm as (Hok1 & _).
  destruct (Hle1 _ _ (heads_active _ Hok1)) as [l Hl].
  apply fueled_bind.
  { eapply find_win_fueled; [exact Hl|by eapply fuel_enough]. }
  intros c _. destruct (decide (c = NULL)); [by apply IH|done].
Qed.

Lemma win_to_client_fueled wn s :
  ws_ok s → lists_end s → fueled (win_to_client wn s).
Proof.
  intros Hok Hle. unfold win_to_client.
  apply fueled_bind; [by apply win_to_client_loop_fueled|].
  intros [[s1 c] w] _. destruct (decide _); [|done].
  apply fueled_bind; [apply select_workspace_fueled|done].
Qed.

Lemma stack_loop_fueled k vert span c cx cy s :
  fueled (stack_loop k vert span c cx cy s).
Proof.
  revert c cx cy s. induction k as [|k IH]; intros c cx cy s; [done|].
  simpl. apply fueled_bind; [apply fueled_load|]. intros cl _.
  destruct vert; apply IH.
Qed.

Lemma stack_fueled s l : is_list (heap s) (head s) l → fueled (stack s).
Proof.
  intros Hl. unfold stack, get_non_tff_count.
  destruct (get_non_tff_count_loop_total (fuel s) _ _ _ 0 Hl)
    as (m & -> & _); [by eapply fuel_enough|].
  cbn [bind]. destruct (decide _); [done|].
  apply fueled_bind; [apply fueled_load|]. intros hd _.
  destruct (decide _); [done|]. apply stack_loop_fueled.
Qed.

Lemma layout_handler_fueled i handler s l :
  is_list (heap s) (head s) l → layout_handler i = Some handler →
  fueled (handler s).
Proof.
  intros Hl Hh. unfold layout_handler in Hh.
  repeat (destruct (decide _) in Hh); try discriminate;
    injection Hh as <-.
  - apply fueled_total. unfold zoom.
    eapply zoom_loop_total; [exact Hl|by eapply fuel_enough].
  - done.
  - by eapply stack_fueled.
  - by eapply stack_fueled.
  - unfold fibonacci.
    by rewrite (fibonacci_loop_total _ _ _ l);
      [|done|by eapply fuel_enough].
Qed.

Lemma arrange_windows_fueled s :
  ws_ok s → lists_end s → fueled (arrange_windows s).
Proof.
  intros Hok Hle. unfold arrange_windows.
  destruct (decide _); [done|].
  destruct (Hle _ _ (heads_active _ Hok)) as [l Hl].
  apply fueled_bind.
  { unfold selected_layout. apply fueled_bind; [apply fueled_load|done]. }
  intros i _. destruct (layout_handler i) as [handler|] eqn:Hh; [|done].
  apply fueled_bind; [by eapply layout_handler_fueled|].
  intros s1 Hs1. eapply layout_handler_emits in Hs1 as [o ->]; [|done].
  apply fueled_total. by apply workspace_info_total.
Qed.

Lemma prev_client_loop_fueled k h c p l :
  lseg h p l NULL → l ≠ [] → (length l ≤ k)%nat →
  fueled (prev_client_loop k h c p).
Proof.
  revert k p. induction l as [|a l IH]; intros k p Hl Hne Hk; [done|].
  destruct Hl as (-> & Ha & ca & Hca & Hl).
  destruct k as [|k]; [simpl in Hk; lia|]. simpl.
  rewrite (load_Some _ _ _ Hca). cbn [bind].
  destruct (decide _) as [[Hn _]|_]; [|done].
  apply IH; [done| |simpl in Hk; lia].
  intros ->. simpl in Hl. done.
Qed.

Lemma prev_client_fueled s c l :
  heap s !! NULL = None → is_list (heap s) (head s) l →
  fueled (prev_client s c).
Proof.
  intros Hn Hl. unfold prev_client. destruct (decide _); [done|].
  destruct l as [|a l].
  - simpl in Hl. rewrite Hl. unfold load. by rewrite Hn.
  - apply fueled_bind; [apply fueled_load|]. intros hd _.
    destruct (decide _); [done|].
    eapply prev_client_loop_fueled; [exact Hl|done|by eapply fuel_enough].
Qed.

Lemma resolve_focus_fueled c s l :
  heap s !! NULL = None → is_list (heap s) (head s) l →
  fueled (resolve_focus c s).
Proof.
  intros Hn Hl. unfold resolve_focus.
  destruct (decide _); [|by destruct (decide _)].
  apply fueled_bind; [|done]. by eapply (prev_client_fueled _ _ l).
Qed.

Lemma count_bands_fueled k h c l all f ft :
  is_list h c l → (length l ≤ k)%nat → fueled (count_bands k h c all f ft).
Proof.
  revert k c all f ft. induction l as [|a l IH]; intros k c all f ft Hl Hk;
    unfold is_list in Hl.
  - simpl in Hl. subst c. by destruct k.
  - destruct Hl as (-> & Ha & ca & Hca & Hl).
    destruct k as [|k]; [simpl in Hk; lia|]. simpl.
    destruct (decide (a = NULL)); [done|].
    rewrite (load_Some _ _ _ Hca). cbn [bind].
    apply IH; [done|simpl in Hk; lia].
Qed.

Lemma place_bands_fueled k c b s l :
  is_list (heap s) c l → (length l ≤ k)%nat → fueled (place_bands k c b s).
Proof.
  revert k c b s. induction l as [|a l IH]; intros k c b s Hl Hk;
    unfold is_list in Hl.
  - simpl in Hl. subst c. by destruct k.
  - destruct Hl as (-> & Ha & ca & Hca & Hl).
    destruct k as [|k]; [simpl in Hk; lia|]. simpl.
    destruct (decide (a = NULL)); [done|].
    rewrite (load_Some _ _ _ Hca). cbn [bind].
    apply fueled_bind.
    { destruct (is_fullscreen ca); [done|].
      apply fueled_bind; [apply fueled_load|done]. }
    intros bw _. apply IH; [done|simpl in Hk; lia].
Qed.

Lemma restack_fueled s l :
  is_list (heap s) (head s) l → fueled (restack s).
Proof.
  intros Hl. unfold restack.
  apply fueled_bind.
  { eapply count_bands_fueled; [exact Hl|by eapply fuel_enough]. }
  intros [[all f] ft] _.
  apply fueled_bind; [apply fueled_load|]. intros cur _.
  apply fueled_bind; [apply fueled_load|]. intros hd _.
  apply fueled_bind.
  { eapply place_bands_fueled; [exact Hl|by eapply fuel_enough]. }
  intros [s1 b3] _. by destruct (decide _).
Qed.

Lemma update_focused_client_fueled c s :
  store_ok s → fueled (update_focused_client c s).
Proof.
  intros Hst. pose proof Hst as (Hok & Hn & Hle & _).
  destruct (store_ok_live _ Hst) as [l Hl].
  unfold update_focused_client. destruct (decide _); [done|].
  apply fueled_bind; [by eapply resolve_focus_fueled|].
  intros s1 Hs1. apply resolve_focus_inv in Hs1 as (cur & pf & ->).
  apply fueled_bind; [by eapply (restack_fueled _ l)|].
  intros [s2 b] Hs2. apply restack_emits in Hs2 as [o ->].
  apply fueled_bind; [apply fueled_load|]. intros cc _.
  apply arrange_windows_fueled; [apply Hok|].
  intros i p. unfold heads, view. cbn. rewrite list_fmap_insert. cbn.
  intros Hp. eapply Hle. unfold heads, view.
  rewrite list_fmap_insert. exact Hp.
Qed.

Lemma client_from_window_fueled wn a s :
  store_ok s → fueled (client_from_window wn a s).
Proof.
  intros Hst. pose proof Hst as (Hok & Hn & _).
  destruct (store_ok_live _ Hst) as [l Hl].
  unfold client_from_window. apply fueled_bind.
  { unfold calloc. destruct (decide _); [done|].
    by destruct (heap s !! a). }
  intros s1 Hs1. apply fueled_bind.
  { unfold calloc in Hs1. destruct (decide (a = NULL)) as [|Ha].
    - injection Hs1 as <-. by eapply prev_client_fueled.
    - destruct (heap s !! a) eqn:Hfresh; [done|]. injection Hs1 as <-.
      eapply (prev_client_fueled _ _ l); cbn.
      + by rewrite lookup_insert_ne.
      + eapply lseg_frame; [|exact Hl]. intros x Hx.
        rewrite lookup_insert_ne; [done|]. intros <-.
        destruct (lseg_alloc _ _ _ _ _ Hl Hx). congruence. }
  intros t _. destruct (decide _); [done|].
  apply fueled_bind.
  { destruct (decide _); [done|].
    destruct (decide _); apply store_next_fueled. }
  intros s2 _. apply fueled_bind; [apply fueled_load|done].
Qed.

Lemma find_link_unfold k s c temp :
  temp ≠ LinkNull →
  find_link (S k) s c temp
  = (let* q := read_link s temp in
     if decide (q = c) then Ret (temp, true)
     else find_link k s c (link_of_next q)).
Proof. by destruct temp. Qed.

Lemma find_link_fueled k s c temp q l :
  temp ≠ LinkNull → read_link s temp = Ret q → lseg (heap s) q l NULL →
  (length l < k)%nat → fueled (find_link k s c temp).
Proof.
  revert k temp q. induction l as [|a l IH]; intros k temp q Ht Hr Hl Hk;
    (destruct k as [|k]; [simpl in Hk; lia|]);
    rewrite find_link_unfold by done; rewrite Hr; cbn [bind];
    (destruct (decide (q = c)); [done|]); unfold link_of_next.
  - simpl in Hl. subst q. destruct (decide (NULL = NULL)); [|done].
    by rewrite find_link_null.
  - destruct Hl as (-> & Ha & ca & Hca & Hl).
    destruct (decide (a = NULL)); [done|].
    eapply (IH k (LinkNext a) (next ca)); [done| |done|simpl in Hk; lia].
    simpl. by rewrite (load_Some _ _ _ Hca).
Qed.

Lemma remove_client_loop_fueled k w c temp s :
  ws_ok s → lists_end s →
  fueled (remove_client_loop k w (current_workspace s) c temp s).
Proof.
  revert w temp s. induction k as [|k IH]; intros w temp s Hok Hle; [done|].
  cbn -[find_link fuel select_workspace].
  apply fueled_bind; [apply select_workspace_fueled|]. intros s1 Hs1.
  apply select_workspace_moved in Hs1 as [Hm _]; [|done].
  pose proof (lists_end_moved _ _ _ Hm Hle) as Hle1.
  pose proof Hm as (Hok1 & _ & _ & Hcw1 & _).
  destruct (Hle1 _ _ (heads_active _ Hok1)) as [l Hl].
  apply fueled_bind.
  { eapply (find_link_fueled _ _ _ _ (head s1) l); [done|done|done|].
    apply lseg_length in Hl. unfold fuel. lia. }
  intros [t found] _. destruct found; [done|].
  rewrite <- Hcw1. by apply IH.
Qed.

End Fuel.

(** ** Every handler keeps the store invariant *)

Section Handlers.

Context {cfg : Config}.

Implicit Types (s : State) (l : list ptr).

Lemma store_ok_lists_end s : store_ok s → lists_end s.
Proof. by intros (_ & _ & H & _). Qed.

Lemma update_focused_client_sound c s :
  store_ok s → sound store_ok (update_focused_client c s).
Proof.
  intros Hst. apply sound_intro; [by apply update_focused_client_fueled|].
  intros s' Hs'. by apply update_focused_client_ok in Hs' as [? _].
Qed.

Lemma arrange_windows_sound s :
  store_ok s → sound store_ok (arrange_windows s).
Proof.
  intros Hst. apply sound_intro.
  - apply arrange_windows_fueled; [apply Hst|by apply store_ok_lists_end].
  - intros s' Hs'. apply arrange_windows_moved in Hs'; [|apply Hst].
    by eapply store_ok_moved.
Qed.

Lemma workspace_info_sound s :
  store_ok s → sound store_ok (workspace_info s).
Proof.
  intros Hst. apply sound_intro.
  - apply fueled_total, workspace_info_total;
      [apply Hst|by apply store_ok_lists_end].
  - intros s' Hs'. apply workspace_info_moved in Hs'; [|apply Hst].
    by eapply store_ok_moved.
Qed.

Lemma remove_client_sound c s :
  store_ok s → c ≠ NULL → sound store_ok (remove_client c s).
Proof.
  intros Hst Hc. pose proof Hst as (Hok & _).
  destruct (store_ok_live _ Hst) as [l Hlive].
  unfold remove_client.
  (* the search *)
  apply sound_bind.
  { apply remove_client_loop_fueled; [done|by apply store_ok_lists_end]. }
  intros [[s1 temp] w] Hloop.
  eapply remove_client_loop_spec in Hloop as [Hm1 Hcase]; [|done|done|done].
  pose proof (store_ok_moved _ _ _ Hm1 Hst) as Hst1.
  pose proof Hm1 as (Hok1 & Hh1 & _ & Hcw1 & _).
  pose proof (moved_head _ _ Hok Hm1) as Hhd1.
  apply sound_bind; [apply fueled_load|]. intros cl Hload.
  (* the store through [temp] *)
  apply sound_bind; [apply write_link_fueled|]. intros s2 Hw.
  assert (Hfound : ∃ l1 l2, l = l1 ++ c :: l2 ∧ temp = link_after l1).
  { destruct Hcase as [->|[->|?]]; [done|done|done]. }
  destruct Hfound as (l1 & l2 & -> & ->).
  apply load_Ret in Hload.
  eapply unlink_ok in Hw as (Hst2 & Hu2 & Hc2 & Hcw2);
    [|done|by rewrite Hh1, Hhd1|done].
  (* [prev_foc] *)
  apply sound_bind.
  { destruct (decide (c = prev_foc s2)); [|apply fueled_Ret].
    destruct (store_ok_live _ Hst2) as [l' Hl'].
    apply fueled_bind; [|intros; apply fueled_Ret].
    eapply prev_client_fueled; [apply Hst2|exact Hl']. }
  intros s3 Hs3.
  assert (Hs3' : store_ok s3 ∧ unlisted s3 c ∧
                 current_workspace s3 = current_workspace s2).
  { destruct (decide (c = prev_foc s2)).
    - apply bind_Ret in Hs3 as (p & _ & Hs3). injection Hs3 as <-.
      split; [by apply store_ok_set_focus|].
      split; [by apply unlisted_set_focus|]. done.
    - injection Hs3 as <-. done. }
  destruct Hs3' as (Hst3 & Hu3 & Hcw3).
  (* [c] is not the head any more *)
  assert (Hnh : c ≠ head s3).
  { intros E. destruct (store_ok_live _ Hst3) as [l3 Hl3].
    rewrite <- E in Hl3.
    destruct (lseg_cons_inv _ _ _ Hc Hl3) as (? & l' & -> & _ & _).
    eapply (Hu3 (Z.to_nat (current_workspace s3)) c);
      [rewrite E; apply heads_active, Hst3|exact Hl3|by left]. }
  cbn zeta. destruct (decide (c = head s3)) as [|_]; [done|].
  (* the focus update *)
  apply sound_bind.
  { destruct (decide (c = current s3)); [apply fueled_Ret|].
    apply fueled_bind; [apply fueled_load|]. intros hd _.
    apply fueled_Ret. }
  intros upd _.
  apply sound_bind.
  { destruct upd; [by apply update_focused_client_fueled|apply fueled_Ret]. }
  intros s5 Hs5.
  assert (Hs5' : store_ok s5 ∧ unlisted s5 c ∧
                 current_workspace s5 = current_workspace s3).
  { destruct upd.
    - apply update_focused_client_ok in Hs5 as (? & Hh5 & Hhd5 & ?);
        [|done].
      split; [done|]. split; [|done]. by eapply unlisted_ext.
    - injection Hs5 as <-. done. }
  destruct Hs5' as (Hst5 & Hu5 & Hcw5).
  apply sound_bind; [apply free_fueled|]. intros s6 Hs6.
  eapply free_ok in Hs6 as [Hst6 Hm6]; [|done|done].
  apply sound_bind.
  { destruct (decide (current_workspace s = w - 1)).
    - by eapply sound_fueled, arrange_windows_sound.
    - apply select_workspace_fueled. }
  intros s7 Hs7.
  apply workspace_info_sound.
  destruct (decide (current_workspace s = w - 1)).
  - apply arrange_windows_moved in Hs7; [|apply Hst6].
    by eapply store_ok_moved.
  - apply select_workspace_moved in Hs7 as [Hs7 _]; [|apply Hst6].
    by eapply store_ok_moved.
Qed.

Lemma win_to_client_sound wn s :
  store_ok s → sound (λ r, store_ok r.1) (win_to_client wn s).
Proof.
  intros Hst. apply sound_intro.
  - apply win_to_client_fueled; [apply Hst|by apply store_ok_lists_end].
  - intros [s1 c] H. apply win_to_client_moved in H; [|apply Hst].
    by eapply store_ok_moved.
Qed.

Lemma map_request_event_sound wn wa transient a s :
  store_ok s → sound store_ok (map_request_event wn wa transient a s).
Proof.
  intros Hst. unfold map_request_event.
  destruct wa as [[|]|]; [done| |done].
  apply sound_bind; [by eapply sound_fueled, win_to_client_sound|].
  intros [s1 known] Hfind.
  pose proof (sound_Ret _ _ _ (win_to_client_sound wn s Hst) Hfind) as Hst1.
  cbn in Hst1. destruct (decide (known ≠ NULL)); [done|].
  apply sound_bind; [by apply client_from_window_fueled|].
  intros [s2 c] Hnew.
  apply client_from_window_ok in Hnew as (Hst2 & -> & _ & _); [|done].
  apply sound_bind; [apply fueled_load|]. intros cl Hload.
  apply load_Ret in Hload. cbn zeta.
  assert (Hst3 : store_ok
            (set_heap (<[a := set_float_trans (bool_of_int transient) cl]>
                         (heap s2)) s2)).
  { eapply store_ok_same_next; [exact Hst2|apply Hst2|done|].
    intros x. cbn. by eapply same_next_insert. }
  apply sound_bind; [by eapply sound_fueled, arrange_windows_sound|].
  intros s4 Harr.
  pose proof (sound_Ret _ _ _ (arrange_windows_sound _ Hst3) Harr) as Hst4.
  apply sound_bind; [apply fueled_load|]. intros cl4 _.
  by apply update_focused_client_sound.
Qed.

Lemma destroy_event_sound wn s :
  store_ok s → sound store_ok (destroy_event wn s).
Proof.
  intros Hst. unfold destroy_event.
  apply sound_bind; [by eapply sound_fueled, win_to_client_sound|].
  intros [s1 c] Hfind.
  pose proof (sound_Ret _ _ _ (win_to_client_sound wn s Hst) Hfind) as Hst1.
  cbn in Hst1. destruct (decide (c ≠ NULL)); [|done].
  by apply remove_client_sound.
Qed.

Lemma enter_event_sound wn s :
  store_ok s → sound store_ok (enter_event wn s).
Proof.
  intros Hst. unfold enter_event. destruct FOCUS_MOUSE; [|done].
  apply sound_bind; [by eapply sound_fueled, win_to_client_sound|].
  intros [s1 c] Hfind.
  pose proof (sound_Ret _ _ _ (win_to_client_sound wn s Hst) Hfind) as Hst1.
  cbn in Hst1. destruct (decide (c ≠ NULL)); [|done].
  by apply update_focused_client_sound.
Qed.

Lemma select_workspace_sound i s :
  store_ok s → sound store_ok (select_workspace i s).
Proof.
  intros Hst. apply sound_intro; [apply select_workspace_fueled|].
  intros s' Hs'. apply select_workspace_moved in Hs' as [Hm _]; [|apply Hst].
  by eapply store_ok_moved.
Qed.

Lemma visibility_loop_sound mk s :
  store_ok s → sound store_ok (visibility_loop (fuel s) mk (head s) s).
Proof.
  intros Hst. destruct (store_ok_live _ Hst) as [l Hl].
  apply sound_intro.
  - apply fueled_total.
    eapply visibility_loop_total; [exact Hl|by eapply fuel_enough].
  - intros s' Hs'. by apply visibility_loop_emits in Hs' as [o ->].
Qed.

Lemma change_workspace_sound i s :
  store_ok s → sound store_ok (change_workspace i s).
Proof.
  intros Hst. unfold change_workspace. destruct (decide _); [done|].
  cbn zeta.
  assert (Hst1 : store_ok (set_prev_workspace (current_workspace s) s))
    by exact Hst.
  apply sound_bind; [by eapply sound_fueled, select_workspace_sound|].
  intros s2 Hs2.
  pose proof (sound_Ret _ _ _ (select_workspace_sound _ _ Hst1) Hs2) as Hst2.
  apply sound_bind; [by eapply sound_fueled, visibility_loop_sound|].
  intros s3 Hs3.
  pose proof (sound_Ret _ _ _ (visibility_loop_sound _ _ Hst2) Hs3) as Hst3.
  apply sound_bind; [by eapply sound_fueled, select_workspace_sound|].
  intros s4 Hs4.
  pose proof (sound_Ret _ _ _ (select_workspace_sound _ _ Hst3) Hs4) as Hst4.
  apply sound_bind; [by eapply sound_fueled, visibility_loop_sound|].
  intros s5 Hs5.
  pose proof (sound_Ret _ _ _ (visibility_loop_sound _ _ Hst4) Hs5) as Hst5.
  apply sound_bind; [by eapply sound_fueled, select_workspace_sound|].
  intros s6 Hs6.
  pose proof (sound_Ret _ _ _ (select_workspace_sound _ _ Hst5) Hs6) as Hst6.
  apply sound_bind; [by eapply sound_fueled, arrange_windows_sound|].
  intros s7 Hs7.
  pose proof (sound_Ret _ _ _ (arrange_windows_sound _ Hst6) Hs7) as Hst7.
  apply sound_bind;
    [by eapply sound_fueled, update_focused_client_sound|].
  intros s8 Hs8.
  pose proof (sound_Ret _ _ _ (update_focused_client_sound _ _ Hst7) Hs8)
    as Hst8.
  by apply workspace_info_sound.
Qed.

Lemma change_layout_sound i s :
  store_ok s → sound store_ok (change_layout i s).
Proof.
  intros Hst. unfold change_layout. destruct (decide _); [done|].
  cbn zeta.
  assert (Hst1 : store_ok (set_layout i (layout s) s)).
  { eapply store_ok_ext; [| | |exact Hst]; [apply Hst|done|].
    unfold heads, view. cbn. by rewrite !list_fmap_insert. }
  apply sound_bind; [by eapply sound_fueled, arrange_windows_sound|].
  intros s2 Hs2.
  pose proof (sound_Ret _ _ _ (arrange_windows_sound _ Hst1) Hs2) as Hst2.
  apply sound_bind;
    [by eapply sound_fueled, update_focused_client_sound|].
  intros s3 Hs3.
  pose proof (sound_Ret _ _ _ (update_focused_client_sound _ _ Hst2) Hs3)
    as Hst3.
  by apply workspace_info_sound.
Qed.

Lemma handle_sound e s : store_ok s → sound store_ok (handle e s).
Proof.
  intros Hst. destruct e; simpl.
  - by apply map_request_event_sound.
  - by apply destroy_event_sound.
  - by apply enter_event_sound.
  - by apply change_workspace_sound.
  - by apply change_layout_sound.
Qed.

Lemma run_sound es s : store_ok s → sound store_ok (run es s).
Proof.
  revert s. induction es as [|e es IH]; intros s Hst; simpl; [done|].
  apply sound_bind; [by eapply sound_fueled, handle_sound|].
  intros s1 Hs1. apply IH.
  exact (sound_Ret _ _ _ (handle_sound e s Hst) Hs1).
Qed.

End Handlers.

(** ** Faults that do not depend on the sample *)

Section Faults.

Context {cfg : Config}.

Implicit Types (s : State) (l : list ptr).

(** A stack layout on a list whose head is floating, transient or
    fullscreen divides by zero. *)
Lemma stack_head_not_tiled s c :
  head s ≠ NULL → heap s !! head s = Some c → FFT c = true →
  stack s = Fail DivByZero.
Proof.
  intros Hh Hc Hf. unfold stack, get_non_tff_count, fuel. simpl.
  destruct (decide (head s = NULL)); [done|].
  rewrite (load_Some _ _ _ Hc). cbn [bind]. rewrite Hf. cbn [bind].
  by destruct (decide (0 = 0)).
Qed.

(** The inner search of [remove_client] for a client that is not in the
    list ends on the null link. *)
Lemma find_link_absent k s c temp q l :
  c ≠ NULL → c ∉ l → temp ≠ LinkNull →
  read_link s temp = Ret q → lseg (heap s) q l NULL →
  (length l < k)%nat →
  find_link k s c temp = Ret (LinkNull, false).
Proof.
  intros Hc. revert k temp q.
  induction l as [|a l IH]; intros k temp q Hin Ht Hr Hl Hk;
    (destruct k as [|k]; [simpl in Hk; lia|]);
    rewrite find_link_unfold by done; rewrite Hr; cbn [bind];
    unfold link_of_next.
  - simpl in Hl. subst q. destruct (decide (NULL = c)); [done|].
    destruct (decide (NULL = NULL)); [|done]. apply find_link_null.
  - destruct Hl as (-> & Ha & ca & Hca & Hl).
    apply not_elem_of_cons in Hin as [Hne Hin].
    destruct (decide (a = c)); [done|].
    destruct (decide (a = NULL)); [done|].
    eapply (IH k (LinkNext a) (next ca)); [done|done| |done|simpl in Hk; lia].
    simpl. by rewrite (load_Some _ _ _ Hca).
Qed.

Lemma remove_client_loop_absent k w c s l :
  ws_ok s → c ≠ NULL → is_list (heap s) (head s) l → c ∉ l →
  ∃ s1, remove_client_loop k w (current_workspace s) c LinkNull s
        = Ret (s1, LinkNull, w + Z.of_nat k) ∧
        moved (current_workspace s) s s1.
Proof.
  revert w s. induction k as [|k IH]; intros w s Hok Hc Hl Hin.
  { exists s. split; [simpl; do 2 f_equal; lia|by apply moved_refl]. }
  cbn -[find_link fuel select_workspace].
  destruct (select_workspace_total s (current_workspace s)) as [s1 Hs1];
    [done|apply Hok|].
  rewrite Hs1. cbn [bind].
  apply select_workspace_moved in Hs1 as [Hm _]; [|done].
  pose proof Hm as (Hok1 & Hh1 & _ & Hcw1 & _).
  pose proof (moved_head _ _ Hok Hm) as Hhd1.
  rewrite (find_link_absent _ _ _ _ (head s1) l); try done.
  2:{ by rewrite Hh1, Hhd1. }
  2:{ apply lseg_length in Hl. unfold fuel. rewrite Hh1. lia. }
  cbn [bind]. rewrite <- Hcw1.
  destruct (IH (w + 1) s1) as (s2 & Hs2 & Hm2);
    [done|done|by rewrite Hh1, Hhd1|done|].
  exists s2. rewrite Hs2. split; [do 2 f_equal; lia|].
  eapply moved_trans; [exact Hm|exact Hm2].
Qed.

(** [remove_client] on a client of an inactive workspace: the search
    goes through the active list [WORKSPACES] times and the store
    through the null [temp] faults. *)
Lemma remove_client_inactive s c j p lj :
  store_ok s → j ≠ Z.to_nat (current_workspace s) →
  heads s !! j = Some p → is_list (heap s) p lj → c ∈ lj →
  remove_client c s = Fail BadPointer.
Proof.
  intros Hst Hj Hp Hlj Hc. pose proof Hst as (Hok & _ & _ & Hd).
  destruct (store_ok_live _ Hst) as [l Hl].
  assert (Hcn : c ≠ NULL) by exact (lseg_not_null _ _ _ _ _ Hlj Hc).
  assert (Hcl : c ∉ l).
  { intros Hin. eapply (Hd (Z.to_nat (current_workspace s)) j);
      eauto using heads_active. }
  destruct (lseg_alloc _ _ _ _ _ Hlj Hc) as [cl Hcl'].
  unfold remove_client.
  destruct (remove_client_loop_absent (Z.to_nat WORKSPACES) 0 c s l)
    as (s1 & -> & Hm); try done.
  cbn [bind]. destruct Hm as (_ & -> & _).
  by rewrite (load_Some _ _ _ Hcl').
Qed.

End Faults.

(** * Closed forms of the handlers that walk over the workspaces *)

Section Flush.

Context {cfg : Config}.

Implicit Types (s : State) (l : list ptr) (h : gmap nat Client).

Lemma view_flush s : ws_ok s → view (flush s) = view s.
Proof.
  intros Hok.
  change (view (flush s))
    with (<[Z.to_nat (current_workspace s) := live s]> (view s)).
  apply list_insert_id. by apply view_active.
Qed.

Lemma set_live_active s :
  set_live (live s) (current_workspace s) (flush s) = flush s.
Proof. by destruct s. Qed.

(** The states a handler passes through while it visits the workspaces:
    slot [i] loaded over the flushed state, with some output. *)
Lemma slot_state_ok s i ws o :
  ws_ok s → 0 ≤ i → view s !! Z.to_nat i = Some ws →
  ws_ok (emit o (set_live ws i (flush s))) ∧
  view (emit o (set_live ws i (flush s))) = view s.
Proof.
  intros [Hcw Hlen] Hi Hws.
  pose proof (lookup_lt_Some _ _ _ Hws) as Hlt. rewrite view_length in Hlt.
  split.
  - split; cbn; [lia|]. by rewrite view_length.
  - unfold view at 1. cbn. unfold live. cbn. rewrite workspace_eta.
    by apply list_insert_id.
Qed.

Lemma select_from_slot s i ws j ws' o :
  ws_ok s → 0 ≤ i → view s !! Z.to_nat i = Some ws →
  0 ≤ j → view s !! Z.to_nat j = Some ws' →
  select_workspace j (emit o (set_live ws i (flush s)))
  = Ret (emit o (set_live ws' j (flush s))).
Proof.
  intros Hok Hi Hws Hj Hws'.
  destruct (slot_state_ok s i ws o Hok Hi Hws) as [Hok1 Hv1].
  rewrite (select_workspace_eq _ j ws' Hok1 Hj); [|by rewrite Hv1].
  rewrite Hv1. reflexivity.
Qed.

(** A walk over the workspaces starts the same from a flushed state. *)
Lemma select_flush s j :
  ws_ok s →
  select_workspace j s
  = select_workspace j (set_live (live s) (current_workspace s) (flush s)).
Proof.
  intros Hok. rewrite set_live_active. unfold select_workspace.
  rewrite (save_workspace_active _ Hok).
  assert (Hokf : ws_ok (flush s)).
  { split; cbn; [apply Hok|]. rewrite view_length. apply Hok. }
  rewrite (save_workspace_active _ Hokf). rewrite (view_flush _ Hok).
  reflexivity.
Qed.

Lemma lists_of_length s ls :
  ws_ok s → lists_of s ls → length ls = Z.to_nat WORKSPACES.
Proof.
  intros [_ Hlen] H. apply Forall2_length in H.
  rewrite view_length in H. lia.
Qed.

Lemma lists_of_lookup s ls (w : nat) :
  ws_ok s → lists_of s ls → (w < Z.to_nat WORKSPACES)%nat →
  ∃ ws l, view s !! w = Some ws ∧ ls !! w = Some l ∧
          is_list (heap s) (ws_head ws) l.
Proof.
  intros Hok H Hw. pose proof (lists_of_length _ _ Hok H) as Hlen.
  destruct (lookup_lt_is_Some_2 ls w) as [l Hl]; [lia|].
  destruct (Forall2_lookup_r _ _ _ _ _ H Hl) as (ws & Hws & Hlist).
  eauto.
Qed.

Lemma elem_of_concat (x : ptr) (ls : list (list ptr)) :
  x ∈ concat ls ↔ ∃ l, x ∈ l ∧ l ∈ ls.
Proof.
  induction ls as [|l0 ls IH]; simpl.
  - split; [by intros ?%elem_of_nil|by intros (l & _ & ?%elem_of_nil)].
  - rewrite elem_of_app, IH. split.
    + intros [H|(l & H1 & H2)]; [exists l0; split; [done|by left]|].
      exists l. split; [done|by right].
    + intros (l & H1 & [->|H2]%elem_of_cons); [by left|right; eauto].
Qed.

Lemma lists_of_no_null s ls : lists_of s ls → NULL ∉ concat ls.
Proof.
  unfold lists_of. intros H Hin. apply elem_of_concat in Hin as (l & Hn & Hl).
  apply list_elem_of_lookup in Hl as [i Hi].
  destruct (Forall2_lookup_r _ _ _ _ _ H Hi) as (ws & _ & Hlist).
  by apply (lseg_not_null _ _ _ _ _ Hlist Hn).
Qed.

(** A store that is well formed has a list for every workspace. *)
Lemma lists_end_lists_of s : lists_end s → ∃ ls, lists_of s ls.
Proof.
  unfold lists_end, lists_of, heads. intros H.
  assert (∀ wss : list Workspace,
            (∀ i ws, wss !! i = Some ws → ∃ l, is_list (heap s) (ws_head ws) l) →
            ∃ ls, Forall2 (λ ws l, is_list (heap s) (ws_head ws) l) wss ls)
    as Hgen.
  { induction wss as [|ws wss IH]; intros Hall.
    - exists []. constructor.
    - destruct (Hall 0%nat ws eq_refl) as [l Hl].
      destruct IH as [ls Hls].
      { intros i ws' Hi. apply (Hall (S i)). exact Hi. }
      exists (l :: ls). by constructor. }
  apply Hgen. intros i ws Hi. apply (H i (ws_head ws)).
  by rewrite list_lookup_fmap, Hi.
Qed.

(** ** [win_to_client] *)

Lemma first_with_window_app h wn l r :
  NULL ∉ l →
  first_with_window h wn (l ++ r)
  = if decide (first_with_window h wn l = NULL)
    then first_with_window h wn r else first_with_window h wn l.
Proof.
  induction l as [|a l IH]; intros Hn; simpl.
  - by destruct (decide (NULL = NULL)).
  - apply not_elem_of_cons in Hn as [Ha Hn].
    destruct (decide (win <$> h !! a = Some wn)).
    + destruct (decide (a = NULL)); [congruence|done].
    + by apply IH.
Qed.

Lemma first_with_window_null h wn l :
  NULL ∉ l →
  first_with_window h wn l = NULL ↔
  ∀ a, a ∈ l → win <$> h !! a ≠ Some wn.
Proof.
  induction l as [|a l IH]; intros Hn; simpl.
  - split; [|done]. intros _ a Ha. by apply elem_of_nil in Ha.
  - apply not_elem_of_cons in Hn as [Ha Hn].
    destruct (decide (win <$> h !! a = Some wn)) as [E|E].
    + split; [congruence|]. intros H. exfalso. apply (H a); [by left|done].
    + rewrite (IH Hn). split.
      * intros H b [->|Hb]%elem_of_cons; [done|by apply H].
      * intros H b Hb. apply H. by right.
Qed.

Lemma first_with_window_found h wn l c :
  first_with_window h wn l = c → c ≠ NULL →
  c ∈ l ∧ win <$> h !! c = Some wn.
Proof.
  induction l as [|a l IH]; simpl; intros E Hc; [congruence|].
  destruct (decide (win <$> h !! a = Some wn)).
  - subst c. split; [by left|done].
  - destruct (IH E Hc). split; [by right|done].
Qed.

(** The inner search stops at the first client of the list with the
    window. *)
Lemma find_win_first k h wn c l :
  is_list h c l → (length l ≤ k)%nat →
  find_win k h wn c = Ret (first_with_window h wn l).
Proof.
  revert k c. induction l as [|a l IH]; intros k c Hl Hk;
    unfold is_list in Hl.
  - simpl in Hl. subst c. by destruct k.
  - destruct Hl as (-> & Ha & ca & Hca & Hl).
    destruct k as [|k]; [simpl in Hk; lia|]. simpl.
    destruct (decide (a = NULL)); [done|].
    rewrite (load_Some _ _ _ Hca). cbn [bind]. rewrite Hca. cbn.
    destruct (decide (wn = win ca)) as [->|Hw].
    + by destruct (decide (Some (win ca) = Some (win ca))).
    + destruct (decide (Some (win ca) = Some wn)) as [E|_]; [congruence|].
      apply IH; [done|simpl in Hk; lia].
Qed.

Lemma is_list_no_null h p l : is_list h p l → NULL ∉ l.
Proof. intros H Hin. by apply (lseg_not_null _ _ _ _ _ H Hin). Qed.

Lemma win_to_client_loop_form k (w : nat) wn s i ws ls :
  ws_ok s → lists_of s ls → 0 ≤ i → view s !! Z.to_nat i = Some ws →
  (w + k ≤ Z.to_nat WORKSPACES)%nat →
  ∃ j wsj w',
    win_to_client_loop k (Z.of_nat w) wn (set_live ws i (flush s))
    = Ret (set_live wsj j (flush s),
           first_with_window (heap s) wn (concat (take k (drop w ls))), w') ∧
    0 ≤ j ∧ view s !! Z.to_nat j = Some wsj ∧ (k ≠ 0%nat → j = w' - 1).
Proof.
  intros Hok Hls. revert w i ws.
  induction k as [|k IH]; intros w i ws Hi Hws Hk.
  { exists i, ws, (Z.of_nat w). simpl. done. }
  destruct (lists_of_lookup s ls w Hok Hls) as (wsw & lw & Hwsw & Hlw & Hlist);
    [lia|].
  cbn -[fuel select_workspace find_win first_with_window].
  pose proof (select_from_slot s i ws (Z.of_nat w) wsw [] Hok Hi Hws) as Hsel.
  rewrite !emit_nil in Hsel. rewrite Hsel; [|lia|by rewrite Nat2Z.id].
  cbn [bind].
  change (heap (set_live wsw (Z.of_nat w) (flush s))) with (heap s).
  change (head (set_live wsw (Z.of_nat w) (flush s))) with (ws_head wsw).
  rewrite (find_win_first _ _ _ _ lw Hlist).
  2:{ apply lseg_length in Hlist. unfold fuel. cbn. lia. }
  cbn [bind].
  rewrite (drop_S _ _ _ Hlw). cbn [take concat].
  rewrite first_with_window_app by (by eapply is_list_no_null).
  destruct (decide (first_with_window (heap s) wn lw = NULL)) as [E|E].
  - destruct (IH (S w) (Z.of_nat w) wsw) as (j & wsj & w' & Hloop & Hj & Hwsj & Hlast);
      [lia|by rewrite Nat2Z.id|lia|].
    replace (Z.of_nat w + 1) with (Z.of_nat (S w)) by lia.
    rewrite Hloop. exists j, wsj, w'. split; [done|]. split; [done|].
    split; [done|]. intros _. destruct k as [|k]; [|by apply Hlast].
    simpl in Hloop.
    apply (f_equal (λ r, match r with
                         | Ret (st, _, w0) => (current_workspace st, w0)
                         | Fail _ => (0, 0)
                         end)) in Hloop.
    cbn in Hloop. injection Hloop as Hjw Hw'. lia.
  - exists (Z.of_nat w), wsw, (Z.of_nat w + 1). split; [done|].
    split; [lia|]. split; [by rewrite Nat2Z.id|]. intros _. lia.
Qed.

Lemma win_to_client_closed wn s ls :
  ws_ok s → lists_of s ls →
  win_to_client wn s
  = Ret (flush s, first_with_window (heap s) wn (concat ls)).
Proof.
  intros Hok Hls. pose proof Hok as [Hcw Hlen].
  pose proof (lists_of_length _ _ Hok Hls) as Hlen'.
  unfold win_to_client.
  destruct (Z.to_nat WORKSPACES) as [|k] eqn:HW; [lia|].
  assert (Hstart : win_to_client_loop (S k) 0 wn s
                   = win_to_client_loop (S k) (Z.of_nat 0) wn
                       (set_live (live s) (current_workspace s) (flush s))).
  { cbn -[fuel select_workspace find_win]. by rewrite <- select_flush. }
  rewrite Hstart.
  destruct (win_to_client_loop_form (S k) 0 wn s (current_workspace s)
              (live s) ls) as (j & wsj & w' & -> & Hj & Hwsj & Hlast);
    [done|done|lia|by apply view_active|lia|].
  cbn [bind]. rewrite drop_0, take_ge by lia.
  specialize (Hlast ltac:(done)).
  destruct (decide (current_workspace s ≠ w' - 1)) as [Hne|He].
  - pose proof (select_from_slot s j wsj (current_workspace s) (live s) []
                  Hok Hj Hwsj) as Hsel.
    rewrite !emit_nil in Hsel. rewrite Hsel; [|lia|by apply view_active].
    cbn [bind]. by rewrite set_live_active.
  - apply dec_stable in He. rewrite <- He in Hlast. subst j.
    rewrite (view_active _ Hok) in Hwsj. injection Hwsj as <-.
    by rewrite set_live_active.
Qed.

(** ** [workspace_info] *)

Lemma info_lines_length cw w wss : length (info_lines cw w wss) = length wss.
Proof.
  revert w. induction wss as [|[ws l] wss IH]; intros w; simpl; [done|].
  by rewrite IH.
Qed.

Lemma workspace_info_loop_form k (w : nat) cw0 s i ws o ls :
  ws_ok s → lists_of s ls → 0 ≤ i → view s !! Z.to_nat i = Some ws →
  (w + k ≤ Z.to_nat WORKSPACES)%nat →
  ∃ j wsj,
    workspace_info_loop k (Z.of_nat w) cw0 (emit o (set_live ws i (flush s)))
    = Ret (emit (o ++ info_lines cw0 (Z.of_nat w)
                        (take k (drop w (zip (view s) ls))))
                (set_live wsj j (flush s)), Z.of_nat (w + k)) ∧
    0 ≤ j ∧ view s !! Z.to_nat j = Some wsj ∧
    (k ≠ 0%nat → j = Z.of_nat (w + k) - 1).
Proof.
  intros Hok Hls. revert w i ws o.
  induction k as [|k IH]; intros w i ws o Hi Hws Hk.
  { exists i, ws. simpl. rewrite app_nil_r, Nat.add_0_r. done. }
  destruct (lists_of_lookup s ls w Hok Hls) as (wsw & lw & Hwsw & Hlw & Hlist);
    [lia|].
  cbn -[fuel select_workspace count_clients info_lines].
  rewrite (select_from_slot s i ws (Z.of_nat w) wsw o Hok Hi Hws);
    [|lia|by rewrite Nat2Z.id].
  cbn [bind].
  change (heap (emit o (set_live wsw (Z.of_nat w) (flush s)))) with (heap s).
  change (head (emit o (set_live wsw (Z.of_nat w) (flush s))))
    with (ws_head wsw).
  rewrite (count_clients_total _ _ _ lw 0 Hlist).
  2:{ apply lseg_length in Hlist. unfold fuel. cbn. lia. }
  cbn [bind]. rewrite emit_emit.
  destruct (IH (S w) (Z.of_nat w) wsw
              (o ++ [InfoLine (Z.of_nat w) (0 + Z.of_nat (length lw))
                       (ws_layout wsw) (bool_decide (Z.of_nat w = cw0))]))
    as (j & wsj & Hloop & Hj & Hwsj & Hlast);
    [lia|by rewrite Nat2Z.id|lia|].
  replace (Z.of_nat w + 1) with (Z.of_nat (S w)) by lia.
  cbn [layout emit set_live current_workspace].
  rewrite Hloop. exists j, wsj.
  assert (Hz : zip (view s) ls !! w = Some (wsw, lw)).
  { rewrite lookup_zip_with, Hwsw. cbn. by rewrite Hlw. }
  rewrite (drop_S _ _ _ Hz). cbn [take info_lines].
  replace (Z.of_nat (S w)) with (Z.of_nat w + 1) by lia.
  replace (Z.of_nat (w + S k)) with (Z.of_nat (S w + k)) by lia.
  rewrite <- app_assoc. cbn [app]. split; [done|]. split; [done|].
  split; [done|]. intros _. destruct k as [|k]; [|by apply Hlast].
  simpl in Hloop.
  apply (f_equal (λ r, match r with
                       | Ret (st, _) => current_workspace st
                       | Fail _ => 0
                       end)) in Hloop.
  cbn in Hloop. lia.
Qed.

Lemma workspace_info_closed s ls :
  ws_ok s → lists_of s ls →
  workspace_info s
  = Ret (emit (info_lines (current_workspace s) 0 (zip (view s) ls))
              (flush s)).
Proof.
  intros Hok Hls. pose proof Hok as [Hcw Hlen].
  pose proof (lists_of_length _ _ Hok Hls) as Hlen'.
  unfold workspace_info.
  destruct (Z.to_nat WORKSPACES) as [|k] eqn:HW; [lia|].
  assert (Hstart :
            workspace_info_loop (S k) 0 (current_workspace s) s
            = workspace_info_loop (S k) (Z.of_nat 0) (current_workspace s)
                (emit [] (set_live (live s) (current_workspace s) (flush s)))).
  { rewrite emit_nil. cbn -[fuel select_workspace count_clients].
    by rewrite <- select_flush. }
  rewrite Hstart.
  destruct (workspace_info_loop_form (S k) 0 (current_workspace s) s
              (current_workspace s) (live s) [] ls)
    as (j & wsj & -> & Hj & Hwsj & Hlast);
    [done|done|lia|by apply view_active|lia|].
  cbn [bind]. rewrite drop_0, take_ge.
  2:{ rewrite length_zip_with, view_length. lia. }
  specialize (Hlast ltac:(done)). cbn [app].
  destruct (decide (current_workspace s ≠ Z.of_nat (0 + S k) - 1))
    as [Hne|He].
  - rewrite (select_from_slot s j wsj (current_workspace s) (live s) _
               Hok Hj Hwsj); [|lia|by apply view_active].
    by rewrite set_live_active.
  - apply dec_stable in He. rewrite <- He in Hlast. subst j.
    rewrite (view_active _ Hok) in Hwsj. injection Hwsj as <-.
    by rewrite set_live_active.
Qed.

End Flush.

(** * The layout engine in closed form *)

Section LayoutForms.

Context {cfg : Config}.

Implicit Types (s : State) (l : list ptr) (h : gmap nat Client).

(** The count of [get_non_tff_count]: the clients before it are tiled, the
    client at it, if there is one, is not. *)
Lemma get_non_tff_count_loop_spec k h c l n0 :
  is_list h c l → (length l ≤ k)%nat →
  ∃ m : nat,
    get_non_tff_count_loop k h c n0 = Ret (n0 + Z.of_nat m) ∧
    (m ≤ length l)%nat ∧
    (∀ i a, (i < m)%nat → l !! i = Some a → tiled h a) ∧
    (∀ a, l !! m = Some a → ∃ ca, h !! a = Some ca ∧ FFT ca = true).
Proof.
  revert k c n0. induction l as [|a l IH]; intros k c n0 Hl Hk;
    unfold is_list in Hl.
  - simpl in Hl. subst c. exists 0%nat.
    split; [destruct k; simpl; f_equal; lia|].
    split; [done|]. split; [intros; lia|done].
  - destruct Hl as (-> & Ha & ca & Hca & Hl).
    destruct k as [|k]; [simpl in Hk; lia|]. simpl.
    destruct (decide (a = NULL)); [done|].
    rewrite (load_Some _ _ _ Hca). cbn [bind].
    destruct (FFT ca) eqn:Hf.
    + exists 0%nat. split; [f_equal; lia|]. split; [lia|].
      split; [intros; lia|]. intros b [= <-]. eauto.
    + destruct (IH k (next ca) (n0 + 1) Hl) as (m & Hm & Hle & Hpre & Hat);
        [simpl in Hk; lia|].
      exists (S m). rewrite Hm. split; [f_equal; lia|].
      split; [simpl; lia|]. split.
      * intros [|i] b Hi Hb.
        -- injection Hb as <-. by exists ca.
        -- apply (Hpre i); [lia|done].
      * intros b Hb. by apply Hat.
Qed.

Lemma zoom_requests_cons s a ca l :
  heap s !! a = Some ca →
  zoom_requests s (a :: l)
  = (if FFT ca then []
     else [xcb_move_resize (win ca) ZOOM_GAP 0 0
             (screen_width s) (screen_height s)])
    ++ zoom_requests s l.
Proof.
  intros Hca. unfold zoom_requests, clients_of. cbn [omap list_omap].
  rewrite Hca. rewrite filter_cons.
  destruct (FFT ca); [by destruct (decide (true = false))|].
  by destruct (decide (false = false)).
Qed.

Lemma zoom_loop_closed k c s l :
  is_list (heap s) c l → (length l ≤ k)%nat →
  zoom_loop k c s = Ret (emit (zoom_requests s l) s).
Proof.
  revert k c s. induction l as [|a l IH]; intros k c s Hl Hk;
    unfold is_list in Hl.
  - simpl in Hl. subst c. rewrite emit_nil. by destruct k.
  - destruct Hl as (-> & Ha & ca & Hca & Hl).
    destruct k as [|k]; [simpl in Hk; lia|]. simpl.
    destruct (decide (a = NULL)); [done|].
    rewrite (load_Some _ _ _ Hca). cbn [bind].
    rewrite (zoom_requests_cons _ _ _ _ Hca).
    destruct (FFT ca).
    + apply IH; [done|simpl in Hk; lia].
    + rewrite (IH k (next ca)); [|done|simpl in Hk; lia].
      by rewrite emit_emit.
Qed.

Lemma lists_of_emit s o ls : lists_of (emit o s) ls ↔ lists_of s ls.
Proof. done. Qed.

Lemma flush_emit s o : flush (emit o s) = emit o (flush s).
Proof. done. Qed.

(** [arrange_windows] when [zoom] is the layout that runs. *)
Lemma arrange_windows_zoom_closed s ls l :
  ws_ok s → lists_of s ls → is_list (heap s) (head s) l →
  length l = 1%nat ∨ l ≠ [] ∧ layout s = ZOOM →
  arrange_windows s
  = Ret (emit (zoom_requests s l
               ++ info_lines (current_workspace s) 0 (zip (view s) ls))
              (flush s)).
Proof.
  intros Hok Hls Hl Hcase.
  assert (Hne : l ≠ []).
  { destruct Hcase as [E|[? _]]; [|done]. by intros ->. }
  unfold arrange_windows.
  destruct (decide (head s = NULL)) as [E|_].
  { rewrite E in Hl. by apply lseg_null in Hl as [-> _]. }
  rewrite (selected_layout_eq _ _ Hl Hne). cbn [bind].
  assert (layout_handler
            (if decide (length l = 1%nat) then ZOOM else layout s)
          = Some zoom) as ->.
  { destruct (decide (length l = 1%nat)); [done|].
    destruct Hcase as [?|[_ ->]]; done. }
  unfold zoom. rewrite (zoom_loop_closed _ _ _ l Hl); [|by eapply fuel_enough].
  cbn [bind].
  rewrite (workspace_info_closed _ ls); [|done|done].
  rewrite flush_emit, emit_emit. done.
Qed.

(** A stack layout on a list of two clients or more whose head is not
    tiled. *)
Lemma arrange_windows_stack_fault s l c :
  is_list (heap s) (head s) l → (2 ≤ length l)%nat →
  layout s = HSTACK ∨ layout s = VSTACK →
  heap s !! head s = Some c → FFT c = true →
  arrange_windows s = Fail DivByZero.
Proof.
  intros Hl Hlen Hlay Hc Hf.
  assert (Hne : l ≠ []) by (intros ->; simpl in Hlen; lia).
  unfold arrange_windows.
  destruct (decide (head s = NULL)) as [E|Hh].
  { rewrite E in Hl. by apply lseg_null in Hl as [-> _]. }
  rewrite (selected_layout_eq _ _ Hl Hne). cbn [bind].
  destruct (decide (length l = 1%nat)); [lia|].
  assert (layout_handler (layout s) = Some stack) as ->.
  { by destruct Hlay as [-> | ->]. }
  by rewrite (stack_head_not_tiled s c Hh Hc Hf).
Qed.

(** [arrange_windows] when [grid] or [fibonacci] is the layout that
    runs. *)
Lemma arrange_windows_idle_closed s ls l :
  ws_ok s → lists_of s ls → is_list (heap s) (head s) l →
  (2 ≤ length l)%nat → layout s = GRID ∨ layout s = FIBONACCI →
  arrange_windows s
  = Ret (emit (info_lines (current_workspace s) 0 (zip (view s) ls))
              (flush s)).
Proof.
  intros Hok Hls Hl Hlen Hcase.
  assert (Hne : l ≠ []) by (intros ->; simpl in Hlen; lia).
  unfold arrange_windows.
  destruct (decide (head s = NULL)) as [E|_].
  { rewrite E in Hl. by apply lseg_null in Hl as [-> _]. }
  rewrite (selected_layout_eq _ _ Hl Hne). cbn [bind].
  destruct (decide (length l = 1%nat)); [lia|].
  destruct Hcase as [-> | ->].
  - change (layout_handler GRID) with (Some grid). unfold grid. cbn [bind].
    by apply workspace_info_closed.
  - change (layout_handler FIBONACCI) with (Some fibonacci).
    unfold fibonacci.
    rewrite (fibonacci_loop_total (fuel s) (heap s) (head s) l);
      [|done|by eapply fuel_enough].
    cbn [bind]. by apply workspace_info_closed.
Qed.

(** ** [stack] in closed form *)









End LayoutForms.

(** * The shape of the state after a handler *)

Section Forms.

Context {cfg : Config}.

Implicit Types (s : State) (l : list ptr) (h : gmap nat Client).

Lemma quiet_nil : quiet [].
Proof. constructor. Qed.

Lemma quiet_app o1 o2 : quiet o1 → quiet o2 → quiet (o1 ++ o2).
Proof. apply Forall_app_2. Qed.

Lemma quiet_move_resize wn g x y w ht : quiet [xcb_move_resize wn g x y w ht].
Proof. constructor; [|constructor]. unfold xcb_move_resize. by destruct g. Qed.

Ltac one_quiet := first [apply quiet_move_resize | by repeat constructor].

Lemma zoom_loop_quiet k c s s' :
  zoom_loop k c s = Ret s' → ∃ o, s' = emit o s ∧ quiet o.
Proof.
  revert c s. induction k as [|k IH]; intros c s H; simpl in H;
    destruct (decide (c = NULL)); inv_res;
    try (exists []; rewrite emit_nil; split; [done|apply quiet_nil]).
  apply IH in H as (o & -> & Ho). destruct (FFT _); [eauto|].
  rewrite emit_emit. eexists. split; [done|].
  apply quiet_app; [one_quiet|done].
Qed.

Lemma stack_loop_quiet k vert span c cx cy s s' :
  stack_loop k vert span c cx cy s = Ret s' → ∃ o, s' = emit o s ∧ quiet o.
Proof.
  revert c cx cy s. induction k as [|k IH]; intros c cx cy s H; simpl in H;
    inv_res; [exists []; rewrite emit_nil; split; [done|apply quiet_nil]|].
  destruct vert; apply IH in H as (o & -> & Ho); rewrite emit_emit;
    (eexists; split; [done|]);
    (apply quiet_app; [one_quiet|done]).
Qed.

Lemma stack_quiet s s' : stack s = Ret s' → ∃ o, s' = emit o s ∧ quiet o.
Proof.
  unfold stack. intros H. inv_res.
  destruct (decide (_ = 0)); [done|]. inv_res.
  destruct (decide (next _ = NULL)).
  - inv_res. destruct (bool_decide _); eexists;
      (split; [done|one_quiet]).
  - apply stack_loop_quiet in H as (o & -> & Ho).
    destruct (bool_decide _); rewrite emit_emit;
      (eexists; split; [done|]);
      (apply quiet_app; [one_quiet|done]).
Qed.

Lemma layout_handler_quiet i handler s s' :
  layout_handler i = Some handler → handler s = Ret s' →
  ∃ o, s' = emit o s ∧ quiet o.
Proof.
  unfold layout_handler. intros Hh H.
  repeat (destruct (decide _) in Hh); try discriminate;
    injection Hh as <-.
  - by apply zoom_loop_quiet in H.
  - unfold grid in H. inv_res. exists []. rewrite emit_nil.
    split; [done|apply quiet_nil].
  - by apply stack_quiet.
  - by apply stack_quiet.
  - unfold fibonacci in H. inv_res. exists []. rewrite emit_nil.
    split; [done|apply quiet_nil].
Qed.

Lemma place_bands_quiet k c b s s' b' :
  place_bands k c b s = Ret (s', b') → ∃ o, s' = emit o s ∧ quiet o.
Proof.
  revert c b s. induction k as [|k IH]; intros c b s H; simpl in H;
    destruct (decide (c = NULL)); inv_res;
    try (exists []; rewrite emit_nil; split; [done|apply quiet_nil]).
  apply IH in H as (o & -> & Ho). rewrite emit_emit.
  eexists. split; [done|]. apply quiet_app; [|done].
  repeat constructor.
Qed.

Lemma raise_loop_quiet k ft b s :
  ∃ o, (raise_loop k ft b s).1 = emit o s ∧ quiet o.
Proof.
  revert ft b s. induction k as [|k IH]; intros ft b s; simpl.
  - exists []. rewrite emit_nil. split; [done|apply quiet_nil].
  - edestruct IH as (o & -> & Ho). rewrite emit_emit.
    eexists. split; [done|]. apply quiet_app; [|done]. repeat constructor.
Qed.

Lemma restack_quiet s s' b :
  restack s = Ret (s', b) → ∃ o, s' = emit o s ∧ quiet o.
Proof.
  unfold restack. intros H. inv_res.
  destruct (decide _); [done|]. inv_res.
  match goal with H : place_bands _ _ _ _ = _ |- _ =>
    apply place_bands_quiet in H as (o & -> & Ho) end.
  match goal with H : raise_loop ?k ?ft ?b ?s = _ |- _ =>
    destruct (raise_loop_quiet k ft b s) as (o' & E & Ho'); rewrite H in E
  end.
  cbn in E. subst. rewrite emit_emit. eexists. split; [done|].
  by apply quiet_app.
Qed.

Lemma info_lines_quiet cw w wss : quiet (info_lines cw w wss).
Proof.
  revert w. induction wss as [|[ws l] wss IH]; intros w; simpl.
  - apply quiet_nil.
  - constructor; [done|apply IH].
Qed.

Lemma lists_of_set_focus s cur pf ls :
  lists_of (set_focus cur pf s) ls ↔ lists_of s ls.
Proof.
  unfold lists_of, view. cbn.
  assert (∀ (wss : list Workspace) (n : nat) pf1 cur1 pf2 cur2 ly hd,
            Forall2 (λ ws l, is_list (heap s) (ws_head ws) l)
              (<[n := mkWorkspace ly hd pf1 cur1]> wss) ls →
            Forall2 (λ ws l, is_list (heap s) (ws_head ws) l)
              (<[n := mkWorkspace ly hd pf2 cur2]> wss) ls) as Hgen.
  { intros wss. revert ls. induction wss as [|ws wss IH];
      intros ls n pf1 cur1 pf2 cur2 ly hd H; [done|].
    destruct n as [|n]; simpl in *.
    - inversion H; subst. by constructor.
    - inversion H; subst. constructor; [done|]. by eapply IH. }
  split; apply Hgen.
Qed.

(** [arrange_windows] leaves the flushed state, with output that shows
    or hides no window. *)
Lemma arrange_windows_form s s' ls :
  ws_ok s → lists_of s ls → arrange_windows s = Ret s' →
  (head s = NULL ∧ s' = s) ∨
  (head s ≠ NULL ∧ ∃ o, s' = emit o (flush s) ∧ quiet o).
Proof.
  intros Hok Hls H. unfold arrange_windows in H.
  destruct (decide (head s = NULL)) as [E|E].
  { inv_res. by left. }
  right. split; [done|]. inv_res.
  destruct (layout_handler _) as [handler|] eqn:Hh; [|done].
  inv_res.
  match goal with H : handler _ = _ |- _ =>
    eapply layout_handler_quiet in H as (o & -> & Ho); [|done] end.
  rewrite (workspace_info_closed _ ls) in H; [|done|done].
  injection H as <-. rewrite flush_emit, emit_emit.
  eexists. split; [done|]. apply quiet_app; [done|].
  apply info_lines_quiet.
Qed.

Lemma update_focused_client_form c s s' ls :
  ws_ok s → lists_of s ls → update_focused_client c s = Ret s' →
  (head s = NULL ∧ s' = emit [DeleteActiveWindow] (set_focus NULL NULL s)) ∨
  (head s ≠ NULL ∧ ∃ cur pf o,
     resolve_focus c s = Ret (set_focus cur pf s) ∧
     s' = emit o (flush (set_focus cur pf s)) ∧ quiet o).
Proof.
  intros Hok Hls H. unfold update_focused_client in H.
  destruct (decide (head s = NULL)) as [E|E].
  { inv_res. by left. }
  right. split; [done|].
  apply bind_Ret in H as (s1 & Hres & H).
  apply bind_Ret in H as ([s2 b] & Hr & H).
  apply bind_Ret in H as (cc & _ & H).
  pose proof Hres as Hres'.
  apply resolve_focus_inv in Hres' as (cur & pf & ->).
  apply restack_quiet in Hr as (o & -> & Ho).
  rewrite emit_emit in H.
  eapply (arrange_windows_form _ _ ls) in H; [|apply Hok|].
  2:{ apply lists_of_emit. by apply lists_of_set_focus. }
  destruct H as [[? _]|(_ & o' & -> & Ho')]; [done|].
  exists cur, pf. eexists. split; [done|].
  rewrite flush_emit, emit_emit. split; [done|].
  apply quiet_app; [|done]. apply quiet_app; [done|]. repeat constructor.
Qed.

End Forms.

(** * Workspace switches: what is sent, and where they lead *)

Section Switch.

Context {cfg : Config}.

Implicit Types (s : State) (l : list ptr) (h : gmap nat Client).

Lemma windows_of_cons h a ca l :
  h !! a = Some ca → windows_of h (a :: l) = win ca :: windows_of h l.
Proof. intros Hca. unfold windows_of. cbn. by rewrite Hca. Qed.

Lemma visibility_loop_closed k mk c s l :
  is_list (heap s) c l → (length l ≤ k)%nat →
  visibility_loop k mk c s = Ret (emit (mk <$> windows_of (heap s) l) s).
Proof.
  revert k c s. induction l as [|a l IH]; intros k c s Hl Hk;
    unfold is_list in Hl.
  - simpl in Hl. subst c. rewrite emit_nil. by destruct k.
  - destruct Hl as (-> & Ha & ca & Hca & Hl).
    destruct k as [|k]; [simpl in Hk; lia|].
    rewrite (windows_of_cons _ _ _ _ Hca). simpl.
    destruct (decide (a = NULL)); [done|].
    rewrite (load_Some _ _ _ Hca). cbn [bind].
    rewrite (IH k (next ca)); [|done|simpl in Hk; lia].
    by rewrite emit_emit.
Qed.

Lemma select_workspace_out i s s' :
  select_workspace i s = Ret s' → out s' = out s.
Proof.
  unfold select_workspace, save_workspace, slot. intros H.
  apply bind_Ret in H as (s1 & Hs1 & H).
  apply bind_Ret in H as (ws & Hws & H). injection H as <-. cbn.
  destruct (decide (_ ∨ _)); [by injection Hs1 as <-|].
  destruct (workspaces s !! _); [|done]. by injection Hs1 as <-.
Qed.

Lemma lists_of_moved i s s' ls : moved i s s' → lists_of s ls → lists_of s' ls.
Proof. intros (_ & Hh & Hv & _) H. unfold lists_of. by rewrite Hh, Hv. Qed.

Lemma lists_of_flush s ls : ws_ok s → lists_of (flush s) ls ↔ lists_of s ls.
Proof. intros Hok. unfold lists_of. by rewrite view_flush. Qed.

Lemma flush_ws_ok s : ws_ok s → ws_ok (flush s).
Proof.
  intros Hok. split; cbn; [apply Hok|]. rewrite view_length. apply Hok.
Qed.

(** The output of a workspace switch that takes place. *)
Lemma change_workspace_out j s s' ls li lj :
  ws_ok s → lists_of s ls → WORKSPACES < UINT_MOD →
  0 ≤ j < WORKSPACES → j ≠ current_workspace s →
  ls !! Z.to_nat (current_workspace s) = Some li →
  ls !! Z.to_nat j = Some lj →
  change_workspace j s = Ret s' →
  prev_workspace s' = current_workspace s ∧
  ∃ o, out s'
       = out s ++ (MapWindow <$> windows_of (heap s) lj)
         ++ (UnmapWindow <$> windows_of (heap s) li) ++ o ∧
       quiet o.
Proof.
  intros Hok Hls HW Hj Hne Hli Hlj H. unfold change_workspace in H.
  destruct (decide _) as [[?|[?|E]]|_]; [lia|lia| |].
  { rewrite to_uint_small in E by lia. done. }
  set (s1 := set_prev_workspace (current_workspace s) s) in *.
  assert (Hok1 : ws_ok s1) by exact Hok.
  assert (Hls1 : lists_of s1 ls) by exact Hls.
  apply bind_Ret in H as (s2 & Hs2 & H).
  apply bind_Ret in H as (s3 & Hs3 & H).
  apply bind_Ret in H as (s4 & Hs4 & H).
  apply bind_Ret in H as (s5 & Hs5 & H).
  apply bind_Ret in H as (s6 & Hs6 & H).
  apply bind_Ret in H as (s7 & Hs7 & H).
  apply bind_Ret in H as (s8 & Hs8 & H).
  (* the destination is shown *)
  pose proof (select_workspace_out _ _ _ Hs2) as Ho2.
  apply select_workspace_moved in Hs2 as [Hm2 _]; [|done].
  pose proof (lists_of_moved _ _ _ _ Hm2 Hls1) as Hls2.
  pose proof Hm2 as (Hok2 & Hh2 & Hv2 & Hcw2 & Hpw2).
  destruct (Forall2_lookup_r _ _ _ _ _ Hls2 Hlj) as (wsj & Hwsj & Hlistj).
  assert (Hhd2 : head s2 = ws_head wsj).
  { pose proof (view_active _ Hok2) as E. rewrite Hcw2, Hwsj in E.
    by injection E as ->. }
  rewrite (visibility_loop_closed _ _ _ _ lj) in Hs3;
    [|by rewrite Hhd2|by eapply fuel_enough].
  injection Hs3 as <-.
  (* the source is hidden *)
  change (prev_workspace (emit _ s2)) with (prev_workspace s2) in Hs4.
  rewrite Hpw2 in Hs4. change (prev_workspace s1) with (current_workspace s) in Hs4.
  pose proof (select_workspace_out _ _ _ Hs4) as Ho4.
  apply select_workspace_moved in Hs4 as [Hm4 _]; [|done].
  pose proof (lists_of_moved _ _ _ _ Hm4 Hls2) as Hls4.
  pose proof Hm4 as (Hok4 & Hh4 & Hv4 & Hcw4 & Hpw4).
  destruct (Forall2_lookup_r _ _ _ _ _ Hls4 Hli) as (wsi & Hwsi & Hlisti).
  assert (Hhd4 : head s4 = ws_head wsi).
  { pose proof (view_active _ Hok4) as E. rewrite Hcw4, Hwsi in E.
    by injection E as ->. }
  rewrite (visibility_loop_closed _ _ _ _ li) in Hs5;
    [|by rewrite Hhd4|by eapply fuel_enough].
  injection Hs5 as <-.
  (* the destination is made live, arranged and focused *)
  pose proof (select_workspace_out _ _ _ Hs6) as Ho6.
  apply select_workspace_moved in Hs6 as [Hm6 _]; [|done].
  pose proof (lists_of_moved _ _ _ _ Hm6 Hls4) as Hls6.
  pose proof Hm6 as (Hok6 & Hh6 & Hv6 & Hcw6 & Hpw6).
  assert (∃ o7, out s7 = out s6 ++ o7 ∧ quiet o7 ∧ ws_ok s7 ∧
                lists_of s7 ls ∧ prev_workspace s7 = prev_workspace s6)
    as (o7 & Ho7 & Hq7 & Hok7 & Hls7 & Hpw7).
  { destruct (arrange_windows_form _ _ ls Hok6 Hls6 Hs7)
      as [[_ ->]|(_ & o & -> & Hq)].
    - exists []. split; [by rewrite app_nil_r|].
      split; [apply quiet_nil|]. done.
    - exists o. split; [done|]. split; [done|].
      split; [by apply (flush_ws_ok s6)|].
      split; [|done]. by apply lists_of_emit, lists_of_flush. }
  assert (∃ o8, out s8 = out s7 ++ o8 ∧ quiet o8 ∧ ws_ok s8 ∧
                lists_of s8 ls ∧ prev_workspace s8 = prev_workspace s7)
    as (o8 & Ho8 & Hq8 & Hok8 & Hls8 & Hpw8).
  { destruct (update_focused_client_form _ _ _ ls Hok7 Hls7 Hs8)
      as [[_ ->]|(_ & cur & pf & o & _ & -> & Hq)].
    - exists [DeleteActiveWindow]. split; [done|].
      split; [by repeat constructor|]. split; [exact Hok7|].
      split; [|done]. by apply lists_of_emit, lists_of_set_focus.
    - exists o. split; [done|]. split; [done|].
      split; [by apply (flush_ws_ok (set_focus cur pf s7))|].
      split; [|done]. apply lists_of_emit, lists_of_flush; [exact Hok7|].
      by apply lists_of_set_focus. }
  rewrite (workspace_info_closed _ ls Hok8 Hls8) in H. injection H as <-.
  cbn -[info_lines]. split.
  { rewrite Hpw8, Hpw7, Hpw6. cbn. rewrite Hpw4. cbn. by rewrite Hpw2. }
  exists (o7 ++ o8 ++ info_lines (current_workspace s8) 0 (zip (view s8) ls)).
  split.
  - rewrite Ho8, Ho7, Ho6. cbn. rewrite Ho4. cbn. rewrite Ho2, Hh4. cbn.
    rewrite Hh2. cbn. by rewrite <- !app_assoc.
  - apply quiet_app; [done|]. apply quiet_app; [done|].
    apply info_lines_quiet.
Qed.

End Switch.

(** ** The wrappers as calls of [change_workspace] and [change_layout] *)

Section Wrappers.

Context {cfg : Config}.

Implicit Types (s : State) (l : list ptr) (h : gmap nat Client).

Lemma to_int_small z : 0 ≤ z ≤ INT_MAX → to_int z = z.
Proof.
  intros Hz. unfold to_int. unfold INT_MAX in *.
  rewrite to_uint_small by (unfold UINT_MOD; lia).
  destruct (decide _); [done|lia].
Qed.

Lemma next_workspace_eq s :
  ws_ok s → WORKSPACES ≤ INT_MAX →
  next_workspace s
  = change_workspace ((current_workspace s + 1) mod WORKSPACES) s.
Proof.
  intros [Hcw _] HW. unfold next_workspace. unfold INT_MAX in *.
  rewrite !to_uint_small by (unfold UINT_MOD; lia).
  destruct (decide (WORKSPACES = 0)); [lia|].
  pose proof (Z.mod_pos_bound (current_workspace s + 1) WORKSPACES).
  by rewrite to_int_small by (unfold INT_MAX; lia).
Qed.

Lemma previous_workspace_eq s :
  ws_ok s → WORKSPACES ≤ INT_MAX →
  previous_workspace s
  = change_workspace ((current_workspace s - 1) mod WORKSPACES) s.
Proof.
  intros [Hcw _] HW. unfold previous_workspace. unfold INT_MAX in *.
  rewrite !to_uint_small by (unfold UINT_MOD; lia).
  destruct (decide (current_workspace s < 1)).
  - assert (current_workspace s = 0) as -> by lia.
    replace ((0 - 1) mod WORKSPACES) with (WORKSPACES - 1).
    + by rewrite to_int_small by (unfold INT_MAX; lia).
    + apply Z.mod_unique with (q := -1); [left; lia|ring].
  - rewrite Z.mod_small by lia.
    rewrite to_uint_small by (unfold UINT_MOD; lia).
    by rewrite to_int_small by (unfold INT_MAX; lia).
Qed.

Lemma last_workspace_eq s :
  0 ≤ prev_workspace s ≤ INT_MAX →
  last_workspace s = change_workspace (prev_workspace s) s.
Proof. intros H. unfold last_workspace. by rewrite to_int_small. Qed.

Lemma next_layout_eq s :
  0 ≤ layout s < END_LAYOUT →
  next_layout s = change_layout ((layout s + 1) mod END_LAYOUT) s.
Proof.
  intros Hl. unfold next_layout. unfold END_LAYOUT in *.
  rewrite !to_uint_small by (unfold UINT_MOD; lia).
  pose proof (Z.mod_pos_bound (layout s + 1) 5).
  by rewrite to_int_small by (unfold INT_MAX; lia).
Qed.

Lemma previous_layout_eq s :
  0 ≤ layout s < END_LAYOUT →
  previous_layout s = change_layout ((layout s - 1) mod END_LAYOUT) s.
Proof.
  intros Hl. unfold previous_layout. unfold END_LAYOUT in *.
  rewrite !to_uint_small by (unfold UINT_MOD; lia).
  destruct (decide (layout s < 1)).
  - assert (layout s = 0) as -> by lia. f_equal.
  - rewrite Z.mod_small by lia.
    rewrite to_uint_small by (unfold UINT_MOD; lia).
    by rewrite to_int_small by (unfold INT_MAX; lia).
Qed.

Lemma last_layout_eq s :
  0 ≤ prev_layout s ≤ INT_MAX →
  last_layout s = change_layout (prev_layout s) s.
Proof. intros H. unfold last_layout. by rewrite to_int_small. Qed.

(** A switch that does not take place. *)
Lemma change_workspace_same s :
  ws_ok s → WORKSPACES < UINT_MOD →
  change_workspace (current_workspace s) s = Ret s.
Proof.
  intros [Hcw _] HW. unfold change_workspace.
  destruct (decide _) as [_|Hno]; [done|]. exfalso. apply Hno.
  right. right. apply to_uint_small. lia.
Qed.

(** One switch on a safe state, with all that is known of its result. *)
Lemma switch_there s j :
  safe s → 0 ≤ j < WORKSPACES → j ≠ current_workspace s →
  ∃ s1, change_workspace j s = Ret s1 ∧ safe s1 ∧
        current_workspace s1 = j ∧
        prev_workspace s1 = current_workspace s ∧
        heap s1 = heap s ∧ heads s1 = heads s ∧
        view s1 !! Z.to_nat (current_workspace s) = Some (live s) ∧
        (head s1 = NULL → current s1 = NULL) ∧
        (∀ i, i ≠ Z.to_nat j → view s1 !! i = view s !! i).
Proof.
  intros Hsafe Hj Hne. pose proof Hsafe as (Hok & HW & _).
  pose proof Hok as [Hcw Hlen].
  destruct (view s !! Z.to_nat j) as [wsj|] eqn:Hwsj.
  2:{ apply lookup_ge_None in Hwsj. rewrite view_length in Hwsj. lia. }
  destruct (change_workspace_total j s wsj Hsafe Hj Hne Hwsj)
    as (s1 & cur1 & pf1 & Hs1 & Hsafe1 & Hcw1 & Hh1 & Hv1 & Hnull & _).
  exists s1. split; [done|]. split; [done|]. split; [done|].
  destruct (lists_end_lists_of s (safe_lists_end _ Hsafe)) as [ls Hls].
  pose proof (lists_of_length _ _ Hok Hls) as Hlsn.
  destruct (lookup_lt_is_Some_2 ls (Z.to_nat (current_workspace s)))
    as [li Hli]; [lia|].
  destruct (lookup_lt_is_Some_2 ls (Z.to_nat j)) as [lj Hlj]; [lia|].
  destruct (change_workspace_out j s s1 ls li lj Hok Hls HW Hj Hne Hli Hlj Hs1)
    as [Hpw _].
  split; [done|]. split; [done|]. split; [|split; [|split]].
  - unfold heads. rewrite Hv1, list_fmap_insert. cbn.
    apply list_insert_id. by rewrite list_lookup_fmap, Hwsj.
  - rewrite Hv1, list_lookup_insert_ne by lia. by apply view_active.
  - intros Hhd. pose proof (view_active _ (proj1 Hsafe1)) as E.
    rewrite Hv1, Hcw1, list_lookup_insert_eq in E.
    2:{ rewrite view_length. lia. }
    injection E as Hly Hhd1 Hpf Hc. rewrite <- Hc.
    apply Hnull. by rewrite Hhd1.
  - intros i Hi. by rewrite Hv1, list_lookup_insert_ne.
Qed.

(** A switch and the switch back. *)
Lemma switch_back s j :
  safe s → 0 ≤ j < WORKSPACES → j ≠ current_workspace s →
  (head s = NULL → current s = NULL) →
  ∃ s1 s2,
    change_workspace j s = Ret s1 ∧
    change_workspace (current_workspace s) s1 = Ret s2 ∧
    safe s1 ∧ current_workspace s1 = j ∧
    prev_workspace s1 = current_workspace s ∧
    safe s2 ∧ current_workspace s2 = current_workspace s ∧
    prev_workspace s2 = j ∧
    head s2 = head s ∧ current s2 = current s ∧ layout s2 = layout s ∧
    heap s2 = heap s ∧ heads s2 = heads s ∧
    (head s2 = NULL → current s2 = NULL).
Proof.
  intros Hsafe Hj Hne Hempty. pose proof Hsafe as (Hok & HW & _).
  pose proof Hok as [Hcw Hlen].
  destruct (switch_there s j Hsafe Hj Hne)
    as (s1 & Hs1 & Hsafe1 & Hcw1 & Hpw1 & Hh1 & Hhd1 & Hwsi & _ & _).
  destruct (change_workspace_total (current_workspace s) s1 (live s))
    as (s2 & cur & pf & Hs2 & Hsafe2 & Hcw2 & Hh2 & Hv2 & Hnull & Hfull);
    [done|done|lia|done|].
  destruct (switch_there s1 (current_workspace s) Hsafe1)
    as (s2' & Hs2' & _ & _ & Hpw2 & _ & Hhd2 & _ & Hnull2 & _);
    [done|lia|].
  rewrite Hs2 in Hs2'. injection Hs2' as <-.
  exists s1, s2. split; [done|]. split; [done|].
  split; [done|]. split; [done|]. split; [done|].
  split; [done|]. split; [done|]. split; [congruence|].
  pose proof (view_active s2 (proj1 Hsafe2)) as Hlive2.
  rewrite Hv2, Hcw2, list_lookup_insert_eq in Hlive2.
  2:{ rewrite view_length. destruct Hsafe1 as ([_ E] & _). lia. }
  injection Hlive2 as Hly2 Hhd2' Hp2 Hc2. cbn in Hnull, Hfull.
  split; [done|]. split.
  { rewrite <- Hc2. destruct (decide (head s = NULL)) as [E|E].
    - destruct (Hnull E) as [-> _]. by rewrite (Hempty E).
    - by destruct (Hfull E) as [-> _]. }
  split; [done|]. split; [congruence|]. split; [congruence|done].
Qed.

End Wrappers.

(** ** Layout changes on safe states *)

Section LayoutChange.

Context {cfg : Config}.

Implicit Types (s : State) (l : list ptr) (h : gmap nat Client).

Lemma safe_set_layout s i pl :
  safe s → stackable s → 0 ≤ i < END_LAYOUT → safe (set_layout i pl s).
Proof.
  intros Hsafe Hst Hi. destruct (safe_live _ Hsafe) as (l & Hl & _ & Hcur).
  destruct Hsafe as (Hok & HW & Hsize & Hws).
  split; [apply Hok|]. split; [done|]. split; [done|].
  intros j ws. unfold view. cbn.
  destruct (decide (j = Z.to_nat (current_workspace s))) as [->|Hj].
  - rewrite list_lookup_insert_eq by (destruct Hok; lia).
    intros [= <-]. exists l. split; [done|]. split; [|done].
    intros Hlen. cbn. split; [done|]. intros _. by apply (Hst l).
  - rewrite list_lookup_insert_ne by done. intros Hws'. apply (Hws j).
    unfold view. by rewrite list_lookup_insert_ne.
Qed.

Lemma change_layout_total i s :
  safe s → stackable s → 0 ≤ i < END_LAYOUT → i ≠ layout s →
  ∃ s', change_layout i s = Ret s' ∧ safe s' ∧ stackable s' ∧
        layout s' = i ∧ prev_layout s' = layout s ∧
        heap s' = heap s ∧ head s' = head s ∧
        current_workspace s' = current_workspace s ∧
        (head s ≠ NULL → current s' = current s).
Proof.
  intros Hsafe Hst Hi Hne. unfold change_layout.
  destruct (decide _) as [[E|[?|?]]|_]; [|lia|lia|].
  { rewrite to_uint_small in E; [done|]. unfold END_LAYOUT, UINT_MOD in *. lia. }
  set (s1 := set_layout i (layout s) s).
  pose proof (safe_set_layout s i (layout s) Hsafe Hst Hi) as Hsafe1.
  fold s1 in Hsafe1.
  destruct (safe_live _ Hsafe1) as (l & Hl & Hlay & Hcur).
  destruct (lists_end_lists_of s1 (safe_lists_end _ Hsafe1)) as [ls Hls].
  destruct (arrange_windows_total s1 l) as [s2 Hs2];
    [apply Hsafe1|by apply safe_lists_end|done|done|].
  rewrite Hs2. cbn [bind].
  pose proof (arrange_windows_form _ _ ls (proj1 Hsafe1) Hls Hs2) as Hf2.
  apply arrange_windows_moved in Hs2; [|apply Hsafe1].
  pose proof (safe_moved _ _ _ Hs2 Hsafe1) as Hsafe2.
  pose proof (lists_of_moved _ _ _ _ Hs2 Hls) as Hls2.
  pose proof (moved_live s1 s2 (proj1 Hsafe1) Hs2) as Hlive2.
  destruct (update_focused_current s2 Hsafe2)
    as (cur & pf & s3 & Hs3 & Hm3 & Hsafe2' & _ & Hfull).
  rewrite Hs3. cbn [bind].
  pose proof (update_focused_client_form _ _ _ ls (proj1 Hsafe2) Hls2 Hs3)
    as Hf3.
  pose proof (safe_moved _ _ _ Hm3 Hsafe2') as Hsafe3.
  pose proof (moved_live (set_focus cur pf s2) s3 (proj1 Hsafe2') Hm3)
    as Hlive3.
  assert (Hls3 : lists_of s3 ls).
  { eapply lists_of_moved; [exact Hm3|]. by apply lists_of_set_focus. }
  rewrite (workspace_info_closed _ ls (proj1 Hsafe3) Hls3).
  eexists. split; [done|].
  assert (Hsafe4 : safe (emit (info_lines (current_workspace s3) 0
                                 (zip (view s3) ls)) (flush s3))).
  { eapply safe_moved; [|exact Hsafe3].
    split; [by apply (flush_ws_ok s3), Hsafe3|].
    split; [done|]. split; [|done].
    apply (view_flush s3). apply Hsafe3. }
  assert (Hh : heap s3 = heap s).
  { destruct Hm3 as (_ & -> & _). cbn. by destruct Hs2 as (_ & -> & _). }
  assert (Hhd : head s3 = head s)
    by exact (eq_trans (f_equal ws_head Hlive3) (f_equal ws_head Hlive2)).
  assert (Hly : layout s3 = i)
    by exact (eq_trans (f_equal ws_layout Hlive3) (f_equal ws_layout Hlive2)).
  assert (Hc3 : current s3 = cur) by exact (f_equal ws_current Hlive3).
  assert (Hc2 : current s2 = current s) by exact (f_equal ws_current Hlive2).
  assert (Hhd2 : head s2 = head s) by exact (f_equal ws_head Hlive2).
  split; [done|]. split.
  { intros l' Hl' Hlen. cbn in Hl'. rewrite Hh, Hhd in Hl'.
    cbn. rewrite Hh, Hhd. by apply (Hst l'). }
  cbn. split; [done|]. split.
  { assert (prev_layout s2 = layout s) as E2.
    { destruct Hf2 as [[_ ->]|(_ & o & -> & _)]; done. }
    destruct Hf3 as [[_ ->]|(_ & cur' & pf' & o & _ & -> & _)]; done. }
  split; [done|]. split; [done|]. split.
  { destruct Hm3 as (_ & _ & _ & -> & _). cbn.
    by destruct Hs2 as (_ & _ & _ & -> & _). }
  intros Hnn. rewrite Hc3. destruct Hfull as [-> _]; [by rewrite Hhd2|done].
Qed.

End LayoutChange.

(** * Neighbours in a list, and the focus commands *)

Section Neighbours.

Implicit Types (l : list ptr) (a b c : ptr).

Lemma after_cons2 a b l c :
  after (a :: b :: l) c = if decide (a = c) then Some b else after (b :: l) c.
Proof. done. Qed.

Lemma before_cons2 a b l c :
  before (a :: b :: l) c
  = if decide (b = c) then Some a else before (b :: l) c.
Proof. done. Qed.

Lemma after_split l1 a b l2 :
  a ∉ l1 → after (l1 ++ a :: b :: l2) a = Some b.
Proof.
  induction l1 as [|x l1 IH]; intros Hn.
  - simpl. by destruct (decide (a = a)).
  - apply not_elem_of_cons in Hn as [Hx Hn].
    destruct l1 as [|y l1].
    + simpl. destruct (decide (x = a)); [congruence|].
      by destruct (decide (a = a)).
    + change ((x :: y :: l1) ++ a :: b :: l2)
        with (x :: y :: (l1 ++ a :: b :: l2)).
      rewrite after_cons2. destruct (decide (x = a)); [congruence|].
      by apply IH.
Qed.

Lemma before_split l1 a b l2 :
  b ∉ l1 → b ≠ a → before (l1 ++ a :: b :: l2) b = Some a.
Proof.
  induction l1 as [|x l1 IH]; intros Hn Hne.
  - simpl. by destruct (decide (b = b)).
  - apply not_elem_of_cons in Hn as [Hx Hn].
    destruct l1 as [|y l1].
    + simpl. destruct (decide (a = b)); [congruence|].
      by destruct (decide (b = b)).
    + change ((x :: y :: l1) ++ a :: b :: l2)
        with (x :: y :: (l1 ++ a :: b :: l2)).
      rewrite before_cons2. apply not_elem_of_cons in Hn as [Hy Hn'].
      destruct (decide (y = b)); [congruence|].
      apply IH; [|done]. apply not_elem_of_cons. done.
Qed.

Lemma after_last l a : NoDup l → last l = Some a → after l a = None.
Proof.
  induction l as [|x l IH]; intros Hnd Hl; [done|].
  destruct l as [|y l]; [done|].
  rewrite after_cons2. apply NoDup_cons in Hnd as [Hx Hnd].
  change (last (x :: y :: l)) with (last (y :: l)) in Hl.
  destruct (decide (x = a)) as [->|_].
  - exfalso. apply Hx. by apply last_Some_elem_of.
  - by apply IH.
Qed.

Lemma before_not_in_tail l a : a ∉ tail l → before l a = None.
Proof.
  induction l as [|x l IH]; intros Hn; [done|].
  destruct l as [|y l]; [done|].
  rewrite before_cons2. simpl in Hn.
  apply not_elem_of_cons in Hn as [Hy Hn].
  destruct (decide (y = a)); [congruence|]. by apply IH.
Qed.

Lemma before_first a l : a ∉ l → before (a :: l) a = None.
Proof. intros Hn. by apply before_not_in_tail. Qed.

(** A member of a list has a successor, or is the last. *)
Lemma member_cases l c :
  c ∈ l →
  (∃ l1 b l2, l = l1 ++ c :: b :: l2) ∨ (∃ l1, l = l1 ++ [c]).
Proof.
  intros Hin. apply list_elem_of_split in Hin as (l1 & l2 & ->).
  destruct l2 as [|b l2]; [right|left]; eauto.
Qed.

(** A member of a list has a predecessor, or is the first. *)
Lemma member_cases_rev l c :
  c ∈ l →
  (∃ l1 a l2, l = l1 ++ a :: c :: l2) ∨ (∃ l2, l = c :: l2).
Proof.
  intros Hin. apply list_elem_of_split in Hin as (l1 & l2 & ->).
  destruct (last l1) as [a|] eqn:E.
  - apply last_Some in E as (l0 & ->). left. exists l0, a, l2.
    by rewrite <- app_assoc.
  - apply last_None in E as ->. right. eauto.
Qed.

Lemma NoDup_split_l l1 a l2 :
  NoDup (l1 ++ a :: l2) → (a ∉ l1) ∧ (a ∉ l2).
Proof.
  intros H. apply NoDup_app in H as (_ & H1 & H2).
  apply NoDup_cons in H2 as [H2 _]. split; [|done].
  intros Hin. apply (H1 a Hin). by left.
Qed.

Lemma cyc_next_inner l1 c b l2 :
  NoDup (l1 ++ c :: b :: l2) → cyc_next (l1 ++ c :: b :: l2) c = b.
Proof.
  intros Hnd. unfold cyc_next. rewrite after_split; [done|].
  by apply NoDup_split_l in Hnd as [? _].
Qed.

Lemma cyc_next_last l c :
  NoDup l → last l = Some c → cyc_next l c = default NULL (hd_error l).
Proof. intros Hnd Hl. unfold cyc_next. by rewrite after_last. Qed.

Lemma cyc_prev_inner l1 a c l2 :
  NoDup (l1 ++ a :: c :: l2) → cyc_prev (l1 ++ a :: c :: l2) c = a.
Proof.
  intros Hnd. unfold cyc_prev. rewrite before_split; [done| |].
  - replace (l1 ++ a :: c :: l2) with ((l1 ++ [a]) ++ c :: l2) in Hnd
      by (by rewrite <- app_assoc).
    apply NoDup_split_l in Hnd as [Hn _]. intros Hin. apply Hn.
    rewrite elem_of_app. by left.
  - apply NoDup_app in Hnd as (_ & _ & Hnd).
    apply NoDup_cons in Hnd as [Hn _]. intros ->. apply Hn. by left.
Qed.

Lemma cyc_prev_first c l :
  NoDup (c :: l) → cyc_prev (c :: l) c = default NULL (last (c :: l)).
Proof.
  intros Hnd. unfold cyc_prev. apply NoDup_cons in Hnd as [Hn _].
  by rewrite before_first.
Qed.

Lemma cyc_next_elem l c : c ∈ l → NoDup l → cyc_next l c ∈ l.
Proof.
  intros Hin Hnd. destruct (member_cases l c Hin) as [(l1 & b & l2 & ->)|(l1 & ->)].
  - rewrite cyc_next_inner by done. rewrite elem_of_app. right. right. by left.
  - rewrite cyc_next_last; [|done|by rewrite last_snoc].
    destruct l1 as [|x l1]; simpl; by left.
Qed.

Lemma cyc_prev_elem l c : c ∈ l → NoDup l → cyc_prev l c ∈ l.
Proof.
  intros Hin Hnd.
  destruct (member_cases_rev l c Hin) as [(l1 & a & l2 & ->)|(l2 & ->)].
  - rewrite cyc_prev_inner by done. rewrite elem_of_app. right. by left.
  - rewrite cyc_prev_first by done.
    destruct (last (c :: l2)) as [t|] eqn:E; [|by apply last_None in E].
    simpl. by apply last_Some_elem_of.
Qed.

Lemma cyc_next_neq l c :
  c ∈ l → NoDup l → (2 ≤ length l)%nat → cyc_next l c ≠ c.
Proof.
  intros Hin Hnd Hlen.
  destruct (member_cases l c Hin) as [(l1 & b & l2 & ->)|(l1 & ->)].
  - rewrite cyc_next_inner by done. apply NoDup_app in Hnd as (_ & _ & Hnd).
    apply NoDup_cons in Hnd as [Hn _]. intros ->. apply Hn. by left.
  - rewrite cyc_next_last; [|done|by rewrite last_snoc].
    destruct l1 as [|x l1]; [simpl in Hlen; lia|]. simpl.
    apply NoDup_cons in Hnd as [Hn _]. intros ->. apply Hn.
    rewrite elem_of_app. right. by left.
Qed.

Lemma cyc_prev_neq l c :
  c ∈ l → NoDup l → (2 ≤ length l)%nat → cyc_prev l c ≠ c.
Proof.
  intros Hin Hnd Hlen.
  destruct (member_cases_rev l c Hin) as [(l1 & a & l2 & ->)|(l2 & ->)].
  - rewrite cyc_prev_inner by done. apply NoDup_app in Hnd as (_ & _ & Hnd).
    apply NoDup_cons in Hnd as [Hn _]. intros ->. apply Hn. by left.
  - rewrite cyc_prev_first by done.
    destruct l2 as [|x l2]; [simpl in Hlen; lia|].
    destruct (last (c :: x :: l2)) as [t|] eqn:E; [|by apply last_None in E].
    simpl. change (last (c :: x :: l2)) with (last (x :: l2)) in E.
    apply NoDup_cons in Hnd as [Hn _]. intros ->. apply Hn.
    by apply last_Some_elem_of.
Qed.

(** The two are inverse to each other. *)
Lemma cyc_prev_next l c :
  c ∈ l → NoDup l → cyc_prev l (cyc_next l c) = c.
Proof.
  intros Hin Hnd.
  destruct (member_cases l c Hin) as [(l1 & b & l2 & ->)|(l1 & ->)].
  - rewrite cyc_next_inner by done. by rewrite cyc_prev_inner.
  - rewrite cyc_next_last; [|done|by rewrite last_snoc].
    destruct l1 as [|x l1]; simpl.
    + unfold cyc_prev. simpl. done.
    + change (x :: l1 ++ [c]) with (x :: (l1 ++ [c])) in *.
      rewrite cyc_prev_first by done.
      change (x :: (l1 ++ [c])) with ((x :: l1) ++ [c]).
      by rewrite last_snoc.
Qed.

Lemma cyc_next_prev l c :
  c ∈ l → NoDup l → cyc_next l (cyc_prev l c) = c.
Proof.
  intros Hin Hnd.
  destruct (member_cases_rev l c Hin) as [(l1 & a & l2 & ->)|(l2 & ->)].
  - rewrite cyc_prev_inner by done. by rewrite cyc_next_inner.
  - rewrite cyc_prev_first by done.
    destruct (last (c :: l2)) as [t|] eqn:E; [|by apply last_None in E].
    simpl. by rewrite (cyc_next_last _ _ Hnd E).
Qed.

End Neighbours.

Section FocusCommands.

Context {cfg : Config}.

Implicit Types (s : State) (l : list ptr) (h : gmap nat Client).

(** What [current->next ? current->next : head] is. *)
Lemma next_or_head s l c cc :
  is_list (heap s) (head s) l → c ∈ l → heap s !! c = Some cc →
  (if decide (next cc ≠ NULL) then next cc else head s) = cyc_next l c.
Proof.
  intros Hl Hin Hcc. pose proof (lseg_NoDup _ _ _ Hl) as Hnd.
  destruct (member_cases l c Hin) as [(l1 & b & l2 & ->)|(l1 & ->)].
  - rewrite cyc_next_inner by done.
    apply lseg_app in Hl as (m & _ & Hl).
    destruct Hl as (-> & _ & cc' & Hcc' & Hb & Hbn & _).
    assert (cc' = cc) as -> by congruence. rewrite Hb.
    by destruct (decide (b ≠ NULL)).
  - rewrite cyc_next_last; [|done|by rewrite last_snoc].
    pose proof Hl as Hl'. apply lseg_app in Hl' as (m & _ & Hl').
    destruct Hl' as (-> & _ & cc' & Hcc' & Hnx).
    assert (cc' = cc) as -> by congruence. simpl in Hnx. rewrite Hnx.
    destruct (decide (NULL ≠ NULL)); [done|].
    destruct l1 as [|x l1]; simpl in *; by destruct Hl as (-> & _).
Qed.

(** [prev_client] of a member of a list of two clients or more. *)
Lemma prev_client_cyc s l c :
  is_list (heap s) (head s) l → c ∈ l → (2 ≤ length l)%nat →
  prev_client s c = Ret (cyc_prev l c).
Proof.
  intros Hl Hin Hlen. pose proof (lseg_NoDup _ _ _ Hl) as Hnd.
  destruct (prev_client_cases s l c Hl) as (Hmem & Hlast & _).
  destruct (member_cases_rev l c Hin) as [(l1 & a & l2 & E)|(l2 & E)].
  - rewrite (Hmem l1 a l2 E). subst l. by rewrite cyc_prev_inner.
  - destruct Hlast as (t & Ht & _ & Hp); [|done| |].
    + by eapply lseg_not_null.
    + left. subst l. by destruct Hl as (-> & _).
    + rewrite Hp. subst l. rewrite cyc_prev_first by done.
      by rewrite Ht.
Qed.

Lemma head_next_not_null s l :
  is_list (heap s) (head s) l → (2 ≤ length l)%nat →
  ∃ hd, heap s !! head s = Some hd ∧ next hd ≠ NULL.
Proof.
  intros Hl Hlen. destruct l as [|a [|b l]]; simpl in Hlen; [lia|lia|].
  destruct Hl as (-> & _ & ca & Hca & E & Hb & _).
  exists ca. split; [done|]. by rewrite E.
Qed.

Lemma head_next_null s a :
  is_list (heap s) (head s) [a] →
  ∃ hd, heap s !! head s = Some hd ∧ next hd = NULL.
Proof. intros (-> & _ & ca & Hca & Hn). simpl in Hn. eauto. Qed.

(** [focus_next] on a list of two clients or more. *)
Lemma focus_next_effect s l :
  safe s → is_list (heap s) (head s) l → (2 ≤ length l)%nat →
  ∃ s', focus_next s = Ret s' ∧ safe s' ∧
        live s' = mkWorkspace (layout s) (head s) (current s)
                    (cyc_next l (current s)) ∧
        heap s' = heap s ∧ current_workspace s' = current_workspace s.
Proof.
  intros Hsafe Hl Hlen.
  assert (Hne : l ≠ []) by (intros ->; simpl in Hlen; lia).
  destruct (safe_live _ Hsafe) as (l0 & Hl0 & Hlay & Hcur).
  rewrite (lseg_det _ _ _ _ Hl0 Hl) in Hlay, Hcur. specialize (Hcur Hne).
  pose proof Hsafe as (Hok & _ & Hsize & _).
  pose proof (lseg_NoDup _ _ _ Hl) as Hnd.
  pose proof (lseg_not_null _ _ _ _ _ Hl Hcur) as Hcn.
  destruct (head_next_not_null s l Hl Hlen) as (hd & Hhd & Hnx).
  destruct (lseg_alloc _ _ _ _ _ Hl Hcur) as [cc Hcc].
  unfold focus_next. destruct (decide (current s = NULL)); [done|].
  rewrite (load_Some _ _ _ Hhd). cbn [bind].
  destruct (decide (next hd = NULL)); [done|].
  rewrite (load_Some _ _ _ Hcc). cbn [bind].
  rewrite (next_or_head s l _ cc Hl Hcur Hcc).
  set (t := cyc_next l (current s)).
  assert (Ht : t ∈ l) by (by apply cyc_next_elem).
  assert (Htc : t ≠ current s) by (by apply cyc_next_neq).
  destruct (update_focused_client_total t s l)
    as (cur & pf & s' & Hres & Hin & Hs' & Hm); try done.
  { by apply safe_lists_end. }
  { intros <-. by right. }
  { intros _. by right. }
  destruct (resolve_focus_total t s l)
    as (cur' & pf' & Hres' & _ & Hsame & _ & Hother); try done.
  { intros <-. by right. }
  { intros _. by right. }
  rewrite Hres in Hres'. injection Hres' as <- <-.
  assert (cur = t ∧ pf = current s) as [-> ->].
  { destruct (decide (t = prev_foc s)) as [E|E].
    - destruct (Hsame E) as [Ec Hp]. rewrite <- E in Ec.
      destruct (decide (t = NULL)) as [E0|_].
      { exfalso. rewrite E0 in Ht. by apply (lseg_not_null _ _ _ _ _ Hl Ht). }
      subst cur. split; [done|].
      rewrite (prev_client_cyc s l t Hl Ht Hlen) in Hp.
      injection Hp as <-. unfold t. by apply cyc_prev_next.
    - by destruct (Hother E Htc). }
  exists s'. split; [done|].
  pose proof (safe_set_focus s l t (current s) Hsafe Hl (λ _, Ht)) as Hsafe'.
  split; [by eapply safe_moved|].
  split; [exact (moved_live _ _ (proj1 Hsafe') Hm)|].
  destruct Hm as (_ & Hh & _ & Hcw & _). done.
Qed.

(** [focus_prev] on a list of two clients or more. *)
Lemma focus_prev_effect s l :
  safe s → is_list (heap s) (head s) l → (2 ≤ length l)%nat →
  ∃ s', focus_prev s = Ret s' ∧ safe s' ∧
        live s' = mkWorkspace (layout s) (head s) (current s)
                    (cyc_prev l (current s)) ∧
        heap s' = heap s ∧ current_workspace s' = current_workspace s.
Proof.
  intros Hsafe Hl Hlen.
  assert (Hne : l ≠ []) by (intros ->; simpl in Hlen; lia).
  destruct (safe_live _ Hsafe) as (l0 & Hl0 & Hlay & Hcur).
  rewrite (lseg_det _ _ _ _ Hl0 Hl) in Hlay, Hcur. specialize (Hcur Hne).
  pose proof Hsafe as (Hok & _ & Hsize & _).
  pose proof (lseg_NoDup _ _ _ Hl) as Hnd.
  pose proof (lseg_not_null _ _ _ _ _ Hl Hcur) as Hcn.
  destruct (head_next_not_null s l Hl Hlen) as (hd & Hhd & Hnx).
  unfold focus_prev. destruct (decide (current s = NULL)); [done|].
  rewrite (load_Some _ _ _ Hhd). cbn [bind].
  destruct (decide (next hd = NULL)); [done|].
  set (s1 := set_focus (current s) (current s) s).
  change (prev_client s1 (prev_foc s1)) with (prev_client s (current s)).
  rewrite (prev_client_cyc s l _ Hl Hcur Hlen). cbn [bind].
  set (p := cyc_prev l (current s)).
  assert (Hp : p ∈ l) by (by apply cyc_prev_elem).
  assert (Hpc : p ≠ current s) by (by apply cyc_prev_neq).
  pose proof (safe_set_focus s l (current s) (current s) Hsafe Hl (λ _, Hcur))
    as Hsafe1. fold s1 in Hsafe1.
  destruct (update_focused_client_total p s1 l)
    as (cur & pf & s' & Hres & Hin & Hs' & Hm);
    try done; try (by apply safe_lists_end); try (intros _; by right).
  destruct (resolve_focus_total p s1 l)
    as (cur' & pf' & Hres' & _ & _ & _ & Hother);
    try done; try (intros _; by right).
  rewrite Hres in Hres'. injection Hres' as <- <-.
  destruct (Hother Hpc Hpc) as [-> ->].
  exists s'. split; [done|].
  pose proof (safe_set_focus s1 l p (current s) Hsafe1 Hl (λ _, Hp)) as Hsafe'.
  split; [by eapply safe_moved|].
  split; [exact (moved_live _ _ (proj1 Hsafe') Hm)|].
  destruct Hm as (_ & Hh & _ & Hcw & _). done.
Qed.

(** With a single client the two commands do nothing. *)
Lemma focus_single s a :
  is_list (heap s) (head s) [a] → focus_next s = Ret s ∧ focus_prev s = Ret s.
Proof.
  intros Hl. destruct (head_next_null s a Hl) as (hd & Hhd & Hnx).
  unfold focus_next, focus_prev.
  destruct (decide (current s = NULL)); [done|].
  rewrite (load_Some _ _ _ Hhd). cbn [bind].
  by destruct (decide (next hd = NULL)).
Qed.

End FocusCommands.

(** * Reordering the list: [move_down], [move_up] *)

Section Orders.

Implicit Types (l : list ptr) (a b c : ptr).

Lemma swap_with_next_split l1 c n l2 :
  c ∉ l1 → swap_with_next (l1 ++ c :: n :: l2) c = Some (l1 ++ n :: c :: l2).
Proof.
  induction l1 as [|x l1 IH]; intros Hn; simpl.
  - by destruct (decide (c = c)).
  - apply not_elem_of_cons in Hn as [Hx Hn].
    destruct (decide (x = c)); [congruence|]. by rewrite IH.
Qed.

Lemma swap_with_next_last l1 c : c ∉ l1 → swap_with_next (l1 ++ [c]) c = None.
Proof.
  induction l1 as [|x l1 IH]; intros Hn; simpl.
  - by destruct (decide (c = c)).
  - apply not_elem_of_cons in Hn as [Hx Hn].
    destruct (decide (x = c)); [congruence|]. by rewrite IH.
Qed.

Lemma moved_down_inner l1 c n l2 :
  NoDup (l1 ++ c :: n :: l2) →
  moved_down (l1 ++ c :: n :: l2) c = l1 ++ n :: c :: l2.
Proof.
  intros Hnd. unfold moved_down. rewrite swap_with_next_split; [done|].
  by apply NoDup_split_l in Hnd as [? _].
Qed.

Lemma moved_down_last l1 c :
  NoDup (l1 ++ [c]) → moved_down (l1 ++ [c]) c = c :: l1.
Proof.
  intros Hnd. unfold moved_down. rewrite swap_with_next_last.
  - simpl. by rewrite removelast_last.
  - by apply NoDup_split_l in Hnd as [? _].
Qed.

Lemma moved_up_first c r : moved_up (c :: r) c = r ++ [c].
Proof. unfold moved_up. by destruct (decide (c = c)). Qed.

Lemma moved_up_inner l1 p c l2 :
  NoDup (l1 ++ p :: c :: l2) →
  moved_up (l1 ++ p :: c :: l2) c = l1 ++ c :: p :: l2.
Proof.
  intros Hnd.
  assert (Hp : p ∉ l1) by (by apply NoDup_split_l in Hnd as [? _]).
  assert (Hc : c ∉ l1 ++ [p]).
  { replace (l1 ++ p :: c :: l2) with ((l1 ++ [p]) ++ c :: l2) in Hnd
      by (by rewrite <- app_assoc).
    by apply NoDup_split_l in Hnd as [? _]. }
  assert (Hstep : default (l1 ++ p :: c :: l2)
                    (swap_with_next (l1 ++ p :: c :: l2)
                       (cyc_prev (l1 ++ p :: c :: l2) c))
                  = l1 ++ c :: p :: l2).
  { rewrite cyc_prev_inner by done. by rewrite swap_with_next_split. }
  unfold moved_up. destruct l1 as [|x l1]; simpl in *.
  - destruct (decide (p = c)) as [->|_]; [|done].
    exfalso. apply Hc. by left.
  - destruct (decide (x = c)) as [->|_]; [|done].
    exfalso. apply Hc. by left.
Qed.

End Orders.

Section Surgery.

Implicit Types (h : gmap nat Client) (p q a c : ptr) (l : list ptr).

Lemma load_insert_eq h a x : load (<[a := x]> h) a = Ret x.
Proof. unfold load. by rewrite lookup_insert_eq. Qed.

Lemma load_insert_ne h a b x : a ≠ b → load (<[a := x]> h) b = load h b.
Proof. intros H. unfold load. by rewrite lookup_insert_ne. Qed.

Lemma store_next_Ret p n s (cp : Client) :
  heap s !! p = Some cp →
  store_next p n s = Ret (set_heap (<[p := set_next n cp]> (heap s)) s).
Proof. intros H. unfold store_next. by rewrite (load_Some _ _ _ H). Qed.

Lemma lseg_insert_notin h a x p l q :
  a ∉ l → lseg h p l q → lseg (<[a := x]> h) p l q.
Proof.
  intros Hn. apply lseg_frame. intros b Hb.
  rewrite lookup_insert_ne; [done|]. by intros ->.
Qed.

Lemma lseg_cons_intro h a (ca : Client) l q :
  a ≠ NULL → h !! a = Some ca → lseg h (next ca) l q → lseg h a (a :: l) q.
Proof. intros Ha Hc Hl. simpl. eauto. Qed.

(** The segment up to [a], with the link of [a] redirected. *)
Lemma lseg_prefix_redirect h p l1 a ca l2 n :
  lseg h p (l1 ++ a :: l2) NULL → h !! a = Some ca →
  lseg (<[a := set_next n ca]> h) p (l1 ++ [a]) n.
Proof.
  intros Hl Ha. pose proof (lseg_NoDup _ _ _ Hl) as Hnd.
  apply NoDup_split_l in Hnd as [Hn _].
  replace (l1 ++ a :: l2) with ((l1 ++ [a]) ++ l2) in Hl
    by (by rewrite <- app_assoc).
  apply lseg_app in Hl as (m & Hl & _).
  by eapply lseg_redirect.
Qed.

(** The clients after a member of a list. *)
Lemma lseg_after h p l1 a ca l2 :
  lseg h p (l1 ++ a :: l2) NULL → h !! a = Some ca →
  lseg h (next ca) l2 NULL.
Proof.
  intros Hl Ha. apply lseg_app in Hl as (m & _ & Hl).
  destruct Hl as (-> & _ & ca' & Ha' & Hl). congruence.
Qed.

(** The clients before a member of a list. *)
Lemma lseg_before h p l1 a l2 :
  lseg h p (l1 ++ a :: l2) NULL → lseg h p l1 a.
Proof.
  intros Hl. apply lseg_app in Hl as (m & Hl1 & Hl).
  by destruct Hl as (-> & _).
Qed.

Lemma lseg_head h p a l q : lseg h p (a :: l) q → p = a.
Proof. by intros (-> & _). Qed.

End Surgery.

Section Relink.

Implicit Types (h : gmap nat Client) (p q a c : ptr) (l : list ptr).

Lemma set_next_set_next n m (c : Client) :
  set_next n (set_next m c) = set_next n c.
Proof. done. Qed.

Lemma relinked_refl h l : relinked h h l.
Proof.
  split; [done|]. intros x cx Hx. exists (next cx). rewrite Hx.
  by destruct cx.
Qed.

Lemma relinked_insert h h' l a (ca : Client) n :
  relinked h h' l → a ∈ l → h' !! a = Some ca →
  relinked h (<[a := set_next n ca]> h') l.
Proof.
  intros [Hout Hin] Ha Hca. split.
  - intros x Hx. rewrite lookup_insert_ne; [by apply Hout|]. by intros ->.
  - intros x cx Hx. destruct (decide (a = x)) as [->|Hne].
    + rewrite lookup_insert_eq. destruct (Hin _ _ Hx) as [m Hm].
      rewrite Hm in Hca. injection Hca as <-. eauto.
    + rewrite lookup_insert_ne by done. by apply Hin.
Qed.

(** In a list that ends no client is its own successor. *)
Lemma lseg_next_neq h a r (ca : Client) :
  lseg h a (a :: r) NULL → h !! a = Some ca → next ca ≠ a.
Proof.
  intros Hl Ha. pose proof (lseg_NoDup _ _ _ Hl) as Hnd.
  apply NoDup_cons in Hnd as [Hn _].
  destruct Hl as (_ & Hnn & ca' & Ha' & Hr).
  assert (ca' = ca) as -> by congruence.
  destruct r as [|b r]; simpl in Hr.
  - by rewrite Hr.
  - destruct Hr as (-> & _). intros ->. apply Hn. by left.
Qed.

End Relink.

Section MoveDown.

Context {cfg : Config}.

Implicit Types (s : State) (l : list ptr) (h : gmap nat Client).

(** The pointer surgery of [move_down], up to the call of
    [arrange_windows]. *)
Lemma move_down_links s l :
  is_list (heap s) (head s) l → current s ∈ l → (2 ≤ length l)%nat →
  ∃ h3 hd3,
    move_down s = arrange_windows (set_head hd3 (set_heap h3 s)) ∧
    is_list h3 hd3 (moved_down l (current s)) ∧
    relinked (heap s) h3 l.
Proof.
  intros Hl Hc Hlen. pose proof (lseg_NoDup _ _ _ Hl) as Hnd.
  destruct (lseg_alloc _ _ _ _ _ Hl Hc) as [cc Hcc].
  pose proof (cyc_prev_elem l _ Hc Hnd) as Hp.
  pose proof (lseg_not_null _ _ _ _ _ Hl Hp) as Hpn.
  pose proof (lseg_not_null _ _ _ _ _ Hl Hc) as Hcn.
  unfold move_down. rewrite (prev_client_cyc s l _ Hl Hc Hlen). cbn [bind].
  rewrite (load_Some _ _ _ Hcc). cbn [bind].
  destruct (decide (cyc_prev l (current s) = NULL)) as [?|_]; [done|].
  destruct (member_cases l _ Hc) as [(l1 & n & l2 & E)|(l1 & E)].
  - (* the focused client has a successor *)
    pose proof Hl as Hl'. rewrite E in Hl'.
    pose proof (lseg_after _ _ _ _ _ _ Hl' Hcc) as Hafter.
    destruct Hafter as (Hnx & Hnn & cn & Hcn' & Hl2).
    assert (Hcne : current s ≠ n).
    { rewrite E in Hnd. apply NoDup_app in Hnd as (_ & _ & Hnd).
      apply NoDup_cons in Hnd as [Hn _]. intros <-. apply Hn. by left. }
    assert ((current s ∉ l2) ∧ (n ∉ l2)) as [Hcl2 Hnl2].
    { rewrite E in Hnd. apply NoDup_app in Hnd as (_ & _ & Hnd).
      apply NoDup_cons in Hnd as [Hn Hnd].
      apply NoDup_cons in Hnd as [Hn' _]. split; [|done].
      intros Hin. apply Hn. by right. }
    rewrite Hnx. destruct (decide (n ≠ NULL)) as [_|?]; [|done].
    destruct (last l1) as [p|] eqn:Elast.
    + (* it is not the head *)
      apply last_Some in Elast as (l0 & ->).
      rewrite <- app_assoc in E. cbn [app] in E.
      assert (Hcp : cyc_prev l (current s) = p).
      { rewrite E. apply cyc_prev_inner. by rewrite <- E. }
      rewrite Hcp in *.
      destruct (lseg_alloc _ _ _ _ _ Hl Hp) as [cp Hcp'].
      assert (p ≠ current s ∧ p ≠ n) as [Hpc Hpn'].
      { rewrite E in Hnd. apply NoDup_app in Hnd as (_ & _ & Hnd).
        apply NoDup_cons in Hnd as [Hn _]. split; intros ->; apply Hn.
        - by left.
        - right. by left. }
      assert (Hhc : head s ≠ current s).
      { rewrite E in Hl, Hnd. intros Heq.
        destruct l0 as [|x l0].
        - apply lseg_head in Hl. congruence.
        - apply lseg_head in Hl. rewrite Heq in Hl. subst x.
          apply NoDup_cons in Hnd as [Hn _]. apply Hn.
          rewrite elem_of_app. right. right. by left. }
      destruct (decide (head s = current s)) as [?|_]; [done|].
      rewrite (store_next_Ret _ _ _ cp Hcp'). cbn [bind].
      cbn [heap set_heap current head].
      rewrite load_insert_ne by done. rewrite (load_Some _ _ _ Hcc).
      cbn [bind]. rewrite Hnx. destruct (decide (n ≠ NULL)) as [_|?]; [|done].
      rewrite load_insert_ne by done. rewrite (load_Some _ _ _ Hcn').
      cbn [bind].
      erewrite store_next_Ret.
      2:{ cbn [heap set_heap]. rewrite lookup_insert_ne by done. exact Hcc. }
      cbn [bind]. cbn [heap set_heap current head].
      rewrite load_insert_ne by done. rewrite load_insert_ne by done.
      rewrite (load_Some _ _ _ Hcn'). cbn [bind].
      rewrite load_insert_eq. cbn [bind].
      cbn [next set_next].
      destruct (decide (next cn = next cn)) as [_|?]; [|done].
      erewrite store_next_Ret.
      2:{ cbn [heap set_heap]. rewrite !lookup_insert_ne by done. exact Hcn'. }
      exists (<[n := set_next (current s) cn]>
                (<[current s := set_next (next cn) cc]>
                   (<[p := set_next n cp]> (heap s)))), (head s).
      split; [reflexivity|].
      set (h1 := <[p := set_next n cp]> (heap s)).
      set (h2 := <[current s := set_next (next cn) cc]> h1).
      set (h3 := <[n := set_next (current s) cn]> h2).
      split.
      * rewrite E.
        replace (l0 ++ p :: current s :: n :: l2)
          with ((l0 ++ [p]) ++ current s :: n :: l2)
          by (by rewrite <- app_assoc).
        rewrite moved_down_inner
          by (rewrite <- app_assoc; cbn [app]; by rewrite <- E).
        apply lseg_app. exists n. split.
        -- assert (Hpre : lseg h1 (head s) (l0 ++ [p]) n).
           { eapply lseg_prefix_redirect; [|exact Hcp'].
             rewrite <- E. exact Hl. }
           assert ((current s ∉ l0 ++ [p]) ∧ (n ∉ l0 ++ [p]))
             as [Hc0 Hn0].
           { rewrite E in Hnd.
             replace (l0 ++ p :: current s :: n :: l2)
               with ((l0 ++ [p]) ++ current s :: n :: l2) in Hnd
               by (by rewrite <- app_assoc).
             apply NoDup_app in Hnd as (_ & Hd & _). split.
             - intros Hin. apply (Hd _ Hin). by left.
             - intros Hin. apply (Hd _ Hin). right. by left. }
           unfold h3, h2. apply lseg_insert_notin; [done|]. by apply lseg_insert_notin.
        -- apply (lseg_cons_intro h3 n (set_next (current s) cn)); [done| |].
           { unfold h3. by rewrite lookup_insert_eq. }
           cbn [next set_next].
           apply (lseg_cons_intro h3 _ (set_next (next cn) cc)); [done| |].
           { unfold h3, h2. rewrite lookup_insert_ne by done.
             by rewrite lookup_insert_eq. }
           cbn [next set_next]. unfold h3, h2, h1.
           assert (p ∉ l2).
           { rewrite E in Hnd. apply NoDup_split_l in Hnd as [_ Hn].
             intros Hin. apply Hn. right. by right. }
           do 2 (apply lseg_insert_notin; [done|]). by apply lseg_insert_notin.
      * unfold h3, h2, h1.
        apply relinked_insert.
        -- apply relinked_insert.
           ++ apply relinked_insert; [apply relinked_refl|done|done].
           ++ done.
           ++ by rewrite lookup_insert_ne.
        -- rewrite E. rewrite elem_of_app. right. right. right. by left.
        -- by rewrite !lookup_insert_ne.
    + (* it is the head *)
      apply last_None in Elast as ->. cbn [app] in E.
      assert (Hhc : head s = current s).
      { rewrite E in Hl. by apply lseg_head in Hl. }
      destruct (decide (head s = current s)) as [_|?]; [|done].
      cbn [bind heap set_heap set_head current head].
      rewrite (load_Some _ _ _ Hcc). cbn [bind]. rewrite Hnx.
      destruct (decide (n ≠ NULL)) as [_|?]; [|done].
      rewrite (load_Some _ _ _ Hcn'). cbn [bind].
      erewrite store_next_Ret; [|exact Hcc].
      cbn [bind]. cbn [heap set_heap set_head current head].
      rewrite load_insert_ne by done.
      rewrite (load_Some _ _ _ Hcn'). cbn [bind].
      rewrite load_insert_eq. cbn [bind]. cbn [next set_next].
      destruct (decide (next cn = next cn)) as [_|?]; [|done].
      erewrite store_next_Ret.
      2:{ cbn [heap set_heap]. rewrite lookup_insert_ne by done. exact Hcn'. }
      exists (<[n := set_next (current s) cn]>
                (<[current s := set_next (next cn) cc]> (heap s))), n.
      split; [reflexivity|].
      set (h2 := <[current s := set_next (next cn) cc]> (heap s)).
      set (h3 := <[n := set_next (current s) cn]> h2).
      split.
      * rewrite E.
        pose proof (moved_down_inner [] (current s) n l2) as Hmd.
        cbn [app] in Hmd. rewrite Hmd by (by rewrite <- E).
        apply (lseg_cons_intro h3 n (set_next (current s) cn)); [done| |].
        { unfold h3. by rewrite lookup_insert_eq. }
        cbn [next set_next].
        apply (lseg_cons_intro h3 _ (set_next (next cn) cc)); [done| |].
        { unfold h3, h2. rewrite lookup_insert_ne by done.
          by rewrite lookup_insert_eq. }
        cbn [next set_next]. unfold h3, h2.
        apply lseg_insert_notin; [done|]. by apply lseg_insert_notin.
      * unfold h3, h2. apply relinked_insert.
        -- apply relinked_insert; [apply relinked_refl|done|done].
        -- rewrite E. right. by left.
        -- by rewrite lookup_insert_ne.
  - (* the focused client is the last *)
    destruct (last l1) as [p|] eqn:Elast.
    2:{ apply last_None in Elast as ->. subst l. simpl in Hlen. lia. }
    apply last_Some in Elast as (l0 & ->).
    rewrite <- app_assoc in E. cbn [app] in E.
    assert (Hcp : cyc_prev l (current s) = p).
    { rewrite E. apply (cyc_prev_inner l0 p _ []). by rewrite <- E. }
    rewrite Hcp in *.
    destruct (lseg_alloc _ _ _ _ _ Hl Hp) as [cp Hcp'].
    pose proof Hl as Hl'. rewrite E in Hl'.
    replace (l0 ++ [p; current s]) with ((l0 ++ [p]) ++ current s :: [])
      in Hl' by (by rewrite <- app_assoc).
    pose proof (lseg_after _ _ _ _ _ _ Hl' Hcc) as Hnx. simpl in Hnx.
    assert (Hc0 : current s ∉ l0 ++ [p]).
    { rewrite E in Hnd.
      replace (l0 ++ [p; current s]) with ((l0 ++ [p]) ++ [current s])
        in Hnd by (by rewrite <- app_assoc).
      by apply NoDup_split_l in Hnd as [? _]. }
    assert (Hpc : p ≠ current s).
    { intros ->. apply Hc0. rewrite elem_of_app. right. by left. }
    assert (Hhd : head s ∈ l0 ++ [p]).
    { rewrite E in Hl. destruct l0 as [|x l0]; apply lseg_head in Hl;
        rewrite Hl; by left. }
    assert (Hhc : head s ≠ current s) by (by intros Heq; rewrite Heq in Hhd).
    rewrite Hnx. destruct (decide (NULL ≠ NULL)) as [?|_]; [done|].
    destruct (decide (head s = current s)) as [?|_]; [done|].
    rewrite (store_next_Ret _ _ _ cp Hcp'). cbn [bind].
    cbn [heap set_heap current head].
    rewrite load_insert_ne by done. rewrite (load_Some _ _ _ Hcc).
    cbn [bind]. rewrite Hnx. destruct (decide (NULL ≠ NULL)) as [?|_]; [done|].
    cbn [bind].
    erewrite store_next_Ret.
    2:{ cbn [heap set_heap]. rewrite lookup_insert_ne by done. exact Hcc. }
    cbn [bind]. cbn [heap set_heap current head].
    set (h1 := <[p := set_next NULL cp]> (heap s)).
    set (h2 := <[current s := set_next (head s) cc]> h1).
    assert (Hl1 : lseg h1 (head s) (l0 ++ [p]) NULL).
    { apply (lseg_prefix_redirect _ _ l0 p cp [current s] NULL); [|done].
      rewrite <- E. exact Hl. }
    assert (∃ chd, h1 !! head s = Some chd ∧ next chd ≠ head s)
      as (chd & Hchd & Hne).
    { destruct (l0 ++ [p]) as [|x r] eqn:El; [by apply elem_of_nil in Hhd|].
      pose proof (lseg_head _ _ _ _ _ Hl1) as Hx. rewrite Hx in Hl1 |- *.
      pose proof Hl1 as (_ & _ & cx & Hcx & _). exists cx. split; [done|].
      eapply lseg_next_neq; [exact Hl1|done]. }
    assert (Hchd2 : h2 !! head s = Some chd).
    { unfold h2. rewrite lookup_insert_ne; [done|congruence]. }
    assert (Hcc2 : h2 !! current s = Some (set_next (head s) cc)).
    { unfold h2. by rewrite lookup_insert_eq. }
    rewrite (load_Some _ _ _ Hchd2). cbn [bind].
    rewrite (load_Some _ _ _ Hcc2). cbn [bind]. cbn [next set_next].
    destruct (decide (next chd = head s)) as [?|_]; [done|].
    exists h2, (current s). split; [reflexivity|]. split.
    + rewrite E.
      replace (l0 ++ [p; current s]) with ((l0 ++ [p]) ++ [current s])
        by (by rewrite <- app_assoc).
      rewrite moved_down_last.
      2:{ rewrite <- app_assoc. cbn [app]. by rewrite <- E. }
      apply (lseg_cons_intro h2 _ (set_next (head s) cc)); [done| |].
      { unfold h2. by rewrite lookup_insert_eq. }
      cbn [next set_next]. unfold h2. by apply lseg_insert_notin.
    + unfold h2, h1. apply relinked_insert.
      * apply relinked_insert; [apply relinked_refl|done|done].
      * done.
      * by rewrite lookup_insert_ne.
Qed.

End MoveDown.

Section MoveUp.

Context {cfg : Config}.

Implicit Types (s : State) (l : list ptr) (h : gmap nat Client).

(** The loop of [move_up] stops in front of [p] when [p] follows some
    client. *)
Lemma move_up_loop_found k h p q l1 a l2 :
  lseg h q (l1 ++ a :: p :: l2) NULL → (length l1 < k)%nat →
  move_up_loop k h p q = Ret a.
Proof.
  intros Hl. pose proof (lseg_NoDup _ _ _ Hl) as Hnd. revert q k Hl Hnd.
  induction l1 as [|b l1 IH]; intros q k Hl Hnd Hk.
  - simpl in Hl. destruct Hl as (-> & Ha & ca & Hca & Hnx & _).
    destruct k as [|k]; [simpl in Hk; lia|]. simpl.
    destruct (decide (a = NULL)) as [?|_]; [done|].
    rewrite (load_Some _ _ _ Hca). cbn [bind].
    by destruct (decide (next ca ≠ p)).
  - simpl in Hl. destruct Hl as (-> & Hb & cb & Hcb & Hl).
    destruct k as [|k]; [simpl in Hk; lia|]. simpl in Hk. simpl.
    destruct (decide (b = NULL)) as [?|_]; [done|].
    rewrite (load_Some _ _ _ Hcb). cbn [bind].
    apply NoDup_cons in Hnd as [Hb' Hnd].
    assert (Hnx : next cb ≠ p).
    { destruct l1 as [|b' l1]; simpl in Hl; destruct Hl as (-> & _);
        intros ->; apply NoDup_cons in Hnd as [Hn _]; apply Hn.
      - by left.
      - rewrite elem_of_app. right. right. by left. }
    destruct (decide (next cb ≠ p)) as [_|?]; [|done].
    apply IH; [done|done|lia].
Qed.

(** Otherwise it runs to the end of the list. *)
Lemma move_up_loop_none k h p q l :
  lseg h q l NULL → p ≠ NULL → p ∉ tail l → (length l ≤ k)%nat →
  move_up_loop k h p q = Ret NULL.
Proof.
  revert q k. induction l as [|a l IH]; intros q k Hl Hp Hn Hk.
  - simpl in Hl. subst q. by destruct k.
  - destruct Hl as (-> & Ha & ca & Hca & Hl).
    destruct k as [|k]; [simpl in Hk; lia|]. simpl in Hk. simpl.
    destruct (decide (a = NULL)) as [?|_]; [done|].
    rewrite (load_Some _ _ _ Hca). cbn [bind]. simpl in Hn.
    assert (Hnx : next ca ≠ p).
    { destruct l as [|b l]; simpl in Hl.
      - by rewrite Hl.
      - destruct Hl as (-> & _). intros ->. apply Hn. by left. }
    destruct (decide (next ca ≠ p)) as [_|?]; [|done].
    apply IH; [done|done| |lia].
    destruct l as [|b l]; simpl; [apply not_elem_of_nil|].
    intros Hin. apply Hn. by right.
Qed.

(** The pointer surgery of [move_up], up to the call of
    [arrange_windows]. *)
Lemma move_up_links s l :
  is_list (heap s) (head s) l → current s ∈ l → (2 ≤ length l)%nat →
  ∃ h3 hd3,
    move_up s = arrange_windows (set_head hd3 (set_heap h3 s)) ∧
    is_list h3 hd3 (moved_up l (current s)) ∧
    relinked (heap s) h3 l.
Proof.
  intros Hl Hc Hlen. pose proof (lseg_NoDup _ _ _ Hl) as Hnd.
  destruct (lseg_alloc _ _ _ _ _ Hl Hc) as [cc Hcc].
  pose proof (cyc_prev_elem l _ Hc Hnd) as Hp.
  pose proof (lseg_not_null _ _ _ _ _ Hl Hp) as Hpn.
  pose proof (lseg_not_null _ _ _ _ _ Hl Hc) as Hcn.
  destruct (lseg_alloc _ _ _ _ _ Hl Hp) as [cp Hcp].
  unfold move_up. rewrite (prev_client_cyc s l _ Hl Hc Hlen). cbn [bind].
  destruct (decide (cyc_prev l (current s) = NULL)) as [?|_]; [done|].
  rewrite (load_Some _ _ _ Hcp). cbn [bind].
  destruct (member_cases_rev l _ Hc) as [(l1 & p & l2 & E)|(r & E)].
  - (* the focused client has a predecessor *)
    assert (Hcp' : cyc_prev l (current s) = p).
    { rewrite E. apply cyc_prev_inner. by rewrite <- E. }
    rewrite Hcp' in *.
    pose proof Hl as Hl'. rewrite E in Hl'.
    pose proof (lseg_after _ _ _ _ _ _ Hl' Hcp) as Hafter.
    pose proof Hafter as (Hnx & _ & cc' & Hcc' & Hl2).
    assert (cc' = cc) as -> by congruence.
    assert (Hcnx : next cc ≠ current s).
    { rewrite Hnx in Hafter. eapply lseg_next_neq; [exact Hafter|done]. }
    assert (Hpc : p ≠ current s).
    { rewrite E in Hnd. apply NoDup_app in Hnd as (_ & _ & Hnd).
      apply NoDup_cons in Hnd as [Hn _]. intros ->. apply Hn. by left. }
    assert ((p ∉ l2) ∧ (current s ∉ l2)) as [Hpl2 Hcl2].
    { rewrite E in Hnd. apply NoDup_app in Hnd as (_ & _ & Hnd).
      apply NoDup_cons in Hnd as [Hn Hnd].
      apply NoDup_cons in Hnd as [Hn' _]. split; [|done].
      intros Hin. apply Hn. by right. }
    rewrite Hnx. destruct (decide (current s ≠ NULL)) as [_|?]; [|done].
    destruct (last l1) as [pp|] eqn:Elast.
    + (* the predecessor is not the head *)
      apply last_Some in Elast as (l0 & ->).
      rewrite <- app_assoc in E. cbn [app] in E.
      rewrite (move_up_loop_found _ _ _ _ l0 pp (current s :: l2)).
      2:{ rewrite <- E. exact Hl. }
      2:{ apply lseg_length in Hl. rewrite E, length_app in Hl.
          unfold fuel. lia. }
      cbn [bind].
      assert (Hppl : pp ∈ l).
      { rewrite E. rewrite elem_of_app. right. by left. }
      pose proof (lseg_not_null _ _ _ _ _ Hl Hppl) as Hppn.
      destruct (lseg_alloc _ _ _ _ _ Hl Hppl) as [cpp Hcpp].
      assert (pp ≠ p ∧ pp ≠ current s) as [Hppp Hppc].
      { rewrite E in Hnd. apply NoDup_app in Hnd as (_ & _ & Hnd).
        apply NoDup_cons in Hnd as [Hn _]. split; intros ->; apply Hn.
        - by left.
        - right. by left. }
      assert ((p ∉ l0 ++ [pp]) ∧ (current s ∉ l0 ++ [pp]) ∧ (pp ∉ l2))
        as (Hp0 & Hc0 & Hppl2).
      { rewrite E in Hnd.
        replace (l0 ++ pp :: p :: current s :: l2)
          with ((l0 ++ [pp]) ++ p :: current s :: l2) in Hnd
          by (by rewrite <- app_assoc).
        apply NoDup_app in Hnd as (_ & Hd & _). split; [|split].
        - intros Hin. apply (Hd _ Hin). by left.
        - intros Hin. apply (Hd _ Hin). right. by left.
        - intros Hin. apply (Hd pp).
          + rewrite elem_of_app. right. by left.
          + right. by right. }
      assert (Hhd : head s ∈ l0 ++ [pp]).
      { rewrite E in Hl. destruct l0 as [|x l0]; apply lseg_head in Hl;
          rewrite Hl; by left. }
      assert (Hhdl : head s ∈ l).
      { rewrite E.
        replace (l0 ++ pp :: p :: current s :: l2)
          with ((l0 ++ [pp]) ++ p :: current s :: l2)
          by (by rewrite <- app_assoc).
        rewrite elem_of_app. by left. }
      assert (Hdisj : ∀ x, x ∈ l0 ++ [pp] → x ∉ l2).
      { rewrite E in Hnd.
        replace (l0 ++ pp :: p :: current s :: l2)
          with ((l0 ++ [pp]) ++ p :: current s :: l2) in Hnd
          by (by rewrite <- app_assoc).
        apply NoDup_app in Hnd as (_ & Hd & _).
        intros x Hx Hin. apply (Hd _ Hx). right. by right. }
      assert (Hnh : next cc ≠ head s).
      { intros Heq. destruct l2 as [|b l2]; simpl in Hl2.
        - rewrite Hl2 in Heq.
          apply (lseg_not_null _ _ _ _ _ Hl Hhdl). by rewrite <- Heq.
        - destruct Hl2 as (Hb & _). apply (Hdisj _ Hhd).
          rewrite <- Heq, Hb. by left. }
      destruct (decide (pp ≠ NULL)) as [_|?]; [|done].
      rewrite (store_next_Ret _ _ _ cpp Hcpp). cbn [bind].
      cbn [heap set_heap current head].
      rewrite load_insert_ne by done. rewrite (load_Some _ _ _ Hcc).
      cbn [bind].
      destruct (decide (next cc = head s)) as [?|_]; [done|].
      erewrite store_next_Ret.
      2:{ cbn [heap set_heap]. rewrite lookup_insert_ne by done. exact Hcp. }
      cbn [bind]. cbn [heap set_heap current head].
      rewrite load_insert_ne by done. rewrite load_insert_ne by done.
      rewrite (load_Some _ _ _ Hcc). cbn [bind].
      destruct (decide (next cc = head s)) as [?|_]; [done|].
      erewrite store_next_Ret.
      2:{ cbn [heap set_heap]. rewrite !lookup_insert_ne by done. exact Hcc. }
      exists (<[current s := set_next p cc]>
                (<[p := set_next (next cc) cp]>
                   (<[pp := set_next (current s) cpp]> (heap s)))), (head s).
      split; [reflexivity|].
      set (h1 := <[pp := set_next (current s) cpp]> (heap s)).
      set (h2 := <[p := set_next (next cc) cp]> h1).
      set (h3 := <[current s := set_next p cc]> h2).
      split.
      * rewrite E.
        replace (l0 ++ pp :: p :: current s :: l2)
          with ((l0 ++ [pp]) ++ p :: current s :: l2)
          by (by rewrite <- app_assoc).
        rewrite moved_up_inner
          by (rewrite <- app_assoc; cbn [app]; by rewrite <- E).
        apply lseg_app. exists (current s). split.
        -- assert (Hpre : lseg h1 (head s) (l0 ++ [pp]) (current s)).
           { apply (lseg_prefix_redirect _ _ l0 pp cpp
                      (p :: current s :: l2)); [|done].
             rewrite <- E. exact Hl. }
           unfold h3, h2. apply lseg_insert_notin; [done|].
           by apply lseg_insert_notin.
        -- apply (lseg_cons_intro h3 _ (set_next p cc)); [done| |].
           { unfold h3. by rewrite lookup_insert_eq. }
           cbn [next set_next].
           apply (lseg_cons_intro h3 p (set_next (next cc) cp)); [done| |].
           { unfold h3, h2. rewrite lookup_insert_ne by congruence.
             by rewrite lookup_insert_eq. }
           cbn [next set_next]. unfold h3, h2, h1.
           do 2 (apply lseg_insert_notin; [done|]).
           by apply lseg_insert_notin.
      * unfold h3, h2, h1. apply relinked_insert.
        -- apply relinked_insert.
           ++ apply relinked_insert; [apply relinked_refl|done|done].
           ++ done.
           ++ by rewrite lookup_insert_ne.
        -- done.
        -- rewrite !lookup_insert_ne by congruence. done.
    + (* the predecessor is the head *)
      apply last_None in Elast as ->. cbn [app] in E.
      assert (Hhp : head s = p).
      { rewrite E in Hl. by apply lseg_head in Hl. }
      rewrite (move_up_loop_none _ _ _ _ l); [|done|done| |by eapply fuel_enough].
      2:{ rewrite E. simpl. rewrite E in Hnd.
          by apply NoDup_cons in Hnd as [? _]. }
      cbn [bind].
      destruct (decide (NULL ≠ NULL)) as [?|_]; [done|].
      destruct (decide (head s = current s)) as [?|_]; [congruence|].
      cbn [bind heap set_heap set_head current head].
      rewrite (load_Some _ _ _ Hcc). cbn [bind].
      destruct (decide (next cc = current s)) as [?|_]; [done|].
      erewrite store_next_Ret; [|exact Hcp]. cbn [bind].
      cbn [heap set_heap set_head current head].
      rewrite load_insert_ne by done. rewrite (load_Some _ _ _ Hcc).
      cbn [bind].
      destruct (decide (next cc = current s)) as [?|_]; [done|].
      erewrite store_next_Ret.
      2:{ cbn [heap set_heap]. rewrite lookup_insert_ne by done. exact Hcc. }
      exists (<[current s := set_next p cc]>
                (<[p := set_next (next cc) cp]> (heap s))), (current s).
      split; [reflexivity|].
      set (h2 := <[p := set_next (next cc) cp]> (heap s)).
      set (h3 := <[current s := set_next p cc]> h2).
      split.
      * rewrite E.
        pose proof (moved_up_inner [] p (current s) l2) as Hmu.
        cbn [app] in Hmu. rewrite Hmu by (by rewrite <- E).
        apply (lseg_cons_intro h3 _ (set_next p cc)); [done| |].
        { unfold h3. by rewrite lookup_insert_eq. }
        cbn [next set_next].
        apply (lseg_cons_intro h3 p (set_next (next cc) cp)); [done| |].
        { unfold h3, h2. rewrite lookup_insert_ne by congruence.
          by rewrite lookup_insert_eq. }
        cbn [next set_next]. unfold h3, h2.
        apply lseg_insert_notin; [done|]. by apply lseg_insert_notin.
      * unfold h3, h2. apply relinked_insert.
        -- apply relinked_insert; [apply relinked_refl|done|done].
        -- done.
        -- by rewrite lookup_insert_ne.
  - (* the focused client is the head *)
    destruct (last r) as [t|] eqn:Elast.
    2:{ apply last_None in Elast as ->. subst l. simpl in Hlen. lia. }
    apply last_Some in Elast as (r0 & ->).
    assert (Hcp' : cyc_prev l (current s) = t).
    { rewrite E. rewrite cyc_prev_first by (by rewrite <- E).
      change (current s :: r0 ++ [t]) with ((current s :: r0) ++ [t]).
      by rewrite last_snoc. }
    rewrite Hcp' in *.
    assert (Hhc : head s = current s).
    { rewrite E in Hl. by apply lseg_head in Hl. }
    pose proof Hl as Hl'. rewrite E in Hl'.
    pose proof (lseg_after _ _ [] _ _ _ Hl' Hcc) as Hr.
    assert (Htn : next cp = NULL).
    { change (current s :: r0 ++ [t]) with ((current s :: r0) ++ t :: [])
        in Hl'.
      by pose proof (lseg_after _ _ _ _ _ _ Hl' Hcp) as Ht. }
    assert (Hcr : current s ∉ r0 ++ [t]).
    { rewrite E in Hnd. by apply NoDup_cons in Hnd as [? _]. }
    assert (Htc : t ≠ current s).
    { intros ->. apply Hcr. rewrite elem_of_app. right. by left. }
    rewrite Htn. destruct (decide (NULL ≠ NULL)) as [?|_]; [done|].
    cbn [bind].
    destruct (decide (NULL ≠ NULL)) as [?|_]; [done|].
    destruct (decide (head s = current s)) as [_|?]; [|done].
    rewrite (load_Some _ _ _ Hcc). cbn [bind].
    cbn [heap set_heap set_head current head].
    rewrite (load_Some _ _ _ Hcc). cbn [bind].
    destruct (decide (next cc = next cc)) as [_|?]; [|done].
    erewrite store_next_Ret; [|exact Hcp]. cbn [bind].
    cbn [heap set_heap set_head current head].
    rewrite load_insert_ne by done. rewrite (load_Some _ _ _ Hcc).
    cbn [bind].
    destruct (decide (next cc = next cc)) as [_|?]; [|done].
    erewrite store_next_Ret.
    2:{ cbn [heap set_heap]. rewrite lookup_insert_ne by done. exact Hcc. }
    exists (<[current s := set_next NULL cc]>
              (<[t := set_next (current s) cp]> (heap s))), (next cc).
    split; [reflexivity|].
    set (h2 := <[t := set_next (current s) cp]> (heap s)).
    set (h3 := <[current s := set_next NULL cc]> h2).
    split.
    + rewrite E, moved_up_first. apply lseg_app. exists (current s). split.
      * unfold h3. apply lseg_insert_notin; [done|].
        by apply (lseg_prefix_redirect _ _ r0 t cp []).
      * apply (lseg_cons_intro h3 _ (set_next NULL cc)); [done| |done].
        unfold h3. by rewrite lookup_insert_eq.
    + unfold h3, h2. apply relinked_insert.
      * apply relinked_insert; [apply relinked_refl|done|done].
      * done.
      * by rewrite lookup_insert_ne.
Qed.

End MoveUp.

Section Reorder.

Context {cfg : Config}.

Implicit Types (s : State) (l : list ptr) (h : gmap nat Client).

Lemma moved_down_perm l c : c ∈ l → NoDup l → moved_down l c ≡ₚ l.
Proof.
  intros Hin Hnd.
  destruct (member_cases l c Hin) as [(l1 & b & l2 & ->)|(l1 & ->)].
  - rewrite moved_down_inner by done. apply Permutation_app_head, perm_swap.
  - rewrite moved_down_last by done. apply Permutation_cons_append.
Qed.

Lemma moved_up_perm l c : c ∈ l → NoDup l → moved_up l c ≡ₚ l.
Proof.
  intros Hin Hnd.
  destruct (member_cases_rev l c Hin) as [(l1 & a & l2 & ->)|(l2 & ->)].
  - rewrite moved_up_inner by done. apply Permutation_app_head, perm_swap.
  - rewrite moved_up_first. symmetry. apply Permutation_cons_append.
Qed.

Lemma moved_up_down l c : c ∈ l → NoDup l → moved_up (moved_down l c) c = l.
Proof.
  intros Hin Hnd.
  assert (Hnd' : NoDup (moved_down l c)).
  { by rewrite (moved_down_perm l c Hin Hnd). }
  destruct (member_cases l c Hin) as [(l1 & b & l2 & ->)|(l1 & ->)].
  - rewrite moved_down_inner in * by done. by rewrite moved_up_inner.
  - rewrite moved_down_last by done. by rewrite moved_up_first.
Qed.

Lemma moved_down_up l c : c ∈ l → NoDup l → moved_down (moved_up l c) c = l.
Proof.
  intros Hin Hnd.
  assert (Hnd' : NoDup (moved_up l c)).
  { by rewrite (moved_up_perm l c Hin Hnd). }
  destruct (member_cases_rev l c Hin) as [(l1 & a & l2 & ->)|(l2 & ->)].
  - rewrite moved_up_inner in * by done. by rewrite moved_down_inner.
  - rewrite moved_up_first in *. by rewrite moved_down_last.
Qed.

Lemma relinked_tiled h h' l a : relinked h h' l → tiled h a → tiled h' a.
Proof.
  intros [_ Hin] (c & Hc & Hf). destruct (Hin _ _ Hc) as [n Hn].
  exists (set_next n c). split; [done|]. by destruct c.
Qed.

Lemma relinked_trans h h1 h2 l :
  relinked h h1 l → relinked h1 h2 l → relinked h h2 l.
Proof.
  intros [Ho1 Hi1] [Ho2 Hi2]. split.
  - intros x Hx. by rewrite Ho2, Ho1.
  - intros x cx Hx. destruct (Hi1 _ _ Hx) as [n Hn].
    destruct (Hi2 _ _ Hn) as [m Hm]. exists m. by rewrite Hm.
Qed.

Lemma relinked_perm h h' l l' : l ≡ₚ l' → relinked h h' l → relinked h h' l'.
Proof.
  intros Hp [Ho Hi]. split; [|done]. intros x Hx. apply Ho.
  by rewrite Hp.
Qed.

(** Once the live list is relinked, [arrange_windows] runs and the store
    is well formed. *)
Lemma relinked_arrange s l l3 h3 hd3 :
  store_ok s → is_list (heap s) (head s) l →
  is_list h3 hd3 l3 → relinked (heap s) h3 l → l3 ≡ₚ l →
  ((2 ≤ length l)%nat → ∀ a, hd_error l3 = Some a → can_arrange s a) →
  ∃ s', arrange_windows (set_head hd3 (set_heap h3 s)) = Ret s' ∧
        store_ok s' ∧ heap s' = h3 ∧ live s' = mkWorkspace (layout s) hd3
                                                 (prev_foc s) (current s) ∧
        current_workspace s' = current_workspace s.
Proof.
  intros Hst Hl Hl3 Hrel Hperm Hcan.
  pose proof Hst as (Hok & Hn & Hls & Hd).
  set (s3 := set_head hd3 (set_heap h3 s)).
  assert (Hok3 : ws_ok s3) by exact Hok.
  assert (Hst3 : store_ok s3).
  { apply (store_ok_change s s3 l l3); try done.
    - cbn. destruct Hrel as [Hout _]. rewrite Hout; [done|].
      intros Hin. by apply (lseg_not_null _ _ _ _ _ Hl Hin).
    - intros j Hj. rewrite !heads_insert. cbn.
      by rewrite !list_lookup_insert_ne.
    - intros x Hx. left. by rewrite <- Hperm.
    - intros j q lq x Hj Hq Hlq Hx. cbn.
      destruct Hrel as [Hout _]. rewrite Hout; [done|].
      intros Hxl. eapply (Hd (Z.to_nat (current_workspace s)) j);
        eauto using heads_active. }
  destruct (arrange_windows_total s3 l3) as [s' Hs'];
    [done|by apply store_ok_lists_end|done| |].
  { intros Hlen3. rewrite (Permutation_length Hperm) in Hlen3.
    destruct l3 as [|a l3'] eqn:El3.
    { apply Permutation_length in Hperm. simpl in Hperm. lia. }
    destruct (Hcan Hlen3 a eq_refl) as [Hrange Hstack].
    split; [done|]. intros Hlay. cbn in Hlay.
    pose proof (lseg_head _ _ _ _ _ Hl3) as ->.
    destruct (relinked_tiled _ _ _ _ Hrel (Hstack Hlay)) as (c & Hc & Hf).
    exists c. done. }
  exists s'. split; [done|].
  apply arrange_windows_moved in Hs'; [|done].
  split; [by eapply store_ok_moved|].
  split; [by destruct Hs' as (_ & -> & _)|].
  split; [exact (moved_live s3 s' Hok3 Hs')|].
  by destruct Hs' as (_ & _ & _ & -> & _).
Qed.

(** With a single client the two commands do nothing. *)
Lemma move_single s a :
  is_list (heap s) (head s) [a] → current s = a →
  move_down s = Ret s ∧ move_up s = Ret s.
Proof.
  intros Hl Hc.
  destruct (prev_client_cases s [a] (current s) Hl) as (_ & _ & Hone).
  pose proof Hl as (_ & _ & ca & Hca & _).
  unfold move_down, move_up. rewrite Hone by (by right). cbn [bind].
  rewrite Hc, (load_Some _ _ _ Hca). cbn [bind].
  by destruct (decide (NULL = NULL)).
Qed.

Lemma move_down_total s l :
  store_ok s → is_list (heap s) (head s) l → current s ∈ l →
  ((2 ≤ length l)%nat →
   ∀ a, hd_error (moved_down l (current s)) = Some a → can_arrange s a) →
  ∃ s', move_down s = Ret s' ∧
        is_list (heap s') (head s') (moved_down l (current s)) ∧
        current s' = current s ∧ layout s' = layout s ∧
        relinked (heap s) (heap s') l ∧ store_ok s'.
Proof.
  intros Hst Hl Hc Hcan. pose proof (lseg_NoDup _ _ _ Hl) as Hnd.
  destruct (decide (2 ≤ length l)%nat) as [Hlen|Hlen].
  - destruct (move_down_links s l Hl Hc Hlen) as (h3 & hd3 & -> & Hl3 & Hrel).
    destruct (relinked_arrange s l _ h3 hd3 Hst Hl Hl3 Hrel)
      as (s' & Hs' & Hst' & Hh' & Hlive & _);
      [by apply moved_down_perm|done|].
    exists s'. split; [done|]. injection Hlive as Hly Hhd Hpf Hcur.
    rewrite Hh', Hhd. done.
  - destruct l as [|a [|b l]]; [by apply elem_of_nil in Hc| |simpl in Hlen; lia].
    apply list_elem_of_singleton in Hc.
    destruct (move_single s a Hl Hc) as [Hmd _].
    exists s. split; [done|]. rewrite Hc. unfold moved_down. simpl.
    destruct (decide (a = a)); [|done]. simpl.
    split; [done|]. split; [done|]. split; [done|].
    split; [apply relinked_refl|done].
Qed.

Lemma move_up_total s l :
  store_ok s → is_list (heap s) (head s) l → current s ∈ l →
  ((2 ≤ length l)%nat →
   ∀ a, hd_error (moved_up l (current s)) = Some a → can_arrange s a) →
  ∃ s', move_up s = Ret s' ∧
        is_list (heap s') (head s') (moved_up l (current s)) ∧
        current s' = current s ∧ layout s' = layout s ∧
        relinked (heap s) (heap s') l ∧ store_ok s'.
Proof.
  intros Hst Hl Hc Hcan. pose proof (lseg_NoDup _ _ _ Hl) as Hnd.
  destruct (decide (2 ≤ length l)%nat) as [Hlen|Hlen].
  - destruct (move_up_links s l Hl Hc Hlen) as (h3 & hd3 & -> & Hl3 & Hrel).
    destruct (relinked_arrange s l _ h3 hd3 Hst Hl Hl3 Hrel)
      as (s' & Hs' & Hst' & Hh' & Hlive & _);
      [by apply moved_up_perm|done|].
    exists s'. split; [done|]. injection Hlive as Hly Hhd Hpf Hcur.
    rewrite Hh', Hhd. done.
  - destruct l as [|a [|b l]]; [by apply elem_of_nil in Hc| |simpl in Hlen; lia].
    apply list_elem_of_singleton in Hc.
    destruct (move_single s a Hl Hc) as [_ Hmu].
    exists s. split; [done|]. rewrite Hc. unfold moved_up.
    destruct (decide (a = a)); [|done]. simpl.
    split; [done|]. split; [done|]. split; [done|].
    split; [apply relinked_refl|done].
Qed.

End Reorder.

(** * Creating a client, focusing a client *)

Section Create.

Context {cfg : Config}.

Implicit Types (s : State) (l : list ptr) (h : gmap nat Client).

(** [client_from_window] with a fresh address: the new client goes to the
    end of the live list. *)
Lemma client_from_window_total wn a s l :
  is_list (heap s) (head s) l → a ≠ NULL → heap s !! a = None →
  ∃ s', client_from_window wn a s = Ret (s', a) ∧
        is_list (heap s') (head s') (l ++ [a]) ∧
        heap s' !! a = Some (set_win wn zero_client) ∧
        (∀ x, x ≠ a → last l ≠ Some x → heap s' !! x = heap s !! x) ∧
        (∀ t ct, last l = Some t → heap s !! t = Some ct →
                 heap s' !! t = Some (set_next a ct)) ∧
        (l ≠ [] → head s' = head s) ∧
        out s' = out s ++ [ChangeEventMask wn] ∧
        live s' = mkWorkspace (layout s) (head s') (prev_foc s) (current s) ∧
        workspaces s' = workspaces s ∧
        current_workspace s' = current_workspace s.
Proof.
  intros Hl Ha Hfresh.
  assert (Hal : a ∉ l).
  { intros Hin. destruct (lseg_alloc _ _ _ _ _ Hl Hin). congruence. }
  set (h1 := <[a := zero_client]> (heap s)).
  assert (Hl1 : is_list h1 (head s) l) by (by apply lseg_insert_notin).
  unfold client_from_window, calloc.
  destruct (decide (a = NULL)) as [?|_]; [done|]. rewrite Hfresh.
  cbn [bind]. fold h1.
  destruct (last l) as [t|] eqn:Elast.
  - apply last_Some in Elast as (l0 & ->).
    assert (Htl : t ∈ l0 ++ [t]) by (rewrite elem_of_app; right; by left).
    destruct (lseg_alloc _ _ _ _ _ Hl Htl) as [ct Hct].
    assert (Hta : t ≠ a) by (intros ->; done).
    assert (Hhn : head s ≠ NULL).
    { destruct l0 as [|x l0]; pose proof Hl as Hl'; apply lseg_head in Hl';
        rewrite Hl'; eapply (lseg_not_null _ _ _ _ _ Hl); by left. }
    assert (Hstore :
              (let* t0 := prev_client (set_heap h1 s) (head s) in
               let* s2 :=
                 if decide (head s = NULL) then Ret (set_head a (set_heap h1 s))
                 else if decide (t0 ≠ NULL) then store_next t0 a (set_heap h1 s)
                 else store_next (head s) a (set_heap h1 s) in
               let* cl := load (heap s2) a in
               Ret (emit [ChangeEventMask wn]
                      (set_heap (<[a := set_win wn cl]> (heap s2)) s2), a))
              = Ret (emit [ChangeEventMask wn]
                       (set_heap (<[a := set_win wn zero_client]>
                                    (<[t := set_next a ct]> h1)) s), a)).
    { destruct (prev_client_cases (set_heap h1 s) _ (head s) Hl1)
        as (_ & Hlast & Hone).
      assert (Hct1 : h1 !! t = Some ct) by (unfold h1; by rewrite lookup_insert_ne).
      destruct l0 as [|x l0].
      - rewrite Hone by (by right). cbn [bind].
        destruct (decide (head s = NULL)) as [?|_]; [done|].
        destruct (decide (NULL ≠ NULL)) as [?|_]; [done|].
        assert (head s = t) as -> by (by apply lseg_head in Hl).
        erewrite store_next_Ret; [|exact Hct1]. cbn [bind].
        cbn [heap set_heap]. rewrite load_insert_ne by done.
        unfold h1. rewrite load_insert_eq. done.
      - destruct Hlast as (t' & Ht' & Htn & Hp);
          [done|rewrite length_app; simpl; lia|by left|].
        change ((x :: l0) ++ [t]) with (x :: (l0 ++ [t])) in Ht'.
        change (x :: (l0 ++ [t])) with ((x :: l0) ++ [t]) in Ht'.
        rewrite last_snoc in Ht'. injection Ht' as <-.
        rewrite Hp. cbn [bind].
        destruct (decide (head s = NULL)) as [?|_]; [done|].
        destruct (decide (t ≠ NULL)) as [_|?]; [|done].
        erewrite store_next_Ret; [|exact Hct1]. cbn [bind].
        cbn [heap set_heap]. rewrite load_insert_ne by done.
        unfold h1. rewrite load_insert_eq. done. }
    eexists. split; [exact Hstore|].
    cbn [heap head out emit set_heap set_head live layout prev_foc current
         workspaces current_workspace].
    split; [|split; [by rewrite lookup_insert_eq|split; [|split]]].
    + apply lseg_app. exists a. split.
      * apply lseg_insert_notin; [done|].
        eapply (lseg_prefix_redirect _ _ l0 t ct []); [exact Hl1|].
        unfold h1. by rewrite lookup_insert_ne.
      * apply (lseg_cons_intro _ a (set_win wn zero_client)); [done| |done].
        by rewrite lookup_insert_eq.
    + intros x Hxa Hxt.
      rewrite lookup_insert_ne by done.
      rewrite lookup_insert_ne by congruence.
      unfold h1. by rewrite lookup_insert_ne.
    + intros t' ct' Ht' Hct'. injection Ht' as <-.
      assert (ct' = ct) as -> by congruence.
      rewrite lookup_insert_ne by done. by rewrite lookup_insert_eq.
    + done.
  - apply last_None in Elast as ->. simpl in Hl.
    unfold prev_client. rewrite Hl.
    destruct (decide (NULL = NULL)) as [_|?]; [|done]. cbn [bind].
    cbn [head set_heap]. rewrite Hl.
    destruct (decide (NULL = NULL)) as [_|?]; [|done]. cbn [bind].
    cbn [heap set_head set_heap]. unfold h1 at 1. rewrite load_insert_eq.
    cbn [bind]. eexists. split; [done|].
    cbn [heap head out emit set_heap set_head live layout prev_foc current
         workspaces current_workspace].
    split; [|split; [by rewrite lookup_insert_eq|split; [|split]]].
    + apply (lseg_cons_intro _ a (set_win wn zero_client)); [done| |done].
      by rewrite lookup_insert_eq.
    + intros x Hxa _. rewrite lookup_insert_ne by done.
      unfold h1. by rewrite lookup_insert_ne.
    + done.
    + done.
Qed.

(** ** Focusing a client of the list *)

(** Whatever [current] and [prev_foc] hold, [update_focused_client] with a
    client of the list focuses that client. *)
Lemma update_focused_client_member c s l :
  ws_ok s → lists_end s →
  Z.of_nat (size (heap s)) < UINT_MOD - 1 →
  is_list (heap s) (head s) l →
  layout_ok (heap s) (live s) l →
  c ∈ l →
  ∃ pf s',
    update_focused_client c s = Ret s' ∧
    moved (current_workspace s) (set_focus c pf s) s' ∧
    (c ≠ prev_foc s → c ≠ current s → pf = current s) ∧
    (c ≠ prev_foc s → c = current s → pf = prev_foc s) ∧
    (c = prev_foc s → prev_client s c = Ret pf).
Proof.
  intros Hok Hle Hsize Hl Hlay Hc.
  pose proof (lseg_not_null _ _ _ _ _ Hl Hc) as Hcn.
  assert (Hne : l ≠ []) by (intros ->; by apply elem_of_nil in Hc).
  assert (∃ pf, resolve_focus c s = Ret (set_focus c pf s) ∧
                (c ≠ prev_foc s → c ≠ current s → pf = current s) ∧
                (c ≠ prev_foc s → c = current s → pf = prev_foc s) ∧
                (c = prev_foc s → prev_client s c = Ret pf))
    as (pf & Hres & Hpf).
  { unfold resolve_focus.
    destruct (decide (c = prev_foc s)) as [E|E].
    - rewrite <- E. destruct (decide (c = NULL)) as [?|_]; [done|].
      destruct (prev_client_member s l c Hl Hc) as (p & Hp & _).
      change (prev_client (set_focus c c s) c) with (prev_client s c).
      rewrite Hp. cbn [bind]. exists p. done.
    - destruct (decide (c = current s)) as [E'|E'].
      + exists (prev_foc s). split; [|done]. rewrite E'. by destruct s.
      + exists (current s). done. }
  exists pf.
  assert (∃ s', update_focused_client c s = Ret s') as [s' Hs'].
  { unfold update_focused_client.
    destruct (decide (head s = NULL)) as [E|_].
    { rewrite E in Hl. by apply lseg_null in Hl as [-> _]. }
    rewrite Hres. cbn [bind].
    destruct (restack_total (set_focus c pf s) l) as (o & b & ->);
      [done|done|done|done|].
    cbn [bind].
    destruct (lseg_alloc _ _ _ _ _ Hl Hc) as [cc Hcc].
    change (heap (emit o (set_focus c pf s))) with (heap s).
    change (current (emit o (set_focus c pf s))) with c.
    rewrite (load_Some _ _ _ Hcc). cbn [bind].
    eapply (arrange_windows_total _ l); try done.
    intros i p. unfold heads, view. cbn. rewrite list_fmap_insert. cbn.
    intros Hp. eapply Hle. unfold heads, view.
    rewrite list_fmap_insert. exact Hp. }
  exists s'. split; [done|]. split; [|done].
  unfold update_focused_client in Hs'.
  destruct (decide (head s = NULL)) as [E|_].
  { rewrite E in Hl. by apply lseg_null in Hl as [-> _]. }
  rewrite Hres in Hs'. cbn [bind] in Hs'.
  apply bind_Ret in Hs' as ([s2 b] & Hr & Hs').
  apply bind_Ret in Hs' as (cc & _ & Hs').
  apply restack_emits in Hr as [o ->].
  apply arrange_windows_moved in Hs'; [|done]. exact Hs'.
Qed.

End Create.

Section MapRequest.

Context {cfg : Config}.

Implicit Types (s : State) (l : list ptr) (h : gmap nat Client).

Lemma same_dom_size (m1 m2 : gmap nat Client) :
  (∀ x, is_Some (m1 !! x) ↔ is_Some (m2 !! x)) → size m1 = size m2.
Proof.
  intros H. rewrite <- !size_dom. f_equal. apply set_eq. intros x.
  rewrite !elem_of_dom. apply H.
Qed.

Lemma size_one_more (m1 m2 : gmap nat Client) a :
  m1 !! a = None → is_Some (m2 !! a) →
  (∀ x, x ≠ a → is_Some (m2 !! x) ↔ is_Some (m1 !! x)) →
  size m2 = S (size m1).
Proof.
  intros Hn [ca Ha] H.
  rewrite <- (insert_delete_id m2 a ca Ha).
  rewrite map_size_insert_None by apply lookup_delete_eq.
  f_equal. apply same_dom_size. intros x.
  destruct (decide (x = a)) as [->|Hne].
  - rewrite lookup_delete_eq, Hn. split; intros [? ?]; done.
  - rewrite lookup_delete_ne by done. by apply H.
Qed.

Lemma moved_flush s : ws_ok s → moved (current_workspace s) s (flush s).
Proof.
  intros Hok. split; [by apply flush_ws_ok|]. split; [done|].
  split; [by apply view_flush|done].
Qed.

(** A map request for a window that no client has, with the address of
    unused memory. *)
Lemma map_request_event_total wn transient a s ls l :
  store_ok s → lists_of s ls →
  is_list (heap s) (head s) l →
  (∀ x, x ∈ concat ls → win <$> heap s !! x ≠ Some wn) →
  a ≠ NULL → heap s !! a = None →
  Z.of_nat (size (heap s)) < UINT_MOD - 2 →
  (l ≠ [] → can_arrange s (head s)) →
  ∃ s', map_request_event wn (Some false) transient a s = Ret s' ∧
        is_list (heap s') (head s') (l ++ [a]) ∧
        current s' = a ∧
        heap s' !! a
        = Some (set_float_trans (bool_of_int transient)
                  (set_win wn zero_client)) ∧
        (∀ x cx, heap s !! x = Some cx →
                 ∃ n, heap s' !! x = Some (set_next n cx)) ∧
        (∃ o1 o2, out s' = out s ++ ChangeEventMask wn :: o1
                           ++ MapWindow wn :: o2 ∧
                  quiet o1 ∧ quiet o2) ∧
        store_ok s'.
Proof.
  intros Hst Hls Hl Hno Ha Hfresh Hsize Hcan.
  pose proof Hst as (Hok & Hn & _).
  unfold map_request_event.
  rewrite (win_to_client_closed _ _ ls Hok Hls). cbn [bind].
  assert (E : first_with_window (heap s) wn (concat ls) = NULL).
  { apply first_with_window_null; [by eapply lists_of_no_null|done]. }
  rewrite E. destruct (decide (NULL ≠ NULL)) as [?|_]; [done|].
  pose proof (store_ok_moved _ _ _ (moved_flush s Hok) Hst) as Hstf.
  destruct (client_from_window_total wn a (flush s) l Hl Ha Hfresh)
    as (s2 & Hs2 & Hl2 & Hnew & Hsame & Hlast & Hhd2 & Hout2 & Hlive2 & Hws2
        & Hcw2).
  rewrite Hs2. cbn [bind].
  destruct (client_from_window_ok _ _ _ _ _ Hstf Hs2) as (Hst2 & _).
  rewrite (load_Some _ _ _ Hnew). cbn [bind].
  set (ca := set_float_trans (bool_of_int transient) (set_win wn zero_client)).
  set (s3 := set_heap (<[a := ca]> (heap s2)) s2).
  assert (Hst3 : store_ok s3).
  { apply (store_ok_same_next s2); [done|exact (proj1 Hst2)|done|].
    intros x. cbn. by eapply same_next_insert. }
  assert (Hl3 : is_list (heap s3) (head s3) (l ++ [a])).
  { eapply lseg_frame; [|exact Hl2]. intros x _. cbn.
    by eapply same_next_insert. }
  (* the old clients are still there, with their windows and flags *)
  assert (Hold : ∀ x cx, heap s !! x = Some cx →
                         ∃ n, heap s3 !! x = Some (set_next n cx)).
  { intros x cx Hx. assert (x ≠ a) by congruence.
    cbn. rewrite lookup_insert_ne by done.
    destruct (decide (last l = Some x)) as [El|El].
    - exists a. by apply Hlast.
    - exists (next cx). rewrite Hsame by done. cbn. rewrite Hx.
      by destruct cx. }
  assert (Hsize3 : size (heap s3) = S (size (heap s))).
  { apply (size_one_more _ _ a); [done| |].
    - cbn. rewrite lookup_insert_eq. eauto.
    - intros x Hxa. cbn. rewrite lookup_insert_ne by done. split.
      + intros [cx Hx].
        destruct (heap s !! x) as [cx0|] eqn:E0; [eauto|].
        destruct (decide (last l = Some x)) as [El|El].
        * apply last_Some_elem_of in El.
          destruct (lseg_alloc _ _ _ _ _ Hl El) as [? ?]. congruence.
        * rewrite Hsame in Hx by done. cbn in Hx. congruence.
      + intros [cx Hx]. destruct (Hold _ _ Hx) as [n Hn3].
        cbn in Hn3. rewrite lookup_insert_ne in Hn3 by done. eauto. }
  (* the layout can run on the new list *)
  assert (Hlay3 : layout_ok (heap s3) (live s3) (l ++ [a])).
  { intros Hlen. rewrite length_app in Hlen. simpl in Hlen.
    assert (Hne : l ≠ []) by (intros ->; simpl in Hlen; lia).
    destruct (Hcan Hne) as [Hr Hstack].
    pose proof (f_equal ws_layout Hlive2) as Hly2. cbn in Hly2.
    cbn. rewrite Hly2. cbn.
    split; [done|]. intros Hcase.
    destruct (Hstack Hcase) as (c & Hc & Hf).
    destruct (Hold _ _ Hc) as [n Hn3]. rewrite (Hhd2 Hne). cbn.
    exists (set_next n c). split; [done|]. by destruct c. }
  destruct (arrange_windows_total s3 (l ++ [a])) as [s4 Hs4];
    [exact (proj1 Hst3)|by apply store_ok_lists_end|done|done|].
  fold ca. fold s3. rewrite Hs4. cbn [bind].
  destruct (lists_end_lists_of s3 (store_ok_lists_end s3 Hst3))
    as [ls3 Hls3].
  assert (Hout4 : ∃ o1, out s4 = out s ++ ChangeEventMask wn :: o1 ∧
                        quiet o1).
  { destruct (arrange_windows_form s3 s4 ls3 (proj1 Hst3) Hls3 Hs4)
      as [[_ ->]|(_ & o & -> & Ho)].
    - exists []. split; [exact Hout2|apply quiet_nil].
    - exists o. split; [|done]. cbn. rewrite Hout2. cbn.
      by rewrite <- app_assoc. }
  destruct Hout4 as (o1 & Hout4 & Ho1).
  apply arrange_windows_moved in Hs4; [|exact (proj1 Hst3)].
  pose proof Hs4 as (Hok4 & Hh4 & Hv4 & Hcw4 & _).
  pose proof (moved_live s3 s4 (proj1 Hst3) Hs4) as Hlive4.
  assert (Hca4 : heap s4 !! a = Some ca).
  { rewrite Hh4. cbn. by rewrite lookup_insert_eq. }
  rewrite (load_Some _ _ _ Hca4). cbn [bind].
  pose proof (store_ok_moved _ _ _ Hs4 Hst3) as Hst4.
  set (s5 := emit [MapWindow (win ca)] s4).
  assert (Hhd4 : head s4 = head s3) by exact (f_equal ws_head Hlive4).
  destruct (update_focused_client_member a s5 (l ++ [a]))
    as (pf & s' & Hs' & Hm & _).
  { exact Hok4. }
  { by apply (store_ok_lists_end s4). }
  { cbn. rewrite Hh4, Hsize3. lia. }
  { cbn. by rewrite Hh4, Hhd4. }
  { intros Hlen. destruct (Hlay3 Hlen) as [Hr Hstack].
    cbn. cbn in Hr, Hstack.
    rewrite (f_equal ws_layout Hlive4 : layout s4 = layout s3).
    split; [done|]. intros Hcase. rewrite Hh4, Hhd4. by apply Hstack. }
  { rewrite elem_of_app. right. by left. }
  exists s'. split; [done|].
  pose proof Hm as (Hok' & Hh' & Hv' & Hcw' & _).
  pose proof (moved_live (set_focus a pf s5) s' Hok4 Hm) as Hlive'.
  injection Hlive' as Hly' Hhd' Hpf' Hcur'.
  destruct (lists_end_lists_of s5 (store_ok_lists_end s4 Hst4)) as [ls5 Hls5].
  split; [by rewrite Hh', Hhd'; cbn; rewrite Hh4, Hhd4|].
  split; [done|]. split; [by rewrite Hh'; cbn|]. split.
  { intros x cx Hx. rewrite Hh'. cbn. rewrite Hh4. by apply Hold. }
  split.
  { exists o1.
    destruct (update_focused_client_form a s5 s' ls5 Hok4 Hls5 Hs')
      as [[_ ->]|(_ & cur & pf' & o & _ & -> & Ho)]; cbn.
    - exists [DeleteActiveWindow]. rewrite Hout4.
      split; [by rewrite <- !app_assoc|]. split; [done|].
      by repeat constructor.
    - exists o. rewrite Hout4.
      split; [by rewrite <- !app_assoc|]. done. }
  eapply store_ok_moved; [exact Hm|]. by apply store_ok_set_focus.
Qed.

End MapRequest.

(** * Removing a client of the active workspace *)

Section Remove.

Context {cfg : Config}.

Implicit Types (s : State) (l : list ptr) (h : gmap nat Client).

(** The inner search of [remove_client] for a client of the list ends on
    the link that holds it. *)
Lemma find_link_found k s c temp q l1 l2 :
  temp ≠ LinkNull → read_link s temp = Ret q →
  lseg (heap s) q (l1 ++ c :: l2) NULL → (length l1 < k)%nat →
  find_link k s c temp
  = Ret (match last l1 with None => temp | Some p => LinkNext p end, true).
Proof.
  revert k temp q. induction l1 as [|a l1 IH]; intros k temp q Ht Hr Hl Hk;
    (destruct k as [|k]; [simpl in Hk; lia|]);
    rewrite find_link_unfold by done; rewrite Hr; cbn [bind].
  - destruct Hl as (-> & _). by destruct (decide (c = c)).
  - pose proof (lseg_NoDup _ _ _ Hl) as Hnd.
    change ((a :: l1) ++ c :: l2) with (a :: (l1 ++ c :: l2)) in Hl, Hnd.
    destruct Hl as (-> & Ha & ca & Hca & Hl).
    apply NoDup_cons in Hnd as [Hnin _].
    destruct (decide (a = c)) as [->|_].
    { exfalso. apply Hnin. rewrite elem_of_app. right. by left. }
    unfold link_of_next. destruct (decide (a = NULL)); [done|].
    rewrite (IH k (LinkNext a) (next ca)); [|done| |done|simpl in Hk; lia].
    2:{ simpl. by rewrite (load_Some _ _ _ Hca). }
    destruct l1 as [|b l1]; [done|].
    change (last (a :: b :: l1)) with (last (b :: l1)).
    destruct (last (b :: l1)) eqn:E; [done|]. by apply last_None in E.
Qed.

(** The search of [remove_client] for a client of the live list: the
    first round finds it, and the counter ends at one. *)
Lemma remove_client_loop_found s c l1 l2 :
  ws_ok s → is_list (heap s) (head s) (l1 ++ c :: l2) →
  remove_client_loop (Z.to_nat WORKSPACES) 0 (current_workspace s) c
    LinkNull s
  = Ret (flush s, link_after l1, 1).
Proof.
  intros Hok Hl. pose proof Hok as [Hcw Hlen].
  destruct (Z.to_nat WORKSPACES) as [|k] eqn:HW; [lia|].
  cbn -[find_link fuel select_workspace].
  rewrite (select_workspace_eq s _ (live s) Hok);
    [|lia|by apply view_active].
  cbn [bind]. fold (flush s). rewrite set_live_active.
  rewrite (find_link_found _ (flush s) c LinkHead (head s) l1 l2);
    [done|done|done|done|].
  pose proof (lseg_length _ _ _ Hl) as Hlen'.
  rewrite length_app in Hlen'. simpl in Hlen'. unfold fuel. cbn. lia.
Qed.

(** The store through the link that holds [c], written out. *)
Lemma unlink_total s c cl l1 l2 :
  is_list (heap s) (head s) (l1 ++ c :: l2) → heap s !! c = Some cl →
  ∃ s2, write_link (link_after l1) (next cl) s = Ret s2 ∧
        is_list (heap s2) (head s2) (l1 ++ l2) ∧
        heap s2 !! c = Some cl ∧
        (∀ x, last l1 ≠ Some x → heap s2 !! x = heap s !! x) ∧
        (∀ p cp, last l1 = Some p → heap s !! p = Some cp →
                 heap s2 !! p = Some (set_next (next cl) cp)) ∧
        next cl = default NULL (hd_error l2) ∧
        layout s2 = layout s ∧ prev_foc s2 = prev_foc s ∧
        current s2 = current s ∧ out s2 = out s ∧
        workspaces s2 = workspaces s ∧
        current_workspace s2 = current_workspace s.
Proof.
  intros Hl Hc.
  pose proof (lseg_NoDup _ _ _ Hl) as Hnd.
  pose proof Hl as Hl0.
  apply lseg_app in Hl0 as (m & Hl1 & Hl2). simpl in Hl2.
  destruct Hl2 as (-> & Hcn & cl' & Hcl' & Hl2).
  assert (cl' = cl) as -> by congruence.
  assert (Hnx : next cl = default NULL (hd_error l2)).
  { destruct l2 as [|b l2]; simpl in Hl2; [done|]. by destruct Hl2. }
  unfold link_after. destruct (last l1) as [p|] eqn:Hlast.
  - apply last_Some in Hlast as (l0 & ->).
    assert (is_Some (heap s !! p)) as [cp Hcp].
    { eapply lseg_alloc; [exact Hl|].
      rewrite !elem_of_app. left. right. by left. }
    assert (Hpc : p ≠ c).
    { intros ->. apply NoDup_app in Hnd as (_ & Hnd & _).
      eapply Hnd; [|by left]. rewrite elem_of_app. right. by left. }
    assert (Hpl2 : p ∉ l2).
    { apply NoDup_app in Hnd as (_ & Hnd & _). intros Hin.
      eapply Hnd; [|right; exact Hin]. rewrite elem_of_app. right. by left. }
    cbn [write_link]. rewrite (store_next_Ret _ _ _ cp Hcp).
    eexists. split; [reflexivity|]. cbn.
    split.
    { apply lseg_app. exists (next cl). split.
      - rewrite <- app_assoc in Hl. simpl in Hl.
        by eapply lseg_prefix_redirect.
      - by apply lseg_insert_notin. }
    split; [by rewrite lookup_insert_ne|].
    split.
    { intros x Hx. rewrite lookup_insert_ne; [done|]. intros <-.
      by apply Hx. }
    split; [|done].
    intros p' cp' Hp' Hcp'. injection Hp' as <-.
    rewrite lookup_insert_eq. congruence.
  - apply last_None in Hlast as ->. cbn [write_link].
    eexists. split; [reflexivity|]. cbn.
    simpl in Hl. destruct Hl as (_ & _ & cl' & Hcl'' & Hl).
    assert (cl' = cl) as -> by congruence.
    split; [done|]. split; [done|]. split; [done|]. split; [|done].
    intros p cp Hp. done.
Qed.

(** [update_focused_client] with [prev_foc] as its candidate, on a list
    that is not empty. *)
Lemma update_focused_client_prev s l :
  ws_ok s → lists_end s →
  Z.of_nat (size (heap s)) < UINT_MOD - 1 →
  is_list (heap s) (head s) l → l ≠ [] →
  layout_ok (heap s) (live s) l →
  prev_foc s = NULL ∨ prev_foc s ∈ l →
  ∃ cur pf s',
    update_focused_client (prev_foc s) s = Ret s' ∧
    cur = (if decide (prev_foc s = NULL) then head s else prev_foc s) ∧
    cur ∈ l ∧
    prev_client s cur = Ret pf ∧
    moved (current_workspace s) (set_focus cur pf s) s'.
Proof.
  intros Hok Hle Hsize Hl Hne Hlay Hpf.
  set (cur := if decide (prev_foc s = NULL) then head s else prev_foc s).
  assert (Hin : cur ∈ l).
  { unfold cur. destruct (decide (prev_foc s = NULL)) as [E0|E0].
    - destruct l as [|a l]; [done|]. destruct Hl as (-> & _). by left.
    - by destruct Hpf. }
  destruct (prev_client_member s l cur Hl Hin) as (pf & Hp & _).
  assert (Hres : resolve_focus (prev_foc s) s = Ret (set_focus cur pf s)).
  { unfold resolve_focus.
    destruct (decide (prev_foc s = prev_foc s)) as [_|?]; [|done].
    fold cur.
    change (prev_client (set_focus cur (prev_foc s) s) cur)
      with (prev_client s cur).
    by rewrite Hp. }
  exists cur, pf.
  assert (∃ s', update_focused_client (prev_foc s) s = Ret s') as [s' Hs'].
  { unfold update_focused_client.
    destruct (decide (head s = NULL)) as [E|_].
    { rewrite E in Hl. by apply lseg_null in Hl as [-> _]. }
    rewrite Hres. cbn [bind].
    destruct (restack_total (set_focus cur pf s) l) as (o & b & ->);
      [done|done|done|done|].
    cbn [bind].
    destruct (lseg_alloc _ _ _ _ _ Hl Hin) as [cc Hcc].
    change (heap (emit o (set_focus cur pf s))) with (heap s).
    change (current (emit o (set_focus cur pf s))) with cur.
    rewrite (load_Some _ _ _ Hcc). cbn [bind].
    eapply (arrange_windows_total _ l); try done.
    intros i p. unfold heads, view. cbn. rewrite list_fmap_insert. cbn.
    intros Hp'. eapply Hle. unfold heads, view.
    rewrite list_fmap_insert. exact Hp'. }
  exists s'. split; [done|]. split; [done|]. split; [done|].
  split; [done|].
  unfold update_focused_client in Hs'.
  destruct (decide (head s = NULL)) as [E|_].
  { rewrite E in Hl. by apply lseg_null in Hl as [-> _]. }
  rewrite Hres in Hs'. cbn [bind] in Hs'.
  apply bind_Ret in Hs' as ([s2 b] & Hr & Hs').
  apply bind_Ret in Hs' as (cc & _ & Hs').
  apply restack_emits in Hr as [o ->].
  apply arrange_windows_moved in Hs'; [|done]. exact Hs'.
Qed.

(** The focus step of [remove_client], after [c] has been taken out of the
    list and [prev_foc] has been replaced. *)
Lemma remove_focus_step s c l :
  store_ok s → is_list (heap s) (head s) l →
  Z.of_nat (size (heap s)) < UINT_MOD - 1 →
  c ≠ NULL → c ∉ l →
  (c = current s → layout_ok (heap s) (live s) l) →
  prev_foc s = NULL ∨ prev_foc s ∈ l →
  (c ≠ current s → current s ∈ l) →
  ∃ upd s5,
    (if decide (c = current s) then Ret true
     else let* hd := load (heap s) (head s) in
          Ret (bool_decide (next hd = NULL))) = Ret upd ∧
    (if (upd : bool) then update_focused_client (prev_foc s) s else Ret s)
    = Ret s5 ∧
    store_ok s5 ∧ heap s5 = heap s ∧ head s5 = head s ∧
    layout s5 = layout s ∧ heads s5 = heads s ∧
    current_workspace s5 = current_workspace s ∧
    (c ≠ current s → current s5 = current s) ∧
    (c = current s → l ≠ [] →
     current s5 = if decide (prev_foc s = NULL) then head s else prev_foc s) ∧
    (l ≠ [] → current s5 ∈ l) ∧
    (l = [] → current s5 = NULL ∧ prev_foc s5 = NULL) ∧
    (c ≠ current s → (2 ≤ length l)%nat → s5 = s).
Proof.
  intros Hst Hl Hsize Hc Hcl Hlay Hpf Hcur.
  pose proof Hst as (Hok & _).
  (* the focus update, when it is made on a list that is not empty *)
  assert (Hupd : l ≠ [] → layout_ok (heap s) (live s) l →
    ∃ s5, update_focused_client (prev_foc s) s = Ret s5 ∧
          store_ok s5 ∧ heap s5 = heap s ∧ head s5 = head s ∧
          layout s5 = layout s ∧ heads s5 = heads s ∧
          current_workspace s5 = current_workspace s ∧
          current s5
          = (if decide (prev_foc s = NULL) then head s else prev_foc s) ∧
          current s5 ∈ l).
  { intros Hne Hlay'.
    destruct (update_focused_client_prev s l)
      as (cur & pf & s5 & Hs5 & Hcur5 & Hin & _ & Hm); try done.
    { by apply store_ok_lists_end. }
    exists s5. split; [done|].
    destruct (update_focused_client_ok _ _ _ Hst Hs5)
      as (Hst5 & Hh5 & Hhd5 & Hcw5).
    pose proof (moved_live (set_focus cur pf s) s5 Hok Hm) as Hlive.
    injection Hlive as Hly Hhd _ Hc5.
    split; [done|]. split; [done|]. split; [done|]. split; [done|].
    split; [done|]. split; [done|]. split; [by rewrite Hc5|].
    by rewrite Hc5. }
  destruct (decide (c = current s)) as [E|E].
  - exists true. destruct l as [|a l'].
    + (* the list is empty now *)
      simpl in Hl.
      exists (emit [DeleteActiveWindow] (set_focus NULL NULL s)).
      split; [done|]. split.
      { unfold update_focused_client.
        by destruct (decide (head s = NULL)). }
      split.
      { eapply store_ok_moved; [|by apply (store_ok_set_focus s NULL NULL)].
        apply moved_emit, moved_refl.
        by destruct (moved_set_focus s NULL NULL Hok). }
      split; [done|]. split; [done|]. split; [done|].
      split.
      { by destruct (moved_set_focus s NULL NULL Hok) as (_ & _ & ? & _). }
      split; [done|]. split; [done|]. split; [done|]. split; [done|].
      split; [done|]. simpl. lia.
    + destruct Hupd as (s5 & Hs5 & Hst5 & Hh5 & Hhd5 & Hly5 & Hhds5 & Hcw5
                        & Hc5 & Hin5); [done|by apply Hlay|].
      exists s5. split; [done|]. split; [done|].
      split; [done|]. split; [done|]. split; [done|]. split; [done|].
      split; [done|]. split; [done|]. split; [done|]. split; [done|].
      split; [done|]. split; [done|]. done.
  - assert (Hne : l ≠ []).
    { intros ->. pose proof (Hcur E) as Hin. by apply elem_of_nil in Hin. }
    assert (Hhd : head s ≠ NULL).
    { intros E0. rewrite E0 in Hl. by apply lseg_null in Hl as [? _]. }
    destruct (lseg_cons_inv _ _ _ Hhd Hl) as (hd & l' & -> & Hhdc & Hl').
    rewrite (load_Some _ _ _ Hhdc). cbn [bind].
    exists (bool_decide (next hd = NULL)).
    destruct (decide (next hd = NULL)) as [En|En].
    + rewrite bool_decide_eq_true_2 by done.
      rewrite En in Hl'. simpl in Hl'. apply lseg_null in Hl' as [-> _].
      destruct Hupd as (s5 & Hs5 & Hst5 & Hh5 & Hhd5 & Hly5 & Hhds5 & Hcw5
                        & Hc5 & Hin5); [done|intros Hlen; simpl in Hlen; lia|].
      exists s5. split; [done|]. split; [done|].
      split; [done|]. split; [done|]. split; [done|]. split; [done|].
      split; [done|]. split; [done|].
      split.
      { intros _. apply list_elem_of_singleton in Hin5.
        pose proof (Hcur E) as Hin. apply list_elem_of_singleton in Hin.
        congruence. }
      split; [done|]. split; [done|]. split; [done|].
      intros _ Hlen. simpl in Hlen. lia.
    + rewrite bool_decide_eq_false_2 by done.
      exists s. split; [done|]. split; [done|].
      split; [done|]. split; [done|]. split; [done|]. split; [done|].
      split; [done|]. split; [done|]. split; [done|]. split; [done|].
      split; [by intros _; apply Hcur|]. split; [done|]. done.
Qed.

Lemma info_lines_report cw w wss :
  Forall (λ x, is_report x = true) (info_lines cw w wss).
Proof.
  revert w. induction wss as [|[ws l] wss IH]; intros w; simpl;
    constructor; [done|apply IH].
Qed.

(** [remove_client] on a client of the live list. *)
Lemma remove_client_total s c l1 l2 :
  store_ok s →
  is_list (heap s) (head s) (l1 ++ c :: l2) →
  Z.of_nat (size (heap s)) < UINT_MOD - 1 →
  current s ∈ l1 ++ c :: l2 →
  prev_foc s = NULL ∨ prev_foc s ∈ l1 ++ c :: l2 →
  (l1 ++ l2 = [] → prev_foc s ≠ c) →
  ((2 ≤ length (l1 ++ l2))%nat →
   c = current s ∨ current_workspace s = 0 →
   ∀ a, hd_error (l1 ++ l2) = Some a → can_arrange s a) →
  ∃ s', remove_client c s = Ret s' ∧
        is_list (heap s') (head s') (l1 ++ l2) ∧
        heap s' !! c = None ∧
        (∀ x, x ≠ c → last l1 ≠ Some x → heap s' !! x = heap s !! x) ∧
        (∀ p cp, last l1 = Some p → heap s !! p = Some cp →
                 heap s' !! p
                 = Some (set_next (default NULL (hd_error l2)) cp)) ∧
        layout s' = layout s ∧
        current_workspace s' = current_workspace s ∧
        (c ≠ current s → current s' = current s) ∧
        (c = current s → prev_foc s ≠ NULL → prev_foc s ≠ c →
         current s' = prev_foc s) ∧
        (l1 ++ l2 ≠ [] → current s' ∈ l1 ++ l2) ∧
        (l1 ++ l2 = [] → current s' = NULL ∧ prev_foc s' = NULL) ∧
        (current_workspace s ≠ 0 → c ≠ current s →
         (2 ≤ length (l1 ++ l2))%nat →
         ∃ wss, out s' = out s ++ info_lines (current_workspace s) 0 wss) ∧
        store_ok s'.
Proof.
  intros Hst Hl Hsize Hcur Hpf Hsole Hcan.
  pose proof Hst as (Hok & Hnull & _).
  pose proof (lseg_NoDup _ _ _ Hl) as Hnd.
  assert (Hcn : c ≠ NULL).
  { eapply lseg_not_null; [exact Hl|]. rewrite elem_of_app. right. by left. }
  assert (Hcrem : c ∉ l1 ++ l2).
  { apply NoDup_app in Hnd as (_ & Hnd1 & Hnd2).
    apply NoDup_cons in Hnd2 as [Hnd2 _].
    rewrite elem_of_app. intros [Hin|Hin]; [|done].
    eapply Hnd1; [exact Hin|by left]. }
  assert (Hrem : ∀ x, x ∈ l1 ++ c :: l2 → x ≠ c → x ∈ l1 ++ l2).
  { intros x Hx Hne. rewrite elem_of_app in Hx. rewrite elem_of_cons in Hx.
    rewrite elem_of_app. tauto. }
  assert (is_Some (heap s !! c)) as [cl Hc].
  { eapply lseg_alloc; [exact Hl|]. rewrite elem_of_app. right. by left. }
  pose proof (store_ok_moved _ _ _ (moved_flush s Hok) Hst) as Hstf.
  unfold remove_client.
  rewrite (remove_client_loop_found s c l1 l2 Hok Hl). cbn [bind].
  rewrite (load_Some (heap (flush s)) c cl Hc). cbn [bind].
  destruct (unlink_total (flush s) c cl l1 l2 Hl Hc)
    as (s2 & Hw & Hl2 & Hc2 & Hsame2 & Hpred2 & Hnx & Hly2 & Hpf2 & Hcur2
        & Hout2 & Hws2 & Hcw2).
  rewrite Hw. cbn [bind].
  destruct (unlink_ok (flush s) s2 c cl l1 l2 Hstf Hl Hc Hw)
    as (Hst2 & Hu2 & _ & _).
  change (heap (flush s)) with (heap s) in Hsame2, Hpred2.
  change (layout (flush s)) with (layout s) in Hly2.
  change (prev_foc (flush s)) with (prev_foc s) in Hpf2.
  change (current (flush s)) with (current s) in Hcur2.
  change (out (flush s)) with (out s) in Hout2.
  change (current_workspace (flush s)) with (current_workspace s) in Hcw2.
  (* the clients there are, and their flags *)
  assert (Hold : ∀ x cx, heap s !! x = Some cx →
                         ∃ n, heap s2 !! x = Some (set_next n cx)).
  { intros x cx Hx. destruct (decide (last l1 = Some x)) as [El|El].
    - eexists. by apply Hpred2.
    - exists (next cx). rewrite Hsame2 by done. rewrite Hx. by destruct cx. }
  assert (Hsize2 : size (heap s2) = size (heap s)).
  { apply same_dom_size. intros x. split.
    - intros [cx Hx]. destruct (heap s !! x) as [cx0|] eqn:E0; [eauto|].
      destruct (decide (last l1 = Some x)) as [El|El].
      + apply last_Some_elem_of in El.
        assert (is_Some (heap s !! x)) as [? ?]; [|congruence].
        eapply lseg_alloc; [exact Hl|]. rewrite elem_of_app. by left.
      + rewrite Hsame2 in Hx by done. congruence.
    - intros [cx Hx]. destruct (Hold _ _ Hx). eauto. }
  (* [prev_foc] *)
  assert (∃ pf3,
            (if decide (c = prev_foc s2)
             then let* p := prev_client s2 c in
                  Ret (set_focus (current s2) p s2)
             else Ret s2) = Ret (set_focus (current s2) pf3 s2) ∧
            (pf3 = NULL ∨ pf3 ∈ l1 ++ l2) ∧
            (c ≠ prev_foc s → pf3 = prev_foc s))
    as (pf3 & Hs3 & Hpf3 & Hpf3').
  { destruct (decide (c = prev_foc s2)) as [E|E].
    - rewrite Hpf2 in E.
      destruct (prev_client_cases s2 (l1 ++ l2) c Hl2)
        as (_ & Hlast & Hone).
      destruct (decide (length (l1 ++ l2) = 1%nat)) as [E1|E1].
      + exists NULL. rewrite Hone by (by right). cbn [bind].
        split; [done|]. split; [by left|done].
      + assert (Hne : l1 ++ l2 ≠ []) by (intros E0; by apply Hsole).
        destruct Hlast as (t & Ht & _ & Hp); [done| |by right|].
        { destruct (l1 ++ l2) as [|? [|? ?]]; simpl in *; [done|done|lia]. }
        exists t. rewrite Hp. cbn [bind]. split; [done|].
        split; [right; by apply last_Some_elem_of|done].
    - rewrite Hpf2 in E. exists (prev_foc s). split.
      + rewrite <- Hpf2. by destruct s2.
      + split; [|done]. destruct Hpf as [?|Hin]; [by left|].
        right. apply Hrem; [done|congruence]. }
  rewrite Hs3. cbn [bind].
  set (s3 := set_focus (current s2) pf3 s2).
  assert (Hst3 : store_ok s3) by (by apply store_ok_set_focus).
  assert (Hu3 : unlisted s3 c) by (by apply unlisted_set_focus).
  assert (Hnh : c ≠ head s3).
  { intros E. change (head s3) with (head s2) in E. rewrite <- E in Hl2.
    destruct (lseg_cons_inv _ _ _ Hcn Hl2) as (? & l' & E' & _ & _).
    apply Hcrem. rewrite E'. by left. }
  cbn zeta. destruct (decide (c = head s3)) as [|_]; [done|].
  (* the layout can run on what is left *)
  assert (Hlay3 : c = current s ∨ current_workspace s = 0 →
                  layout_ok (heap s3) (live s3) (l1 ++ l2)).
  { intros Hwhen Hlen.
    assert (Hhd : head s2 ≠ NULL).
    { intros E0. rewrite E0 in Hl2. apply lseg_null in Hl2 as [E' _].
      rewrite E' in Hlen. simpl in Hlen. lia. }
    destruct (lseg_cons_inv _ _ _ Hhd Hl2) as (hd & l' & E' & Hhdc & _).
    destruct (Hcan Hlen Hwhen (head s2)) as [Hr Hstack]; [by rewrite E'|].
    cbn. rewrite Hly2. split; [done|]. intros Hcase.
    destruct (Hstack Hcase) as (c0 & Hc0 & Hf0).
    destruct (Hold _ _ Hc0) as [n Hn].
    exists (set_next n c0). split; [done|]. by destruct c0. }
  destruct (remove_focus_step s3 c (l1 ++ l2))
    as (upd & s5 & Hupd & Hs5 & Hst5 & Hh5 & Hhd5 & Hly5 & Hhds5 & Hcw5
        & Hkeep5 & Hnew5 & Hin5 & Hnone5 & Hsame5); try done.
  { cbn. rewrite Hsize2. done. }
  { cbn. rewrite Hcur2. intros E. apply Hlay3. by left. }
  { cbn. rewrite Hcur2. intros Hne. by apply Hrem. }
  rewrite Hupd. cbn [bind].
  rewrite Hs5. cbn [bind].
  (* the client is freed *)
  assert (Hc5 : heap s5 !! c = Some cl) by (by rewrite Hh5).
  unfold free. rewrite (load_Some _ _ _ Hc5). cbn [bind].
  set (s6 := set_heap (delete c (heap s5)) s5).
  assert (Hu5 : unlisted s5 c) by (by eapply unlisted_ext).
  destruct (free_ok s5 s6 c Hst5 Hu5) as [Hst6 _].
  { unfold free. by rewrite (load_Some _ _ _ Hc5). }
  assert (Hl6 : is_list (heap s6) (head s6) (l1 ++ l2)).
  { cbn. rewrite Hhd5, Hh5. eapply lseg_frame; [|exact Hl2].
    intros x Hx. cbn. rewrite lookup_delete_ne; [done|]. by intros <-. }
  assert (Hlay6 : current_workspace s = 0 →
                  layout_ok (heap s6) (live s6) (l1 ++ l2)).
  { intros Hzero Hlen.
    destruct (Hlay3 (or_intror Hzero) Hlen) as [Hr Hstack].
    cbn in Hr, Hstack.
    cbn. rewrite Hly5, Hhd5, Hh5. cbn. split; [done|]. intros Hcase.
    destruct (Hstack Hcase) as (c0 & Hc0 & Hf0). exists c0.
    split; [|done]. rewrite lookup_delete_ne; [done|]. intros E.
    by apply Hnh. }
  (* the last arrangement, or the workspace selected again *)
  assert (∃ s7,
            (if decide (current_workspace s = 1 - 1) then arrange_windows s6
             else select_workspace (current_workspace s) s6) = Ret s7 ∧
            moved (current_workspace s6) s6 s7 ∧
            (current_workspace s ≠ 0 → out s7 = out s6))
    as (s7 & Hs7 & Hm7 & Hout7).
  { destruct (decide (current_workspace s = 1 - 1)) as [E|E].
    - destruct (arrange_windows_total s6 (l1 ++ l2)) as [s7 Hs7];
        [apply Hst6|by apply store_ok_lists_end|done|apply Hlay6; lia|].
      exists s7. split; [done|].
      split; [apply arrange_windows_moved; [apply Hst6|done]|]. lia.
    - destruct (select_workspace_total s6 (current_workspace s))
        as [s7 Hs7]; [apply Hst6|apply Hok|].
      exists s7. split; [done|]. split.
      + apply select_workspace_moved in Hs7 as [Hm _]; [|apply Hst6].
        cbn. rewrite Hcw5. cbn. by rewrite Hcw2.
      + intros _. by eapply select_workspace_out. }
  rewrite Hs7. cbn [bind].
  pose proof (store_ok_moved _ _ _ Hm7 Hst6) as Hst7.
  destruct (lists_end_lists_of s7 (store_ok_lists_end s7 Hst7)) as [ls7 Hls7].
  rewrite (workspace_info_closed s7 ls7 (proj1 Hst7) Hls7).
  eexists. split; [reflexivity|].
  pose proof Hm7 as (Hok7 & Hh7 & Hv7 & Hcw7 & _).
  pose proof (moved_live s6 s7 (proj1 Hst6) Hm7) as Hlive7.
  injection Hlive7 as Hly7 Hhd7 Hpf7 Hcur7.
  cbn. rewrite Hh7, Hhd7, Hly7, Hcur7, Hpf7, Hcw7. cbn.
  rewrite Hly5, Hcw5. cbn.
  split; [exact Hl6|]. split; [by rewrite lookup_delete_eq|].
  split.
  { intros x Hxc Hx. rewrite lookup_delete_ne by done. rewrite Hh5. cbn.
    by apply Hsame2. }
  split.
  { intros p cp Hp Hcp. rewrite lookup_delete_ne.
    - rewrite Hh5. cbn. rewrite <- Hnx. by apply Hpred2.
    - intros <-. apply last_Some_elem_of in Hp.
      apply Hcrem. rewrite elem_of_app. by left. }
  split; [done|]. split; [done|].
  split.
  { intros Hne. rewrite Hkeep5; [exact Hcur2|]. cbn. by rewrite Hcur2. }
  split.
  { intros E Hpn Hpc. rewrite Hnew5.
    - cbn. rewrite (Hpf3' (not_eq_sym Hpc)).
      by destruct (decide (prev_foc s = NULL)).
    - cbn. by rewrite Hcur2.
    - intros E0. destruct Hpf as [?|Hin]; [done|].
      pose proof (Hrem _ Hin Hpc) as Hin'. rewrite E0 in Hin'.
      by apply elem_of_nil in Hin'. }
  split; [done|]. split; [done|].
  split.
  { intros Hcw Hne Hlen. eexists. rewrite Hout7 by done. cbn.
    rewrite (Hsame5 ltac:(cbn; by rewrite Hcur2) Hlen). cbn.
    rewrite Hout2, Hcw2. reflexivity. }
  eapply store_ok_moved; [|exact Hst7].
  apply moved_emit. apply moved_flush. apply Hst7.
Qed.

(** The live list is one of the lists of the workspaces. *)
Lemma live_list_listed s ls l x :
  ws_ok s → lists_of s ls → is_list (heap s) (head s) l → x ∈ l →
  x ∈ concat ls.
Proof.
  intros Hok Hls Hl Hx. pose proof Hok as [Hcw Hlen].
  destruct (lists_of_lookup s ls (Z.to_nat (current_workspace s)) Hok Hls)
    as (ws & l' & Hws & Hl' & Hlist); [lia|].
  rewrite (view_active _ Hok) in Hws. injection Hws as <-.
  rewrite (lseg_det _ _ _ _ Hlist Hl) in Hl'.
  apply elem_of_concat. exists l. split; [done|].
  by eapply list_elem_of_lookup_2.
Qed.

(** [win_to_client] for the window of a client of the live list that no
    other client has. *)
Lemma win_to_client_unique s l c cl wn :
  store_ok s → is_list (heap s) (head s) l → c ∈ l →
  heap s !! c = Some cl → win cl = wn →
  (∀ x cx, heap s !! x = Some cx → win cx = wn → x = c) →
  win_to_client wn s = Ret (flush s, c).
Proof.
  intros Hst Hl Hc Hcl Hw Huniq. pose proof Hst as (Hok & _).
  destruct (lists_end_lists_of s (store_ok_lists_end s Hst)) as [ls Hls].
  rewrite (win_to_client_closed wn s ls Hok Hls). do 2 f_equal.
  pose proof (lists_of_no_null s ls Hls) as Hnn.
  destruct (decide (first_with_window (heap s) wn (concat ls) = NULL))
    as [E|E].
  - exfalso.
    apply (proj1 (first_with_window_null (heap s) wn (concat ls) Hnn) E c).
    + by eapply live_list_listed.
    + by rewrite Hcl; cbn; rewrite Hw.
  - destruct (first_with_window_found (heap s) wn (concat ls) _ eq_refl E)
      as [_ Hwin].
    destruct (heap s !! first_with_window (heap s) wn (concat ls))
      as [cx|] eqn:Ex; [|done].
    cbn in Hwin. injection Hwin as Hwin. by eapply Huniq.
Qed.

(** A destroy notification for the window of a client of the live list. *)
Lemma destroy_event_total s c cl l1 l2 :
  store_ok s →
  is_list (heap s) (head s) (l1 ++ c :: l2) →
  heap s !! c = Some cl →
  (∀ x cx, heap s !! x = Some cx → win cx = win cl → x = c) →
  Z.of_nat (size (heap s)) < UINT_MOD - 1 →
  current s ∈ l1 ++ c :: l2 →
  prev_foc s = NULL ∨ prev_foc s ∈ l1 ++ c :: l2 →
  (l1 ++ l2 = [] → prev_foc s ≠ c) →
  ((2 ≤ length (l1 ++ l2))%nat →
   c = current s ∨ current_workspace s = 0 →
   ∀ a, hd_error (l1 ++ l2) = Some a → can_arrange s a) →
  ∃ s', destroy_event (win cl) s = Ret s' ∧
        is_list (heap s') (head s') (l1 ++ l2) ∧
        heap s' !! c = None ∧
        (∀ x, x ≠ c → last l1 ≠ Some x → heap s' !! x = heap s !! x) ∧
        (∀ p cp, last l1 = Some p → heap s !! p = Some cp →
                 heap s' !! p
                 = Some (set_next (default NULL (hd_error l2)) cp)) ∧
        layout s' = layout s ∧
        current_workspace s' = current_workspace s ∧
        (c ≠ current s → current s' = current s) ∧
        (c = current s → prev_foc s ≠ NULL → prev_foc s ≠ c →
         current s' = prev_foc s) ∧
        (l1 ++ l2 ≠ [] → current s' ∈ l1 ++ l2) ∧
        (l1 ++ l2 = [] → current s' = NULL ∧ prev_foc s' = NULL) ∧
        (current_workspace s ≠ 0 → c ≠ current s →
         (2 ≤ length (l1 ++ l2))%nat →
         ∃ wss, out s' = out s ++ info_lines (current_workspace s) 0 wss) ∧
        store_ok s'.
Proof.
  intros Hst Hl Hc Huniq Hsize Hcur Hpf Hsole Hcan.
  pose proof Hst as (Hok & _).
  assert (Hin : c ∈ l1 ++ c :: l2) by (rewrite elem_of_app; right; by left).
  unfold destroy_event.
  rewrite (win_to_client_unique s _ c cl (win cl) Hst Hl Hin Hc eq_refl Huniq).
  cbn [bind].
  destruct (decide (c ≠ NULL)) as [_|E].
  2:{ exfalso. apply E. by eapply lseg_not_null. }
  apply (remove_client_total (flush s) c l1 l2); try done.
  eapply store_ok_moved; [|exact Hst]. by apply moved_flush.
Qed.

End Remove.

(** * Properties of the program *)

Section Claims.

Context {cfg : Config}.

(** C6 (amended).  On an acyclic, null-terminated client list [l] starting
    at [head]: for a member [c] other than the head, [prev_client] returns
    the client whose [next] link points to [c]; for a non-null [c] that is
    the head or is not a member, and a list of at least two clients, it
    returns the last client of the list, not null; it returns null when
    [c] is null or the list has a single client. *)
Theorem prev_client_spec (s : State) (l : list ptr) (c : ptr) :
  is_list (heap s) (head s) l →
  (∀ l1 p l2, l = l1 ++ p :: c :: l2 →
     prev_client s c = Ret p ∧ ∃ cp, heap s !! p = Some cp ∧ next cp = c) ∧
  (c ≠ NULL → (2 ≤ length l)%nat → head s = c ∨ c ∉ l →
   ∃ t, last l = Some t ∧ t ≠ NULL ∧ prev_client s c = Ret t) ∧
  (c = NULL ∨ length l = 1%nat → prev_client s c = Ret NULL).
Proof.
  intros Hl. destruct (prev_client_cases s l c Hl) as (Hmem & Hlast & Hone).
  split; [|by split].
  intros l1 p l2 E. split; [by eapply Hmem|].
  rewrite E in Hl. apply lseg_app in Hl as (m & _ & Hl).
  destruct Hl as (_ & _ & cp & Hcp & Hnx & _). eauto.
Qed.

(** C8.  [change_workspace] with an index outside [0, WORKSPACES) or equal
    to the active index, and [change_layout] with an index outside the
    layout enumeration or equal to the current layout, return the state
    they were given, output included.  The two globals hold values of
    their type, [unsigned int]. *)
Theorem out_of_range_commands_ignored (s : State) (i : Z) :
  0 ≤ current_workspace s < UINT_MOD →
  0 ≤ layout s < UINT_MOD →
  (i < 0 ∨ WORKSPACES ≤ i ∨ i = current_workspace s →
   change_workspace i s = Ret s) ∧
  (i < 0 ∨ END_LAYOUT ≤ i ∨ i = layout s → change_layout i s = Ret s).
Proof.
  intros Hcw Hly. split; intros Hi.
  - unfold change_workspace. destruct (decide _) as [_|Hno]; [done|].
    exfalso. apply Hno. destruct Hi as [?|[?| ->]]; [lia|lia|].
    right. right. unfold to_uint. by apply Z.mod_small.
  - unfold change_layout. destruct (decide _) as [_|Hno]; [done|].
    exfalso. apply Hno. destruct Hi as [?|[?| ->]]; [lia|lia|].
    left. unfold to_uint. by apply Z.mod_small.
Qed.

(** C1.  From the start-up state, any sequence of map requests, destroy
    notifications, enter notifications, workspace switches and layout
    changes either ends in a fault of the program (never in the model
    giving up a walk for lack of fuel) or leaves a state in which the
    client list of every workspace (the live list for the active one) has
    no repeated client and the [next] link of its last client is null. *)
Theorem client_lists_acyclic (es : list event) (sw sh : Z) :
  0 < WORKSPACES →
  fueled (run es (initial_state sw sh)) ∧
  ∀ s, run es (initial_state sw sh) = Ret s →
       ∀ i ws, view s !! i = Some ws →
               acyclic_null_terminated (heap s) (ws_head ws).
Proof.
  intros HW.
  pose proof (run_sound es _ (initial_state_ok sw sh HW)) as Hrun.
  split; [by eapply sound_fueled|].
  intros s Hs i ws Hws.
  pose proof (sound_Ret _ _ _ Hrun Hs) as (_ & _ & Hl & _).
  destruct (Hl i (ws_head ws)) as [l Hlist].
  { unfold heads. by rewrite list_lookup_fmap, Hws. }
  exists l. split; [done|]. split; [by eapply lseg_NoDup|].
  intros t Ht. by eapply lseg_last.
Qed.

(** C4 (amended).  On a non-empty live list, [arrange_windows] runs the
    handler of the [layout] field, except that it runs [zoom] when the list
    holds exactly one client, whatever the number of tiled clients; then it
    reports through [workspace_info]. *)
Theorem arrange_windows_dispatch (s : State) (l : list ptr) :
  is_list (heap s) (head s) l → l ≠ [] →
  selected_layout s
  = Ret (if decide (length l = 1%nat) then ZOOM else layout s) ∧
  arrange_windows s
  = match layout_handler
            (if decide (length l = 1%nat) then ZOOM else layout s) with
    | Some handler => let* s1 := handler s in workspace_info s1
    | None => Fail OutOfBounds
    end.
Proof.
  intros Hl Hne. destruct l as [|a l]; [done|].
  pose proof Hl as (Hh & Ha & ca & Hca & Hl').
  assert (Hsel : selected_layout s
                 = Ret (if decide (length (a :: l) = 1%nat) then ZOOM
                        else layout s)).
  { unfold selected_layout. rewrite Hh, (load_Some _ _ _ Hca). cbn [bind].
    destruct l as [|b l].
    - simpl in Hl'. rewrite Hl'. by destruct (decide (NULL = NULL)).
    - destruct Hl' as (Hb & Hbn & _). rewrite Hb.
      destruct (decide (b = NULL)); [done|].
      destruct (decide (length (a :: b :: l) = 1%nat)); [done|done]. }
  split; [done|]. unfold arrange_windows.
  destruct (decide (head s = NULL)); [congruence|].
  by rewrite Hsel.
Qed.

(** C5 (amended).  On a safe state whose live list has at least two
    clients, two calls of [update_focused_client], each with the
    [prev_foc] of the moment as candidate: the first focuses [prev_foc]
    (the head if [prev_foc] is null); the second focuses what
    [prev_client] gives for that client, its predecessor in the list, or
    the last client if it is the head.  Focus is back on the original
    [current] exactly when the original [current] is that predecessor. *)
Theorem focus_toggle (s : State) (l : list ptr) (p : ptr) :
  safe s → is_list (heap s) (head s) l → (2 ≤ length l)%nat →
  prev_foc s = NULL ∨ prev_foc s ∈ l →
  prev_client s (if decide (prev_foc s = NULL) then head s else prev_foc s)
  = Ret p →
  ∃ s1 s2,
    update_focused_client (prev_foc s) s = Ret s1 ∧
    update_focused_client (prev_foc s1) s1 = Ret s2 ∧
    current s1 = (if decide (prev_foc s = NULL) then head s else prev_foc s) ∧
    current s2 = p ∧
    (current s2 = current s ↔ p = current s).
Proof.
  intros Hsafe Hl Hlen Hpf Hp.
  set (t := if decide (prev_foc s = NULL) then head s else prev_foc s) in *.
  assert (Hne : l ≠ []) by (intros ->; simpl in Hlen; lia).
  destruct (safe_live _ Hsafe) as (l0 & Hl0 & Hlay & Hcur).
  rewrite (lseg_det _ _ _ _ Hl0 Hl) in Hlay, Hcur. specialize (Hcur Hne).
  pose proof Hsafe as (Hok & _ & Hsize & _).
  (* the first call *)
  destruct (update_focused_client_total (prev_foc s) s l)
    as (cur & pf & s1 & Hres & Hin & Hs1 & Hm1); try done.
  { by apply safe_lists_end. }
  destruct (resolve_focus_total (prev_foc s) s l)
    as (cur' & pf' & Hres' & _ & Hsame & _); try done.
  rewrite Hres in Hres'. injection Hres' as <- <-.
  destruct (Hsame eq_refl) as [Ecur Hpc]. fold t in Ecur. subst cur.
  assert (pf = p) as -> by congruence.
  assert (Htl : t ∈ l) by done.
  destruct (prev_client_member s l t Hl Htl) as (p' & Hp' & Hcase).
  assert (p' = p) as -> by congruence.
  destruct Hcase as [[? _]|[_ Hpl]]; [lia|].
  pose proof (lseg_not_null _ _ _ _ _ Hl Hpl) as Hpn.
  pose proof (safe_set_focus s l t p Hsafe Hl (λ _, Htl)) as Hsafe1'.
  pose proof (safe_moved _ _ _ Hm1 Hsafe1') as Hsafe1.
  pose proof (moved_live (set_focus t p s) s1 (proj1 Hsafe1') Hm1) as Hlive1.
  assert (Hc1 : current s1 = t) by exact (f_equal ws_current Hlive1).
  assert (Hp1 : prev_foc s1 = p) by exact (f_equal ws_prev_foc Hlive1).
  assert (Hh1 : head s1 = head s) by exact (f_equal ws_head Hlive1).
  assert (Hhp1 : heap s1 = heap s) by (by destruct Hm1 as (_ & -> & _)).
  (* the second call *)
  assert (Hl1 : is_list (heap s1) (head s1) l) by (by rewrite Hhp1, Hh1).
  destruct (safe_live _ Hsafe1) as (l1 & Hl1' & Hlay1 & _).
  rewrite (lseg_det _ _ _ _ Hl1' Hl1) in Hlay1.
  destruct (update_focused_client_total (prev_foc s1) s1 l)
    as (cur2 & pf2 & s2 & Hres2 & Hin2 & Hs2 & Hm2); try done.
  { apply Hsafe1. }
  { by apply safe_lists_end. }
  { by rewrite Hhp1. }
  { intros _. right. by rewrite Hp1. }
  { by rewrite Hc1. }
  destruct (resolve_focus_total (prev_foc s1) s1 l)
    as (cur2' & pf2' & Hres2' & _ & Hsame2 & _); try done.
  { intros _. right. by rewrite Hp1. }
  { by rewrite Hc1. }
  rewrite Hres2 in Hres2'. injection Hres2' as <- <-.
  destruct (Hsame2 eq_refl) as [Ecur2 _]. rewrite Hp1 in Ecur2.
  destruct (decide (p = NULL)); [done|]. subst cur2.
  assert (Hok2' : ws_ok (set_focus p pf2 s1)) by apply Hsafe1.
  pose proof (moved_live (set_focus p pf2 s1) s2 Hok2' Hm2) as Hlive2.
  assert (Hc2 : current s2 = p) by exact (f_equal ws_current Hlive2).
  exists s1, s2. rewrite Hc2. done.
Qed.

(** C2 (amended).  On a safe state with workspace [i] active (an empty
    list has no focused client), [change_workspace(j)] for another
    workspace [j] followed by [change_workspace(i)] returns, with [i]
    active again and the list head, the focused client and the layout
    as they were.  [prev_foc] is as it was too when it was settled
    before: null on an empty list, different from [current] on a
    non-empty one. *)
Theorem switch_round_trip (s : State) (j : Z) :
  safe s → 0 ≤ j < WORKSPACES → j ≠ current_workspace s →
  (head s = NULL → current s = NULL) →
  ∃ s1 s2,
    change_workspace j s = Ret s1 ∧
    change_workspace (current_workspace s) s1 = Ret s2 ∧
    current_workspace s2 = current_workspace s ∧
    head s2 = head s ∧ current s2 = current s ∧ layout s2 = layout s ∧
    ((head s = NULL → prev_foc s = NULL) →
     (head s ≠ NULL → prev_foc s ≠ current s) →
     prev_foc s2 = prev_foc s).
Proof.
  intros Hsafe Hj Hne Hempty. pose proof Hsafe as (Hok & HW & _).
  pose proof Hok as [Hcw Hlen].
  destruct (view s !! Z.to_nat j) as [wsj|] eqn:Hwsj.
  2:{ apply lookup_ge_None in Hwsj. rewrite view_length in Hwsj. lia. }
  destruct (change_workspace_total j s wsj Hsafe Hj Hne Hwsj)
    as (s1 & cur1 & pf1 & Hs1 & Hsafe1 & Hcw1 & Hh1 & Hv1 & _).
  assert (Hwsi : view s1 !! Z.to_nat (current_workspace s) = Some (live s)).
  { rewrite Hv1, list_lookup_insert_ne by lia. by apply view_active. }
  destruct (change_workspace_total (current_workspace s) s1 (live s))
    as (s2 & cur & pf & Hs2 & Hsafe2 & Hcw2 & Hh2 & Hv2 & Hnull & Hfull);
    [done|done|lia|done|].
  exists s1, s2. split; [done|]. split; [done|]. split; [done|].
  pose proof (view_active s2 (proj1 Hsafe2)) as Hlive2.
  rewrite Hv2, Hcw2, list_lookup_insert_eq in Hlive2.
  2:{ rewrite Hv1, length_insert, view_length. lia. }
  injection Hlive2 as Hly2 Hhd2 Hp2 Hc2. cbn in Hnull, Hfull.
  rewrite <- Hhd2, <- Hly2, <- Hc2, <- Hp2.
  destruct (decide (head s = NULL)) as [E|E].
  - destruct (Hnull E) as [-> ->]. rewrite (Hempty E).
    repeat split; try done. intros Hn _. by rewrite Hn.
  - destruct (Hfull E) as [-> Hpf]. repeat split; try done.
    intros _ Hd. apply Hpf. intros E'. by apply (Hd E).
Qed.

End Claims.

(** * Further properties of the program *)

Section Searching.

Context {cfg : Config}.

(** X1.  [win_to_client] looks through the lists of all workspaces, in
    the order of the workspaces and of each list, and returns the first
    client whose window is the one asked for, null when no client has it.
    It comes back to the workspace it started on: the state it leaves is
    the one it was given, with the live globals written to the active
    slot. *)
Theorem win_to_client_finds (s : State) (ls : list (list ptr)) (wn : Z) :
  ws_ok s → lists_of s ls →
  ∃ c, win_to_client wn s = Ret (flush s, c) ∧
       c = first_with_window (heap s) wn (concat ls) ∧
       (c = NULL ↔ ∀ a, a ∈ concat ls → win <$> heap s !! a ≠ Some wn) ∧
       (c ≠ NULL → c ∈ concat ls ∧ win <$> heap s !! c = Some wn).
Proof.
  intros Hok Hls. eexists. split; [by apply win_to_client_closed|].
  split; [done|]. split.
  - apply first_with_window_null. by eapply lists_of_no_null.
  - intros Hc. by eapply first_with_window_found.
Qed.

(** X2.  A destroy notification for a window that no client has changes
    nothing: no client is removed, no request is sent, and the live
    globals stay as they are. *)
Theorem destroy_unknown_window_ignored (s : State) (ls : list (list ptr))
  (wn : Z) :
  ws_ok s → lists_of s ls →
  (∀ a, a ∈ concat ls → win <$> heap s !! a ≠ Some wn) →
  destroy_event wn s = Ret (flush s) ∧
  heap (flush s) = heap s ∧ view (flush s) = view s ∧
  live (flush s) = live s ∧ out (flush s) = out s.
Proof.
  intros Hok Hls Hno. split; [|by rewrite view_flush].
  unfold destroy_event. rewrite (win_to_client_closed _ _ ls Hok Hls).
  cbn [bind].
  assert (E : first_with_window (heap s) wn (concat ls) = NULL).
  { apply first_with_window_null; [by eapply lists_of_no_null|done]. }
  rewrite E. by destruct (decide (NULL ≠ NULL)).
Qed.

(** X3.  A map request creates no client, and sends no request, when the
    attribute query has no reply, when the window is override-redirect,
    and when some client of some workspace has the window already. *)
Theorem map_request_ignored (s : State) (ls : list (list ptr)) (wn : Z)
  (wa : option bool) (transient : Z) (a : ptr) :
  ws_ok s → lists_of s ls →
  wa = None ∨ wa = Some true ∨
  (∃ c, c ∈ concat ls ∧ win <$> heap s !! c = Some wn) →
  ∃ s', map_request_event wn wa transient a s = Ret s' ∧
        heap s' = heap s ∧ view s' = view s ∧ live s' = live s ∧
        out s' = out s.
Proof.
  intros Hok Hls Hcase. unfold map_request_event.
  destruct wa as [[|]|]; try (exists s; done).
  destruct Hcase as [?|[?|(c & Hc & Hw)]]; [done|done|].
  rewrite (win_to_client_closed _ _ ls Hok Hls). cbn [bind].
  assert (E : first_with_window (heap s) wn (concat ls) ≠ NULL).
  { intros E.
    pose proof (proj1 (first_with_window_null (heap s) wn (concat ls)
                         (lists_of_no_null _ _ Hls)) E) as Hnone.
    by apply (Hnone c). }
  destruct (decide _); [|done].
  exists (flush s). split; [done|]. by rewrite view_flush.
Qed.

(** X4.  [workspace_info] prints one line per workspace, in order: the
    index, the number of clients of its list, its layout, and whether it
    is the active one.  It leaves the state it was given, with the live
    globals written to the active slot. *)
Theorem workspace_info_report (s : State) (ls : list (list ptr)) :
  ws_ok s → lists_of s ls →
  workspace_info s
  = Ret (emit (info_lines (current_workspace s) 0 (zip (view s) ls))
              (flush s)) ∧
  length (info_lines (current_workspace s) 0 (zip (view s) ls))
  = Z.to_nat WORKSPACES.
Proof.
  intros Hok Hls. split; [by apply workspace_info_closed|].
  rewrite info_lines_length, length_zip_with, view_length.
  rewrite (lists_of_length _ _ Hok Hls). destruct Hok as [_ ->]. lia.
Qed.

End Searching.

Section Layouts.

Context {cfg : Config}.

(** X5.  [get_non_tff_count] returns the length of the run of tiled
    clients at the front of the list: it is at most the number of clients,
    the clients before that position are all tiled, and the client at that
    position, if there is one, is floating, transient or fullscreen. *)
Theorem get_non_tff_count_spec (s : State) (l : list ptr) :
  is_list (heap s) (head s) l →
  ∃ n : nat,
    get_non_tff_count s = Ret (Z.of_nat n) ∧ (n ≤ length l)%nat ∧
    (∀ i a, (i < n)%nat → l !! i = Some a → tiled (heap s) a) ∧
    (∀ a, l !! n = Some a → ∃ ca, heap s !! a = Some ca ∧ FFT ca = true).
Proof.
  intros Hl.
  destruct (get_non_tff_count_loop_spec (fuel s) _ _ _ 0 Hl)
    as (m & Hm & Hrest); [by eapply fuel_enough|].
  exists m. split; [|done]. unfold get_non_tff_count. by rewrite Hm.
Qed.

(** X6.  When the list has a single client, whatever the layout index is,
    and when the layout is [ZOOM], [arrange_windows] asks for the whole
    screen for every tiled client, in list order, for no other client,
    and then prints the report of [workspace_info]. *)
Theorem arrange_windows_zoom (s : State) (ls : list (list ptr))
  (l : list ptr) :
  ws_ok s → lists_of s ls → is_list (heap s) (head s) l →
  length l = 1%nat ∨ l ≠ [] ∧ layout s = ZOOM →
  arrange_windows s
  = Ret (emit (zoom_requests s l
               ++ info_lines (current_workspace s) 0 (zip (view s) ls))
              (flush s)).
Proof. apply arrange_windows_zoom_closed. Qed.

(** X7.  With two clients or more and a head that is floating, transient
    or fullscreen, a stack layout divides by zero: [arrange_windows]
    faults when the layout is [HSTACK] or [VSTACK], and so does
    [change_layout] to either of the two. *)
Theorem stack_layout_faults_on_floating_head (s : State) (l : list ptr)
  (c : Client) :
  is_list (heap s) (head s) l → (2 ≤ length l)%nat →
  heap s !! head s = Some c → FFT c = true →
  (layout s = HSTACK ∨ layout s = VSTACK →
   arrange_windows s = Fail DivByZero) ∧
  (∀ i, i = HSTACK ∨ i = VSTACK → layout s ≠ i →
        change_layout i s = Fail DivByZero).
Proof.
  intros Hl Hlen Hc Hf. split.
  - intros Hlay. by eapply arrange_windows_stack_fault.
  - intros i Hi Hne. unfold change_layout.
    destruct (decide _) as [[E|[?|?]]|_].
    + exfalso. apply Hne. rewrite <- E.
      by destruct Hi as [-> | ->].
    + destruct Hi as [-> | ->]; done.
    + destruct Hi as [-> | ->]; done.
    + rewrite (arrange_windows_stack_fault (set_layout i (layout s) s) l c);
        done.
Qed.

End Layouts.

Section Workspaces.

Context {cfg : Config}.

(** X8.  A workspace switch that takes place, on a safe state: first
    every window of the destination is mapped, in list order, then every
    window of the source is unmapped, in list order; nothing that follows
    maps or unmaps a window.  No client is created or freed, every
    workspace keeps its list, and the source becomes the previous
    workspace. *)
Theorem switch_shows_and_hides (s : State) (ls : list (list ptr)) (j : Z)
  (li lj : list ptr) :
  safe s → lists_of s ls →
  0 ≤ j < WORKSPACES → j ≠ current_workspace s →
  ls !! Z.to_nat (current_workspace s) = Some li →
  ls !! Z.to_nat j = Some lj →
  ∃ s' o,
    change_workspace j s = Ret s' ∧
    out s' = out s ++ (MapWindow <$> windows_of (heap s) lj)
             ++ (UnmapWindow <$> windows_of (heap s) li) ++ o ∧
    quiet o ∧
    heap s' = heap s ∧ heads s' = heads s ∧
    current_workspace s' = j ∧ prev_workspace s' = current_workspace s.
Proof.
  intros Hsafe Hls Hj Hne Hli Hlj.
  destruct (switch_there s j Hsafe Hj Hne)
    as (s' & Hs' & _ & Hcw' & Hpw' & Hh' & Hhd' & _).
  destruct (change_workspace_out j s s' ls li lj) as (_ & o & Ho & Hq);
    try done; try apply Hsafe.
  by exists s', o.
Qed.

(** X9.  On a safe state, [next_workspace] leads to the workspace after
    the active one and [previous_workspace] to the one before it, both
    around the cycle of the [WORKSPACES] workspaces; no client is created
    or freed and every workspace keeps its list. *)
Theorem workspace_steps (s : State) :
  safe s → WORKSPACES ≤ INT_MAX →
  (∃ s1, next_workspace s = Ret s1 ∧
         current_workspace s1 = (current_workspace s + 1) mod WORKSPACES ∧
         heap s1 = heap s ∧ heads s1 = heads s) ∧
  (∃ s1, previous_workspace s = Ret s1 ∧
         current_workspace s1 = (current_workspace s - 1) mod WORKSPACES ∧
         heap s1 = heap s ∧ heads s1 = heads s).
Proof.
  intros Hsafe HW. pose proof Hsafe as (Hok & HU & _).
  pose proof Hok as [Hcw _].
  assert (Hstep : ∀ j, 0 ≤ j < WORKSPACES →
            ∃ s1, change_workspace j s = Ret s1 ∧ current_workspace s1 = j ∧
                  heap s1 = heap s ∧ heads s1 = heads s).
  { intros j Hj. destruct (decide (j = current_workspace s)) as [->|Hne].
    - exists s. split; [by apply change_workspace_same|done].
    - destruct (switch_there s j Hsafe Hj Hne)
        as (s1 & Hs1 & _ & Hcw1 & _ & Hh1 & Hhd1 & _).
      by exists s1. }
  split.
  - rewrite (next_workspace_eq _ Hok HW). apply Hstep.
    apply Z.mod_pos_bound. lia.
  - rewrite (previous_workspace_eq _ Hok HW). apply Hstep.
    apply Z.mod_pos_bound. lia.
Qed.

(** X10.  On a safe state (an empty list has no focused client),
    [next_workspace] followed by [previous_workspace], and
    [previous_workspace] followed by [next_workspace], end on the workspace
    they started from, with every list, the focused client and the layout
    as they were. *)
Theorem workspace_steps_round_trip (s : State) :
  safe s → WORKSPACES ≤ INT_MAX → (head s = NULL → current s = NULL) →
  (∃ s1 s2, next_workspace s = Ret s1 ∧ previous_workspace s1 = Ret s2 ∧
            restored s s2) ∧
  (∃ s1 s2, previous_workspace s = Ret s1 ∧ next_workspace s1 = Ret s2 ∧
            restored s s2).
Proof.
  intros Hsafe HW Hempty. pose proof Hsafe as (Hok & HU & _).
  pose proof Hok as [Hcw _].
  assert (Hback : ∀ j, 0 ≤ j < WORKSPACES →
            ∃ s1 s2, change_workspace j s = Ret s1 ∧ safe s1 ∧
                     current_workspace s1 = j ∧
                     change_workspace (current_workspace s) s1 = Ret s2 ∧
                     restored s s2).
  { intros j Hj. destruct (decide (j = current_workspace s)) as [->|Hne].
    - exists s, s. rewrite change_workspace_same by done. done.
    - destruct (switch_back s j Hsafe Hj Hne Hempty)
        as (s1 & s2 & Hs1 & Hs2 & Hsafe1 & Hcw1 & _ & _ & Hcw2 & _ & Hhd
            & Hcur & Hly & Hh & Hhds & _).
      exists s1, s2. unfold restored. done. }
  split.
  - destruct (Hback ((current_workspace s + 1) mod WORKSPACES))
      as (s1 & s2 & Hs1 & Hsafe1 & Hcw1 & Hs2 & Hres);
      [apply Z.mod_pos_bound; lia|].
    exists s1, s2. rewrite (next_workspace_eq _ Hok HW).
    split; [done|]. split; [|done].
    rewrite (previous_workspace_eq _ (proj1 Hsafe1) HW), Hcw1.
    rewrite Zminus_mod_idemp_l.
    replace (current_workspace s + 1 - 1) with (current_workspace s) by lia.
    by rewrite Z.mod_small.
  - destruct (Hback ((current_workspace s - 1) mod WORKSPACES))
      as (s1 & s2 & Hs1 & Hsafe1 & Hcw1 & Hs2 & Hres);
      [apply Z.mod_pos_bound; lia|].
    exists s1, s2. rewrite (previous_workspace_eq _ Hok HW).
    split; [done|]. split; [|done].
    rewrite (next_workspace_eq _ (proj1 Hsafe1) HW), Hcw1.
    rewrite Zplus_mod_idemp_l.
    replace (current_workspace s - 1 + 1) with (current_workspace s) by lia.
    by rewrite Z.mod_small.
Qed.

(** X11.  After a switch to another workspace on a safe state (an empty
    list has no focused client), [last_workspace] leads back to the
    workspace the switch started from, with every list, the focused client
    and the layout as they were, and a second [last_workspace] leads to
    the other workspace again. *)
Theorem last_workspace_toggles (s : State) (j : Z) :
  safe s → WORKSPACES ≤ INT_MAX →
  0 ≤ j < WORKSPACES → j ≠ current_workspace s →
  (head s = NULL → current s = NULL) →
  ∃ s1 s2 s3,
    change_workspace j s = Ret s1 ∧ last_workspace s1 = Ret s2 ∧
    last_workspace s2 = Ret s3 ∧
    restored s s2 ∧ current_workspace s3 = j.
Proof.
  intros Hsafe HW Hj Hne Hempty. pose proof Hsafe as ([Hcw _] & _).
  destruct (switch_back s j Hsafe Hj Hne Hempty)
    as (s1 & s2 & Hs1 & Hs2 & Hsafe1 & Hcw1 & Hpw1 & Hsafe2 & Hcw2 & Hpw2
        & Hhd & Hcur & Hly & Hh & Hhds & _).
  destruct (switch_there s2 j Hsafe2 Hj) as (s3 & Hs3 & _ & Hcw3 & _);
    [by rewrite Hcw2|].
  exists s1, s2, s3. split; [done|].
  rewrite last_workspace_eq by (rewrite Hpw1; lia).
  rewrite Hpw1. split; [done|].
  rewrite last_workspace_eq by (rewrite Hpw2; lia).
  rewrite Hpw2. unfold restored. done.
Qed.

End Workspaces.

Section LayoutSteps.

Context {cfg : Config}.

(** X12.  On a safe state on which a stack layout can run, with a layout
    of the enumeration, [next_layout] selects the layout after the
    current one and [previous_layout] the one before it, both around the
    cycle of the five layouts, and record the old one as the previous
    layout; the list is as it was. *)
Theorem layout_steps (s : State) :
  safe s → stackable s → 0 ≤ layout s < END_LAYOUT →
  (∃ s1, next_layout s = Ret s1 ∧
         layout s1 = (layout s + 1) mod END_LAYOUT ∧
         prev_layout s1 = layout s ∧ heap s1 = heap s ∧ head s1 = head s) ∧
  (∃ s1, previous_layout s = Ret s1 ∧
         layout s1 = (layout s - 1) mod END_LAYOUT ∧
         prev_layout s1 = layout s ∧ heap s1 = heap s ∧ head s1 = head s).
Proof.
  intros Hsafe Hst Hl.
  assert (Hstep : ∀ i, 0 ≤ i < END_LAYOUT → i ≠ layout s →
            ∃ s1, change_layout i s = Ret s1 ∧ layout s1 = i ∧
                  prev_layout s1 = layout s ∧ heap s1 = heap s ∧
                  head s1 = head s).
  { intros i Hi Hne.
    destruct (change_layout_total i s Hsafe Hst Hi Hne)
      as (s1 & Hs1 & _ & _ & Hly & Hpl & Hh & Hhd & _).
    by exists s1. }
  unfold END_LAYOUT in *. split.
  - rewrite (next_layout_eq _ Hl). apply Hstep.
    + apply Z.mod_pos_bound. lia.
    + assert (layout s = 0 ∨ layout s = 1 ∨ layout s = 2 ∨ layout s = 3
              ∨ layout s = 4) as Hc by lia.
      destruct Hc as [-> |[-> |[-> |[-> | ->]]]]; by vm_compute.
  - rewrite (previous_layout_eq _ Hl). apply Hstep.
    + apply Z.mod_pos_bound. lia.
    + assert (layout s = 0 ∨ layout s = 1 ∨ layout s = 2 ∨ layout s = 3
              ∨ layout s = 4) as Hc by lia.
      destruct Hc as [-> |[-> |[-> |[-> | ->]]]]; by vm_compute.
Qed.

(** X13.  On a safe state on which a stack layout can run, with a layout
    of the enumeration: [next_layout] followed by [previous_layout], and
    [previous_layout] followed by [next_layout], end with the layout they
    started from; and after [change_layout] to another layout,
    [last_layout] selects the layout that was current before, a second
    [last_layout] the other one again. *)
Theorem layout_round_trips (s : State) :
  safe s → stackable s → 0 ≤ layout s < END_LAYOUT →
  (∃ s1 s2, next_layout s = Ret s1 ∧ previous_layout s1 = Ret s2 ∧
            layout s2 = layout s ∧ heap s2 = heap s ∧ head s2 = head s) ∧
  (∃ s1 s2, previous_layout s = Ret s1 ∧ next_layout s1 = Ret s2 ∧
            layout s2 = layout s ∧ heap s2 = heap s ∧ head s2 = head s) ∧
  (∀ i, 0 ≤ i < END_LAYOUT → i ≠ layout s →
        ∃ s1 s2 s3, change_layout i s = Ret s1 ∧ last_layout s1 = Ret s2 ∧
                    last_layout s2 = Ret s3 ∧
                    layout s2 = layout s ∧ layout s3 = i).
Proof.
  intros Hsafe Hst Hl.
  assert (Hback : ∀ i, 0 ≤ i < END_LAYOUT → i ≠ layout s →
            ∃ s1 s2 s3,
              change_layout i s = Ret s1 ∧ layout s1 = i ∧
              prev_layout s1 = layout s ∧
              change_layout (layout s) s1 = Ret s2 ∧
              layout s2 = layout s ∧ prev_layout s2 = i ∧
              heap s2 = heap s ∧ head s2 = head s ∧
              change_layout i s2 = Ret s3 ∧ layout s3 = i).
  { intros i Hi Hne.
    destruct (change_layout_total i s Hsafe Hst Hi Hne)
      as (s1 & Hs1 & Hsafe1 & Hst1 & Hly1 & Hpl1 & Hh1 & Hhd1 & _).
    destruct (change_layout_total (layout s) s1 Hsafe1 Hst1 Hl)
      as (s2 & Hs2 & Hsafe2 & Hst2 & Hly2 & Hpl2 & Hh2 & Hhd2 & _);
      [by rewrite Hly1|].
    destruct (change_layout_total i s2 Hsafe2 Hst2 Hi)
      as (s3 & Hs3 & _ & _ & Hly3 & _); [by rewrite Hly2|].
    exists s1, s2, s3. rewrite Hpl2, Hly1, Hh2, Hhd2. done. }
  assert (Hcases : layout s = 0 ∨ layout s = 1 ∨ layout s = 2
                   ∨ layout s = 3 ∨ layout s = 4)
    by (unfold END_LAYOUT in *; lia).
  split; [|split].
  - destruct (Hback ((layout s + 1) mod END_LAYOUT))
      as (s1 & s2 & _ & Hs1 & Hly1 & _ & Hs2 & Hly2 & _ & Hh2 & Hhd2 & _).
    { apply Z.mod_pos_bound. done. }
    { destruct Hcases as [-> |[-> |[-> |[-> | ->]]]]; by vm_compute. }
    exists s1, s2. rewrite (next_layout_eq _ Hl). split; [done|].
    rewrite previous_layout_eq, Hly1.
    2:{ rewrite Hly1. apply Z.mod_pos_bound. done. }
    rewrite Zminus_mod_idemp_l.
    replace (layout s + 1 - 1) with (layout s) by lia.
    by rewrite Z.mod_small.
  - destruct (Hback ((layout s - 1) mod END_LAYOUT))
      as (s1 & s2 & _ & Hs1 & Hly1 & _ & Hs2 & Hly2 & _ & Hh2 & Hhd2 & _).
    { apply Z.mod_pos_bound. done. }
    { destruct Hcases as [-> |[-> |[-> |[-> | ->]]]]; by vm_compute. }
    exists s1, s2. rewrite (previous_layout_eq _ Hl). split; [done|].
    rewrite next_layout_eq, Hly1.
    2:{ rewrite Hly1. apply Z.mod_pos_bound. done. }
    rewrite Zplus_mod_idemp_l.
    replace (layout s - 1 + 1) with (layout s) by lia.
    by rewrite Z.mod_small.
  - intros i Hi Hne.
    destruct (Hback i Hi Hne)
      as (s1 & s2 & s3 & Hs1 & Hly1 & Hpl1 & Hs2 & Hly2 & Hpl2 & _ & _
          & Hs3 & Hly3).
    exists s1, s2, s3. split; [done|].
    rewrite last_layout_eq by (rewrite Hpl1; unfold END_LAYOUT, INT_MAX in *; lia).
    rewrite Hpl1. split; [done|].
    rewrite last_layout_eq by (rewrite Hpl2; unfold END_LAYOUT, INT_MAX in *; lia).
    rewrite Hpl2. done.
Qed.

End LayoutSteps.

Section Focus.

Context {cfg : Config}.

(** X14.  On a safe state with a non-empty list, [focus_next] focuses the
    client after the focused one, the first client after the last; with
    two clients or more the client that had the focus becomes [prev_foc].
    The list and the layout are as they were. *)
Theorem focus_next_moves_focus (s : State) (l : list ptr) :
  safe s → is_list (heap s) (head s) l → l ≠ [] →
  ∃ s', focus_next s = Ret s' ∧
        current s' = cyc_next l (current s) ∧
        ((2 ≤ length l)%nat → prev_foc s' = current s) ∧
        head s' = head s ∧ heap s' = heap s ∧ layout s' = layout s.
Proof.
  intros Hsafe Hl Hne.
  destruct (decide (2 ≤ length l)%nat) as [Hlen|Hlen].
  - destruct (focus_next_effect s l Hsafe Hl Hlen)
      as (s' & Hs' & _ & Hlive & Hh & _).
    injection Hlive as Hly Hhd Hpf Hcur. by exists s'.
  - destruct l as [|a [|b l]]; [done| |simpl in Hlen; lia].
    destruct (focus_single s a Hl) as [Hn _].
    destruct (safe_live _ Hsafe) as (l0 & Hl0 & _ & Hc).
    rewrite (lseg_det _ _ _ _ Hl0 Hl) in Hc.
    specialize (Hc Hne). apply list_elem_of_singleton in Hc.
    exists s. rewrite Hc. done.
Qed.

(** X15.  On a safe state with a non-empty list, [focus_prev] focuses the
    client before the focused one, the last client before the first; with
    two clients or more the client that had the focus becomes [prev_foc].
    The list and the layout are as they were. *)
Theorem focus_prev_moves_focus (s : State) (l : list ptr) :
  safe s → is_list (heap s) (head s) l → l ≠ [] →
  ∃ s', focus_prev s = Ret s' ∧
        current s' = cyc_prev l (current s) ∧
        ((2 ≤ length l)%nat → prev_foc s' = current s) ∧
        head s' = head s ∧ heap s' = heap s ∧ layout s' = layout s.
Proof.
  intros Hsafe Hl Hne.
  destruct (decide (2 ≤ length l)%nat) as [Hlen|Hlen].
  - destruct (focus_prev_effect s l Hsafe Hl Hlen)
      as (s' & Hs' & _ & Hlive & Hh & _).
    injection Hlive as Hly Hhd Hpf Hcur. by exists s'.
  - destruct l as [|a [|b l]]; [done| |simpl in Hlen; lia].
    destruct (focus_single s a Hl) as [_ Hp].
    destruct (safe_live _ Hsafe) as (l0 & Hl0 & _ & Hc).
    rewrite (lseg_det _ _ _ _ Hl0 Hl) in Hc.
    specialize (Hc Hne). apply list_elem_of_singleton in Hc.
    exists s. rewrite Hc. done.
Qed.

(** X16.  On a safe state with a non-empty list, [focus_next] followed by
    [focus_prev], and [focus_prev] followed by [focus_next], leave the
    focus on the client that had it; the list is as it was. *)
Theorem focus_next_prev_round_trip (s : State) (l : list ptr) :
  safe s → is_list (heap s) (head s) l → l ≠ [] →
  (∃ s1 s2, focus_next s = Ret s1 ∧ focus_prev s1 = Ret s2 ∧
            current s2 = current s ∧ head s2 = head s ∧ heap s2 = heap s) ∧
  (∃ s1 s2, focus_prev s = Ret s1 ∧ focus_next s1 = Ret s2 ∧
            current s2 = current s ∧ head s2 = head s ∧ heap s2 = heap s).
Proof.
  intros Hsafe Hl Hne.
  destruct (safe_live _ Hsafe) as (l0 & Hl0 & _ & Hc).
  rewrite (lseg_det _ _ _ _ Hl0 Hl) in Hc. specialize (Hc Hne).
  pose proof (lseg_NoDup _ _ _ Hl) as Hnd.
  destruct (decide (2 ≤ length l)%nat) as [Hlen|Hlen].
  - split.
    + destruct (focus_next_effect s l Hsafe Hl Hlen)
        as (s1 & Hs1 & Hsafe1 & Hlive1 & Hh1 & _).
      injection Hlive1 as Hly1 Hhd1 Hpf1 Hcur1.
      destruct (focus_prev_effect s1 l Hsafe1) as (s2 & Hs2 & _ & Hlive2 & Hh2 & _);
        [by rewrite Hh1, Hhd1|done|].
      injection Hlive2 as Hly2 Hhd2 Hpf2 Hcur2.
      exists s1, s2. split; [done|]. split; [done|].
      rewrite Hcur2, Hcur1, Hhd2, Hh2. split; [|done].
      by apply cyc_prev_next.
    + destruct (focus_prev_effect s l Hsafe Hl Hlen)
        as (s1 & Hs1 & Hsafe1 & Hlive1 & Hh1 & _).
      injection Hlive1 as Hly1 Hhd1 Hpf1 Hcur1.
      destruct (focus_next_effect s1 l Hsafe1) as (s2 & Hs2 & _ & Hlive2 & Hh2 & _);
        [by rewrite Hh1, Hhd1|done|].
      injection Hlive2 as Hly2 Hhd2 Hpf2 Hcur2.
      exists s1, s2. split; [done|]. split; [done|].
      rewrite Hcur2, Hcur1, Hhd2, Hh2. split; [|done].
      by apply cyc_next_prev.
  - destruct l as [|a [|b l]]; [done| |simpl in Hlen; lia].
    destruct (focus_single s a Hl) as [Hn Hp].
    split; exists s, s; done.
Qed.

End Focus.

Section Reordering.

Context {cfg : Config}.

(** X17.  [remove_from_workspace] cannot take out the head of the list:
    called with the head, or with null, it dereferences a null pointer. *)
Theorem remove_from_workspace_faults (s : State) (c : ptr) :
  heap s !! NULL = None → c = NULL ∨ c = head s →
  remove_from_workspace c s = Fail BadPointer.
Proof.
  intros Hn Hcase. unfold remove_from_workspace.
  destruct (decide (c = NULL)) as [->|Hc].
  - assert (∀ s0, heap s0 = heap s →
              (let* p := prev_client s0 NULL in
               let* cl := load (heap s0) NULL in
               store_next p (next cl) s0) = Fail BadPointer) as Hgen.
    { intros s0 E. unfold prev_client.
      destruct (decide (NULL = NULL)); [|done]. cbn [bind].
      unfold load. by rewrite E, Hn. }
    destruct (decide (head s = NULL)); by apply Hgen.
  - destruct Hcase as [?| ->]; [done|].
    destruct (decide (head s = head s)); [|done].
    unfold prev_client. destruct (decide (head s = NULL)); [done|].
    cbn. unfold load. by rewrite Hn.
Qed.

(** X18.  Called with a client of the list that is not the head,
    [remove_from_workspace] takes it out of the list: the link of its
    predecessor is the only thing that changes, and the client itself stays
    allocated. *)
Theorem remove_from_workspace_unlinks (s : State) (l1 l2 : list ptr)
  (p c : ptr) :
  is_list (heap s) (head s) (l1 ++ p :: c :: l2) →
  ∃ s', remove_from_workspace c s = Ret s' ∧
        is_list (heap s') (head s') (l1 ++ p :: l2) ∧
        head s' = head s ∧ relinked (heap s) (heap s') [p] ∧
        is_Some (heap s' !! c).
Proof.
  intros Hl. pose proof (lseg_NoDup _ _ _ Hl) as Hnd.
  destruct (prev_client_cases s _ c Hl) as (Hmem & _ & _).
  assert (Hcl : c ∈ l1 ++ p :: c :: l2).
  { rewrite elem_of_app. right. right. by left. }
  assert (Hpl : p ∈ l1 ++ p :: c :: l2).
  { rewrite elem_of_app. right. by left. }
  destruct (lseg_alloc _ _ _ _ _ Hl Hcl) as [cl Hc].
  destruct (lseg_alloc _ _ _ _ _ Hl Hpl) as [cp Hp].
  assert (Hpc : p ≠ c).
  { apply NoDup_app in Hnd as (_ & _ & Hnd').
    apply NoDup_cons in Hnd' as [Hn _]. intros ->. apply Hn. by left. }
  assert (Hhc : head s ≠ c).
  { intros Heq. destruct l1 as [|x l1]; apply lseg_head in Hl.
    - congruence.
    - rewrite Heq in Hl. subst x. apply NoDup_cons in Hnd as [Hn _].
      apply Hn. rewrite elem_of_app. right. right. by left. }
  unfold remove_from_workspace.
  destruct (decide (head s = c)) as [?|_]; [done|].
  rewrite (Hmem l1 p l2 eq_refl). cbn [bind].
  rewrite (load_Some _ _ _ Hc). cbn [bind].
  rewrite (store_next_Ret _ _ _ cp Hp).
  eexists. split; [done|]. cbn. split; [|split; [done|split]].
  - replace (l1 ++ p :: l2) with ((l1 ++ [p]) ++ l2)
      by (by rewrite <- app_assoc).
    apply lseg_app. exists (next cl). split.
    + by apply (lseg_prefix_redirect _ _ l1 p cp (c :: l2)).
    + apply lseg_insert_notin.
      * apply NoDup_split_l in Hnd as [_ Hn]. intros Hin. apply Hn.
        by right.
      * replace (l1 ++ p :: c :: l2) with ((l1 ++ [p]) ++ c :: l2) in Hl
          by (by rewrite <- app_assoc).
        by apply (lseg_after _ _ _ _ _ _ Hl).
  - apply relinked_insert; [apply relinked_refl|by left|done].
  - rewrite lookup_insert_ne by done. eauto.
Qed.

(** X19.  [move_down] moves the focused client one place down the list,
    the last client to the front; the other clients keep their order,
    every client keeps its window and its flags, the focus stays where it
    is and the store stays well formed.  With two clients or more the
    layout must be able to run on the new order. *)
Theorem move_down_reorders (s : State) (l : list ptr) :
  store_ok s → is_list (heap s) (head s) l → current s ∈ l →
  ((2 ≤ length l)%nat →
   ∀ a, hd_error (moved_down l (current s)) = Some a → can_arrange s a) →
  ∃ s', move_down s = Ret s' ∧
        is_list (heap s') (head s') (moved_down l (current s)) ∧
        current s' = current s ∧
        relinked (heap s) (heap s') l ∧ store_ok s'.
Proof.
  intros Hst Hl Hc Hcan.
  destruct (move_down_total s l Hst Hl Hc Hcan)
    as (s' & Hs' & Hl' & Hcur & _ & Hrel & Hst').
  by exists s'.
Qed.

(** X20.  [move_up] moves the focused client one place up the list, the
    first client to the end; the other clients keep their order, every
    client keeps its window and its flags, the focus stays where it is and
    the store stays well formed.  With two clients or more the layout
    must be able to run on the new order. *)
Theorem move_up_reorders (s : State) (l : list ptr) :
  store_ok s → is_list (heap s) (head s) l → current s ∈ l →
  ((2 ≤ length l)%nat →
   ∀ a, hd_error (moved_up l (current s)) = Some a → can_arrange s a) →
  ∃ s', move_up s = Ret s' ∧
        is_list (heap s') (head s') (moved_up l (current s)) ∧
        current s' = current s ∧
        relinked (heap s) (heap s') l ∧ store_ok s'.
Proof.
  intros Hst Hl Hc Hcan.
  destruct (move_up_total s l Hst Hl Hc Hcan)
    as (s' & Hs' & Hl' & Hcur & _ & Hrel & Hst').
  by exists s'.
Qed.

(** X21.  When the layout can run with any client of the list at the
    head, [move_down] followed by [move_up], and [move_up] followed by
    [move_down], give back the list in the order it had. *)
Theorem move_down_up_round_trip (s : State) (l : list ptr) :
  store_ok s → is_list (heap s) (head s) l → current s ∈ l →
  (∀ a, a ∈ l → can_arrange s a) →
  (∃ s1 s2, move_down s = Ret s1 ∧ move_up s1 = Ret s2 ∧
            is_list (heap s2) (head s2) l ∧ current s2 = current s ∧
            relinked (heap s) (heap s2) l) ∧
  (∃ s1 s2, move_up s = Ret s1 ∧ move_down s1 = Ret s2 ∧
            is_list (heap s2) (head s2) l ∧ current s2 = current s ∧
            relinked (heap s) (heap s2) l).
Proof.
  intros Hst Hl Hc Hcan. pose proof (lseg_NoDup _ _ _ Hl) as Hnd.
  assert (Hhd : ∀ l', l' ≡ₚ l → ∀ a, hd_error l' = Some a → can_arrange s a).
  { intros l' Hp a Ha. apply Hcan. rewrite <- Hp.
    destruct l' as [|x l']; [done|]. injection Ha as ->. by left. }
  assert (Hcan' : ∀ s1 l', l' ≡ₚ l → layout s1 = layout s →
            relinked (heap s) (heap s1) l →
            ∀ a, hd_error l' = Some a → can_arrange s1 a).
  { intros s1 l' Hp Hly Hrel a Ha.
    destruct (Hhd l' Hp a Ha) as [Hr Hs]. split; [by rewrite Hly|].
    rewrite Hly. intros Hlay. by eapply relinked_tiled; [|apply Hs]. }
  split.
  - destruct (move_down_total s l Hst Hl Hc)
      as (s1 & Hs1 & Hl1 & Hcur1 & Hly1 & Hrel1 & Hst1).
    { intros _. apply Hhd. by apply moved_down_perm. }
    pose proof (moved_down_perm l _ Hc Hnd) as Hp1.
    destruct (move_up_total s1 (moved_down l (current s)) Hst1 Hl1)
      as (s2 & Hs2 & Hl2 & Hcur2 & _ & Hrel2 & _).
    { rewrite Hcur1, Hp1. done. }
    { intros _. rewrite Hcur1. apply (Hcan' s1); [|done|done].
      rewrite moved_up_perm; [done|by rewrite Hp1|by rewrite Hp1]. }
    exists s1, s2. split; [done|]. split; [done|].
    rewrite Hcur1, moved_up_down in Hl2 by done.
    split; [done|]. split; [congruence|].
    eapply relinked_trans; [exact Hrel1|].
    by apply (relinked_perm _ _ _ _ Hp1).
  - destruct (move_up_total s l Hst Hl Hc)
      as (s1 & Hs1 & Hl1 & Hcur1 & Hly1 & Hrel1 & Hst1).
    { intros _. apply Hhd. by apply moved_up_perm. }
    pose proof (moved_up_perm l _ Hc Hnd) as Hp1.
    destruct (move_down_total s1 (moved_up l (current s)) Hst1 Hl1)
      as (s2 & Hs2 & Hl2 & Hcur2 & _ & Hrel2 & _).
    { rewrite Hcur1, Hp1. done. }
    { intros _. rewrite Hcur1. apply (Hcan' s1); [|done|done].
      rewrite moved_down_perm; [done|by rewrite Hp1|by rewrite Hp1]. }
    exists s1, s2. split; [done|]. split; [done|].
    rewrite Hcur1, moved_down_up in Hl2 by done.
    split; [done|]. split; [congruence|].
    eapply relinked_trans; [exact Hrel1|].
    by apply (relinked_perm _ _ _ _ Hp1).
Qed.

End Reordering.

Section Creating.

Context {cfg : Config}.

(** X22.  [client_from_window] with the address of unused memory puts the
    new client at the end of the live list, with the window it was given
    and every other member zero; the link of the client that was last is
    the only other thing that changes, one request (the event mask of the
    window) is sent, and the store stays well formed.  With a null
    address, an allocation that failed, the program ends. *)
Theorem client_from_window_appends (s : State) (l : list ptr) (wn : Z)
  (a : ptr) :
  store_ok s → is_list (heap s) (head s) l →
  a ≠ NULL → heap s !! a = None →
  (∃ s', client_from_window wn a s = Ret (s', a) ∧
         is_list (heap s') (head s') (l ++ [a]) ∧
         heap s' !! a = Some (set_win wn zero_client) ∧
         (∀ x, x ≠ a → last l ≠ Some x → heap s' !! x = heap s !! x) ∧
         (∀ t ct, last l = Some t → heap s !! t = Some ct →
                  heap s' !! t = Some (set_next a ct)) ∧
         out s' = out s ++ [ChangeEventMask wn] ∧
         store_ok s') ∧
  client_from_window wn NULL s = Fail Exited.
Proof.
  intros Hst Hl Ha Hfresh. split.
  - destruct (client_from_window_total wn a s l Hl Ha Hfresh)
      as (s' & Hs' & Hl' & Hnew & Hsame & Hlast & _ & Hout & _).
    exists s'. destruct (client_from_window_ok _ _ _ _ _ Hst Hs') as [Hst' _].
    done.
  - unfold client_from_window, calloc.
    destruct (decide (NULL = NULL)) as [_|?]; [|done]. cbn [bind].
    destruct (decide (head s = NULL)) as [E|E].
    + rewrite E. unfold prev_client.
      by destruct (decide (NULL = NULL)).
    + destruct (lseg_cons_inv _ _ _ E Hl) as (c & l' & -> & Hc & _).
      destruct (prev_client_member s _ (head s) Hl) as (p & -> & _);
        [by left|].
      done.
Qed.

(** X23.  Whatever [current] and [prev_foc] hold, [update_focused_client]
    with a client of the live list returns with that client focused; the
    list is as it was, and when the client was neither [current] nor
    [prev_foc], the client that was [current] is the new [prev_foc]. *)
Theorem update_focused_client_focuses (s : State) (l : list ptr) (c : ptr) :
  ws_ok s → lists_end s →
  Z.of_nat (size (heap s)) < UINT_MOD - 1 →
  is_list (heap s) (head s) l →
  layout_ok (heap s) (live s) l →
  c ∈ l →
  ∃ s', update_focused_client c s = Ret s' ∧
        current s' = c ∧ head s' = head s ∧ heap s' = heap s ∧
        (c ≠ prev_foc s → c ≠ current s → prev_foc s' = current s).
Proof.
  intros Hok Hle Hsize Hl Hlay Hc.
  destruct (update_focused_client_member c s l Hok Hle Hsize Hl Hlay Hc)
    as (pf & s' & Hs' & Hm & Hpf & _).
  exists s'. split; [done|].
  pose proof (moved_live (set_focus c pf s) s' Hok Hm) as Hlive.
  injection Hlive as Hly Hhd Hp Hcur.
  split; [done|]. split; [done|]. split; [by destruct Hm as (_ & -> & _)|].
  intros H1 H2. rewrite Hp. by apply Hpf.
Qed.

(** X24.  A map request for a window that no client has, answered by the
    server without [override_redirect], with memory for the client at the
    unused address [a]: the handler returns, the new client is the last of
    the live list and the focused one, it has the window, it floats and is
    transient exactly when the window is transient for another, the
    clients there were keep their windows and flags, the window is
    mapped after the arrangement and before the focus is set, no other
    window is mapped or unmapped, and the store stays well formed.  When there were clients
    already, the layout must be able to run with the head there is. *)
Theorem map_request_adds_client (s : State) (ls : list (list ptr))
  (l : list ptr) (wn transient : Z) (a : ptr) :
  store_ok s → lists_of s ls →
  is_list (heap s) (head s) l →
  (∀ x, x ∈ concat ls → win <$> heap s !! x ≠ Some wn) →
  a ≠ NULL → heap s !! a = None →
  Z.of_nat (size (heap s)) < UINT_MOD - 2 →
  (l ≠ [] → can_arrange s (head s)) →
  ∃ s' ca, map_request_event wn (Some false) transient a s = Ret s' ∧
           is_list (heap s') (head s') (l ++ [a]) ∧
           current s' = a ∧
           heap s' !! a = Some ca ∧ win ca = wn ∧ next ca = NULL ∧
           is_floating ca = bool_of_int transient ∧
           is_transient ca = bool_of_int transient ∧
           is_fullscreen ca = false ∧
           (∀ x cx, heap s !! x = Some cx →
                    ∃ n, heap s' !! x = Some (set_next n cx)) ∧
           (∃ o1 o2, out s' = out s ++ ChangeEventMask wn :: o1
                              ++ MapWindow wn :: o2 ∧
                     quiet o1 ∧ quiet o2) ∧
           store_ok s'.
Proof.
  intros Hst Hls Hl Hno Ha Hfresh Hsize Hcan.
  destruct (map_request_event_total wn transient a s ls l)
    as (s' & Hs' & Hl' & Hcur & Hnew & Hold & Hmap & Hst'); try done.
  exists s', (set_float_trans (bool_of_int transient)
                (set_win wn zero_client)).
  split; [done|]. split; [done|]. split; [done|]. split; [done|].
  split; [done|]. split; [done|]. split; [done|]. split; [done|].
  split; [done|]. split; [done|]. done.
Qed.

End Creating.

Section Destroying.

Context {cfg : Config}.

(** X25.  A destroy notification for the window of a client [c] of the
    live list, a window that no other client has: the handler returns,
    [c] is out of the list and freed, the client before it (if there is
    one) now points to the client after it, every other client is as it
    was, the layout and the workspace are the same, and the store stays
    well formed.  The focused client is in the list, [prev_foc] is null or
    in the list, the only client of a list is not its own [prev_foc], and
    the layout can run on what is left. *)
Theorem destroy_removes_client (s : State) (l1 l2 : list ptr) (c : ptr)
  (cl : Client) :
  store_ok s →
  is_list (heap s) (head s) (l1 ++ c :: l2) →
  heap s !! c = Some cl →
  (∀ x cx, heap s !! x = Some cx → win cx = win cl → x = c) →
  Z.of_nat (size (heap s)) < UINT_MOD - 1 →
  current s ∈ l1 ++ c :: l2 →
  prev_foc s = NULL ∨ prev_foc s ∈ l1 ++ c :: l2 →
  (l1 ++ l2 = [] → prev_foc s ≠ c) →
  ((2 ≤ length (l1 ++ l2))%nat →
   ∀ a, hd_error (l1 ++ l2) = Some a → can_arrange s a) →
  ∃ s', destroy_event (win cl) s = Ret s' ∧
        is_list (heap s') (head s') (l1 ++ l2) ∧
        heap s' !! c = None ∧
        (∀ x, x ≠ c → last l1 ≠ Some x → heap s' !! x = heap s !! x) ∧
        (∀ p cp, last l1 = Some p → heap s !! p = Some cp →
                 heap s' !! p
                 = Some (set_next (default NULL (hd_error l2)) cp)) ∧
        layout s' = layout s ∧
        current_workspace s' = current_workspace s ∧
        store_ok s'.
Proof.
  intros Hst Hl Hc Huniq Hsize Hcur Hpf Hsole Hcan.
  destruct (destroy_event_total s c cl l1 l2)
    as (s' & Hs' & Hl' & Hfree & Hsame & Hpred & Hly & Hcw & _ & _ & _ & _
        & _ & Hst'); try done.
  { intros Hlen _. by apply Hcan. }
  exists s'. split; [done|]. split; [done|]. split; [done|].
  split; [done|]. split; [done|]. split; [done|]. split; done.
Qed.

(** X26.  Where the focus goes when a client [c] of the live list is
    destroyed: it stays where it was when [c] was not the focused client;
    it goes to [prev_foc] when [c] was focused and [prev_foc] is another
    client; in every case the focused client is one of those left, and
    with none left [current] and [prev_foc] are null. *)
Theorem destroy_moves_focus (s : State) (l1 l2 : list ptr) (c : ptr)
  (cl : Client) :
  store_ok s →
  is_list (heap s) (head s) (l1 ++ c :: l2) →
  heap s !! c = Some cl →
  (∀ x cx, heap s !! x = Some cx → win cx = win cl → x = c) →
  Z.of_nat (size (heap s)) < UINT_MOD - 1 →
  current s ∈ l1 ++ c :: l2 →
  prev_foc s = NULL ∨ prev_foc s ∈ l1 ++ c :: l2 →
  (l1 ++ l2 = [] → prev_foc s ≠ c) →
  ((2 ≤ length (l1 ++ l2))%nat →
   ∀ a, hd_error (l1 ++ l2) = Some a → can_arrange s a) →
  ∃ s', destroy_event (win cl) s = Ret s' ∧
        (c ≠ current s → current s' = current s) ∧
        (c = current s → prev_foc s ≠ NULL → prev_foc s ≠ c →
         current s' = prev_foc s) ∧
        (l1 ++ l2 ≠ [] → current s' ∈ l1 ++ l2) ∧
        (l1 ++ l2 = [] →
         current s' = NULL ∧ prev_foc s' = NULL ∧ head s' = NULL).
Proof.
  intros Hst Hl Hc Huniq Hsize Hcur Hpf Hsole Hcan.
  destruct (destroy_event_total s c cl l1 l2)
    as (s' & Hs' & Hl' & _ & _ & _ & _ & _ & Hkeep & Hback & Hin & Hnone
        & _); try done.
  { intros Hlen _. by apply Hcan. }
  exists s'. split; [done|]. split; [done|]. split; [done|].
  split; [done|]. intros E. destruct (Hnone E) as [? ?].
  split; [done|]. split; [done|]. rewrite E in Hl'. exact Hl'.
Qed.

(** X27.  On a workspace other than the first, a destroy notification
    for a client that is not the focused one, with two clients or more
    left: the handler returns and all it sends is the report of
    [workspace_info].  No window is moved or resized: the windows that are
    left keep the geometry they had. *)
Theorem destroy_unfocused_sends_report_only (s : State) (l1 l2 : list ptr)
  (c : ptr) (cl : Client) :
  store_ok s →
  is_list (heap s) (head s) (l1 ++ c :: l2) →
  heap s !! c = Some cl →
  (∀ x cx, heap s !! x = Some cx → win cx = win cl → x = c) →
  Z.of_nat (size (heap s)) < UINT_MOD - 1 →
  current s ∈ l1 ++ c :: l2 →
  prev_foc s = NULL ∨ prev_foc s ∈ l1 ++ c :: l2 →
  current_workspace s ≠ 0 → c ≠ current s →
  (2 ≤ length (l1 ++ l2))%nat →
  ∃ s' o, destroy_event (win cl) s = Ret s' ∧
          out s' = out s ++ o ∧
          Forall (λ x, is_report x = true) o ∧
          heap s' !! c = None.
Proof.
  intros Hst Hl Hc Huniq Hsize Hcur Hpf Hcw Hne Hlen.
  destruct (destroy_event_total s c cl l1 l2)
    as (s' & Hs' & _ & Hfree & _ & _ & _ & _ & _ & _ & _ & _ & Hout & _);
    try done.
  { intros E. rewrite E in Hlen. simpl in Hlen. lia. }
  { intros _ [?|?]; done. }
  destruct (Hout Hcw Hne Hlen) as [wss Hwss].
  exists s', (info_lines (current_workspace s) 0 wss).
  split; [done|]. split; [done|]. split; [|done].
  apply info_lines_report.
Qed.

End Destroying.

Section Entering.

Context {cfg : Config}.

(** X28.  With [FOCUS_MOUSE] set, the pointer entering the window of a
    client [c] of the live list (a window that no other client has) makes
    [c] the focused client: the handler returns with [current] equal to
    [c], the list and the clients as they were, and [prev_foc] the client
    that was focused when [c] was neither [current] nor [prev_foc].  With
    [FOCUS_MOUSE] unset the state is the one given. *)
Theorem enter_focuses_client (s : State) (l : list ptr) (c : ptr)
  (cl : Client) :
  store_ok s →
  is_list (heap s) (head s) l → c ∈ l →
  heap s !! c = Some cl →
  (∀ x cx, heap s !! x = Some cx → win cx = win cl → x = c) →
  Z.of_nat (size (heap s)) < UINT_MOD - 1 →
  ((2 ≤ length l)%nat → can_arrange s (head s)) →
  (FOCUS_MOUSE = true →
   ∃ s', enter_event (win cl) s = Ret s' ∧
         current s' = c ∧ head s' = head s ∧ heap s' = heap s ∧
         layout s' = layout s ∧
         current_workspace s' = current_workspace s ∧
         (c ≠ prev_foc s → c ≠ current s → prev_foc s' = current s) ∧
         (c ≠ prev_foc s → c = current s → prev_foc s' = prev_foc s)) ∧
  (FOCUS_MOUSE = false → enter_event (win cl) s = Ret s).
Proof.
  intros Hst Hl Hc Hcl Huniq Hsize Hcan. pose proof Hst as (Hok & _).
  split; intros Hfm; unfold enter_event; rewrite Hfm; [|done].
  rewrite (win_to_client_unique s l c cl (win cl) Hst Hl Hc Hcl eq_refl Huniq).
  cbn [bind].
  destruct (decide (c ≠ NULL)) as [_|E].
  2:{ exfalso. apply E. by eapply lseg_not_null. }
  pose proof (store_ok_moved _ _ _ (moved_flush s Hok) Hst) as Hstf.
  destruct (update_focused_client_member c (flush s) l)
    as (pf & s' & Hs' & Hm & Hpf1 & Hpf2 & _); try done.
  { apply Hstf. }
  { by apply store_ok_lists_end. }
  exists s'. split; [done|].
  pose proof (moved_live (set_focus c pf (flush s)) s' (proj1 Hstf) Hm)
    as Hlive.
  injection Hlive as Hly Hhd Hp Hcur.
  destruct Hm as (_ & Hh & _ & Hcw & _).
  split; [done|]. split; [done|]. split; [done|]. split; [done|].
  split; [done|]. split.
  - intros H1 H2. rewrite Hp. by apply Hpf1.
  - intros H1 H2. rewrite Hp. by apply Hpf2.
Qed.

End Entering.

Section IdleLayouts.

Context {cfg : Config}.

(** X29.  Under the [GRID] and the [FIBONACCI] layout, on a list of two
    clients or more, [arrange_windows] returns and sends the report of
    [workspace_info] only, one line for each workspace: no window is
    moved or resized. *)
Theorem grid_and_fibonacci_place_nothing (s : State) (ls : list (list ptr))
  (l : list ptr) :
  ws_ok s → lists_of s ls →
  is_list (heap s) (head s) l → (2 ≤ length l)%nat →
  layout s = GRID ∨ layout s = FIBONACCI →
  ∃ s' o, arrange_windows s = Ret s' ∧ out s' = out s ++ o ∧
          Forall (λ x, is_report x = true) o ∧
          length o = Z.to_nat WORKSPACES ∧
          heap s' = heap s ∧ view s' = view s ∧
          current_workspace s' = current_workspace s.
Proof.
  intros Hok Hls Hl Hlen Hcase.
  rewrite (arrange_windows_idle_closed s ls l Hok Hls Hl Hlen Hcase).
  eexists _, _. split; [reflexivity|]. split; [reflexivity|].
  split; [apply info_lines_report|]. split.
  - rewrite info_lines_length, length_zip_with.
    rewrite view_length, (lists_of_length _ _ Hok Hls).
    destruct Hok as [_ ->]. lia.
  - split; [done|]. split; [|done]. cbn. by apply view_flush.
Qed.


End IdleLayouts.

(** * Sample runs *)

(** Each lemma below runs the handlers on [start0] under [cfg0]. *)

(** Deciding a closed statement by evaluation. *)
Ltac by_eval := vm_compute; first [reflexivity | congruence].

(** A concrete list in a concrete heap. *)
Ltac check_lseg :=
  vm_compute;
  repeat match goal with
         | |- _ ∧ _ => split
         | |- ∃ _, _ => eexists
         | |- _ = _ => reflexivity
         | |- _ → False => discriminate
         end.

(** The parts of a conjunction one after the other, each by evaluation;
    a part fixes the states the later parts speak about. *)
Ltac conj_by_eval :=
  repeat match goal with
         | |- is_list _ _ _ ∧ _ => split; [check_lseg|]
         | |- _ ∧ _ => split; [by_eval|]
         end;
  by_eval.

(** C6, as stated, fails.  With clients 1, 2, 3 in list order,
    [prev_client] of the head is the last client, not null, and so is
    [prev_client] of a pointer that is not in the list. *)
Lemma prev_client_head_is_last :
  ∃ s, run (cfg:=cfg0)
         [map_tiled 101 1%nat; map_tiled 102 2%nat; map_tiled 103 3%nat]
         start0 = Ret s ∧
       head s = 1%nat ∧
       is_list (heap s) (head s) [1%nat; 2%nat; 3%nat] ∧
       prev_client s (head s) = Ret 3%nat ∧
       prev_client s (head s) ≠ Ret NULL ∧
       (9%nat ∉ [1%nat; 2%nat; 3%nat]) ∧
       prev_client s 9%nat = Ret 3%nat.
Proof.
  eexists. split; [vm_compute; reflexivity|].
  split; [reflexivity|].
  split; [check_lseg|].
  split; [vm_compute; reflexivity|].
  split; [vm_compute; congruence|].
  split; [|vm_compute; reflexivity].
  rewrite !elem_of_cons, elem_of_nil. lia.
Qed.

(** C7: the scenario.  Three tiled clients with windows 101, 102, 103
    mapped in that order, [VSTACK], a 1000x900 screen, no gap, no border.
    Every client gets width 1000 and height 300; the second and third sit
    at [y = 300] and [y = 600]; the head is put at [y = 1], not at the top
    of the screen. *)
Lemma stack_vstack_three_clients :
  ∃ s, run (cfg:=cfg0)
         [map_tiled 101 1%nat; map_tiled 102 2%nat; map_tiled 103 3%nat]
         start0 = Ret s ∧
       stack (cfg:=cfg0) (set_layout VSTACK (layout s) s) =
       Ret (emit [ConfigureGeometry 101 0 1 1000 300;
                  ConfigureGeometry 102 0 300 1000 300;
                  ConfigureGeometry 103 0 600 1000 300]
                 (set_layout VSTACK (layout s) s)).
Proof.
  eexists. split; [vm_compute; reflexivity|].
  vm_compute. reflexivity.
Qed.

(** C9: a reachable state in which [stack] divides by zero.  A transient
    window is mapped first, an ordinary one second; the list has two
    clients and its head is floating, so [get_non_tff_count] is [0] and
    selecting [VSTACK] (or [HSTACK]) ends in a division by zero. *)
Lemma stack_divides_by_zero :
  ∃ s, run (cfg:=cfg0)
         [MapRequest 101 (Some false) 7 1%nat; map_tiled 102 2%nat]
         start0 = Ret s ∧
       is_list (heap s) (head s) [1%nat; 2%nat] ∧
       get_non_tff_count (set_layout VSTACK (layout s) s) = Ret 0 ∧
       stack (cfg:=cfg0) (set_layout VSTACK (layout s) s) = Fail DivByZero ∧
       change_layout (cfg:=cfg0) VSTACK s = Fail DivByZero ∧
       change_layout (cfg:=cfg0) HSTACK s = Fail DivByZero.
Proof.
  eexists. split; [vm_compute; reflexivity|].
  split; [check_lseg|].
  conj_by_eval.
Qed.

(** C10: with a single tiled client the array [windows] has one element,
    and the raising loop reads [windows[1]]: the indices used are
    0 (the write for [current]), then 1 and 0 (the reads). *)
Lemma raise_loop_reads_past_end :
  ∃ s s' b, run (cfg:=cfg0) [map_tiled 101 1%nat] start0 = Ret s ∧
            is_list (heap s) (head s) [1%nat] ∧
            restack (cfg:=cfg0) s = Ret (s', b) ∧
            length (b_windows b) = 1%nat ∧
            b_used b = [0; 1; 0].
Proof.
  do 3 eexists. split; [vm_compute; reflexivity|].
  split; [check_lseg|].
  split; [vm_compute; reflexivity|].
  split; reflexivity.
Qed.

(** C3: a destroy notification for a client of an inactive workspace.
    Window 101 is mapped on workspace 0 and workspace 1 is made active;
    the client found by [win_to_client] is searched by [remove_client] in
    the active list only, and the store through the null [temp] faults. *)
Lemma destroy_on_inactive_workspace_faults :
  ∃ s c, run (cfg:=cfg0) [map_tiled 101 1%nat; ChangeWorkspace 1] start0
         = Ret s ∧
         current_workspace s = 1 ∧
         ws_head <$> view s !! 0%nat = Some 1%nat ∧
         heap s !! 1%nat = Some c ∧ win c = 101 ∧
         destroy_event (cfg:=cfg0) 101 s = Fail BadPointer.
Proof.
  do 2 eexists. split; [vm_compute; reflexivity|].
  conj_by_eval.
Qed.

(** C4, as stated, fails.  A tiled client followed by a floating one under
    [VSTACK]: the tiled count is 1, yet the index used by
    [arrange_windows] is [VSTACK] and what runs is [stack], not [zoom]. *)
Lemma zoom_not_forced_by_tiled_count :
  ∃ s, run (cfg:=cfg0)
         [map_tiled 101 1%nat; MapRequest 102 (Some false) 7 2%nat;
          ChangeLayout VSTACK] start0 = Ret s ∧
       head s ≠ NULL ∧
       get_non_tff_count s = Ret 1 ∧
       selected_layout s = Ret VSTACK ∧
       arrange_windows (cfg:=cfg0) s
       = (let* s1 := stack (cfg:=cfg0) s in workspace_info (cfg:=cfg0) s1) ∧
       arrange_windows (cfg:=cfg0) s
       ≠ (let* s1 := zoom (cfg:=cfg0) s in workspace_info (cfg:=cfg0) s1).
Proof.
  eexists. split; [vm_compute; reflexivity|].
  split; [vm_compute; congruence|].
  conj_by_eval.
Qed.

(** C5, as stated, fails.  Clients 1, 2, 3 with [current = 1] and
    [prev_foc = 3] (the pointer entered window 101 after the three were
    mapped): two calls of [update_focused_client], each with the
    [prev_foc] of the moment, end with [current = 2]. *)
Lemma focus_toggle_does_not_return :
  ∃ s s1 s2,
    run (cfg:=cfg0)
      [map_tiled 101 1%nat; map_tiled 102 2%nat; map_tiled 103 3%nat;
       EnterNotify 101] start0 = Ret s ∧
    is_list (heap s) (head s) [1%nat; 2%nat; 3%nat] ∧
    current s = 1%nat ∧ prev_foc s = 3%nat ∧
    update_focused_client (cfg:=cfg0) (prev_foc s) s = Ret s1 ∧
    update_focused_client (cfg:=cfg0) (prev_foc s1) s1 = Ret s2 ∧
    current s2 = 2%nat ∧ current s2 ≠ current s.
Proof.
  do 3 eexists. split; [vm_compute; reflexivity|].
  split; [check_lseg|].
  conj_by_eval.
Qed.

(** C2, as stated, fails.  Clients 1, 2, 3 are mapped on workspace 0 and
    client 2 is destroyed, which leaves [current = prev_foc = 3]; switching
    to workspace 1 and back leaves [prev_foc = 1]. *)
Lemma switch_round_trip_changes_prev_foc :
  ∃ s s1 s2,
    run (cfg:=cfg0)
      [map_tiled 101 1%nat; map_tiled 102 2%nat; map_tiled 103 3%nat;
       DestroyNotify 102] start0 = Ret s ∧
    current_workspace s = 0 ∧
    change_workspace (cfg:=cfg0) 1 s = Ret s1 ∧
    change_workspace (cfg:=cfg0) 0 s1 = Ret s2 ∧
    prev_foc s = 3%nat ∧ prev_foc s2 = 1%nat ∧ prev_foc s2 ≠ prev_foc s.
Proof.
  do 3 eexists. split; [vm_compute; reflexivity|].
  conj_by_eval.
Qed.

(** * Instances of the general statements *)

Lemma client_lists_acyclic_witness :
  ∃ s, run (cfg:=cfg0)
         [map_tiled 101 1%nat; map_tiled 102 2%nat; ChangeWorkspace 1;
          map_tiled 103 3%nat; ChangeWorkspace 0; DestroyNotify 101]
         start0 = Ret s ∧
       ∀ i ws, view s !! i = Some ws →
               acyclic_null_terminated (heap s) (ws_head ws).
Proof.
  eexists. split; [vm_compute; reflexivity|].
  assert (HW : 0 < @WORKSPACES cfg0) by reflexivity.
  destruct (client_lists_acyclic (cfg:=cfg0)
              [map_tiled 101 1%nat; map_tiled 102 2%nat; ChangeWorkspace 1;
               map_tiled 103 3%nat; ChangeWorkspace 0; DestroyNotify 101]
              1000 900 HW) as [_ Hinv].
  apply Hinv. vm_compute. reflexivity.
Defined.

Lemma prev_client_spec_witness :
  is_list (heap abc_state) (head abc_state) [1%nat; 2%nat; 3%nat] ∧
  prev_client abc_state 2%nat = Ret 1%nat ∧
  prev_client abc_state 1%nat = Ret 3%nat ∧
  prev_client abc_state NULL = Ret NULL.
Proof.
  assert (Hl : is_list (heap abc_state) (head abc_state)
                 [1%nat; 2%nat; 3%nat]) by check_lseg.
  split; [exact Hl|]. split; [|split].
  - destruct (prev_client_spec abc_state [1%nat; 2%nat; 3%nat] 2%nat Hl)
      as (Hmem & _ & _).
    apply (Hmem [] 1%nat [3%nat]). reflexivity.
  - destruct (prev_client_spec abc_state [1%nat; 2%nat; 3%nat] 1%nat Hl)
      as (_ & Hlast & _).
    destruct Hlast as (t & Ht & _ & Hp).
    + discriminate.
    + simpl. lia.
    + by left.
    + injection Ht as <-. exact Hp.
  - destruct (prev_client_spec abc_state [1%nat; 2%nat; 3%nat] NULL Hl)
      as (_ & _ & Hnone).
    apply Hnone. by left.
Defined.

Lemma out_of_range_commands_ignored_witness :
  change_workspace (cfg:=cfg0) 7 start0 = Ret start0 ∧
  change_workspace (cfg:=cfg0) (-1) start0 = Ret start0 ∧
  change_workspace (cfg:=cfg0) 0 start0 = Ret start0 ∧
  change_layout (cfg:=cfg0) 5 start0 = Ret start0 ∧
  change_layout (cfg:=cfg0) 0 start0 = Ret start0.
Proof.
  assert (H1 : 0 ≤ current_workspace start0 < UINT_MOD)
    by (vm_compute; split; congruence).
  assert (H2 : 0 ≤ layout start0 < UINT_MOD)
    by (vm_compute; split; congruence).
  repeat match goal with |- _ ∧ _ => split end.
  - apply (out_of_range_commands_ignored (cfg:=cfg0) start0 7 H1 H2).
    right. left. vm_compute. congruence.
  - apply (out_of_range_commands_ignored (cfg:=cfg0) start0 (-1) H1 H2).
    left. reflexivity.
  - apply (out_of_range_commands_ignored (cfg:=cfg0) start0 0 H1 H2).
    right. right. reflexivity.
  - apply (out_of_range_commands_ignored (cfg:=cfg0) start0 5 H1 H2).
    right. left. vm_compute. congruence.
  - apply (out_of_range_commands_ignored (cfg:=cfg0) start0 0 H1 H2).
    right. right. reflexivity.
Defined.

Lemma arrange_windows_dispatch_witness :
  ∃ s, run (cfg:=cfg0)
         [map_tiled 101 1%nat; MapRequest 102 (Some false) 7 2%nat;
          ChangeLayout VSTACK] start0 = Ret s ∧
       selected_layout s = Ret VSTACK ∧
       arrange_windows (cfg:=cfg0) s
       = (let* s1 := stack (cfg:=cfg0) s in workspace_info (cfg:=cfg0) s1).
Proof.
  eexists. split; [vm_compute; reflexivity|].
  match goal with |- selected_layout ?s = _ ∧ _ =>
    assert (Hl : is_list (heap s) (head s) [1%nat; 2%nat]) by check_lseg;
    destruct (arrange_windows_dispatch (cfg:=cfg0) s [1%nat; 2%nat] Hl)
      as [H1 H2]; [discriminate|]
  end.
  split; [exact H1|exact H2].
Defined.

(** [two_ws_state] is reached from start-up. *)
Lemma two_ws_state_reached :
  ∃ s, run (cfg:=cfg0)
         [map_tiled 101 1%nat; map_tiled 102 2%nat; ChangeWorkspace 1;
          map_tiled 103 3%nat; ChangeWorkspace 0] start0 = Ret s ∧
       emit (out s) two_ws_state = s.
Proof. eexists. split; [vm_compute; reflexivity|]. vm_compute. reflexivity. Qed.

Lemma two_ws_state_safe : safe (cfg:=cfg0) two_ws_state.
Proof.
  split; [split; [vm_compute; split; congruence|reflexivity]|].
  split; [reflexivity|]. split; [reflexivity|].
  intros i ws Hi.
  exists (nth i [[1%nat; 2%nat]; [3%nat]] []).
  do 5 (destruct i as [|i];
        [injection Hi as <-;
         split; [check_lseg|];
         split; [intros _; vm_compute; split; [split|]; intros; intuition congruence|];
         intros Hne;
         first [by destruct Hne
               |apply list_elem_of_In; vm_compute; auto]|]).
  discriminate Hi.
Qed.

Lemma focus_toggle_witness :
  ∃ s1 s2,
    update_focused_client (cfg:=cfg0) (prev_foc two_ws_state) two_ws_state
    = Ret s1 ∧
    update_focused_client (cfg:=cfg0) (prev_foc s1) s1 = Ret s2 ∧
    current s2 = current two_ws_state.
Proof.
  assert (Hl : is_list (heap two_ws_state) (head two_ws_state)
                 [1%nat; 2%nat]) by check_lseg.
  destruct (focus_toggle (cfg:=cfg0) two_ws_state [1%nat; 2%nat] 2%nat
              two_ws_state_safe Hl)
    as (s1 & s2 & H1 & H2 & _ & H3 & _).
  - simpl. lia.
  - right. apply list_elem_of_In. vm_compute. auto.
  - vm_compute. reflexivity.
  - exists s1, s2. split; [exact H1|]. split; [exact H2|]. exact H3.
Defined.

Lemma switch_round_trip_witness :
  ∃ s1 s2,
    change_workspace (cfg:=cfg0) 1 two_ws_state = Ret s1 ∧
    change_workspace (cfg:=cfg0) 0 s1 = Ret s2 ∧
    head s2 = head two_ws_state ∧ current s2 = current two_ws_state ∧
    prev_foc s2 = prev_foc two_ws_state ∧ layout s2 = layout two_ws_state.
Proof.
  destruct (switch_round_trip (cfg:=cfg0) two_ws_state 1 two_ws_state_safe)
    as (s1 & s2 & H1 & H2 & _ & H3 & H4 & H5 & H6).
  - vm_compute. split; congruence.
  - vm_compute. congruence.
  - vm_compute. congruence.
  - exists s1, s2. split; [exact H1|]. split; [exact H2|].
    split; [exact H3|]. split; [exact H4|]. split; [|exact H5].
    apply H6; vm_compute; congruence.
Defined.

(** * Instances of the further properties *)

(** ** The sample states are well formed *)

Ltac check_ws_ok := split; [vm_compute; split; congruence|reflexivity].

Ltac check_lists :=
  unfold lists_of; repeat (constructor; [check_lseg|]); constructor.

(** A lookup in a heap written as a chain of insertions, case by case. *)
Ltac heap_cases H :=
  repeat match type of H with
         | <[_ := _]> _ !! _ = Some _ =>
             apply lookup_insert_Some in H as [[<- <-]|[? H]]
         | ∅ !! _ = Some _ => rewrite lookup_empty in H; discriminate H
         end.

(** A state that differs by its output from one reached from start-up
    keeps the store invariant. *)
Lemma store_ok_reached es s s0 :
  run (cfg:=cfg0) es start0 = Ret s → emit (out s) s0 = s →
  store_ok (cfg:=cfg0) s0.
Proof.
  intros Hrun Hs.
  assert (Hst : store_ok (cfg:=cfg0) s).
  { pose proof (run_sound (cfg:=cfg0) es start0) as H.
    rewrite Hrun in H. apply H. by apply initial_state_ok. }
  rewrite <- Hs in Hst. eapply store_ok_ext; [| | |exact Hst].
  - exact (proj1 Hst).
  - done.
  - done.
Qed.

Lemma two_ws_state_store : store_ok (cfg:=cfg0) two_ws_state.
Proof.
  destruct two_ws_state_reached as (s & Hrun & Hs).
  by eapply store_ok_reached.
Qed.

Lemma abc_ws_state_store : store_ok (cfg:=cfg0) abc_ws_state.
Proof.
  eapply (store_ok_reached
            [map_tiled 101 1%nat; map_tiled 102 2%nat; map_tiled 103 3%nat;
             EnterNotify 102]); [vm_compute; reflexivity|].
  vm_compute. reflexivity.
Qed.

Lemma abc_ws1_state_store : store_ok (cfg:=cfg0) abc_ws1_state.
Proof.
  eapply (store_ok_reached
            [ChangeWorkspace 1; map_tiled 101 1%nat; map_tiled 102 2%nat;
             map_tiled 103 3%nat]); [vm_compute; reflexivity|].
  vm_compute. reflexivity.
Qed.

Lemma float_head_state_store : store_ok (cfg:=cfg0) float_head_state.
Proof.
  eapply (store_ok_reached
            [MapRequest 101 (Some false) 7 1%nat; map_tiled 102 2%nat]);
    [vm_compute; reflexivity|].
  vm_compute. reflexivity.
Qed.

Lemma two_ws_state_lists :
  lists_of two_ws_state [[1%nat; 2%nat]; [3%nat]; []; []; []].
Proof. check_lists. Qed.

Lemma abc_ws_state_lists :
  lists_of abc_ws_state [[1%nat; 2%nat; 3%nat]; []; []; []; []].
Proof. check_lists. Qed.

Lemma abc_ws_state_list :
  is_list (heap abc_ws_state) (head abc_ws_state) [1%nat; 2%nat; 3%nat].
Proof. check_lseg. Qed.

Lemma abc_ws1_state_list :
  is_list (heap abc_ws1_state) (head abc_ws1_state) [1%nat; 2%nat; 3%nat].
Proof. check_lseg. Qed.

Lemma abc_ws_state_safe : safe (cfg:=cfg0) abc_ws_state.
Proof.
  split; [split; [vm_compute; split; congruence|reflexivity]|].
  split; [reflexivity|]. split; [reflexivity|].
  intros i ws Hi.
  exists (nth i [[1%nat; 2%nat; 3%nat]] []).
  do 5 (destruct i as [|i];
        [injection Hi as <-;
         split; [check_lseg|];
         split; [intros _; vm_compute; split; [split|]; intros; intuition congruence|];
         intros Hne;
         first [by destruct Hne
               |apply list_elem_of_In; vm_compute; auto]|]).
  discriminate Hi.
Qed.

(** Under the [ZOOM] layout any client can be the head. *)
Lemma zoom_can_arrange s a : layout s = ZOOM → can_arrange s a.
Proof.
  intros E. unfold can_arrange. rewrite E.
  split; [vm_compute; split; congruence|].
  intros [H|H]; vm_compute in H; congruence.
Qed.

(** No two clients of the sample states have the same window. *)
Lemma abc_ws_state_windows x cx y cy :
  heap abc_ws_state !! x = Some cx → heap abc_ws_state !! y = Some cy →
  win cx = win cy → x = y.
Proof.
  intros Hx Hy Hw. unfold abc_ws_state in Hx, Hy. cbn [heap] in Hx, Hy.
  heap_cases Hx; heap_cases Hy; first [reflexivity|discriminate Hw].
Qed.

Lemma abc_ws1_state_windows x cx y cy :
  heap abc_ws1_state !! x = Some cx → heap abc_ws1_state !! y = Some cy →
  win cx = win cy → x = y.
Proof.
  intros Hx Hy Hw. unfold abc_ws1_state in Hx, Hy. cbn [heap] in Hx, Hy.
  heap_cases Hx; heap_cases Hy; first [reflexivity|discriminate Hw].
Qed.

Ltac list_cases H :=
  cbn [concat app] in H;
  repeat match type of H with
         | _ ∈ _ :: _ => apply elem_of_cons in H as [->|H]
         | _ ∈ [] => by apply elem_of_nil in H
         end.

Ltac check_elem := apply list_elem_of_In; vm_compute; auto.

(** ** Looking up a window, events that are ignored *)

Lemma win_to_client_finds_witness :
  win_to_client (cfg:=cfg0) 103 two_ws_state
  = Ret (flush two_ws_state, 3%nat).
Proof.
  destruct (win_to_client_finds (cfg:=cfg0) two_ws_state
              [[1%nat; 2%nat]; [3%nat]; []; []; []] 103)
    as (c & Hc & -> & _).
  - check_ws_ok.
  - exact two_ws_state_lists.
  - exact Hc.
Defined.

Lemma destroy_unknown_window_ignored_witness :
  destroy_event (cfg:=cfg0) 999 two_ws_state = Ret (flush two_ws_state).
Proof.
  destruct (destroy_unknown_window_ignored (cfg:=cfg0) two_ws_state
              [[1%nat; 2%nat]; [3%nat]; []; []; []] 999) as [H _].
  - check_ws_ok.
  - exact two_ws_state_lists.
  - intros a Ha. list_cases Ha; vm_compute; congruence.
  - exact H.
Defined.

Lemma map_request_ignored_witness :
  ∃ s', map_request_event (cfg:=cfg0) 101 (Some false) 0 4%nat two_ws_state
        = Ret s' ∧
        heap s' = heap two_ws_state ∧ out s' = out two_ws_state.
Proof.
  destruct (map_request_ignored (cfg:=cfg0) two_ws_state
              [[1%nat; 2%nat]; [3%nat]; []; []; []] 101 (Some false) 0 4%nat)
    as (s' & Hs' & Hh & _ & _ & Ho).
  - check_ws_ok.
  - exact two_ws_state_lists.
  - right. right. exists 1%nat. split; [check_elem|vm_compute; reflexivity].
  - exists s'. split; [exact Hs'|]. split; [exact Hh|exact Ho].
Defined.

Lemma workspace_info_report_witness :
  workspace_info (cfg:=cfg0) two_ws_state
  = Ret (emit [InfoLine 0 2 0 true; InfoLine 1 1 0 false;
               InfoLine 2 0 0 false; InfoLine 3 0 0 false;
               InfoLine 4 0 0 false] (flush two_ws_state)).
Proof.
  destruct (workspace_info_report (cfg:=cfg0) two_ws_state
              [[1%nat; 2%nat]; [3%nat]; []; []; []]) as [H _].
  - check_ws_ok.
  - exact two_ws_state_lists.
  - exact H.
Defined.

(** ** Layouts *)

Lemma get_non_tff_count_spec_witness :
  ∃ n : nat, get_non_tff_count abc_ws_state = Ret (Z.of_nat n) ∧
             (n ≤ 3)%nat.
Proof.
  destruct (get_non_tff_count_spec abc_ws_state [1%nat; 2%nat; 3%nat]
              abc_ws_state_list) as (n & Hn & Hle & _).
  exists n. split; [exact Hn|exact Hle].
Defined.

Lemma arrange_windows_zoom_witness :
  arrange_windows (cfg:=cfg0) abc_ws_state
  = Ret (emit [ConfigureGeometry 101 0 0 1000 900;
               ConfigureGeometry 102 0 0 1000 900;
               ConfigureGeometry 103 0 0 1000 900;
               InfoLine 0 3 0 true; InfoLine 1 0 0 false;
               InfoLine 2 0 0 false; InfoLine 3 0 0 false;
               InfoLine 4 0 0 false] (flush abc_ws_state)).
Proof.
  rewrite (arrange_windows_zoom (cfg:=cfg0) abc_ws_state
             [[1%nat; 2%nat; 3%nat]; []; []; []; []] [1%nat; 2%nat; 3%nat]).
  - reflexivity.
  - check_ws_ok.
  - exact abc_ws_state_lists.
  - exact abc_ws_state_list.
  - right. split; [discriminate|reflexivity].
Defined.

Lemma stack_layout_faults_on_floating_head_witness :
  change_layout (cfg:=cfg0) VSTACK float_head_state = Fail DivByZero.
Proof.
  destruct (stack_layout_faults_on_floating_head (cfg:=cfg0) float_head_state
              [1%nat; 2%nat]
              (set_float_trans true
                 (set_win 101 (set_next 2%nat zero_client)))) as [_ H].
  - check_lseg.
  - simpl. lia.
  - reflexivity.
  - reflexivity.
  - apply H; [by right|vm_compute; congruence].
Defined.

(** ** Workspaces *)

Lemma switch_shows_and_hides_witness :
  ∃ s' o, change_workspace (cfg:=cfg0) 1 two_ws_state = Ret s' ∧
          out s' = [MapWindow 103; UnmapWindow 101; UnmapWindow 102] ++ o ∧
          quiet o.
Proof.
  destruct (switch_shows_and_hides (cfg:=cfg0) two_ws_state
              [[1%nat; 2%nat]; [3%nat]; []; []; []] 1
              [1%nat; 2%nat] [3%nat])
    as (s' & o & Hs' & Hout & Hq & _).
  - exact two_ws_state_safe.
  - exact two_ws_state_lists.
  - vm_compute. split; congruence.
  - vm_compute. congruence.
  - reflexivity.
  - reflexivity.
  - exists s', o. split; [exact Hs'|]. split; [exact Hout|exact Hq].
Defined.

Lemma workspace_steps_witness :
  (∃ s1, next_workspace (cfg:=cfg0) two_ws_state = Ret s1 ∧
         current_workspace s1 = 1) ∧
  (∃ s1, previous_workspace (cfg:=cfg0) two_ws_state = Ret s1 ∧
         current_workspace s1 = 4).
Proof.
  destruct (workspace_steps (cfg:=cfg0) two_ws_state)
    as [(s1 & H1 & E1 & _) (s2 & H2 & E2 & _)].
  - exact two_ws_state_safe.
  - vm_compute. congruence.
  - split; [exists s1|exists s2]; (split; [assumption|]).
    + exact E1.
    + exact E2.
Defined.

Lemma workspace_steps_round_trip_witness :
  ∃ s1 s2, next_workspace (cfg:=cfg0) two_ws_state = Ret s1 ∧
           previous_workspace (cfg:=cfg0) s1 = Ret s2 ∧
           restored two_ws_state s2.
Proof.
  destruct (workspace_steps_round_trip (cfg:=cfg0) two_ws_state) as [H _].
  - exact two_ws_state_safe.
  - vm_compute. congruence.
  - intros E. vm_compute in E. congruence.
  - exact H.
Defined.

Lemma last_workspace_toggles_witness :
  ∃ s1 s2 s3,
    change_workspace (cfg:=cfg0) 1 two_ws_state = Ret s1 ∧
    last_workspace (cfg:=cfg0) s1 = Ret s2 ∧
    last_workspace (cfg:=cfg0) s2 = Ret s3 ∧
    restored two_ws_state s2 ∧ current_workspace s3 = 1.
Proof.
  apply (last_workspace_toggles (cfg:=cfg0) two_ws_state 1).
  - exact two_ws_state_safe.
  - vm_compute. congruence.
  - vm_compute. split; congruence.
  - vm_compute. congruence.
  - intros E. vm_compute in E. congruence.
Defined.

(** ** Layout commands *)

Lemma two_ws_state_stackable : stackable two_ws_state.
Proof.
  intros l _ _. exists (set_win 101 (set_next 2%nat zero_client)).
  split; reflexivity.
Qed.

Lemma layout_steps_witness :
  (∃ s1, next_layout (cfg:=cfg0) two_ws_state = Ret s1 ∧ layout s1 = GRID) ∧
  (∃ s1, previous_layout (cfg:=cfg0) two_ws_state = Ret s1 ∧
         layout s1 = FIBONACCI).
Proof.
  destruct (layout_steps (cfg:=cfg0) two_ws_state)
    as [(s1 & H1 & E1 & _) (s2 & H2 & E2 & _)].
  - exact two_ws_state_safe.
  - exact two_ws_state_stackable.
  - vm_compute. split; congruence.
  - split; [exists s1|exists s2]; (split; [assumption|]).
    + exact E1.
    + exact E2.
Defined.

Lemma layout_round_trips_witness :
  ∃ s1 s2 s3, change_layout (cfg:=cfg0) VSTACK two_ws_state = Ret s1 ∧
              last_layout (cfg:=cfg0) s1 = Ret s2 ∧
              last_layout (cfg:=cfg0) s2 = Ret s3 ∧
              layout s2 = layout two_ws_state ∧ layout s3 = VSTACK.
Proof.
  destruct (layout_round_trips (cfg:=cfg0) two_ws_state) as (_ & _ & H).
  - exact two_ws_state_safe.
  - exact two_ws_state_stackable.
  - vm_compute. split; congruence.
  - apply H; [vm_compute; split; congruence|vm_compute; congruence].
Defined.

(** ** Focus commands *)

Lemma focus_next_moves_focus_witness :
  ∃ s', focus_next (cfg:=cfg0) abc_ws_state = Ret s' ∧
        current s' = 3%nat ∧ prev_foc s' = 2%nat.
Proof.
  destruct (focus_next_moves_focus (cfg:=cfg0) abc_ws_state
              [1%nat; 2%nat; 3%nat])
    as (s' & Hs' & Hcur & Hpf & _).
  - exact abc_ws_state_safe.
  - exact abc_ws_state_list.
  - discriminate.
  - exists s'. split; [exact Hs'|]. split; [exact Hcur|].
    apply Hpf. simpl. lia.
Defined.

Lemma focus_prev_moves_focus_witness :
  ∃ s', focus_prev (cfg:=cfg0) abc_ws_state = Ret s' ∧
        current s' = 1%nat ∧ prev_foc s' = 2%nat.
Proof.
  destruct (focus_prev_moves_focus (cfg:=cfg0) abc_ws_state
              [1%nat; 2%nat; 3%nat])
    as (s' & Hs' & Hcur & Hpf & _).
  - exact abc_ws_state_safe.
  - exact abc_ws_state_list.
  - discriminate.
  - exists s'. split; [exact Hs'|]. split; [exact Hcur|].
    apply Hpf. simpl. lia.
Defined.

Lemma focus_next_prev_round_trip_witness :
  ∃ s1 s2, focus_next (cfg:=cfg0) abc_ws_state = Ret s1 ∧
           focus_prev (cfg:=cfg0) s1 = Ret s2 ∧
           current s2 = current abc_ws_state ∧
           head s2 = head abc_ws_state ∧ heap s2 = heap abc_ws_state.
Proof.
  destruct (focus_next_prev_round_trip (cfg:=cfg0) abc_ws_state
              [1%nat; 2%nat; 3%nat]) as [H _].
  - exact abc_ws_state_safe.
  - exact abc_ws_state_list.
  - discriminate.
  - exact H.
Defined.

(** ** Taking a client out of the list, reordering *)

Lemma remove_from_workspace_faults_witness :
  remove_from_workspace 1%nat abc_ws_state = Fail BadPointer.
Proof.
  apply (remove_from_workspace_faults abc_ws_state 1%nat).
  - reflexivity.
  - by right.
Defined.

Lemma remove_from_workspace_unlinks_witness :
  ∃ s', remove_from_workspace 2%nat abc_ws_state = Ret s' ∧
        is_list (heap s') (head s') [1%nat; 3%nat].
Proof.
  destruct (remove_from_workspace_unlinks abc_ws_state [] [3%nat]
              1%nat 2%nat) as (s' & H1 & H2 & _).
  - exact abc_ws_state_list.
  - exists s'. split; [exact H1|exact H2].
Defined.

Lemma move_down_reorders_witness :
  ∃ s', move_down (cfg:=cfg0) abc_ws_state = Ret s' ∧
        is_list (heap s') (head s') [1%nat; 3%nat; 2%nat] ∧
        current s' = 2%nat.
Proof.
  destruct (move_down_reorders (cfg:=cfg0) abc_ws_state
              [1%nat; 2%nat; 3%nat]) as (s' & H1 & H2 & H3 & _).
  - exact abc_ws_state_store.
  - exact abc_ws_state_list.
  - check_elem.
  - intros _ a _. by apply zoom_can_arrange.
  - exists s'. split; [exact H1|]. split; [exact H2|exact H3].
Defined.

Lemma move_up_reorders_witness :
  ∃ s', move_up (cfg:=cfg0) abc_ws_state = Ret s' ∧
        is_list (heap s') (head s') [2%nat; 1%nat; 3%nat] ∧
        current s' = 2%nat.
Proof.
  destruct (move_up_reorders (cfg:=cfg0) abc_ws_state
              [1%nat; 2%nat; 3%nat]) as (s' & H1 & H2 & H3 & _).
  - exact abc_ws_state_store.
  - exact abc_ws_state_list.
  - check_elem.
  - intros _ a _. by apply zoom_can_arrange.
  - exists s'. split; [exact H1|]. split; [exact H2|exact H3].
Defined.

Lemma move_down_up_round_trip_witness :
  ∃ s1 s2, move_down (cfg:=cfg0) abc_ws_state = Ret s1 ∧
           move_up (cfg:=cfg0) s1 = Ret s2 ∧
           is_list (heap s2) (head s2) [1%nat; 2%nat; 3%nat].
Proof.
  destruct (move_down_up_round_trip (cfg:=cfg0) abc_ws_state
              [1%nat; 2%nat; 3%nat]) as [(s1 & s2 & H1 & H2 & H3 & _) _].
  - exact abc_ws_state_store.
  - exact abc_ws_state_list.
  - check_elem.
  - intros a _. by apply zoom_can_arrange.
  - exists s1, s2. split; [exact H1|]. split; [exact H2|exact H3].
Defined.

(** ** Creating and focusing a client *)

Lemma client_from_window_appends_witness :
  ∃ s', client_from_window 104 4%nat abc_ws_state = Ret (s', 4%nat) ∧
        is_list (heap s') (head s') [1%nat; 2%nat; 3%nat; 4%nat] ∧
        out s' = [ChangeEventMask 104].
Proof.
  destruct (client_from_window_appends (cfg:=cfg0) abc_ws_state
              [1%nat; 2%nat; 3%nat] 104 4%nat)
    as [(s' & H1 & H2 & _ & _ & _ & H3 & _) _].
  - exact abc_ws_state_store.
  - exact abc_ws_state_list.
  - discriminate.
  - reflexivity.
  - exists s'. split; [exact H1|]. split; [exact H2|exact H3].
Defined.

Lemma update_focused_client_focuses_witness :
  ∃ s', update_focused_client (cfg:=cfg0) 3%nat abc_ws_state = Ret s' ∧
        current s' = 3%nat ∧ prev_foc s' = 2%nat.
Proof.
  destruct (update_focused_client_focuses (cfg:=cfg0) abc_ws_state
              [1%nat; 2%nat; 3%nat] 3%nat)
    as (s' & H1 & H2 & _ & _ & H3).
  - check_ws_ok.
  - exact (store_ok_lists_end _ abc_ws_state_store).
  - vm_compute. reflexivity.
  - exact abc_ws_state_list.
  - intros _. split; [vm_compute; split; congruence|].
    intros [H|H]; vm_compute in H; congruence.
  - check_elem.
  - exists s'. split; [exact H1|]. split; [exact H2|].
    apply H3; vm_compute; congruence.
Defined.

Lemma map_request_adds_client_witness :
  ∃ s' ca,
    map_request_event (cfg:=cfg0) 104 (Some false) 7 4%nat abc_ws_state
    = Ret s' ∧
    is_list (heap s') (head s') [1%nat; 2%nat; 3%nat; 4%nat] ∧
    current s' = 4%nat ∧
    heap s' !! 4%nat = Some ca ∧ win ca = 104 ∧ is_floating ca = true ∧
    ∃ o1 o2, out s' = ChangeEventMask 104 :: o1 ++ MapWindow 104 :: o2 ∧
             quiet o1 ∧ quiet o2.
Proof.
  destruct (map_request_adds_client (cfg:=cfg0) abc_ws_state
              [[1%nat; 2%nat; 3%nat]; []; []; []; []]
              [1%nat; 2%nat; 3%nat] 104 7 4%nat)
    as (s' & ca & H1 & H2 & H3 & H4 & H5 & _ & H6 & _ & _ & _ & H7 & _).
  - exact abc_ws_state_store.
  - exact abc_ws_state_lists.
  - exact abc_ws_state_list.
  - intros x Hx. list_cases Hx; vm_compute; congruence.
  - discriminate.
  - reflexivity.
  - vm_compute. reflexivity.
  - intros _. by apply zoom_can_arrange.
  - exists s', ca. split; [exact H1|]. split; [exact H2|].
    split; [exact H3|]. split; [exact H4|]. split; [exact H5|].
    split; [exact H6|exact H7].
Defined.

(** ** Destroy notifications and the pointer *)

Lemma destroy_removes_client_witness :
  ∃ s', destroy_event (cfg:=cfg0) 102 abc_ws_state = Ret s' ∧
        is_list (heap s') (head s') [1%nat; 3%nat] ∧
        heap s' !! 2%nat = None.
Proof.
  destruct (destroy_removes_client (cfg:=cfg0) abc_ws_state
              [1%nat] [3%nat] 2%nat
              (set_win 102 (set_next 3%nat zero_client)))
    as (s' & H1 & H2 & H3 & _).
  - exact abc_ws_state_store.
  - exact abc_ws_state_list.
  - reflexivity.
  - intros x cx Hx Hw.
    exact (abc_ws_state_windows x cx 2%nat _ Hx eq_refl Hw).
  - vm_compute. reflexivity.
  - check_elem.
  - right. check_elem.
  - intros E. discriminate E.
  - intros _ a _. by apply zoom_can_arrange.
  - exists s'. split; [exact H1|]. split; [exact H2|exact H3].
Defined.

Lemma destroy_moves_focus_witness :
  ∃ s', destroy_event (cfg:=cfg0) 102 abc_ws_state = Ret s' ∧
        current s' = 1%nat.
Proof.
  destruct (destroy_moves_focus (cfg:=cfg0) abc_ws_state
              [1%nat] [3%nat] 2%nat
              (set_win 102 (set_next 3%nat zero_client)))
    as (s' & H1 & _ & H2 & _).
  - exact abc_ws_state_store.
  - exact abc_ws_state_list.
  - reflexivity.
  - intros x cx Hx Hw.
    exact (abc_ws_state_windows x cx 2%nat _ Hx eq_refl Hw).
  - vm_compute. reflexivity.
  - check_elem.
  - right. check_elem.
  - intros E. discriminate E.
  - intros _ a _. by apply zoom_can_arrange.
  - exists s'. split; [exact H1|].
    apply H2; [reflexivity|discriminate|discriminate].
Defined.

Lemma destroy_unfocused_sends_report_only_witness :
  ∃ s' o, destroy_event (cfg:=cfg0) 102 abc_ws1_state = Ret s' ∧
          out s' = o ∧ Forall (λ x, is_report x = true) o ∧
          heap s' !! 2%nat = None.
Proof.
  destruct (destroy_unfocused_sends_report_only (cfg:=cfg0) abc_ws1_state
              [1%nat] [3%nat] 2%nat
              (set_win 102 (set_next 3%nat zero_client)))
    as (s' & o & H1 & H2 & H3 & H4).
  - exact abc_ws1_state_store.
  - exact abc_ws1_state_list.
  - reflexivity.
  - intros x cx Hx Hw.
    exact (abc_ws1_state_windows x cx 2%nat _ Hx eq_refl Hw).
  - vm_compute. reflexivity.
  - check_elem.
  - right. check_elem.
  - vm_compute. congruence.
  - vm_compute. congruence.
  - simpl. lia.
  - exists s', o. split; [exact H1|]. split; [exact H2|].
    split; [exact H3|exact H4].
Defined.

Lemma enter_focuses_client_witness :
  ∃ s', enter_event (cfg:=cfg0) 103 abc_ws_state = Ret s' ∧
        current s' = 3%nat ∧ prev_foc s' = 2%nat.
Proof.
  destruct (enter_focuses_client (cfg:=cfg0) abc_ws_state
              [1%nat; 2%nat; 3%nat] 3%nat (set_win 103 zero_client))
    as [H _].
  - exact abc_ws_state_store.
  - exact abc_ws_state_list.
  - check_elem.
  - reflexivity.
  - intros x cx Hx Hw.
    exact (abc_ws_state_windows x cx 3%nat _ Hx eq_refl Hw).
  - vm_compute. reflexivity.
  - intros _. by apply zoom_can_arrange.
  - destruct (H eq_refl) as (s' & H1 & H2 & _ & _ & _ & _ & H3 & _).
    exists s'. split; [exact H1|]. split; [exact H2|].
    apply H3; vm_compute; congruence.
Defined.

(** ** Layouts that place windows, and layouts that do not *)

Lemma grid_and_fibonacci_place_nothing_witness :
  ∃ s' o, arrange_windows (cfg:=cfg0) (set_layout GRID ZOOM abc_ws_state)
          = Ret s' ∧
          out s' = o ∧ Forall (λ x, is_report x = true) o ∧
          length o = 5%nat.
Proof.
  destruct (grid_and_fibonacci_place_nothing (cfg:=cfg0)
              (set_layout GRID ZOOM abc_ws_state)
              [[1%nat; 2%nat; 3%nat]; []; []; []; []]
              [1%nat; 2%nat; 3%nat])
    as (s' & o & H1 & H2 & H3 & H4 & _).
  - check_ws_ok.
  - check_lists.
  - check_lseg.
  - simpl. lia.
  - by left.
  - exists s', o. split; [exact H1|]. split; [exact H2|].
    split; [exact H3|exact H4].
Defined.

